(* ===== verification/_CoqProject ===== *)
-Q . S2P
Prelude.v
Types.v
Addrs.v
RaftLog.v
Node.v
Election.v
Replication.v
Handlers.v
Cluster.v
History.v
Invariant.v
Frame.v
ElectionSteps.v
ElectionEvents.v
LeaderSteps.v
FollowerSteps.v
Safety.v
Scenario.v
Monotone.v
Applier.v
Agreement.v
Spec.v
CatchUp.v
Progress.v
Availability.v
Recovery.v
Deploy.v
Restart.v
Loops.v
Goroutines.v
ApplyLoop.v
Notifier.v
Strconv.v
Hub.v
Pumps.v
Http.v
Codec.v
ReplicaServer.v
Wire.v
RpcClient.v
Tracker.v
GatewayHandler.v
Recorder.v
Delivery.v
Replay.v
Board.v
Startup.v
Process.v
