(* ===== verification/Prelude.v ===== *)
(** * smolRAFT: a verification development

    smolRAFT is a collaborative drawing board: browsers send strokes to a
    gateway over WebSockets, the gateway forwards them to the leader of a Raft
    cluster of replicas, the replicas agree on a log of strokes, and committed
    strokes come back through the gateway to every browser.  This library
    models its Go code, function by function, and proves what the code is
    correct in doing.

    ** The program and the files that model it

    - [src/types]: the wire types.  Types; their struct tags, as JSON, Codec.
    - [src/replica/internal/raft]: the protocol.
      [log.go] is RaftLog (Module Log, the struct is [Log.t]);
      [node.go] is Node (the struct, its role changes, the commit applier);
      [election.go] is Election; [replication.go] is Replication;
      [rpc.go] is RpcClient (the interface as the class [RPCClient], the HTTP
      client as its instance).  The goroutines that [Start] and a won election
      launch, with the selects they wait in, are Loops; Goroutines is the
      cluster of them.
    - [src/replica/internal/server]: the HTTP endpoints of a replica.
      ReplicaServer, on the requests, responses and JSON bodies of Http.
    - [src/replica/cmd/main.go]: [runCommitNotifier] is Notifier,
      [splitAddrs] is in Addrs; [main] is Deploy up to the running node, and
      Process from there to its exit, with [Start] and [Shutdown] of
      [server.go].
    - [src/gateway/internal/leader/tracker.go]: leader discovery.  Tracker.
    - [src/gateway/internal/gateway]: [hub.go] is Hub, with the goroutines of
      [handler.go] that share its channels; Pumps is one connection, with the
      two pumps step by step, and its deadlines, Replay adds the goroutine of
      [replayHistory] to it; the other handlers of [handler.go] and the routes
      of [server.go] are GatewayHandler, the request log of [server.go] is
      Recorder.
    - [src/gateway/cmd/main.go]: [splitAddrs] is in Addrs, [main] in Startup
      and Process.
    - [src/docker-compose.yml]: the services [compose_replicas] of Deploy, their
      deployment [compose], and [compose_gateway] of Startup.
    - Go's [int] conversions ([strconv]) are Strconv; slices, channels, panics
      and machine integers are in this file.

    ** How the code is modelled

    A critical section under [n.mu] is one function on the state.  A method
    that releases the lock is split where it does: [startElection] into the
    candidate's promotion, one step per vote response and the tally;
    [sendAppendEntries] into the request and the handling of its response.
    Cluster puts these functions together: its state is the replicas, the
    elections in progress and all messages ever sent, its events are timeouts,
    deliveries, failed calls, tallies, strokes, sends, passes of the applier
    and receives of the notifier.  A pass of the applier is coarser here than
    in the code; ApplyLoop has its single steps, interleaved with everything
    else.  A message stays deliverable for ever, so loss, delay, duplication
    and reordering are all traces.  A panic is a
    value ([result]); a send on a closed channel is one.  A network is a
    parameter: the HTTP client's [Do] is any function on any world, and JSON
    is any encoding that reads back what it wrote (the class [Json]).  Codec is
    the encoding of the struct tags, over JSON trees; how [strconv] prints a
    [float64] is its parameter ([JsonText]), with the law that a printed number
    reads back.  Http.Tagged is a simpler instance for the witnesses.  Where a
    theorem needs a network that delivers, RpcClient defines it from the
    servers' own handlers.

    [int] is 64 bits: arithmetic on terms wraps ([wrap64]).  Lengths and
    indexes of slices cannot reach the bound and are plain.

    ** What is proved

    One replica, any input.  RaftLog: [AppendEntries] is a reference
    reconciliation and never changes a committed entry.  Handlers: the outcome
    of each request on every branch, the commit rule, who wins an election.
    Monotone: no operation takes back a term or a committed entry.  Applier
    and ApplyLoop: what the commit channel holds, for a pass of the applier
    and for its single steps interleaved with everything else.

    The cluster.  History, Invariant, Frame and the four Steps files carry the
    inductive invariant; Safety proves that every run keeps it.  Agreement
    draws from it Raft's safety properties, the well-formedness of every
    replica's state, the absence of panics and the agreement of what replicas
    deliver.  Spec is the abstract service - one
    log that only grows by submitted strokes - and the refinement of it by
    every run.  CatchUp: a leader repairs any follower in a bounded number of
    exchanges.  Progress: from any reachable state a leader that a majority
    can follow can commit.  Availability: a replica that a majority may vote
    for can be elected and then commit.  Recovery: from every reachable state
    some replica that holds everything committed can be brought to lead and to
    put it on all the others.  Loops: a leader always runs the loops that do
    its sending, and a replica's goroutines do bounded work and can all be
    stopped.  Goroutines: the cluster of goroutines refines Cluster, so the
    theorems on its runs hold with every interleaving of them.  Restart: a follower that
    comes back empty is repaired in two exchanges.  Wire: every message of every run survives its JSON encoding.
    Notifier: what is announced to the gateway is committed, and each replica
    announces in order; Scenario and the witnesses hold the concrete runs.

    The services around it.  RpcClient: a remote call is the peer's handler.
    ReplicaServer: what an HTTP request can change.  Tracker: a poll finds a
    leader that says it leads.  Hub: no event of the hub panics, broadcasts
    reach exactly the clients with room, each client reads in order.  Pumps:
    the frames of a connection are its messages, a broken connection leaves no
    goroutine behind, and a client is timed out exactly when no pong is read
    for a minute.
    Recorder: the request log is transparent and, upgrades aside, true.
    Deploy and Startup: a compose file whose services list each other starts
    the initial state of a well-formed deployment, the assumption of the
    theorems on runs; docker-compose.yml is one.  Process: a service exits with
    code 0 only after the steps of its shutdown, in order, up to a call of
    [Shutdown] that may not have returned.  Delivery: a stroke forwarded over a
    network that delivers is appended exactly once.  Replay: a new client is
    sent the committed strokes in order, until its channel is full.

    The whole board.  Board joins cluster, notifiers, hub and handlers: what a
    browser is ever shown, in the program's own JSON, is an error or a stroke
    that a leader accepted and that has its place in the agreed log.

    What the code does not do is proved too, each with the shortest run that
    shows it: a second vote in a term after a candidate met its leader
    ([candidate_forgets_vote]), an applier blocked for ever
    ([applier_can_get_stuck]), a commit through the heartbeat endpoint that no
    check covers ([heartbeat_commits_unverified]), commits announced twice or
    never ([duplicate_announcement], [missed_announcement]), a stale leader in
    the tracker ([poll_ignores_terms]), a stroke appended twice after a lost
    reply ([forward_can_duplicate]), a send on a closed client channel
    ([send_after_close]), the wrap of a term ([becomeCandidate_overflow]), two
    heartbeat loops in one replica ([double_heartbeat]), a shutdown that cuts
    requests off ([shutdown_cuts_requests]), an empty body taken for a stroke
    ([stroke_bodies]), and what a restart from memory breaks: a second leader
    of a term ([restart_two_leaders]) and a committed stroke lost
    ([restart_loses_committed], [restarts_lose_committed]).

    ** Bounds and fuel

    The theorems on runs ask for at most 2^63 - 1 events ([short]): a term
    grows by one per event at most, so none of them wraps.  [advance_loop]
    has one unit of fuel per index left below the last, [apply_loop] one per
    index left below the commit index; both are the number of iterations of
    the Go loop, whose bounds the bodies do not change ([advance_loop_eq],
    [apply_loop_spec]).  [trim_start], [digits] and [to_valid] have one per
    byte or digit.

    ** What is not modelled

    Log lines, response headers, the text of a JSON document (its bytes,
    white space and escapes: [encoding/json] is modelled on trees), the
    WebSocket handshake and framing (the gorilla library's), and the browser's
    JavaScript, except for how it reads a message (Codec.read_message).  Time,
    outside Pumps' deadlines: a timeout, a tick and a deadline are events that
    can happen at any moment.  The runs of Cluster are those of replicas that
    do not restart: the code stores nothing, and Restart shows that the
    theorems on runs are false with restarts.

    ** What could come next

    Liveness under a fair schedule, with Loops in place of Cluster's free
    sends; how many restarts a cluster of a given size tolerates; the order in
    which a browser sees the strokes of different leaders, and the browser's
    own state (undo, redo, replay); JSON as text. *)

From Stdlib Require Import ZArith Lia.
From stdpp Require Import base tactics list strings gmap.

(** ** Scope and tactics *)

Declare Scope go_scope.
Delimit Scope go_scope with go.

Create HintDb go.
Create Rewrite HintDb go_len.

(** ** Machine integers

    Go's [int] is 64 bits wide on the platforms the Dockerfiles build for.
    An [int] is a [Z]; an operation that can leave the range wraps with
    [wrap64], as Go's two's complement arithmetic does. *)

Abbreviation int := Z (only parsing).

Definition two64 : Z := 18446744073709551616.
Definition MaxInt64 : Z := 9223372036854775807.
Definition MinInt64 : Z := -9223372036854775808.

Definition wrap64 (z : Z) : int := (z - MinInt64) mod two64 + MinInt64.

(** ** Results that may panic

    A Go function that panics stops at the panic with the state it has
    reached: the state is returned beside the result, never inside it. *)

Inductive panic : Type :=
| IndexOutOfRange
| SendOnClosedChannel
| CloseOfClosedChannel
| PanicMsg (msg : string).

Inductive result (A : Type) : Type :=
| Ok (a : A)
| Panicked (p : panic).
Arguments Ok {A} _.
Arguments Panicked {A} _.

#[export] Instance panic_eq_dec : EqDecision panic.
Proof. solve_decision. Defined.
#[export] Instance result_eq_dec {A} `{EqDecision A} : EqDecision (result A).
Proof. solve_decision. Defined.

(** ** Slices: [len], indexing and reslicing *)

Definition len {A} (l : list A) : int := Z.of_nat (length l).

(** [l[i]]: [None] is the run-time panic of an index out of range. *)
Definition index {A} (l : list A) (i : int) : option A :=
  if bool_decide (0 <= i)%Z then l !! Z.to_nat i else None.

(** [l[:i]] for [0 <= i <= len l]. *)
Definition slice_to {A} (l : list A) (i : int) : list A := take (Z.to_nat i) l.

(** [l[i:]] for [0 <= i <= len l]. *)
Definition slice_from {A} (l : list A) (i : int) : list A := drop (Z.to_nat i) l.

Notation "l .[ i ]" := (index l i) (at level 1, left associativity, format "l .[ i ]") : go_scope.

(** ** Buffered channels *)

Record chan (A : Type) : Type := Chan {
  ch_buf : list A;
  ch_cap : nat;
  ch_closed : bool;
}.
Arguments Chan {A} _ _ _.
Arguments ch_buf {A} _.
Arguments ch_cap {A} _.
Arguments ch_closed {A} _.

Definition make_chan (A : Type) (cap : nat) : chan A := Chan [] cap false.

(** A channel that no code closes is its buffer alone: [offer cap buf x] is
    the send of a [select] with a [default], [true] when it happened. *)
Definition offer {A} (cap : nat) (buf : list A) (x : A) : list A * bool :=
  if bool_decide (length buf < cap) then (buf ++ [x], true) else (buf, false).

(** [select { case ch <- x: ... default: ... }]: [Ok (ch', true)] when the
    send happened, [Ok (ch, false)] when the default branch ran. *)
Definition try_send {A} (ch : chan A) (x : A) : result (chan A * bool) :=
  if ch_closed ch then Panicked SendOnClosedChannel
  else let '(buf, sent) := offer (ch_cap ch) (ch_buf ch) x in
       Ok (Chan buf (ch_cap ch) false, sent).

(** A receive that finds something ready: a buffered value, or the closed
    channel ([None]).  [None] of the outer option: the receive blocks. *)
Definition recv {A} (ch : chan A) : option (option A * chan A) :=
  match ch_buf ch with
  | x :: rest => Some (Some x, Chan rest (ch_cap ch) (ch_closed ch))
  | [] => if ch_closed ch then Some (None, ch) else None
  end.

Definition close_chan {A} (ch : chan A) : result (chan A) :=
  if ch_closed ch then Panicked CloseOfClosedChannel
  else Ok (Chan (ch_buf ch) (ch_cap ch) true).

(** ** Lemmas: integers *)

Section integers.
Open Scope Z_scope.

Lemma wrap64_small (z : Z) : MinInt64 <= z <= MaxInt64 -> wrap64 z = z.
Proof. unfold wrap64, MinInt64, MaxInt64, two64. intros. rewrite Z.mod_small; lia. Qed.

Lemma wrap64_range (z : Z) : MinInt64 <= wrap64 z <= MaxInt64.
Proof.
  unfold wrap64, MinInt64, MaxInt64, two64.
  pose proof (Z.mod_pos_bound (z - -9223372036854775808) 18446744073709551616). lia.
Qed.

Lemma wrap64_succ_max : wrap64 (MaxInt64 + 1) = MinInt64.
Proof. reflexivity. Qed.
End integers.

(** ** Lemmas: slices *)

Section slices.
Context {A : Type}.
Implicit Types (l k : list A) (i : Z) (n m : nat).

Lemma len_nonneg l : (0 <= len l)%Z.
Proof. unfold len; lia. Qed.

Lemma len_app l k : len (l ++ k) = (len l + len k)%Z.
Proof. unfold len; rewrite length_app; lia. Qed.

Lemma len_cons x l : len (x :: l) = (1 + len l)%Z.
Proof. unfold len; simpl; lia. Qed.

Lemma len_nil : len (@nil A) = 0%Z.
Proof. reflexivity. Qed.

Lemma index_nat l n : index l (Z.of_nat n) = l !! n.
Proof. unfold index. rewrite bool_decide_true by lia. by rewrite Nat2Z.id. Qed.

Lemma index_Some l i x :
  index l i = Some x -> (0 <= i < len l)%Z /\ l !! Z.to_nat i = Some x.
Proof.
  unfold index, len. case_bool_decide; [|done].
  intros Hl. pose proof (lookup_lt_Some _ _ _ Hl). split; [lia|done].
Qed.

Lemma index_is_Some l i : (0 <= i < len l)%Z -> is_Some (index l i).
Proof.
  unfold index, len. intros. rewrite bool_decide_true by lia.
  apply lookup_lt_is_Some_2. lia.
Qed.

Lemma index_neg l i : (i < 0)%Z -> index l i = None.
Proof. unfold index. intros. by rewrite bool_decide_false by lia. Qed.

Lemma index_ge l i : (len l <= i)%Z -> index l i = None.
Proof.
  unfold index, len. intros. case_bool_decide; [|done].
  apply lookup_ge_None. lia.
Qed.

(** Two lists agree on their first [S n] elements. *)
Definition agree_upto n l k : Prop := take (S n) l = take (S n) k.

Lemma agree_upto_lookup n m l k : agree_upto n l k -> m <= n -> l !! m = k !! m.
Proof.
  unfold agree_upto. intros H ?.
  rewrite <- (lookup_take_lt l (S n) m), <- (lookup_take_lt k (S n) m) by lia. by rewrite H.
Qed.

Lemma agree_upto_intro n l k : (forall m, m <= n -> l !! m = k !! m) -> agree_upto n l k.
Proof.
  intros H. apply list_eq. intros i. destruct (decide (i < S n)).
  - rewrite !lookup_take_lt by lia. apply H. lia.
  - by rewrite !lookup_take_ge by lia.
Qed.

Lemma agree_upto_le n m l k : agree_upto n l k -> m <= n -> agree_upto m l k.
Proof. intros H ?. apply agree_upto_intro. intros. eapply agree_upto_lookup; [done|lia]. Qed.

#[global] Instance agree_upto_equiv n : Equivalence (agree_upto n).
Proof.
  split; unfold agree_upto.
  - by intros ?.
  - by intros ?? ->.
  - by intros ??? -> ->.
Qed.

Lemma agree_upto_app n l k : n < length l -> agree_upto n l (l ++ k).
Proof. intros. apply agree_upto_intro. intros. by rewrite lookup_app_l by lia. Qed.

Lemma agree_upto_prefix n l k : n < length l -> l `prefix_of` k -> agree_upto n l k.
Proof. intros ? [z ->]. by apply agree_upto_app. Qed.

Lemma agree_upto_take n m l : n < m -> agree_upto n (take m l) l.
Proof. intros. apply agree_upto_intro. intros. by rewrite lookup_take_lt by lia. Qed.

Lemma agree_upto_length n l k : agree_upto n l k -> n < length l -> n < length k.
Proof.
  intros H Hl. apply lookup_lt_is_Some. rewrite <- (agree_upto_lookup n n l k H) by lia.
  by apply lookup_lt_is_Some.
Qed.
End slices.

#[export] Hint Resolve agree_upto_app agree_upto_prefix agree_upto_take : go.
#[export] Hint Rewrite @len_app @len_cons @len_nil @length_app @length_take @length_drop : go_len.

(** [go_len]: arithmetic on lengths and slice lengths. *)
Ltac go_len := autorewrite with go_len in *; unfold len in *; simpl in *; lia.

(** Destruct the [if]s and [match]es on decisions and keep their meaning. *)
Ltac case_if :=
  repeat first
    [ progress case_bool_decide
    | progress case_decide
    | match goal with
      | |- context [if (?a <? ?b)%Z then _ else _] => destruct (Z.ltb_spec a b)
      | |- context [if (?a <=? ?b)%Z then _ else _] => destruct (Z.leb_spec a b)
      | |- context [if (?a =? ?b)%Z then _ else _] => destruct (Z.eqb_spec a b)
      end ].

(** ** Lemmas: lists *)

Lemma filter_ext_elem {A} (P Q : A -> Prop) `{forall x, Decision (P x)} `{forall x, Decision (Q x)} (l : list A) :
  (forall x, x ∈ l -> P x <-> Q x) -> filter P l = filter Q l.
Proof.
  induction l as [|x l IH]; intros HPQ; [done|]. rewrite !filter_cons.
  rewrite IH by (intros y ?; apply HPQ; by constructor).
  pose proof (HPQ x ltac:(by constructor)). repeat case_decide; tauto.
Qed.

(** ** Lemmas: channels *)

Section channels.
Context {A : Type}.
Implicit Types (ch : chan A) (x : A).

Definition chan_ok ch : Prop := length (ch_buf ch) <= ch_cap ch.

Lemma try_send_ok ch ch' x b : chan_ok ch -> try_send ch x = Ok (ch', b) -> chan_ok ch'.
Proof.
  unfold try_send, chan_ok, offer. destruct (ch_closed ch); [done|]. case_bool_decide; intros.
  - simplify_eq; simpl. rewrite length_app; simpl; lia.
  - by simplify_eq.
Qed.

Lemma recv_ok ch ch' (x : option A) : chan_ok ch -> recv ch = Some (x, ch') -> chan_ok ch'.
Proof.
  unfold recv, chan_ok. destruct (ch_buf ch) eqn:E; simpl; intros.
  - destruct (ch_closed ch); simplify_eq. by rewrite E.
  - simplify_eq; simpl. lia.
Qed.

Lemma try_send_open ch x : ch_closed ch = false -> exists r, try_send ch x = Ok r.
Proof. unfold try_send, offer. intros ->. case_bool_decide; eauto. Qed.
End channels.

(** ** Lemmas: quorums

    A majority of a set of [N] members has at least [N / 2 + 1] of them: two
    majorities intersect. *)

Section quorums.
Context `{Countable A}.
Implicit Types (M Q : gset A).

Definition is_quorum M Q : Prop := Q ⊆ M /\ size M / 2 + 1 <= size Q.

Lemma quorum_disjoint M Q1 Q2 :
  is_quorum M Q1 -> is_quorum M Q2 -> Q1 ## Q2 -> False.
Proof.
  intros [Hs1 H1] [Hs2 H2] Hd.
  assert (size (Q1 ∪ Q2) <= size M) by (apply subseteq_size; set_solver).
  rewrite size_union in * by done.
  pose proof (Nat.div_mod_eq (size M) 2). pose proof (Nat.mod_upper_bound (size M) 2). lia.
Qed.

Lemma quorum_intersect M Q1 Q2 :
  is_quorum M Q1 -> is_quorum M Q2 -> exists w, w ∈ Q1 /\ w ∈ Q2.
Proof.
  intros H1 H2. destruct (decide (Q1 ∩ Q2 = ∅)) as [He|Hne].
  - exfalso. apply (quorum_disjoint M Q1 Q2); [done..|set_solver].
  - apply set_choose_L in Hne as [w ?]. exists w. set_solver.
Qed.

Lemma quorum_member M Q w : is_quorum M Q -> w ∈ Q -> w ∈ M.
Proof. intros [? _]. set_solver. Qed.
End quorums.
