(* ===== verification/Types.v ===== *)
(** * Types: the wire types of [types/types.go]

    One record per struct, one field per field, in the source's order.  A
    [float64] is never computed with by the services, so it is carried as its
    IEEE-754 bit pattern.  [NodeState] is a Go string type with three named
    constants and stays a string here: the gateway decodes it from JSON. *)

From Stdlib Require Import ZArith.
From stdpp Require Import base strings list.
From S2P Require Import Prelude.
Open Scope Z_scope.

Abbreviation float64 := Z (only parsing).

Definition NodeState : Type := string.
Definition Follower : NodeState := "FOLLOWER".
Definition Candidate : NodeState := "CANDIDATE".
Definition Leader : NodeState := "LEADER".

Record Point : Type := mkPoint { pt_X : float64; pt_Y : float64 }.

Record StrokeEvent : Type := mkStrokeEvent {
  se_ID : string;
  se_Type : string;
  se_TargetID : string;
  se_Points : list Point;
  se_Color : string;
  se_Width : float64;
  se_UserID : string;
}.

Record LogEntry : Type := mkLogEntry {
  le_Index : int;
  le_Term : int;
  le_Stroke : StrokeEvent;
}.

Record VoteRequest : Type := mkVoteRequest {
  vreq_Term : int;
  vreq_CandidateID : string;
  vreq_LastLogIndex : int;
  vreq_LastLogTerm : int;
}.

Record VoteResponse : Type := mkVoteResponse {
  vresp_Term : int;
  vresp_VoteGranted : bool;
}.

Record AppendEntriesRequest : Type := mkAppendEntriesRequest {
  areq_Term : int;
  areq_LeaderID : string;
  areq_PrevLogIndex : int;
  areq_PrevLogTerm : int;
  areq_Entries : list LogEntry;
  areq_LeaderCommit : int;
}.

Record AppendEntriesResponse : Type := mkAppendEntriesResponse {
  aresp_Term : int;
  aresp_Success : bool;
  aresp_ConflictIndex : int;
}.

Record StatusResponse : Type := mkStatusResponse {
  st_NodeID : string;
  st_State : NodeState;
  st_Term : int;
  st_LogLength : int;
  st_CommitIndex : int;
  st_LeaderID : string;
}.

Record CommitNotification : Type := mkCommitNotification {
  cn_Stroke : StrokeEvent;
  cn_Index : int;
  cn_Term : int;
}.

(** The dynamic types the services put in [WSMessage.Payload]. *)
Inductive Payload : Type :=
| PayloadStroke (s : StrokeEvent)
| PayloadStrings (m : list (string * string)).

Record WSMessage : Type := mkWSMessage {
  ws_Type : string;
  ws_Payload : Payload;
}.

(** Go's zero values [StrokeEvent{}] and [LogEntry{}]. *)
Definition zeroStroke : StrokeEvent :=
  mkStrokeEvent EmptyString EmptyString EmptyString [] EmptyString 0 EmptyString.
Definition zeroEntry : LogEntry := mkLogEntry 0 0 zeroStroke.

(** ** Decidable equality *)

#[export] Instance Point_eq_dec : EqDecision Point.
Proof. solve_decision. Defined.
#[export] Instance StrokeEvent_eq_dec : EqDecision StrokeEvent.
Proof. solve_decision. Defined.
#[export] Instance LogEntry_eq_dec : EqDecision LogEntry.
Proof. solve_decision. Defined.
#[export] Instance VoteRequest_eq_dec : EqDecision VoteRequest.
Proof. solve_decision. Defined.
#[export] Instance VoteResponse_eq_dec : EqDecision VoteResponse.
Proof. solve_decision. Defined.
#[export] Instance AppendEntriesRequest_eq_dec : EqDecision AppendEntriesRequest.
Proof. solve_decision. Defined.
#[export] Instance AppendEntriesResponse_eq_dec : EqDecision AppendEntriesResponse.
Proof. solve_decision. Defined.
#[export] Instance StatusResponse_eq_dec : EqDecision StatusResponse.
Proof. solve_decision. Defined.
#[export] Instance CommitNotification_eq_dec : EqDecision CommitNotification.
Proof. solve_decision. Defined.
#[export] Instance Payload_eq_dec : EqDecision Payload.
Proof. solve_decision. Defined.
#[export] Instance WSMessage_eq_dec : EqDecision WSMessage.
Proof. solve_decision. Defined.
