(* ===== verification/Addrs.v ===== *)
(** * Addrs: address lists of [replica/cmd/main.go] and [gateway/cmd/main.go]

    Both services read a comma-separated list of addresses from the
    environment.  [split_on] and [TrimSpace] are what the code uses of Go's
    [strings] package, on the bytes of a string; white space is Unicode's, as
    its UTF-8 encodings. *)

From Stdlib Require Import ZArith Lia Ascii String.
From stdpp Require Import base list strings.
From S2P Require Import Prelude.
Open Scope list_scope.

Definition bytes : Type := list ascii.

Definition comma : ascii := "044".
Definition newline : ascii := "010".

(** ** [strings.Split] and [strings.Join] by one byte *)

Fixpoint split_on (c : ascii) (s : bytes) : list bytes :=
  match s with
  | [] => [[]]
  | x :: s =>
      if bool_decide (x = c) then [] :: split_on c s
      else match split_on c s with
      | [] => [[x]]
      | w :: ws => (x :: w) :: ws
      end
  end.

Fixpoint join_with (c : ascii) (ws : list bytes) : bytes :=
  match ws with
  | [] => []
  | [w] => w
  | w :: ws => w ++ c :: join_with c ws
  end.

(** ** [strings.TrimSpace] *)

Definition byte_of (n : nat) : ascii := ascii_of_nat n.

(** The UTF-8 encodings of the code points [unicode.IsSpace] accepts. *)
Definition spaces : list bytes :=
  map (fun n => [byte_of n]) [9; 10; 11; 12; 13; 32]%nat ++
  map (fun n => [byte_of 194; byte_of n]) [133; 160]%nat ++
  [[byte_of 225; byte_of 154; byte_of 128]] ++
  map (fun n => [byte_of 226; byte_of 128; byte_of n]) [128; 129; 130; 131; 132; 133; 134; 135; 136; 137; 138; 168; 169; 175]%nat ++
  [[byte_of 226; byte_of 129; byte_of 159]; [byte_of 227; byte_of 128; byte_of 128]].

Fixpoint strip_prefix (p s : bytes) : option bytes :=
  match p, s with
  | [], _ => Some s
  | x :: p, y :: s => if bool_decide (x = y) then strip_prefix p s else None
  | _ :: _, [] => None
  end.

(** The rest after the first pattern the string starts with. *)
Fixpoint strip_first (ps : list bytes) (s : bytes) : option bytes :=
  match ps with
  | [] => None
  | p :: ps => match strip_prefix p s with Some s' => Some s' | None => strip_first ps s end
  end.

(** [fuel] bounds the number of patterns removed; each is a byte at least. *)
Fixpoint trim_start (fuel : nat) (ps : list bytes) (s : bytes) : bytes :=
  match fuel with
  | O => s
  | S fuel => match strip_first ps s with Some s' => trim_start fuel ps s' | None => s end
  end.

Definition trim_left (s : bytes) : bytes := trim_start (length s) spaces s.
Definition trim_right (s : bytes) : bytes := rev (trim_start (length s) (map (@rev ascii) spaces) (rev s)).
Definition TrimSpace (s : bytes) : bytes := trim_right (trim_left s).

(** ** The two [splitAddrs] *)

Definition trimmed_parts (s : bytes) : list bytes :=
  filter (fun p => p <> []) (map TrimSpace (split_on comma s)).

Module Replica.

(** A nil slice and an empty one are the same list. *)
Definition splitAddrs (s : bytes) : list bytes :=
  if bool_decide (s = []) then [] else trimmed_parts s.

End Replica.

Module Gateway.

Definition splitAddrs (s : bytes) : list bytes := trimmed_parts s.

End Gateway.

(** ** Lemmas *)

Lemma strip_prefix_Some p s s' : strip_prefix p s = Some s' <-> s = p ++ s'.
Proof.
  revert s. induction p as [|x p IH]; intros s; simpl; [split; [by intros [= ->]|by intros ->]|].
  destruct s as [|y s]; [done|]. case_bool_decide as Hxy.
  - subst. rewrite IH. split; [by intros ->|by intros [= ->]].
  - split; [done|]. by intros [= -> _].
Qed.

Lemma strip_first_Some ps s s' : strip_first ps s = Some s' -> exists p, p ∈ ps /\ s = p ++ s'.
Proof.
  induction ps as [|p ps IH]; simpl; [done|].
  destruct (strip_prefix p s) as [s1|] eqn:Hp.
  - intros [= ->]. exists p. split; [by constructor|by apply strip_prefix_Some].
  - intros (q & Hq & ?)%IH. exists q. split; [by constructor|done].
Qed.

Lemma strip_first_None ps s : strip_first ps s = None <-> forall p s', p ∈ ps -> s <> p ++ s'.
Proof.
  induction ps as [|p ps IH]; simpl; [split; [by intros _ ? ? ?%elem_of_nil|done]|].
  destruct (strip_prefix p s) as [s1|] eqn:Hp.
  - apply strip_prefix_Some in Hp. split; [done|]. intros H. by destruct (H p s1); [constructor|].
  - rewrite IH. split.
    + intros H q s' [->|Hq]%elem_of_cons; [|by apply H]. intros Hs. apply strip_prefix_Some in Hs. congruence.
    + intros H q s' Hq. apply H. by constructor.
Qed.

Definition nonempty_all (ps : list bytes) : Prop := forall p, p ∈ ps -> p <> [].

Lemma trim_start_fixed ps fuel s : nonempty_all ps -> length s <= fuel ->
  strip_first ps (trim_start fuel ps s) = None.
Proof.
  intros Hps. revert s. induction fuel as [|fuel IH]; intros s Hl; simpl.
  - destruct s; [|simpl in Hl; lia]. apply strip_first_None. intros p s' Hp Heq.
    symmetry in Heq. apply app_nil in Heq as [-> _]. by apply (Hps [] Hp).
  - destruct (strip_first ps s) as [s'|] eqn:Hs; [|done]. apply IH.
    apply strip_first_Some in Hs as (p & Hp & ->). rewrite length_app in Hl.
    specialize (Hps p Hp). destruct p; [done|]. simpl in Hl. lia.
Qed.

Lemma trim_start_noop ps fuel s : strip_first ps s = None -> trim_start fuel ps s = s.
Proof. destruct fuel; simpl; [done|]. by intros ->. Qed.

Lemma trim_start_suffix ps fuel s : trim_start fuel ps s `suffix_of` s.
Proof.
  revert s. induction fuel as [|fuel IH]; intros s; simpl; [done|].
  destruct (strip_first ps s) as [s'|] eqn:Hs; [|done]. apply strip_first_Some in Hs as (p & _ & ->).
  apply suffix_app_r, IH.
Qed.

Lemma spaces_nonempty : nonempty_all spaces.
Proof.
  assert (Forall (fun p : bytes => p <> []) spaces) as H by (apply (bool_decide_unpack _); by vm_compute).
  intros p Hp. rewrite list.Forall_forall in H. by apply H.
Qed.

Lemma rev_nonempty ps : nonempty_all ps -> nonempty_all (map (@rev ascii) ps).
Proof.
  intros H p (q & -> & Hq)%list_elem_of_fmap Hz. apply (H q Hq).
  apply (f_equal (@rev ascii)) in Hz. by rewrite rev_involutive in Hz.
Qed.

(** No white space at either end. *)
Definition trimmed (s : bytes) : Prop :=
  strip_first spaces s = None /\ strip_first (map (@rev ascii) spaces) (rev s) = None.

Lemma strip_first_prefix ps s t : s `prefix_of` t -> strip_first ps t = None -> strip_first ps s = None.
Proof.
  intros [k ->] H. apply strip_first_None. intros p s' Hp ->. rewrite strip_first_None in H.
  apply (H p (s' ++ k) Hp). by rewrite app_assoc.
Qed.

Lemma trim_right_prefix s : trim_right s `prefix_of` s.
Proof.
  unfold trim_right. destruct (trim_start_suffix (map (@rev ascii) spaces) (length s) (rev s)) as [k Hk].
  exists (rev k). rewrite <- rev_app_distr, <- Hk. by rewrite rev_involutive.
Qed.

Lemma TrimSpace_trimmed s : trimmed (TrimSpace s).
Proof.
  unfold TrimSpace. split.
  - eapply strip_first_prefix; [apply trim_right_prefix|]. apply trim_start_fixed; [apply spaces_nonempty|done].
  - unfold trim_right. rewrite rev_involutive. apply trim_start_fixed.
    + apply rev_nonempty, spaces_nonempty.
    + by rewrite length_rev.
Qed.

Lemma TrimSpace_id s : trimmed s -> TrimSpace s = s.
Proof.
  intros [Hl Hr]. unfold TrimSpace, trim_left. rewrite (trim_start_noop _ _ s Hl).
  unfold trim_right. rewrite trim_start_noop by done. apply rev_involutive.
Qed.

Lemma TrimSpace_bytes s x : x ∈ TrimSpace s -> x ∈ s.
Proof.
  intros Hx. destruct (trim_right_prefix (trim_left s)) as [k Hk].
  assert (x ∈ trim_left s) as Hx' by (rewrite Hk; apply elem_of_app; by left).
  destruct (trim_start_suffix spaces (length s) s) as [j Hj]. rewrite Hj. apply elem_of_app. by right.
Qed.

Lemma split_on_nonnil c s : split_on c s <> [].
Proof. destruct s as [|x s]; simpl; [done|]. case_bool_decide; [done|]. by destruct (split_on c s). Qed.

Lemma split_on_free c s w : w ∈ split_on c s -> c ∉ w.
Proof.
  revert w. induction s as [|x s IH]; intros w; simpl.
  - intros ->%list_elem_of_singleton. apply not_elem_of_nil.
  - case_bool_decide as Hx.
    + intros [->|Hw]%elem_of_cons; [apply not_elem_of_nil|by apply IH].
    + destruct (split_on c s) as [|v vs] eqn:Hs.
      * intros ->%list_elem_of_singleton. intros ->%list_elem_of_singleton. done.
      * intros [->|Hw]%elem_of_cons; [|apply IH; by constructor].
        intros [->|Hc]%elem_of_cons; [done|]. by apply (IH v ltac:(constructor)).
Qed.

Lemma split_on_join c ws :
  ws <> [] -> Forall (fun w => c ∉ w) ws -> split_on c (join_with c ws) = ws.
Proof.
  intros Hne Hf. induction ws as [|w ws IH]; [done|]. clear Hne.
  apply list.Forall_cons in Hf as [Hw Hf].
  assert (forall s, split_on c (w ++ s) = match split_on c s with v :: vs => (w ++ v) :: vs | [] => [w] end) as Happ.
  { clear IH Hf. intros s. induction w as [|x w IHw]; simpl; [by destruct (split_on c s) eqn:Hz; [by apply split_on_nonnil in Hz|]|].
    apply not_elem_of_cons in Hw as [Hx Hw]. rewrite bool_decide_false by done. rewrite IHw by done.
    by destruct (split_on c s) eqn:Hz; [by apply split_on_nonnil in Hz|]. }
  destruct ws as [|v ws].
  - cbn [join_with]. rewrite <- (app_nil_r w) at 1. rewrite Happ. simpl. by rewrite app_nil_r.
  - cbn [join_with]. rewrite Happ. simpl. rewrite bool_decide_true by done. rewrite app_nil_r. f_equal. by apply IH.
Qed.

(** ** Properties *)

(** What the services expect of an address list. *)
Definition clean (addrs : list bytes) : Prop :=
  Forall (fun a => a <> [] /\ comma ∉ a /\ trimmed a) addrs.

Lemma trimmed_parts_clean s : clean (trimmed_parts s).
Proof.
  apply list.Forall_forall. intros a [Hne Ha]%list_elem_of_filter.
  apply list_elem_of_fmap in Ha as (w & -> & Hw). split_and!; [done| |apply TrimSpace_trimmed].
  intros Hc%TrimSpace_bytes. by eapply split_on_free.
Qed.

(** (address lists) both services read a list the same way; every address
    read is non-empty, without commas and without white space around it; and
    a list of such addresses, joined by commas, is read back exactly. *)
Theorem splitAddrs_roundtrip :
  (forall s, Replica.splitAddrs s = Gateway.splitAddrs s) /\
  (forall s, clean (Gateway.splitAddrs s)) /\
  (forall addrs, clean addrs -> Gateway.splitAddrs (join_with comma addrs) = addrs).
Proof.
  split_and!.
  - intros s. unfold Replica.splitAddrs. case_bool_decide as Hs; [|done]. subst. by vm_compute.
  - apply trimmed_parts_clean.
  - intros addrs Hc. unfold Gateway.splitAddrs, trimmed_parts. destruct addrs as [|a addrs]; [by vm_compute|].
    rewrite split_on_join; [|done|eapply Forall_impl; [exact Hc|]; by intros ? (? & ? & ?)].
    generalize (a :: addrs), Hc. clear. intros l Hc. induction l as [|x l IH]; [done|].
    apply list.Forall_cons in Hc as [(Hne & _ & Ht) Hc]. cbn [map]. rewrite TrimSpace_id by done.
    rewrite filter_cons, decide_True by done. f_equal. by apply IH.
Qed.

(** The peer list of docker-compose.yml's first replica. *)
Example splitAddrs_compose :
  map string_of_list_ascii (Replica.splitAddrs (list_ascii_of_string "replica2:9002, replica3:9003,,replica4:9004 "%string)) =
    ["replica2:9002"; "replica3:9003"; "replica4:9004"]%string.
Proof. vm_compute. reflexivity. Qed.
