(* ===== verification/RaftLog.v ===== *)
(** * RaftLog: the replicated log of [replica/internal/raft/log.go]

    [Log.t] is the struct; its mutex makes every method atomic, so a method
    is a function on the state.  [entries] holds the sentinel at index 0.
    The log is well formed ([Log.wf]) when each entry carries its own
    position; the methods keep that, and [AppendEntries] is characterised
    against the leader log its argument is cut from. *)

From Stdlib Require Import ZArith Lia.
From stdpp Require Import base list strings.
From S2P Require Import Prelude Types.
Open Scope Z_scope.

Module Log.

Record t : Type := mk { entries : list LogEntry }.

Definition NewLog : t := mk [mkLogEntry 0 0 zeroStroke].

Definition with_Index (e : LogEntry) (i : int) : LogEntry :=
  mkLogEntry i (le_Term e) (le_Stroke e).

(** [Append]: assigns the index, returns it. *)
Definition Append (l : t) (entry : LogEntry) : t * int :=
  let entry := with_Index entry (len (entries l)) in
  (mk (entries l ++ [entry]), le_Index entry).

Definition committed_truncation : panic :=
  PanicMsg "raft: attempted to truncate committed log entry".

(** [AppendEntries]: the [for] loop, one entry per step.  A panic leaves the
    log as the entries before it made it. *)
Fixpoint AppendEntries (l : t) (es : list LogEntry) (commitIndex : int) : t * result unit :=
  match es with
  | [] => (l, Ok tt)
  | entry :: rest =>
      if bool_decide (le_Index entry < len (entries l)) then
        match index (entries l) (le_Index entry) with
        | None => (l, Panicked IndexOutOfRange)
        | Some existing =>
            if bool_decide (le_Term existing = le_Term entry) then
              AppendEntries l rest commitIndex
            else if bool_decide (le_Index entry <= commitIndex) then
              (l, Panicked committed_truncation)
            else
              let l := mk (slice_to (entries l) (le_Index entry)) in
              AppendEntries (fst (Append l entry)) rest commitIndex
        end
      else AppendEntries (fst (Append l entry)) rest commitIndex
  end.

Definition GetEntry (l : t) (i : int) : LogEntry * bool :=
  if bool_decide (i < 0 \/ len (entries l) <= i) then (zeroEntry, false)
  else (default zeroEntry (index (entries l) i), true).

Definition GetFrom (l : t) (fromIndex : int) : list LogEntry :=
  if bool_decide (fromIndex < 0 \/ len (entries l) <= fromIndex) then []
  else slice_from (entries l) fromIndex.

Definition LastIndex (l : t) : int := len (entries l) - 1.

(** [LastTerm] reads [l.entries[len(l.entries)-1]]; every log has the
    sentinel, so the default is never taken ([LastTerm_lookup]). *)
Definition LastTerm (l : t) : int :=
  le_Term (default zeroEntry (index (entries l) (len (entries l) - 1))).

Definition Length (l : t) : int := len (entries l) - 1.

Definition Term (l : t) (i : int) : int :=
  if bool_decide (i < 0 \/ len (entries l) <= i) then 0
  else le_Term (default zeroEntry (index (entries l) i)).

(** ** Well-formed logs *)

(** Entry [i] carries index [i]; entry 0 is the sentinel, of term 0; every
    other entry has a positive term. *)
Definition wf (l : list LogEntry) : Prop :=
  l !! 0%nat = Some (mkLogEntry 0 0 zeroStroke) /\
  forall i e, l !! i = Some e ->
    le_Index e = Z.of_nat i /\ ((0 < i)%nat -> 0 < le_Term e).

(** Entries that carry consecutive indices, the first of them [n]: what a
    leader sends after the entry at [n - 1]. *)
Fixpoint contiguous (n : nat) (es : list LogEntry) : Prop :=
  match es with
  | [] => True
  | e :: es => le_Index e = Z.of_nat n /\ contiguous (S n) es
  end.

(** The offset of the first new entry whose term differs from the entry the
    log already holds at that position. *)
Fixpoint first_conflict (old new : list LogEntry) : option nat :=
  match old, new with
  | o :: old, e :: new =>
      if bool_decide (le_Term o = le_Term e) then S <$> first_conflict old new else Some 0%nat
  | _, _ => None
  end.

(** What a reader of the paper expects [AppendEntries] to do with entries
    that follow position [prev]: keep the log up to the first conflict,
    write the rest; refuse when the conflict is committed. *)
Definition reconcile (l : list LogEntry) (prev : nat) (es : list LogEntry) (c : int)
    : list LogEntry * result unit :=
  match first_conflict (drop (S prev) l) es with
  | Some k =>
      if bool_decide (Z.of_nat (S prev + k) <= c) then (l, Panicked committed_truncation)
      else (take (S prev + k) l ++ drop k es, Ok tt)
  | None => (l ++ drop (length l - S prev) es, Ok tt)
  end.

(** Terms never decrease along the log. *)
Definition term_sorted (l : list LogEntry) : Prop :=
  forall i j ei ej, (i <= j)%nat -> l !! i = Some ei -> l !! j = Some ej -> le_Term ei <= le_Term ej.

(** No entry is from a later term. *)
Definition terms_le (l : list LogEntry) (T : Z) : Prop :=
  forall i e, l !! i = Some e -> le_Term e <= T.

(** The term of the entry at a position, 0 past the end: [Term] on the
    entries. *)
Definition term_at (l : list LogEntry) (i : nat) : Z :=
  from_option le_Term 0 (l !! i).

(** Wherever two logs have entries of one term at one index they agree up to
    there: Raft's log matching, between two logs. *)
Definition matching (l k : list LogEntry) : Prop :=
  forall i e e', l !! i = Some e -> k !! i = Some e' -> le_Term e = le_Term e' -> agree_upto i l k.

(** ** Lemmas *)

Lemma wf_length l : wf l -> (0 < length l)%nat.
Proof. intros [H _]. by apply lookup_lt_Some in H. Qed.

Lemma wf_NewLog : wf (entries NewLog).
Proof.
  split; [done|]. intros [|i] e; simpl; [|done]. intros [= <-]; simpl. lia.
Qed.

Lemma wf_take l n : wf l -> (0 < n)%nat -> wf (take n l).
Proof.
  intros [H0 H] Hn. split.
  - by rewrite lookup_take_lt by lia.
  - intros i e Hi. apply H. by apply lookup_take_Some in Hi as [? _].
Qed.

Lemma wf_snoc l e :
  wf l -> le_Index e = len l -> 0 < le_Term e -> wf (l ++ [e]).
Proof.
  intros Hwf He Ht. pose proof (wf_length _ Hwf) as Hlen. destruct Hwf as [H0 H]. split.
  - by rewrite lookup_app_l by lia.
  - intros i e' [Hi|[Hge Hi]]%lookup_app_Some; [by apply H|].
    apply list_lookup_singleton_Some in Hi as [Hi <-]. split; [|done].
    rewrite He. unfold len. lia.
Qed.

Lemma term_sorted_take l n : term_sorted l -> term_sorted (take n l).
Proof.
  intros H i j ei ej ? [Hi _]%lookup_take_Some [Hj _]%lookup_take_Some.
  by eapply H.
Qed.

Lemma term_sorted_snoc l e : term_sorted l -> terms_le l (le_Term e) -> term_sorted (l ++ [e]).
Proof.
  intros H Hle i j ei ej Hij Hi Hj.
  apply lookup_app_Some in Hj as [Hj|[Hj1 [Hj ->]%list_lookup_singleton_Some]];
    apply lookup_app_Some in Hi as [Hi|[Hi1 [Hi ->]%list_lookup_singleton_Some]].
  - by eapply H.
  - apply lookup_lt_Some in Hj. lia.
  - by eapply Hle.
  - done.
Qed.

Lemma terms_le_mono l T T' : terms_le l T -> T <= T' -> terms_le l T'.
Proof. intros H ? i e Hi. specialize (H i e Hi). lia. Qed.

Lemma terms_le_take l n T : terms_le l T -> terms_le (take n l) T.
Proof. intros H i e [Hi _]%lookup_take_Some. by eapply H. Qed.

Lemma terms_le_snoc l e T : terms_le l T -> le_Term e <= T -> terms_le (l ++ [e]) T.
Proof.
  intros H ? i e' [Hi|[_ [_ <-]%list_lookup_singleton_Some]]%lookup_app_Some; [by eapply H|done].
Qed.

Lemma term_at_Some l i e : l !! i = Some e -> term_at l i = le_Term e.
Proof. unfold term_at. by intros ->. Qed.

Lemma Term_term_at (l : t) (i : int) : 0 <= i -> Term l i = term_at (entries l) (Z.to_nat i).
Proof.
  unfold Term, term_at, index. intros. case_bool_decide as Hc.
  - destruct Hc; [lia|]. rewrite lookup_ge_None_2; [done|]. unfold len in *. lia.
  - rewrite bool_decide_true by lia.
    destruct (lookup_lt_is_Some_2 (entries l) (Z.to_nat i)) as [e ->]; [unfold len in *; lia|done].
Qed.

Lemma GetEntry_Some (l : t) i e :
  GetEntry l i = (e, true) <-> 0 <= i /\ entries l !! Z.to_nat i = Some e.
Proof.
  unfold GetEntry, index. case_bool_decide as Hc.
  - split; [done|]. intros [? He]. apply lookup_lt_Some in He. unfold len in *. lia.
  - rewrite bool_decide_true by lia.
    destruct (lookup_lt_is_Some_2 (entries l) (Z.to_nat i)) as [e' He']; [unfold len in *; lia|].
    rewrite He'; simpl. split; [|intros [? ?]; congruence].
    intros [= ->]. split; [lia|done].
Qed.

Lemma GetEntry_None (l : t) i e :
  GetEntry l i = (e, false) -> (i < 0 \/ len (entries l) <= i) /\ e = zeroEntry.
Proof. unfold GetEntry. case_bool_decide; [|done]. by intros [= <-]. Qed.

Lemma last_lookup (l : t) :
  (0 < length (entries l))%nat ->
  exists e, entries l !! (length (entries l) - 1)%nat = Some e /\
            LastTerm l = le_Term e /\ LastIndex l = Z.of_nat (length (entries l) - 1).
Proof.
  intros. destruct (lookup_lt_is_Some_2 (entries l) (length (entries l) - 1)) as [e He]; [lia|].
  exists e. split_and!; [done| |unfold LastIndex, len; lia].
  unfold LastTerm. replace (len (entries l) - 1) with (Z.of_nat (length (entries l) - 1))
    by (unfold len; lia). by rewrite index_nat, He.
Qed.

Lemma GetFrom_drop (l : t) i :
  0 <= i -> GetFrom l i = drop (Z.to_nat i) (entries l).
Proof.
  unfold GetFrom. intros. case_bool_decide as Hc; [|done].
  symmetry. apply drop_ge. unfold len in Hc. lia.
Qed.

(** [es] is the stretch of [L] right after position [prev]. *)
Definition segment (L : list LogEntry) (prev : nat) (es : list LogEntry) : Prop :=
  forall k e, es !! k = Some e -> L !! (S prev + k)%nat = Some e.

Lemma segment_cons L prev e es :
  segment L prev (e :: es) -> L !! S prev = Some e /\ segment L (S prev) es.
Proof.
  intros H. split.
  - specialize (H 0%nat e eq_refl). by rewrite Nat.add_0_r in H.
  - intros k e' Hk. specialize (H (S k) e' Hk). by rewrite <- Nat.add_succ_comm in H.
Qed.

Lemma segment_drop L prev n : segment L prev (take n (drop (S prev) L)).
Proof. intros k e [Hk _]%lookup_take_Some. by rewrite lookup_drop in Hk. Qed.

Lemma segment_length L prev es : segment L prev es -> (prev < length L)%nat -> (prev + length es < length L)%nat.
Proof.
  intros H Hp. destruct es as [|e es] using rev_ind; [simpl; lia|].
  specialize (H (length es) e). rewrite lookup_app_r, Nat.sub_diag in H by lia.
  specialize (H eq_refl). apply lookup_lt_Some in H. rewrite length_app; simpl. lia.
Qed.

Lemma segment_mono L L' prev es : segment L prev es -> L `prefix_of` L' -> segment L' prev es.
Proof. intros H HL k e He. eapply prefix_lookup_Some; [by apply H|done]. Qed.

Lemma with_Index_id e i : le_Index e = i -> with_Index e i = e.
Proof. destruct e; simpl. by intros ->. Qed.

Lemma matching_agree l k n : agree_upto n l k -> (length l <= S n)%nat -> matching l k.
Proof.
  intros Ha Hl i e e' Hi _ _. apply lookup_lt_Some in Hi.
  eapply agree_upto_le; [done|lia].
Qed.

Lemma matching_take l n : matching (take n l) l.
Proof.
  intros i e e' Hi _ _. apply lookup_lt_Some in Hi. rewrite length_take in Hi.
  apply agree_upto_take. lia.
Qed.

(** Appending entry [S prev] of [L] to a log that is [L] up to [prev]. *)
Lemma Append_next l prev L e :
  wf L -> L !! S prev = Some e -> length (entries l) = S prev -> agree_upto prev (entries l) L ->
  entries (fst (Append l e)) = take (S (S prev)) L.
Proof.
  intros [_ HL] He Hlen Ha. destruct (HL _ _ He) as [Hi _].
  simpl. rewrite with_Index_id by (unfold len; lia).
  erewrite (take_S_r L) by done. f_equal.
  rewrite <- Ha. symmetry. apply take_ge. lia.
Qed.

(** The loop against the log the entries are cut from. *)
Lemma AppendEntries_segment es : forall l prev L c,
  wf L -> segment L prev es -> (prev < length (entries l))%nat ->
  agree_upto prev (entries l) L -> matching (entries l) L ->
  (forall i e e', Z.of_nat i <= c -> entries l !! i = Some e -> L !! i = Some e' -> le_Term e = le_Term e') ->
  exists l', AppendEntries l es c = (l', Ok tt) /\
    ((l' = l /\ agree_upto (prev + length es) (entries l) L /\
        (prev + length es < length (entries l))%nat) \/
     (entries l' = take (S (prev + length es)) L /\
        forall m, agree_upto m (entries l) L -> (m < length (entries l))%nat -> (m <= prev + length es)%nat)).
Proof.
  induction es as [|e es IH]; intros l prev L c HwfL Hseg Hprev Ha Hm Hc.
  { exists l. split; [done|]. left. rewrite Nat.add_0_r. done. }
  apply segment_cons in Hseg as [He Hseg].
  destruct (proj2 HwfL _ _ He) as [Hi _].
  replace (prev + length (e :: es))%nat with (S prev + length es)%nat by (simpl; lia).
  (* Writing entry [S prev] onto a log cut at [S prev] *)
  assert (forall l0, entries l0 = take (S prev) (entries l) -> exists l',
    AppendEntries (fst (Append l0 e)) es c = (l', Ok tt) /\
    entries l' = take (S (S prev + length es)) L) as Hwrite.
  { intros l0 Hl0. assert (entries (fst (Append l0 e)) = take (S (S prev)) L) as Hl1.
    { apply Append_next; [done..| |].
      - rewrite Hl0, length_take. lia.
      - rewrite Hl0. etransitivity; [apply agree_upto_take; lia|done]. }
    pose proof (lookup_lt_Some _ _ _ He).
    destruct (IH (fst (Append l0 e)) (S prev) L c) as (l' & Hrun & Hl'); [done..| | | | |].
    - rewrite Hl1, length_take. lia.
    - rewrite Hl1. apply agree_upto_take. lia.
    - rewrite Hl1. apply matching_take.
    - intros i e1 e2 _. rewrite Hl1. intros [H1 _]%lookup_take_Some H2. congruence.
    - exists l'. split; [done|]. destruct Hl' as [(-> & _ & Hlt)|[-> _]]; [|done].
      rewrite Hl1 in *. rewrite length_take in Hlt.
      f_equal. destruct es; [by rewrite Nat.add_0_r|]. rewrite length_cons in Hlt. lia. }
  simpl AppendEntries. case_bool_decide as Hlt.
  - rewrite Hi in Hlt. rewrite Hi, index_nat.
    destruct (lookup_lt_is_Some_2 (entries l) (S prev)) as [x Hx]; [unfold len in *; lia|].
    rewrite Hx. case_bool_decide as Ht.
    + destruct (IH l (S prev) L c) as (l' & Hrun & Hl'); [done..| | |done|done|by eauto].
      * apply lookup_lt_Some in Hx. lia.
      * by eapply Hm.
    + rewrite bool_decide_false by (intros ?; destruct Ht; by eapply Hc).
      destruct (Hwrite (mk (slice_to (entries l) (Z.of_nat (S prev))))) as (l' & Hrun & Hl').
      { unfold slice_to; simpl entries. by rewrite Nat2Z.id. }
      exists l'. split; [done|]. right. split; [done|]. intros m Hag Hml.
      destruct (decide (S prev <= m)%nat) as [Hle|]; [|lia].
      pose proof (agree_upto_lookup _ _ _ _ Hag Hle). congruence.
  - rewrite Hi in Hlt.
    destruct (Hwrite l) as (l' & Hrun & Hl').
    { symmetry. apply take_ge. unfold len in *. lia. }
    exists l'. split; [done|]. right. split; [done|]. unfold len in *. intros. lia.
Qed.

Lemma AppendEntries_tail es : forall l c,
  contiguous (length (entries l)) es -> AppendEntries l es c = (mk (entries l ++ es), Ok tt).
Proof.
  induction es as [|e es IH]; intros l c Hc; simpl.
  { rewrite app_nil_r. by destruct l. }
  destruct Hc as [Hi Hc]. rewrite bool_decide_false by (unfold len; lia).
  rewrite with_Index_id by done.
  rewrite IH; simpl; [by rewrite <- app_assoc|].
  rewrite length_app; simpl. by rewrite Nat.add_1_r.
Qed.

Lemma AppendEntries_reconcile_aux es : forall l prev c,
  contiguous (S prev) es -> (prev < length (entries l))%nat ->
  AppendEntries l es c =
    let r := reconcile (entries l) prev es c in (mk (fst r), snd r).
Proof.
  induction es as [|e es IH]; intros l prev c Hc Hp.
  { unfold reconcile. destruct (drop (S prev) (entries l)); simpl; rewrite drop_nil, app_nil_r; by destruct l. }
  destruct Hc as [Hi Hc].
  destruct (decide (S prev < length (entries l))%nat) as [Hlt|Hge].
  - destruct (lookup_lt_is_Some_2 _ _ Hlt) as [x Hx].
    simpl AppendEntries. rewrite bool_decide_true by (rewrite Hi; unfold len; lia).
    rewrite Hi, index_nat, Hx. unfold reconcile. erewrite (drop_S (entries l)) by done. simpl.
    case_bool_decide as Ht.
    + rewrite (IH l (S prev)) by done. unfold reconcile.
      destruct (first_conflict (drop (S (S prev)) (entries l)) es) as [k|]; simpl.
      * rewrite <- !Nat.add_succ_comm. done.
      * do 2 f_equal. f_equal. replace (length (entries l) - S prev)%nat with (S (length (entries l) - S (S prev))) by lia. done.
    + simpl. rewrite Nat.add_0_r. case_bool_decide; simpl; [by destruct l|].
      unfold slice_to. rewrite Nat2Z.id.
      assert (length (take (S prev) (entries l)) = S prev) as Hl by (rewrite length_take; lia).
      rewrite with_Index_id by (simpl; unfold len; rewrite Hl; lia).
      rewrite AppendEntries_tail; simpl; [by rewrite <- app_assoc|].
      rewrite length_app, Hl; simpl. by rewrite Nat.add_1_r.
  - assert (length (entries l) = S prev) as Hl by lia.
    unfold reconcile. rewrite drop_ge by lia. cbn [first_conflict].
    rewrite Hl, Nat.sub_diag. rewrite drop_0. cbn zeta; simpl fst; simpl snd.
    apply AppendEntries_tail. rewrite Hl. by split.
Qed.

Lemma AppendEntries_keeps es : forall l c l' r i,
  AppendEntries l es c = (l', r) -> Z.of_nat i <= c -> (i < length (entries l))%nat ->
  entries l' !! i = entries l !! i /\ (i < length (entries l'))%nat.
Proof.
  induction es as [|e es IH]; simpl; intros l c l' r i Hrun Hi Hlt.
  { by simplify_eq. }
  assert (forall l0, AppendEntries (fst (Append l0 e)) es c = (l', r) ->
    entries l0 !! i = entries l !! i -> (i < length (entries l0))%nat ->
    entries l' !! i = entries l !! i /\ (i < length (entries l'))%nat) as Hwrite.
  { intros l0 Hr Heq Hl0. destruct (IH _ _ _ _ i Hr) as [Hk ?]; [done|..].
    - simpl. rewrite length_app. lia.
    - split; [|done]. rewrite Hk. simpl. by rewrite lookup_app_l by lia. }
  case_bool_decide as Hc; [|by apply (Hwrite l)].
  destruct (index (entries l) (le_Index e)) as [x|] eqn:Hx; [|by simplify_eq].
  case_bool_decide; [by eapply IH|].
  case_bool_decide; [by simplify_eq|].
  eapply (Hwrite (mk (slice_to (entries l) (le_Index e)))); [done|..]; unfold slice_to; simpl; apply index_Some in Hx as [? _].
  - by rewrite lookup_take_lt by lia.
  - rewrite length_take. lia.
Qed.

(** Whatever the request holds, the entries carry their positions after the
    loop: [Index] is reassigned on every write. *)
Definition indexed (l : list LogEntry) : Prop :=
  forall i e, l !! i = Some e -> le_Index e = Z.of_nat i.

Lemma indexed_Append l e : indexed (entries l) -> indexed (entries (fst (Append l e))).
Proof.
  intros H i e' [Hi|[Hge [Hi <-]%list_lookup_singleton_Some]]%lookup_app_Some; [by apply H|].
  simpl. unfold len. lia.
Qed.

Lemma indexed_slice_to l i : indexed (entries l) -> indexed (slice_to (entries l) i).
Proof. intros H j e [Hj _]%lookup_take_Some. by apply H. Qed.

Lemma AppendEntries_indexed_aux es : forall l c,
  indexed (entries l) -> indexed (entries (fst (AppendEntries l es c))).
Proof.
  induction es as [|e es IH]; simpl; intros l c Hl; [done|].
  case_bool_decide; [|by apply IH, indexed_Append].
  destruct (index (entries l) (le_Index e)); [|done].
  case_bool_decide; [by apply IH|]. case_bool_decide; [done|].
  by apply IH, (indexed_Append (mk _)), indexed_slice_to.
Qed.

#[export] Hint Resolve indexed_Append indexed_slice_to : go.

(** ** Properties *)

(** C22: (committed entries are never overwritten) whatever entries arrive,
    contiguous or not, and whether the call returns or panics, every entry
    at or below the commit index is still in the log, unchanged. *)
Theorem AppendEntries_committed_immutable (l l' : t) (es : list LogEntry) (c : int) r (i : nat) :
  AppendEntries l es c = (l', r) -> Z.of_nat i <= c -> (i < length (entries l))%nat ->
  entries l' !! i = entries l !! i.
Proof. intros. by eapply AppendEntries_keeps. Qed.

(** C21: on the entries a leader sends, the loop is [reconcile]: it keeps the
    log up to the first entry of another term and writes the rest, and it
    panics, with the log unchanged, exactly when that entry is committed. *)
Theorem AppendEntries_is_reconcile (l : t) (prev : nat) (es : list LogEntry) (c : int) :
  contiguous (S prev) es -> (prev < length (entries l))%nat ->
  AppendEntries l es c =
    let r := reconcile (entries l) prev es c in (mk (fst r), snd r).
Proof. apply AppendEntries_reconcile_aux. Qed.

(** every write reassigns the index, so no request, however malformed,
    makes an entry carry an index that is not its position. *)
Theorem AppendEntries_indexed (l : t) (es : list LogEntry) (c : int) :
  indexed (entries l) -> indexed (entries (fst (AppendEntries l es c))).
Proof. apply AppendEntries_indexed_aux. Qed.

End Log.

Module LogWitness.
Import Log.

Definition entry (i T : Z) : LogEntry := mkLogEntry i T zeroStroke.

(** A log with an uncommitted entry of term 1 at index 2. *)
Definition log3 : t := mk [zeroEntry; entry 1 1; entry 2 1].

Lemma AppendEntries_committed_immutable_witness :
  fst (AppendEntries log3 [entry 1 2] 1) = log3 /\
  entries (fst (AppendEntries log3 [entry 2 2; entry 3 2] 1)) !! 1%nat = Some (entry 1 1).
Proof.
  split; [reflexivity|].
  rewrite (AppendEntries_committed_immutable log3 (fst (AppendEntries log3 [entry 2 2; entry 3 2] 1))
             [entry 2 2; entry 3 2] 1 (snd (AppendEntries log3 [entry 2 2; entry 3 2] 1)) 1%nat).
  - reflexivity.
  - apply surjective_pairing.
  - vm_compute. discriminate.
  - simpl. lia.
Defined.

(** Committed entries conflict: the call panics.  Uncommitted ones are replaced. *)
Lemma AppendEntries_is_reconcile_witness :
  AppendEntries log3 [entry 1 1; entry 2 2] 1 = (mk [zeroEntry; entry 1 1; entry 2 2], Ok tt) /\
  exists p, AppendEntries log3 [entry 1 1; entry 2 2] 2 = (log3, Panicked p).
Proof.
  split; [|eexists]; rewrite (AppendEntries_is_reconcile log3 0);
    solve [reflexivity | repeat split; reflexivity | simpl; lia].
Defined.
End LogWitness.
