(* ===== verification/Node.v ===== *)
(** * Node: the node state and role changes of [replica/internal/raft/node.go]

    [Node] is the struct less its mutex, its logger and its RPC client: a
    method that holds [n.mu] throughout is a function on the state, a method
    that releases it is split where it does (Election, Replication).  A
    channel no code closes is its buffer. *)

From Stdlib Require Import ZArith Lia.
From stdpp Require Import base list strings gmap.
From S2P Require Import Prelude Types RaftLog.
Open Scope Z_scope.

(** ** Timing constants, in nanoseconds *)

Definition Millisecond : Z := 1000000.
Definition ElectionTimeoutMin : Z := 500 * Millisecond.
Definition ElectionTimeoutMax : Z := 800 * Millisecond.
Definition HeartbeatInterval : Z := 150 * Millisecond.
Definition RPCTimeout : Z := 100 * Millisecond.

(** ** Configuration *)

Record Config : Type := mkConfig {
  cfg_NodeID : string;
  cfg_PeerAddrs : list string;
  cfg_GatewayAddr : string;
}.

(** The error of the first missing field, [None] for a valid configuration. *)
Definition Validate (c : Config) : option string :=
  if bool_decide (cfg_NodeID c = EmptyString) then Some "NODE_ID is required"%string
  else if bool_decide (length (cfg_PeerAddrs c) = 0%nat) then Some "PEER_ADDRS is required"%string
  else if bool_decide (cfg_GatewayAddr c = EmptyString) then Some "GATEWAY_ADDR is required"%string
  else None.

(** ** The node *)

Record Node : Type := mkNode {
  n_id : string;
  n_currentTerm : int;
  n_votedFor : string;
  n_log : Log.t;
  n_state : NodeState;
  n_commitIndex : int;
  n_lastApplied : int;
  n_leaderID : string;
  n_nextIndex : gmap string int;
  n_matchIndex : gmap string int;
  n_peers : list string;
  n_gatewayAddr : string;
  n_resetElectionCh : list unit;
  n_newEntryCh : list unit;
  n_commitCh : list LogEntry;
  n_stopCh_closed : bool;
}.

Definition resetElectionCap : nat := 1.
Definition newEntryCap : nat := 1.
Definition commitCap : nat := 256.

(** Field assignments. *)
Definition set_currentTerm (v : int) (n : Node) : Node :=
  mkNode (n_id n) v (n_votedFor n) (n_log n) (n_state n) (n_commitIndex n) (n_lastApplied n)
    (n_leaderID n) (n_nextIndex n) (n_matchIndex n) (n_peers n) (n_gatewayAddr n)
    (n_resetElectionCh n) (n_newEntryCh n) (n_commitCh n) (n_stopCh_closed n).
Definition set_votedFor (v : string) (n : Node) : Node :=
  mkNode (n_id n) (n_currentTerm n) v (n_log n) (n_state n) (n_commitIndex n) (n_lastApplied n)
    (n_leaderID n) (n_nextIndex n) (n_matchIndex n) (n_peers n) (n_gatewayAddr n)
    (n_resetElectionCh n) (n_newEntryCh n) (n_commitCh n) (n_stopCh_closed n).
Definition set_log (v : Log.t) (n : Node) : Node :=
  mkNode (n_id n) (n_currentTerm n) (n_votedFor n) v (n_state n) (n_commitIndex n) (n_lastApplied n)
    (n_leaderID n) (n_nextIndex n) (n_matchIndex n) (n_peers n) (n_gatewayAddr n)
    (n_resetElectionCh n) (n_newEntryCh n) (n_commitCh n) (n_stopCh_closed n).
Definition set_state (v : NodeState) (n : Node) : Node :=
  mkNode (n_id n) (n_currentTerm n) (n_votedFor n) (n_log n) v (n_commitIndex n) (n_lastApplied n)
    (n_leaderID n) (n_nextIndex n) (n_matchIndex n) (n_peers n) (n_gatewayAddr n)
    (n_resetElectionCh n) (n_newEntryCh n) (n_commitCh n) (n_stopCh_closed n).
Definition set_commitIndex (v : int) (n : Node) : Node :=
  mkNode (n_id n) (n_currentTerm n) (n_votedFor n) (n_log n) (n_state n) v (n_lastApplied n)
    (n_leaderID n) (n_nextIndex n) (n_matchIndex n) (n_peers n) (n_gatewayAddr n)
    (n_resetElectionCh n) (n_newEntryCh n) (n_commitCh n) (n_stopCh_closed n).
Definition set_lastApplied (v : int) (n : Node) : Node :=
  mkNode (n_id n) (n_currentTerm n) (n_votedFor n) (n_log n) (n_state n) (n_commitIndex n) v
    (n_leaderID n) (n_nextIndex n) (n_matchIndex n) (n_peers n) (n_gatewayAddr n)
    (n_resetElectionCh n) (n_newEntryCh n) (n_commitCh n) (n_stopCh_closed n).
Definition set_leaderID (v : string) (n : Node) : Node :=
  mkNode (n_id n) (n_currentTerm n) (n_votedFor n) (n_log n) (n_state n) (n_commitIndex n) (n_lastApplied n)
    v (n_nextIndex n) (n_matchIndex n) (n_peers n) (n_gatewayAddr n)
    (n_resetElectionCh n) (n_newEntryCh n) (n_commitCh n) (n_stopCh_closed n).
Definition set_nextIndex (v : gmap string int) (n : Node) : Node :=
  mkNode (n_id n) (n_currentTerm n) (n_votedFor n) (n_log n) (n_state n) (n_commitIndex n) (n_lastApplied n)
    (n_leaderID n) v (n_matchIndex n) (n_peers n) (n_gatewayAddr n)
    (n_resetElectionCh n) (n_newEntryCh n) (n_commitCh n) (n_stopCh_closed n).
Definition set_matchIndex (v : gmap string int) (n : Node) : Node :=
  mkNode (n_id n) (n_currentTerm n) (n_votedFor n) (n_log n) (n_state n) (n_commitIndex n) (n_lastApplied n)
    (n_leaderID n) (n_nextIndex n) v (n_peers n) (n_gatewayAddr n)
    (n_resetElectionCh n) (n_newEntryCh n) (n_commitCh n) (n_stopCh_closed n).
Definition set_resetElectionCh (v : list unit) (n : Node) : Node :=
  mkNode (n_id n) (n_currentTerm n) (n_votedFor n) (n_log n) (n_state n) (n_commitIndex n) (n_lastApplied n)
    (n_leaderID n) (n_nextIndex n) (n_matchIndex n) (n_peers n) (n_gatewayAddr n)
    v (n_newEntryCh n) (n_commitCh n) (n_stopCh_closed n).
Definition set_newEntryCh (v : list unit) (n : Node) : Node :=
  mkNode (n_id n) (n_currentTerm n) (n_votedFor n) (n_log n) (n_state n) (n_commitIndex n) (n_lastApplied n)
    (n_leaderID n) (n_nextIndex n) (n_matchIndex n) (n_peers n) (n_gatewayAddr n)
    (n_resetElectionCh n) v (n_commitCh n) (n_stopCh_closed n).
Definition set_commitCh (v : list LogEntry) (n : Node) : Node :=
  mkNode (n_id n) (n_currentTerm n) (n_votedFor n) (n_log n) (n_state n) (n_commitIndex n) (n_lastApplied n)
    (n_leaderID n) (n_nextIndex n) (n_matchIndex n) (n_peers n) (n_gatewayAddr n)
    (n_resetElectionCh n) (n_newEntryCh n) v (n_stopCh_closed n).
Definition set_stopCh_closed (v : bool) (n : Node) : Node :=
  mkNode (n_id n) (n_currentTerm n) (n_votedFor n) (n_log n) (n_state n) (n_commitIndex n) (n_lastApplied n)
    (n_leaderID n) (n_nextIndex n) (n_matchIndex n) (n_peers n) (n_gatewayAddr n)
    (n_resetElectionCh n) (n_newEntryCh n) (n_commitCh n) v.

Definition NewNode (cfg : Config) : Node :=
  mkNode (cfg_NodeID cfg) 0 EmptyString Log.NewLog Follower 0 0 EmptyString ∅ ∅
    (cfg_PeerAddrs cfg) (cfg_GatewayAddr cfg) [] [] [] false.

(** [close(n.stopCh)]: a second call panics. *)
Definition Stop (n : Node) : result Node :=
  if n_stopCh_closed n then Panicked CloseOfClosedChannel else Ok (set_stopCh_closed true n).

Definition Status (n : Node) : StatusResponse :=
  mkStatusResponse (n_id n) (n_state n) (n_currentTerm n) (Log.Length (n_log n))
    (n_commitIndex n) (n_leaderID n).

Definition ID (n : Node) : string := n_id n.

Definition IsLeader (n : Node) : bool := bool_decide (n_state n = Leader).

Definition becomeFollower (n : Node) (term : int) (leaderID : string) : Node :=
  set_leaderID leaderID (set_votedFor EmptyString (set_currentTerm term (set_state Follower n))).

Definition becomeCandidate (n : Node) : Node :=
  let n := set_state Candidate n in
  let n := set_currentTerm (wrap64 (n_currentTerm n + 1)) n in
  let n := set_votedFor (n_id n) n in
  set_leaderID EmptyString n.

(** The [for _, peer := range n.peers] of [becomeLeader]. *)
Definition init_indexes (lastLogIndex : int) (peers : list string) (n : Node) : Node :=
  foldl (fun n peer =>
           set_matchIndex (<[peer := 0]> (n_matchIndex n))
             (set_nextIndex (<[peer := lastLogIndex + 1]> (n_nextIndex n)) n)) n peers.

Definition becomeLeader (n : Node) : Node :=
  let n := set_leaderID (n_id n) (set_state Leader n) in
  init_indexes (Log.LastIndex (n_log n)) (n_peers n) n.

Definition resetElectionTimer (n : Node) : Node :=
  set_resetElectionCh (fst (offer resetElectionCap (n_resetElectionCh n) tt)) n.

Definition signalNewEntry (n : Node) : Node :=
  set_newEntryCh (fst (offer newEntryCap (n_newEntryCh n) tt)) n.

(** One send of [applyCommitted]: with the channel full the oldest
    notification is dropped first. *)
Definition send_commit (n : Node) (entry : LogEntry) : Node :=
  let '(ch, sent) := offer commitCap (n_commitCh n) entry in
  if sent then set_commitCh ch n else set_commitCh (tl (n_commitCh n) ++ [entry]) n.

(** The loop of [applyCommitted], [fuel] being the iterations left. *)
Fixpoint apply_loop (fuel : nat) (i commitIndex : int) (n : Node) : Node :=
  match fuel with
  | O => n
  | S fuel =>
      if bool_decide (i <= commitIndex) then
        match Log.GetEntry (n_log n) i with
        | (_, false) => n
        | (entry, true) =>
            apply_loop fuel (i + 1) commitIndex (set_lastApplied i (send_commit n entry))
        end
      else n
  end.

Definition applyCommitted (n : Node) : Node :=
  let commitIndex := n_commitIndex n in
  let lastApplied := n_lastApplied n in
  apply_loop (Z.to_nat (commitIndex - lastApplied)) (lastApplied + 1) commitIndex n.

Definition stepDown (n : Node) (remoteTerm : int) : Node * bool :=
  if bool_decide (n_currentTerm n < remoteTerm)
  then (becomeFollower n remoteTerm EmptyString, true)
  else (n, false).

(** ** Lemmas *)

(** What the loop of [becomeLeader] does: it sets the two maps, for the peers
    only. *)
Lemma init_indexes_fields last ps : forall n,
  let n' := init_indexes last ps n in
  n_id n' = n_id n /\ n_peers n' = n_peers n /\ n_currentTerm n' = n_currentTerm n /\
  n_votedFor n' = n_votedFor n /\ n_log n' = n_log n /\ n_state n' = n_state n /\
  n_commitIndex n' = n_commitIndex n /\
  (forall p, p ∈ ps -> n_nextIndex n' !! p = Some (last + 1) /\ n_matchIndex n' !! p = Some 0) /\
  (forall p, p ∉ ps -> n_nextIndex n' !! p = n_nextIndex n !! p /\
                       n_matchIndex n' !! p = n_matchIndex n !! p).
Proof.
  unfold init_indexes. induction ps as [|q ps IH]; intros n; cbn [foldl].
  { split_and!; try done. intros p Hp. by apply elem_of_nil in Hp. }
  match goal with |- context [foldl ?f ?n1 ps] => specialize (IH n1) end.
  simpl in IH. destruct IH as (I1 & I2 & I3 & I4 & I5 & I6 & I7 & Hin & Hout).
  split_and!; try done.
  - intros p Hp. destruct (decide (p ∈ ps)) as [|Hnp]; [by apply Hin|].
    apply elem_of_cons in Hp as [->|]; [|done]. destruct (Hout _ Hnp) as [-> ->].
    by rewrite !lookup_insert_eq.
  - intros p [Hne Hnp]%not_elem_of_cons. destruct (Hout _ Hnp) as [-> ->].
    by rewrite !lookup_insert_ne by done.
Qed.
