(* ===== verification/Election.v ===== *)
(** * Election: leader election of [replica/internal/raft/election.go]

    [HandleVoteRequest] holds [n.mu] from start to end.  [startElection]
    releases it between the promotion to candidate ([startElection_begin]),
    each vote response ([requestVoteFromPeer]) and the final tally
    ([startElection_finish]); [startElection] composes the three for a run
    with no other event in between. *)

From Stdlib Require Import ZArith Lia.
From stdpp Require Import base list strings gmap.
From S2P Require Import Prelude Types RaftLog Node.
Open Scope Z_scope.

(** ** The vote request handler *)

(** The log check of section 5.4.1: the candidate's last entry has a higher
    term, or the same term and at least our last index. *)
Definition up_to_date (lastTerm lastIndex ourLastTerm ourLastIndex : int) : bool :=
  bool_decide (ourLastTerm < lastTerm) ||
  (bool_decide (lastTerm = ourLastTerm) && bool_decide (ourLastIndex <= lastIndex)).

Definition HandleVoteRequest (n : Node) (req : VoteRequest) : Node * VoteResponse :=
  let resp := mkVoteResponse (n_currentTerm n) false in
  let n := fst (stepDown n (vreq_Term req)) in
  if bool_decide (vreq_Term req < n_currentTerm n) then
    (n, mkVoteResponse (n_currentTerm n) (vresp_VoteGranted resp))
  else
    let canVote := bool_decide (n_votedFor n = EmptyString) ||
                   bool_decide (n_votedFor n = vreq_CandidateID req) in
    let logOK := up_to_date (vreq_LastLogTerm req) (vreq_LastLogIndex req)
                   (Log.LastTerm (n_log n)) (Log.LastIndex (n_log n)) in
    if canVote && logOK then
      let n := set_currentTerm (vreq_Term req) (set_votedFor (vreq_CandidateID req) n) in
      (resetElectionTimer n, mkVoteResponse (n_currentTerm n) true)
    else (n, resp).

(** ** The election *)

(** The first critical section of [startElection]: promotion, and the request
    every peer is sent. *)
Definition startElection_begin (n : Node) : Node * VoteRequest :=
  let n := becomeCandidate n in
  (n, mkVoteRequest (n_currentTerm n) (n_id n) (Log.LastIndex (n_log n)) (Log.LastTerm (n_log n))).

(** The outcome of one [RequestVote] call, [None] for an RPC error, on the
    node and the election's vote counter. *)
Definition requestVoteFromPeer (n : Node) (votes : int) (electionTerm : int)
    (outcome : option VoteResponse) : Node * int :=
  match outcome with
  | None => (n, votes)
  | Some resp =>
      if bool_decide (n_currentTerm n < vresp_Term resp) then
        (becomeFollower n (vresp_Term resp) EmptyString, votes)
      else if bool_decide (n_currentTerm n <> electionTerm \/ n_state n <> Candidate) then
        (n, votes)
      else if vresp_VoteGranted resp then (n, votes + 1) else (n, votes)
  end.

(** Strict majority of a cluster of [peers + 1] nodes. *)
Definition majority (peers : list string) : int := (len peers + 1) / 2 + 1.

(** The tally, under [n.mu]: [true] when the node became leader and its
    heartbeat and replication loops were started. *)
Definition startElection_finish (n : Node) (term : int) (finalVotes : int) : Node * bool :=
  if bool_decide (n_state n <> Candidate \/ n_currentTerm n <> term) then (n, false)
  else if bool_decide (majority (n_peers n) <= finalVotes) then (becomeLeader n, true)
  else (n, false).

(** An election with nothing in between, the peers answering in order. *)
Definition collect_votes (term : int) (outcomes : list (option VoteResponse)) (s : Node * int)
    : Node * int :=
  foldl (fun s o => requestVoteFromPeer (fst s) (snd s) term o) s outcomes.

Definition startElection (n : Node) (rpc : string -> VoteRequest -> option VoteResponse)
    : Node * bool :=
  let '(n, req) := startElection_begin n in
  let '(n, votes) := collect_votes (vreq_Term req) (map (fun p => rpc p req) (n_peers n)) (n, 1) in
  startElection_finish n (vreq_Term req) votes.

(** ** The election timer loop *)

(** The cases of the loop's [select]. *)
Inductive timer_event : Type :=
| CtxDone
| StopClosed
| ResetReceived
| TimerFired.

Inductive timer_action : Type :=
| TimerReturn
| TimerRestart
| TimerElection.

(** One pass: the node after the receive, and what the loop does next. *)
Definition runElectionTimer (n : Node) (ev : timer_event) : Node * timer_action :=
  match ev with
  | CtxDone | StopClosed => (n, TimerReturn)
  | ResetReceived => (set_resetElectionCh (tl (n_resetElectionCh n)) n, TimerRestart)
  | TimerFired =>
      if bool_decide (n_state n = Leader) then (n, TimerRestart) else (n, TimerElection)
  end.

(** [r] is the draw of [rand.Int64N(spread)]. *)
Definition election_spread : Z := ElectionTimeoutMax - ElectionTimeoutMin.
Definition randomElectionTimeout (r : Z) : Z := ElectionTimeoutMin + r.
