(* ===== verification/Replication.v ===== *)
(** * Replication: log replication of [replica/internal/raft/replication.go]

    [HandleStroke], [HandleAppendEntries] and [advanceCommitIndex] run under
    [n.mu].  [sendAppendEntries] releases it for the RPC: the request it
    builds ([sendAppendEntries_request]) and what it does with the response
    ([sendAppendEntries_response]) are separate steps. *)

From Stdlib Require Import ZArith Lia.
From stdpp Require Import base list strings gmap.
From S2P Require Import Prelude Types RaftLog Node Election.
Open Scope Z_scope.

(** ** Strokes *)

(** [ErrNotLeader] of rpc.go. *)
Definition ErrNotLeader : string := "not the current leader".

Definition HandleStroke (n : Node) (stroke : StrokeEvent) : Node * option string :=
  if bool_decide (n_state n <> Leader) then (n, Some ErrNotLeader)
  else
    let entry := mkLogEntry 0 (n_currentTerm n) stroke in
    let '(l, _) := Log.Append (n_log n) entry in
    (signalNewEntry (set_log l n), None).

(** ** The leader's loops *)

(** The peers [sendHeartbeats] starts a send to. *)
Definition sendHeartbeats (n : Node) : list string :=
  if bool_decide (n_state n <> Leader) then [] else n_peers n.

(** A tick of [runHeartbeatLoop]: [None] when the loop returns. *)
Definition runHeartbeatLoop (n : Node) : option (list string) :=
  if bool_decide (n_state n = Leader) then Some (sendHeartbeats n) else None.

(** A wake-up of a peer's [runReplicationLoop]: the receive takes the signal;
    [true] when the loop sends, [false] when it returns. *)
Definition runReplicationLoop (n : Node) (leaderTerm : int) : Node * bool :=
  (set_newEntryCh (tl (n_newEntryCh n)) n,
   bool_decide (n_state n = Leader) && bool_decide (n_currentTerm n = leaderTerm)).

(** ** Sending entries *)

Definition sendAppendEntries_request (n : Node) (peerAddr : string) : option AppendEntriesRequest :=
  if bool_decide (n_state n <> Leader) then None
  else match n_nextIndex n !! peerAddr with
  | None => None
  | Some nextIdx =>
      let prevLogIndex := nextIdx - 1 in
      Some (mkAppendEntriesRequest (n_currentTerm n) (n_id n) prevLogIndex
              (Log.Term (n_log n) prevLogIndex) (Log.GetFrom (n_log n) nextIdx)
              (n_commitIndex n))
  end.

(** [n.matchIndex[peer]]: 0 for a missing key. *)
Definition map_get (m : gmap string int) (k : string) : int := default 0 (m !! k).

(** The replicas known to hold entry [idx], the leader included. *)
Definition replicaCount (n : Node) (idx : int) : int :=
  foldl (fun c peer => if bool_decide (idx <= map_get (n_matchIndex n) peer) then c + 1 else c)
    1 (n_peers n).

(** The body of the loop of [advanceCommitIndex]. *)
Definition advance_at (n : Node) (idx : int) : Node :=
  if bool_decide (Log.Term (n_log n) idx <> n_currentTerm n) then n
  else if bool_decide (majority (n_peers n) <= replicaCount n idx) then set_commitIndex idx n
  else n.

(** The loop; [fuel] bounds its iterations. *)
Fixpoint advance_loop (fuel : nat) (idx : int) (n : Node) : Node :=
  match fuel with
  | O => n
  | S fuel =>
      if bool_decide (idx <= Log.LastIndex (n_log n))
      then advance_loop fuel (idx + 1) (advance_at n idx)
      else n
  end.

(** The loop runs from [commitIndex + 1] to the last index, which the body
    does not change. *)
Definition advanceCommitIndex (n : Node) : Node :=
  advance_loop (Z.to_nat (Log.LastIndex (n_log n) - n_commitIndex n)) (n_commitIndex n + 1) n.

(** [entries[len(entries)-1].Index]. *)
Definition last_index_of (es : list LogEntry) : int := le_Index (default zeroEntry (last es)).

(** What [sendAppendEntries] does once the RPC has returned; [term] and
    [entries] are the captured request's, [None] is an RPC error. *)
Definition sendAppendEntries_response (n : Node) (peerAddr : string) (term : int)
    (entries : list LogEntry) (outcome : option AppendEntriesResponse) : Node :=
  match outcome with
  | None => n
  | Some resp =>
      let '(n, down) := stepDown n (aresp_Term resp) in
      if down then n
      else if bool_decide (n_state n <> Leader \/ n_currentTerm n <> term) then n
      else if aresp_Success resp then
        let n :=
          if bool_decide (0 < len entries) then
            let newMatchIndex := last_index_of entries in
            set_matchIndex (<[peerAddr := newMatchIndex]> (n_matchIndex n))
              (set_nextIndex (<[peerAddr := newMatchIndex + 1]> (n_nextIndex n)) n)
          else n in
        advanceCommitIndex n
      else if bool_decide (0 < aresp_ConflictIndex resp) then
        set_nextIndex (<[peerAddr := aresp_ConflictIndex resp]> (n_nextIndex n)) n
      else if bool_decide (1 < map_get (n_nextIndex n) peerAddr) then
        set_nextIndex (<[peerAddr := map_get (n_nextIndex n) peerAddr - 1]> (n_nextIndex n)) n
      else n
  end.

(** ** Receiving entries *)

(** From the appending of the entries to the successful response. *)
Definition append_and_commit (n : Node) (req : AppendEntriesRequest)
    : Node * result AppendEntriesResponse :=
  let '(l, r) :=
    if bool_decide (0 < len (areq_Entries req))
    then Log.AppendEntries (n_log n) (areq_Entries req) (n_commitIndex n)
    else (n_log n, Ok tt) in
  let n := set_log l n in
  match r with
  | Panicked p => (n, Panicked p)
  | Ok _ =>
      let n :=
        if bool_decide (n_commitIndex n < areq_LeaderCommit req) then
          let lastNewIndex := Log.LastIndex (n_log n) in
          if bool_decide (areq_LeaderCommit req < lastNewIndex)
          then set_commitIndex (areq_LeaderCommit req) n
          else set_commitIndex lastNewIndex n
        else n in
      (n, Ok (mkAppendEntriesResponse (n_currentTerm n) true 0))
  end.

(** The node once it has recognised the leader of the request's term. *)
Definition accept_leader (n : Node) (req : AppendEntriesRequest) : Node :=
  let n := resetElectionTimer n in
  let n := set_leaderID (areq_LeaderID req) n in
  let n := if bool_decide (n_state n = Candidate)
           then becomeFollower n (areq_Term req) (areq_LeaderID req) else n in
  let n := if bool_decide (n_state n <> Follower)
           then becomeFollower n (areq_Term req) (areq_LeaderID req) else n in
  set_currentTerm (areq_Term req) n.

Definition HandleAppendEntries (n : Node) (req : AppendEntriesRequest)
    : Node * result AppendEntriesResponse :=
  let respTerm := n_currentTerm n in
  let n := fst (stepDown n (areq_Term req)) in
  if bool_decide (areq_Term req < n_currentTerm n) then
    (n, Ok (mkAppendEntriesResponse (n_currentTerm n) false 0))
  else
    let n := accept_leader n req in
    if bool_decide (0 < areq_PrevLogIndex req) then
      let '(prevEntry, exists_) := Log.GetEntry (n_log n) (areq_PrevLogIndex req) in
      if negb exists_ then
        (n, Ok (mkAppendEntriesResponse respTerm false (Log.LastIndex (n_log n) + 1)))
      else if bool_decide (le_Term prevEntry <> areq_PrevLogTerm req) then
        (n, Ok (mkAppendEntriesResponse respTerm false (areq_PrevLogIndex req)))
      else append_and_commit n req
    else append_and_commit n req.

(** ** Catch-up reads *)

Definition GetSyncLog (n : Node) (fromIndex : int) : list LogEntry :=
  filter (fun e => le_Index e <= n_commitIndex n) (Log.GetFrom (n_log n) fromIndex).
