(* ===== verification/Handlers.v ===== *)
(** * Handlers: what each RPC handler returns, on every branch

    The functional behaviour of the vote request handler, the election, the
    append handler, the commit rule and the sync read, one replica at a time
    and for any request, whether a correct replica could have sent it or not. *)

From Stdlib Require Import ZArith Lia.
From stdpp Require Import base list strings gmap option.
From S2P Require Import Prelude Types RaftLog Node Election Replication.
Open Scope list_scope.
Open Scope Z_scope.

(** ** Votes *)

(** The conditions under which a replica grants its vote. *)
Definition may_grant (n : Node) (req : VoteRequest) : bool :=
  bool_decide (n_currentTerm n <= vreq_Term req) &&
  (bool_decide (n_currentTerm n < vreq_Term req) ||
   bool_decide (n_votedFor n = EmptyString \/ n_votedFor n = vreq_CandidateID req)) &&
  up_to_date (vreq_LastLogTerm req) (vreq_LastLogIndex req)
    (Log.LastTerm (n_log n)) (Log.LastIndex (n_log n)).

(** The vote request's outcome: the replica after it and the reply. *)
Definition vote_outcome (n : Node) (req : VoteRequest) (n' : Node) (resp : VoteResponse) : Prop :=
  let granted := may_grant n req in
  vresp_VoteGranted resp = granted /\
  vresp_Term resp = (if granted then vreq_Term req else n_currentTerm n) /\
  n_currentTerm n' = Z.max (n_currentTerm n) (vreq_Term req) /\
  n_votedFor n' = (if granted then vreq_CandidateID req
                   else if bool_decide (n_currentTerm n < vreq_Term req) then EmptyString
                   else n_votedFor n) /\
  n_state n' = (if bool_decide (n_currentTerm n < vreq_Term req) then Follower else n_state n) /\
  n_log n' = n_log n /\ n_commitIndex n' = n_commitIndex n.

Lemma HandleVoteRequest_outcome n req :
  vote_outcome n req (fst (HandleVoteRequest n req)) (snd (HandleVoteRequest n req)).
Proof.
  unfold vote_outcome, HandleVoteRequest, may_grant, stepDown.
  destruct (decide (n_currentTerm n < vreq_Term req)) as [Hlt|Hge].
  - rewrite (bool_decide_true (n_currentTerm n < vreq_Term req)) by done. simpl.
    rewrite (bool_decide_false (vreq_Term req < vreq_Term req)) by lia.
    rewrite (bool_decide_true (n_currentTerm n <= vreq_Term req)) by lia. simpl.
    destruct (up_to_date _ _ _ _); simpl; split_and!; try done; lia.
  - rewrite (bool_decide_false (n_currentTerm n < vreq_Term req)) by done. simpl.
    destruct (decide (n_currentTerm n <= vreq_Term req)).
    + rewrite (bool_decide_false (vreq_Term req < n_currentTerm n)) by lia.
      rewrite (bool_decide_true (n_currentTerm n <= vreq_Term req)) by done. simpl.
      rewrite <- bool_decide_or.
      destruct (bool_decide _ && up_to_date _ _ _ _); simpl; split_and!; try done; lia.
    + rewrite (bool_decide_true (vreq_Term req < n_currentTerm n)) by lia.
      rewrite (bool_decide_false (n_currentTerm n <= vreq_Term req)) by done. simpl.
      split_and!; try done; lia.
Qed.

(** C18: (vote request, every branch) the vote is granted exactly when the
    term is not stale, the replica has not voted for another candidate in
    that term and the candidate's log is up to date; the replica ends in the
    higher of the two terms, as a follower if the term rose, and records the
    vote only if it granted it; log and commit index are untouched.  The term
    in the reply is the request's for a grant and the term from before the
    request otherwise. *)
Theorem HandleVoteRequest_spec n req :
  let '(n', resp) := HandleVoteRequest n req in vote_outcome n req n' resp.
Proof. rewrite (surjective_pairing (HandleVoteRequest n req)). apply HandleVoteRequest_outcome. Qed.

(** (one vote per term) once a replica has granted its vote to a
    candidate, every request of the same term by another candidate is refused,
    as long as only vote requests arrive. *)
Theorem vote_once n req req' :
  vresp_VoteGranted (snd (HandleVoteRequest n req)) = true ->
  vreq_CandidateID req <> EmptyString -> vreq_Term req' = vreq_Term req ->
  vreq_CandidateID req' <> vreq_CandidateID req ->
  vresp_VoteGranted (snd (HandleVoteRequest (fst (HandleVoteRequest n req)) req')) = false.
Proof.
  pose proof (HandleVoteRequest_outcome n req) as H1. unfold vote_outcome in H1.
  destruct (HandleVoteRequest n req) as [n1 resp1]. simpl in *.
  destruct H1 as (Hg & _ & HT & Hv & _). intros Hgr Hne HT' Hc. rewrite Hgr in Hg. rewrite <- Hg in Hv.
  pose proof (HandleVoteRequest_outcome n1 req') as H2. unfold vote_outcome in H2.
  destruct (HandleVoteRequest n1 req') as [n2 resp2]. simpl in *. destruct H2 as [-> _].
  unfold may_grant in *. rewrite Hv, HT, HT'.
  symmetry in Hg. apply andb_true_iff in Hg as [[Hle%bool_decide_eq_true _]%andb_true_iff _].
  rewrite (bool_decide_false (Z.max _ _ < _)) by lia.
  rewrite (bool_decide_false (_ \/ _)) by (intros [?|?]; congruence). by rewrite andb_false_r.
Qed.

(** ** Elections *)

Definition is_grant (o : option VoteResponse) : Prop :=
  match o with Some r => vresp_VoteGranted r = true | None => False end.

#[export] Instance is_grant_dec o : Decision (is_grant o).
Proof. destruct o; simpl; apply _. Defined.

Definition in_term (T : int) (o : option VoteResponse) : Prop :=
  match o with Some r => vresp_Term r <= T | None => True end.

#[export] Instance in_term_dec T o : Decision (in_term T o).
Proof. destruct o; simpl; apply _. Defined.

Lemma collect_votes_in_term T os : forall n v,
  n_currentTerm n = T -> n_state n = Candidate -> Forall (in_term T) os ->
  collect_votes T os (n, v) = (n, v + len (filter is_grant os)).
Proof.
  induction os as [|o os IH]; intros n v HT Hs Hall; simpl; [by rewrite Z.add_0_r|].
  apply list.Forall_cons in Hall as [Ho Hos].
  assert (requestVoteFromPeer n v T o = (n, v + (if bool_decide (is_grant o) then 1 else 0))) as ->.
  { unfold requestVoteFromPeer. destruct o as [r|]; [|rewrite bool_decide_false by (intros []); by rewrite Z.add_0_r].
    unfold in_term in Ho. rewrite bool_decide_false by lia. rewrite bool_decide_false by (intros [?|?]; congruence).
    case_bool_decide as Hg; unfold is_grant in Hg; destruct (vresp_VoteGranted r); try done; by rewrite Z.add_0_r. }
  rewrite IH by done. rewrite filter_cons. unfold len.
  case_bool_decide; case_decide; try done; simpl; f_equal; lia.
Qed.

Lemma startElection_begin_spec n :
  0 <= n_currentTerm n < MaxInt64 -> exists n1,
    startElection_begin n = (n1, mkVoteRequest (n_currentTerm n + 1) (n_id n)
      (Log.LastIndex (n_log n)) (Log.LastTerm (n_log n))) /\
    n_state n1 = Candidate /\ n_currentTerm n1 = n_currentTerm n + 1 /\ n_peers n1 = n_peers n.
Proof.
  intros HT. exists (fst (startElection_begin n)). unfold startElection_begin. simpl.
  by rewrite (wrap64_small (n_currentTerm n + 1)) by (unfold MinInt64, MaxInt64 in *; lia).
Qed.

(** A node that has moved past the election's term never counts again. *)
Lemma collect_votes_past T os : forall n v,
  T < n_currentTerm n -> T < n_currentTerm (fst (collect_votes T os (n, v))) .
Proof.
  induction os as [|o os IH]; intros n v HT; simpl; [done|].
  destruct (requestVoteFromPeer n v T o) as [n' v'] eqn:Hr. apply IH.
  unfold requestVoteFromPeer in Hr. destruct o; [|by simplify_eq].
  repeat case_bool_decide; try (simplify_eq/=; lia).
Qed.

Lemma collect_votes_higher T os : forall n v,
  n_currentTerm n = T -> ¬ Forall (in_term T) os -> T < n_currentTerm (fst (collect_votes T os (n, v))).
Proof.
  induction os as [|o os IH]; intros n v HT Hall; simpl; [by destruct Hall|].
  destruct (requestVoteFromPeer n v T o) as [n' v'] eqn:Hr.
  assert (T < n_currentTerm n' \/ (n_currentTerm n' = T /\ in_term T o)) as [?|[? Ho]].
  { unfold requestVoteFromPeer in Hr. destruct o as [r|]; [|simplify_eq; by right].
    simpl in *. repeat case_bool_decide; try (simplify_eq/=; lia).
    destruct (vresp_VoteGranted r); simplify_eq; right; (split; [done|simpl; lia]). }
  - by apply (collect_votes_past T os n' v').
  - apply IH; [done|]. intros ?. apply Hall. by constructor.
Qed.

(** C20: (an election, every outcome) an uninterrupted election makes the node
    leader of the next term exactly when no peer answers with a higher term
    and the votes granted, its own included, are a majority; an answer with a
    higher term makes it move past its election's term. *)
Theorem startElection_spec n rpc :
  0 <= n_currentTerm n < MaxInt64 ->
  let T := n_currentTerm n + 1 in
  let outcomes := map (fun p => rpc p (mkVoteRequest T (n_id n) (Log.LastIndex (n_log n)) (Log.LastTerm (n_log n)))) (n_peers n) in
  let '(n', won) := startElection n rpc in
  (won = true <-> Forall (in_term T) outcomes /\ majority (n_peers n) <= 1 + len (filter is_grant outcomes)) /\
  (won = true -> n_state n' = Leader /\ n_currentTerm n' = T) /\
  (won = false -> n_state n' <> Leader) /\
  (¬ Forall (in_term T) outcomes -> T < n_currentTerm n').
Proof.
  intros HT T outcomes. unfold startElection.
  destruct (startElection_begin_spec n HT) as (n1 & -> & Hs & Ht & Hp). fold T in Ht. simpl.
  fold T. fold outcomes. rewrite Hp. fold outcomes.
  clearbody outcomes. destruct (decide (Forall (in_term T) outcomes)) as [Hall|Hall].
  - rewrite collect_votes_in_term by done. unfold startElection_finish.
    rewrite bool_decide_false by (rewrite Hs, Ht; by intros [?|?]). rewrite Hp.
    case_bool_decide as Hm; simpl.
    + unfold becomeLeader. simpl. split_and!; try done. intros _.
      pose proof (init_indexes_fields (Log.LastIndex (n_log n1)) (n_peers n1) (set_leaderID (n_id n1) (set_state Leader n1)))
        as (_ & _ & -> & _ & _ & -> & _). done.
    + split_and!; try done; [|by rewrite Hs]. split; [done|]. by intros [? ?].
  - pose proof (collect_votes_higher T outcomes n1 1 Ht Hall) as Hgt.
    assert (n_state (fst (collect_votes T outcomes (n1, 1))) <> Leader) as Hnl.
    { clear -Hs. unfold collect_votes. assert (n_state n1 <> Leader) as Hn by (by rewrite Hs).
      clear Hs. revert n1 Hn. generalize 1 as v. induction outcomes as [|o os IH]; intros v n1 Hn; simpl; [done|].
      destruct (requestVoteFromPeer n1 v T o) as [n' v'] eqn:Hr. apply IH.
      unfold requestVoteFromPeer in Hr. destruct o as [r|]; [|by simplify_eq].
      repeat case_bool_decide; try (by simplify_eq/=). destruct (vresp_VoteGranted r); by simplify_eq. }
    destruct (collect_votes T outcomes (n1, 1)) as [n2 v2]. simpl in *. unfold startElection_finish.
    rewrite bool_decide_true by lia. split_and!; try done. split; [done|by intros [? _]].
Qed.

(** ** Appending *)

(** The log consistency check: [Some ci] when it fails, with the conflict
    index the reply carries. *)
Definition prev_check (l : list LogEntry) (prev prevTerm : int) : option int :=
  if bool_decide (prev <= 0) then None
  else match l !! Z.to_nat prev with
  | None => Some (len l)
  | Some e => if bool_decide (le_Term e = prevTerm) then None else Some prev
  end.

Lemma accept_leader_fields n req :
  n_currentTerm (accept_leader n req) = areq_Term req /\ n_state (accept_leader n req) = Follower /\
  n_leaderID (accept_leader n req) = areq_LeaderID req /\ n_log (accept_leader n req) = n_log n /\
  n_commitIndex (accept_leader n req) = n_commitIndex n.
Proof.
  unfold accept_leader. simpl. destruct (decide (n_state n = Candidate)) as [Hc|Hc].
  - rewrite (bool_decide_true (n_state n = Candidate)) by done. simpl. by split_and!.
  - rewrite (bool_decide_false (n_state n = Candidate)) by done. simpl.
    case_bool_decide as Hf; simpl; split_and!; done.
Qed.

(** What the handler does with entries that passed the check: [n] is the node
    before, [n'] after. *)
Definition appended (n : Node) (req : AppendEntriesRequest) (n' : Node)
    (r : result AppendEntriesResponse) : Prop :=
  let '(l', o) := Log.reconcile (Log.entries (n_log n)) (Z.to_nat (areq_PrevLogIndex req))
                    (areq_Entries req) (n_commitIndex n) in
  Log.entries (n_log n') = l' /\
  match o with
  | Panicked p => r = Panicked p /\ n_commitIndex n' = n_commitIndex n
  | Ok _ => r = Ok (mkAppendEntriesResponse (areq_Term req) true 0) /\
      n_commitIndex n' = if bool_decide (n_commitIndex n < areq_LeaderCommit req)
                         then Z.min (areq_LeaderCommit req) (len l' - 1) else n_commitIndex n
  end.

Lemma append_and_commit_spec n req :
  Log.contiguous (S (Z.to_nat (areq_PrevLogIndex req))) (areq_Entries req) ->
  (Z.to_nat (areq_PrevLogIndex req) < length (Log.entries (n_log n)))%nat ->
  n_currentTerm n = areq_Term req ->
  let '(n', r) := append_and_commit n req in
  n_currentTerm n' = n_currentTerm n /\ n_state n' = n_state n /\ n_leaderID n' = n_leaderID n /\
  appended n req n' r.
Proof.
  intros Hcon Hprev HT. unfold append_and_commit, appended.
  assert ((if bool_decide (0 < len (areq_Entries req))
           then Log.AppendEntries (n_log n) (areq_Entries req) (n_commitIndex n) else (n_log n, Ok tt)) =
          (let r := Log.reconcile (Log.entries (n_log n)) (Z.to_nat (areq_PrevLogIndex req))
                    (areq_Entries req) (n_commitIndex n) in (Log.mk (fst r), snd r))) as ->.
  { case_bool_decide as Hne; [by apply Log.AppendEntries_reconcile_aux|].
    destruct (areq_Entries req); [|unfold len in Hne; simpl in Hne; lia].
    unfold Log.reconcile. destruct (drop _ _); simpl; rewrite drop_nil, app_nil_r; by destruct (n_log n). }
  destruct (Log.reconcile _ _ _ _) as [l' [[]|p]]; simpl; [|by split_and!].
  unfold Log.LastIndex. simpl. repeat case_bool_decide; simpl; rewrite ?HT; split_and!; try done; lia.
Qed.

(** The append request's outcome. *)
Definition append_outcome (n : Node) (req : AppendEntriesRequest) (n' : Node)
    (r : result AppendEntriesResponse) : Prop :=
  (areq_Term req < n_currentTerm n ->
     n' = n /\ r = Ok (mkAppendEntriesResponse (n_currentTerm n) false 0)) /\
  (n_currentTerm n <= areq_Term req ->
     n_currentTerm n' = areq_Term req /\ n_state n' = Follower /\ n_leaderID n' = areq_LeaderID req /\
     match prev_check (Log.entries (n_log n)) (areq_PrevLogIndex req) (areq_PrevLogTerm req) with
     | Some ci => r = Ok (mkAppendEntriesResponse (n_currentTerm n) false ci) /\
         n_log n' = n_log n /\ n_commitIndex n' = n_commitIndex n
     | None => appended n req n' r
     end).

(** Past the consistency check the handler's result is that of the appending
    half on the node that has accepted the leader. *)
Lemma accepted_append_spec n n2 req :
  Log.contiguous (S (Z.to_nat (areq_PrevLogIndex req))) (areq_Entries req) ->
  n_currentTerm n2 = areq_Term req -> n_state n2 = Follower -> n_leaderID n2 = areq_LeaderID req ->
  n_log n2 = n_log n -> n_commitIndex n2 = n_commitIndex n ->
  (Z.to_nat (areq_PrevLogIndex req) < length (Log.entries (n_log n)))%nat ->
  let '(n', r) := append_and_commit n2 req in
  n_currentTerm n' = areq_Term req /\ n_state n' = Follower /\ n_leaderID n' = areq_LeaderID req /\
  appended n req n' r.
Proof.
  intros Hcon T2 S2 L2 El2 Ec2 Hprev. rewrite <- El2 in Hprev.
  pose proof (append_and_commit_spec n2 req Hcon Hprev T2) as Ha.
  destruct (append_and_commit n2 req) as [n' r]. unfold appended in *. rewrite El2, Ec2 in Ha.
  by rewrite T2, S2, L2 in Ha.
Qed.

(** The consistency check as the handler computes it is [prev_check]. *)
Lemma prev_check_code {A} l prev prevTerm (reject : int -> A) (accept : A) :
  (if bool_decide (0 < prev) then
     let '(prevEntry, exists_) := Log.GetEntry l prev in
     if negb exists_ then reject (Log.LastIndex l + 1)
     else if bool_decide (le_Term prevEntry <> prevTerm) then reject prev else accept
   else accept) =
  match prev_check (Log.entries l) prev prevTerm with Some ci => reject ci | None => accept end.
Proof.
  unfold prev_check. destruct (decide (prev <= 0)) as [Hz|Hpos].
  { rewrite (bool_decide_false (0 < _)) by lia. by rewrite (bool_decide_true (_ <= 0)) by done. }
  rewrite (bool_decide_true (0 < _)) by lia. rewrite (bool_decide_false (_ <= 0)) by done.
  destruct (Log.GetEntry l prev) as [e [|]] eqn:He.
  - apply Log.GetEntry_Some in He as [_ He]. rewrite He. simpl.
    destruct (decide (le_Term e = prevTerm)).
    + rewrite (bool_decide_false (_ <> _)) by tauto. by rewrite bool_decide_true.
    + rewrite (bool_decide_true (_ <> _)) by done. by rewrite bool_decide_false.
  - apply Log.GetEntry_None in He as [He _]. rewrite lookup_ge_None_2 by (unfold len in He; lia).
    simpl. f_equal. unfold Log.LastIndex. lia.
Qed.

Lemma prev_check_le l prev prevTerm ci : prev_check l prev prevTerm = Some ci -> ci <= prev.
Proof.
  unfold prev_check. destruct (decide (prev <= 0)); [by rewrite bool_decide_true|].
  rewrite bool_decide_false by done. destruct (l !! Z.to_nat prev) eqn:He.
  - case_bool_decide; [done|]. intros [= <-]. lia.
  - apply lookup_ge_None in He. intros [= <-]. unfold len. lia.
Qed.

Lemma prev_check_None l prev prevTerm :
  prev_check l prev prevTerm = None -> (0 < length l)%nat -> (Z.to_nat prev < length l)%nat.
Proof.
  unfold prev_check. destruct (decide (prev <= 0)); [lia|]. rewrite bool_decide_false by done.
  destruct (l !! Z.to_nat prev) eqn:He; [|done].
  intros _ _. by eapply lookup_lt_Some.
Qed.

Lemma HandleAppendEntries_outcome n req :
  0 <= areq_PrevLogIndex req -> Log.contiguous (S (Z.to_nat (areq_PrevLogIndex req))) (areq_Entries req) ->
  (0 < length (Log.entries (n_log n)))%nat ->
  let '(n', r) := HandleAppendEntries n req in append_outcome n req n' r.
Proof.
  intros Hp Hcon Hlen. unfold append_outcome, HandleAppendEntries, stepDown.
  destruct (decide (areq_Term req < n_currentTerm n)) as [Hlt|Hge].
  { rewrite (bool_decide_false (n_currentTerm n < areq_Term req)) by lia. simpl.
    rewrite (bool_decide_true (areq_Term req < n_currentTerm n)) by done. by split; [|lia]. }
  set (n1 := fst _).
  assert (n_log n1 = n_log n /\ n_commitIndex n1 = n_commitIndex n /\ n_currentTerm n1 = areq_Term req)
    as (El & Ec & ET).
  { unfold n1. case_bool_decide; simpl; split_and!; try done; lia. }
  clearbody n1. rewrite (bool_decide_false (areq_Term req < n_currentTerm n1)) by lia.
  destruct (accept_leader_fields n1 req) as (T2 & S2 & L2 & El2 & Ec2).
  set (n2 := accept_leader n1 req) in *. clearbody n2. rewrite El in El2. rewrite Ec in Ec2. clear n1 El Ec ET.
  rewrite (prev_check_code (n_log n2) (areq_PrevLogIndex req) (areq_PrevLogTerm req)
             (fun ci => (n2, Ok (mkAppendEntriesResponse (n_currentTerm n) false ci)))), El2.
  destruct (prev_check _ _ _) as [ci|] eqn:Hpc; [split; [lia|intros _; by split_and!]|].
  pose proof (accepted_append_spec n n2 req Hcon T2 S2 L2 El2 Ec2 (prev_check_None _ _ _ Hpc Hlen)) as Hok.
  destruct (append_and_commit n2 req). split; [lia|done].
Qed.

(** C17: (append request, every branch) a stale request changes nothing; any
    other makes the replica a follower of the sender in the request's term.
    If the consistency check fails the log is untouched and the reply carries
    the conflict index; otherwise the log is reconciled with the entries and
    the commit index follows the leader's, bounded by the log, unless the
    reconciliation would change a committed entry, which panics. *)
Theorem HandleAppendEntries_spec n req :
  0 <= areq_PrevLogIndex req -> Log.contiguous (S (Z.to_nat (areq_PrevLogIndex req))) (areq_Entries req) ->
  (0 < length (Log.entries (n_log n)))%nat ->
  let '(n', r) := HandleAppendEntries n req in append_outcome n req n' r.
Proof. apply HandleAppendEntries_outcome. Qed.

(** ** The commit rule *)

(** Entry [idx] may be committed: it is of the leader's term and a majority
    is known to hold it. *)
Definition committable (n : Node) (idx : Z) : Prop :=
  Log.Term (n_log n) idx = n_currentTerm n /\ majority (n_peers n) <= replicaCount n idx.

#[export] Instance committable_dec n idx : Decision (committable n idx).
Proof. unfold committable. apply _. Defined.

Lemma advance_at_eq n idx :
  advance_at n idx = if bool_decide (committable n idx) then set_commitIndex idx n else n.
Proof.
  unfold advance_at, committable. repeat case_bool_decide; try done; tauto.
Qed.

(** The body only ever moves the commit index, which no condition reads. *)
Lemma advance_loop_eq fuel : forall n i v,
  Z.of_nat fuel = Log.LastIndex (n_log n) + 1 - i ->
  exists c, advance_loop fuel i (set_commitIndex v n) = set_commitIndex c n /\
    (c = v \/ (i <= c <= Log.LastIndex (n_log n) /\ committable n c)) /\
    forall idx, i <= idx <= Log.LastIndex (n_log n) -> committable n idx -> idx <= c.
Proof.
  induction fuel as [|fuel IH]; intros n i v Hf; simpl.
  { exists v. split_and!; [done|by left|]. lia. }
  rewrite bool_decide_true by lia. rewrite advance_at_eq.
  change (committable (set_commitIndex v n) i) with (committable n i). case_bool_decide as Hc.
  - destruct (IH n (i + 1) i ltac:(lia)) as (c & Hr & Hcase & Hmax).
    exists c. split_and!; [exact Hr| |].
    + right. destruct Hcase as [->|[? ?]]; split; [lia|done|lia|done].
    + intros idx ? Hidx. destruct (decide (idx = i)) as [->|]; [destruct Hcase as [->|[? ?]]; lia|].
      apply Hmax; [lia|done].
  - destruct (IH n (i + 1) v ltac:(lia)) as (c & Hr & Hcase & Hmax).
    exists c. split_and!; [exact Hr| |].
    + destruct Hcase as [->|[? ?]]; [by left|right; split; [lia|done]].
    + intros idx ? Hidx. destruct (decide (idx = i)) as [->|]; [done|]. apply Hmax; [lia|done].
Qed.

Lemma advanceCommitIndex_last n :
  n_commitIndex n <= Log.LastIndex (n_log n) ->
  exists c, advanceCommitIndex n = set_commitIndex c n /\
    (c = n_commitIndex n \/ (n_commitIndex n < c <= Log.LastIndex (n_log n) /\ committable n c)) /\
    forall idx, n_commitIndex n < idx <= Log.LastIndex (n_log n) -> committable n idx -> idx <= c.
Proof.
  intros Hc. unfold advanceCommitIndex.
  destruct (advance_loop_eq (Z.to_nat (Log.LastIndex (n_log n) - n_commitIndex n)) n
              (n_commitIndex n + 1) (n_commitIndex n)) as (c & Hr & Hcase & Hmax); [lia|].
  exists c. split_and!.
  - rewrite <- Hr. by destruct n.
  - destruct Hcase as [?|[? ?]]; [by left|right; split; [lia|done]].
  - intros idx ??. apply Hmax; [lia|done].
Qed.

(** C19: (the commit rule) [advanceCommitIndex] moves the commit index to the
    last entry of the current term that a majority is known to hold, if there
    is one past the commit index, and changes nothing else. *)
Theorem advanceCommitIndex_spec n :
  n_commitIndex n <= Log.LastIndex (n_log n) ->
  exists c, advanceCommitIndex n = set_commitIndex c n /\
    (c = n_commitIndex n \/ (n_commitIndex n < c <= Log.LastIndex (n_log n) /\ committable n c)) /\
    forall idx, n_commitIndex n < idx <= Log.LastIndex (n_log n) -> committable n idx -> idx <= c.
Proof. apply advanceCommitIndex_last. Qed.

(** ** Sync reads *)

Lemma filter_indexed (c : Z) (l : list LogEntry) : forall b,
  (forall i e, l !! i = Some e -> le_Index e = Z.of_nat (b + i)) -> 0 <= c ->
  filter (fun e => le_Index e <= c) l = take (S (Z.to_nat c) - b) l.
Proof.
  induction l as [|e l IH]; intros b Hl Hc; [by rewrite take_nil|].
  rewrite filter_cons, (IH (S b)); [| |done].
  - pose proof (Hl 0%nat e eq_refl) as He. case_decide.
    + by replace (S (Z.to_nat c) - b)%nat with (S (S (Z.to_nat c) - S b)) by lia.
    + replace (S (Z.to_nat c) - S b)%nat with 0%nat by lia.
      by replace (S (Z.to_nat c) - b)%nat with 0%nat by lia.
  - intros i e' Hi. rewrite (Hl (S i) e' Hi). f_equal. lia.
Qed.

Lemma GetSyncLog_committed n from :
  Log.indexed (Log.entries (n_log n)) -> 0 <= n_commitIndex n ->
  GetSyncLog n from =
    if bool_decide (from < 0) then []
    else drop (Z.to_nat from) (take (S (Z.to_nat (n_commitIndex n))) (Log.entries (n_log n))).
Proof.
  intros Hidx Hc. unfold GetSyncLog. case_bool_decide as Hneg.
  { unfold Log.GetFrom. by rewrite bool_decide_true by lia. }
  rewrite Log.GetFrom_drop by lia.
  rewrite (filter_indexed _ _ (Z.to_nat from)); [| |done].
  - rewrite take_drop_commute.
    destruct (decide (Z.to_nat from <= S (Z.to_nat (n_commitIndex n)))%nat).
    + do 2 f_equal. lia.
    + rewrite !drop_ge; [done|rewrite length_take; lia|rewrite length_take; lia].
  - intros i e. rewrite lookup_drop. apply Hidx.
Qed.

(** (sync) [GetSyncLog] returns exactly the committed entries from the
    given index on, for a log whose entries carry their positions; index 0
    includes the sentinel, and a negative index returns nothing. *)
Theorem GetSyncLog_spec n from :
  Log.indexed (Log.entries (n_log n)) -> 0 <= n_commitIndex n ->
  GetSyncLog n from =
    if bool_decide (from < 0) then []
    else drop (Z.to_nat from) (take (S (Z.to_nat (n_commitIndex n))) (Log.entries (n_log n))).
Proof. apply GetSyncLog_committed. Qed.

(** ** Role changes within a term *)

Lemma append_and_commit_voted n req :
  n_votedFor (fst (append_and_commit n req)) = n_votedFor n /\
  n_currentTerm (fst (append_and_commit n req)) = n_currentTerm n.
Proof.
  unfold append_and_commit. destruct (if bool_decide _ then _ else _) as [l [[]|p]]; simpl; [|done].
  by repeat case_bool_decide.
Qed.

(** (a candidate forgets its own vote) a candidate that hears from a
    leader of its own term clears votedFor although the term has not changed,
    so it can grant a second vote in a term in which it has voted for itself. *)
Theorem candidate_forgets_vote n req vreq :
  n_state n = Candidate -> areq_Term req = n_currentTerm n -> vreq_Term vreq = n_currentTerm n ->
  let n' := fst (HandleAppendEntries n req) in
  n_currentTerm n' = n_currentTerm n /\ n_votedFor n' = EmptyString /\
  vresp_VoteGranted (snd (HandleVoteRequest n' vreq)) =
    up_to_date (vreq_LastLogTerm vreq) (vreq_LastLogIndex vreq) (Log.LastTerm (n_log n')) (Log.LastIndex (n_log n')).
Proof.
  intros Hs HT HT' n'.
  assert (n_currentTerm n' = n_currentTerm n /\ n_votedFor n' = EmptyString) as [H1 H2].
  { unfold n', HandleAppendEntries, stepDown. rewrite (bool_decide_false (n_currentTerm n < _)) by lia. simpl.
    rewrite bool_decide_false by lia.
    assert (n_votedFor (accept_leader n req) = EmptyString /\ n_currentTerm (accept_leader n req) = n_currentTerm n)
      as [E1 E2].
    { unfold accept_leader. simpl. rewrite (bool_decide_true (n_state n = Candidate)) by done. by split. }
    destruct (append_and_commit_voted (accept_leader n req) req) as [E3 E4].
    case_bool_decide; [|by rewrite E3, E4]. destruct (Log.GetEntry _ _) as [e [|]]; simpl; [|done].
    case_bool_decide; simpl; [done|by rewrite E3, E4]. }
  clearbody n'. split_and!; [done..|]. pose proof (HandleVoteRequest_outcome n' vreq) as Hv. unfold vote_outcome in Hv.
  destruct (HandleVoteRequest n' vreq) as [n2 resp]. simpl in *. destruct Hv as [-> _]. unfold may_grant.
  rewrite H1, H2, HT'. rewrite (bool_decide_true (_ <= _)) by lia.
  rewrite (bool_decide_true (_ \/ _)) by (by left). by rewrite orb_true_r.
Qed.

(** (term overflow) a candidate's term is one more than before, except at
    the largest [int], where it wraps to the smallest; a replica whose term is
    not negative then refuses its vote. *)
Theorem becomeCandidate_overflow n voter :
  MinInt64 <= n_currentTerm n <= MaxInt64 -> 0 <= n_currentTerm voter ->
  let '(n', req) := startElection_begin n in
  n_currentTerm n' = (if bool_decide (n_currentTerm n = MaxInt64) then MinInt64 else n_currentTerm n + 1) /\
  (n_currentTerm n = MaxInt64 -> HandleVoteRequest voter req = (voter, mkVoteResponse (n_currentTerm voter) false)).
Proof.
  intros Hr Hv. unfold startElection_begin. simpl. split.
  - case_bool_decide as Hm; [by rewrite Hm|]. apply wrap64_small. unfold MinInt64, MaxInt64 in *. lia.
  - intros ->. unfold HandleVoteRequest, stepDown. simpl. rewrite wrap64_succ_max.
    rewrite (bool_decide_false (_ < MinInt64)) by (unfold MinInt64; lia). simpl.
    by rewrite bool_decide_true by (unfold MinInt64; lia).
Qed.

(** ** Strokes and requests *)

(** (strokes) a stroke is refused, and nothing changes, unless the replica
    leads; a leader appends it to its log, in its own term and at the next
    index, and leaves a signal for the replication loops. *)
Theorem HandleStroke_spec n s :
  let '(n', err) := HandleStroke n s in
  (n_state n <> Leader -> n' = n /\ err = Some ErrNotLeader) /\
  (n_state n = Leader -> err = None /\
    Log.entries (n_log n') = Log.entries (n_log n) ++ [mkLogEntry (Log.LastIndex (n_log n) + 1) (n_currentTerm n) s] /\
    (n_newEntryCh n = [] -> n_newEntryCh n' = [tt]) /\ (n_newEntryCh n <> [] -> n_newEntryCh n' = n_newEntryCh n) /\
    n_commitIndex n' = n_commitIndex n /\ n_currentTerm n' = n_currentTerm n).
Proof.
  unfold HandleStroke. case_bool_decide as Hs; simpl.
  { split; [by split|]. done. }
  split; [done|]. intros _. split_and!; try done.
  - unfold Log.LastIndex, Log.with_Index. simpl. do 2 f_equal. f_equal. lia.
  - unfold offer, newEntryCap. intros ->. done.
  - unfold offer, newEntryCap. intros Hne. destruct (n_newEntryCh n) as [|u l]; [done|].
    rewrite bool_decide_false by (simpl; lia). done.
Qed.

(** (requests) what a leader sends to a peer is the part of its log from
    the peer's nextIndex on, with the entry before it as the consistency
    check: a follower that holds the leader's log up to there ends with the
    leader's whole log. *)
Theorem request_completes_log n p ni l c :
  n_state n = Leader -> n_nextIndex n !! p = Some ni -> 1 <= ni <= len (Log.entries (n_log n)) ->
  Log.wf (Log.entries (n_log n)) -> Log.entries l = take (Z.to_nat ni) (Log.entries (n_log n)) ->
  exists req, sendAppendEntries_request n p = Some req /\
    prev_check (Log.entries l) (areq_PrevLogIndex req) (areq_PrevLogTerm req) = None /\
    Log.AppendEntries l (areq_Entries req) c = (n_log n, Ok tt).
Proof.
  intros Hs Hni Hr Hwf Hl. unfold sendAppendEntries_request. rewrite bool_decide_false by (intros Hx; by apply Hx).
  rewrite Hni. eexists. split; [done|]. simpl. unfold len in *. split.
  - unfold prev_check. case_bool_decide; [done|].
    rewrite Hl, lookup_take_lt by lia. rewrite Log.Term_term_at by lia. unfold Log.term_at.
    destruct (lookup_lt_is_Some_2 (Log.entries (n_log n)) (Z.to_nat (ni - 1))) as [e ->]; [lia|].
    simpl. by rewrite bool_decide_true.
  - rewrite Log.GetFrom_drop by lia.
    assert (forall es l, Log.entries l ++ es = Log.entries (n_log n) ->
      Log.AppendEntries l es c = (n_log n, Ok tt)) as Happ; [|apply Happ; by rewrite Hl, take_drop].
    clear -Hwf. induction es as [|e es IH]; intros l Hl; simpl.
    + rewrite app_nil_r in Hl. destruct l, (n_log n). simpl in *. by subst.
    + destruct (proj2 Hwf (length (Log.entries l)) e) as [Hi _].
      { rewrite <- Hl, lookup_app_r, Nat.sub_diag by lia. done. }
      rewrite bool_decide_false by (unfold len; lia). apply IH. simpl.
      assert (Log.with_Index e (len (Log.entries l)) = e) as ->; [|by rewrite <- app_assoc].
      unfold Log.with_Index, len. rewrite <- Hi. by destruct e.
Qed.

(** ** Witnesses *)

Module HandlersWitness.
Open Scope string_scope.

Definition s1 : StrokeEvent := mkStrokeEvent "s1" "stroke" EmptyString [] "red" 0 "u1".
Definition e11 : LogEntry := mkLogEntry 1 1 s1.
Definition e21 : LogEntry := mkLogEntry 2 1 s1.
Definition e22 : LogEntry := mkLogEntry 2 2 s1.
Definition base : Node := NewNode (mkConfig "node1" ["replica2:9002"; "replica3:9003"] "gateway:8080").

Lemma vote_once_witness :
  vresp_VoteGranted (snd (HandleVoteRequest base (mkVoteRequest 1 "node2" 0 0))) = true /\
  vresp_VoteGranted (snd (HandleVoteRequest (fst (HandleVoteRequest base (mkVoteRequest 1 "node2" 0 0)))
                            (mkVoteRequest 1 "node3" 0 0))) = false.
Proof. split; [reflexivity|]. apply vote_once; done. Defined.

(** One of the two peers answers, with a grant: two votes of three. *)
Definition one_grant (p : string) (req : VoteRequest) : option VoteResponse :=
  if bool_decide (p = "replica2:9002") then Some (mkVoteResponse (vreq_Term req) true) else None.

Lemma startElection_spec_witness :
  snd (startElection base one_grant) = true /\ n_state (fst (startElection base one_grant)) = Leader.
Proof.
  split; [reflexivity|]. pose proof (startElection_spec base one_grant) as H.
  destruct (startElection base one_grant) as [n' won] eqn:Hr. destruct H as (_ & Hw & _); [vm_compute; done|].
  apply Hw. by apply (f_equal snd) in Hr.
Defined.

(** A follower with an uncommitted entry of term 1 meets a leader of term 2. *)
Definition stale_follower : Node := set_currentTerm 1 (set_commitIndex 1 (set_log (Log.mk [zeroEntry; e11; e21]) base)).

Lemma HandleAppendEntries_spec_witness :
  appended stale_follower (mkAppendEntriesRequest 2 "node2" 1 1 [e22] 2)
    (fst (HandleAppendEntries stale_follower (mkAppendEntriesRequest 2 "node2" 1 1 [e22] 2)))
    (snd (HandleAppendEntries stale_follower (mkAppendEntriesRequest 2 "node2" 1 1 [e22] 2))) /\
  Log.entries (n_log (fst (HandleAppendEntries stale_follower (mkAppendEntriesRequest 2 "node2" 1 1 [e22] 2)))) =
    [zeroEntry; e11; e22].
Proof.
  split; [|reflexivity].
  pose proof (HandleAppendEntries_spec stale_follower (mkAppendEntriesRequest 2 "node2" 1 1 [e22] 2)) as H.
  destruct (HandleAppendEntries stale_follower _) as [n' r].
  destruct H as [_ H]; [done|vm_compute; done|vm_compute; lia|]. destruct H as (_ & _ & _ & H); [done|exact H].
Defined.

(** A leader of term 2 with one entry of each term, the second one held by a peer. *)
Definition acked_leader : Node :=
  set_matchIndex {[ "replica2:9002" := 2; "replica3:9003" := 0 ]} (set_nextIndex {[ "replica2:9002" := 3; "replica3:9003" := 2 ]}
    (set_currentTerm 2 (set_state Leader (set_log (Log.mk [zeroEntry; e11; e22]) base)))).

Lemma advanceCommitIndex_spec_witness :
  n_commitIndex (advanceCommitIndex acked_leader) = 2 /\
  exists c, advanceCommitIndex acked_leader = set_commitIndex c acked_leader.
Proof.
  split; [reflexivity|].
  destruct (advanceCommitIndex_spec acked_leader) as (c & H & _); [vm_compute; discriminate|eauto].
Defined.

Lemma GetSyncLog_spec_witness : GetSyncLog stale_follower 0 = [zeroEntry; e11].
Proof.
  rewrite GetSyncLog_spec; [reflexivity| |vm_compute; discriminate].
  intros [|[|[|i]]] e; vm_compute; by intros [= <-].
Defined.

Lemma candidate_forgets_vote_witness :
  let n := fst (startElection_begin base) in
  let req := mkAppendEntriesRequest 1 "node2" 0 0 [] 0 in
  n_votedFor n = "node1" /\ n_votedFor (fst (HandleAppendEntries n req)) = EmptyString /\
  vresp_VoteGranted (snd (HandleVoteRequest (fst (HandleAppendEntries n req)) (mkVoteRequest 1 "node3" 0 0))) = true.
Proof.
  intros n req. destruct (candidate_forgets_vote n req (mkVoteRequest 1 "node3" 0 0)) as (_ & Hv & Hg); [done..|].
  split_and!; [done|exact Hv|]. rewrite Hg. reflexivity.
Defined.

Lemma becomeCandidate_overflow_witness :
  n_currentTerm (fst (startElection_begin (set_currentTerm MaxInt64 base))) = MinInt64 /\
  snd (HandleVoteRequest base (snd (startElection_begin (set_currentTerm MaxInt64 base)))) = mkVoteResponse 0 false.
Proof.
  pose proof (becomeCandidate_overflow (set_currentTerm MaxInt64 base) base) as H.
  destruct (startElection_begin (set_currentTerm MaxInt64 base)) as [n' req].
  destruct H as [H1 H2]; [vm_compute; split; discriminate|vm_compute; discriminate|]. split.
  - simpl. rewrite H1. reflexivity.
  - simpl. rewrite H2; reflexivity.
Defined.

Lemma request_completes_log_witness : exists req,
  sendAppendEntries_request acked_leader "replica3:9003" = Some req /\
  prev_check [zeroEntry; e11] (areq_PrevLogIndex req) (areq_PrevLogTerm req) = None /\
  Log.AppendEntries (Log.mk [zeroEntry; e11]) (areq_Entries req) 0 = (n_log acked_leader, Ok tt).
Proof.
  apply (request_completes_log acked_leader "replica3:9003" 2 (Log.mk [zeroEntry; e11]) 0);
    [reflexivity|reflexivity|vm_compute; split; discriminate| |reflexivity].
  split; [reflexivity|]. intros [|[|[|i]]] e; vm_compute; intros [= <-]; split; (reflexivity || lia || (intros; reflexivity)).
Defined.
End HandlersWitness.
