(* ===== verification/Cluster.v ===== *)
(** * Cluster: replicas exchanging RPCs

    The replicas of a deployment, the elections in progress and every message
    ever sent.  A message is never removed: an event may deliver it at any
    later time, any number of times or never, so loss, delay, reordering and
    duplication of RPCs are all executions.  Each event is one critical
    section of the code and applies the code's own function; a trace of
    events is an interleaving of the goroutines of all replicas. *)

From Stdlib Require Import ZArith Lia.
From stdpp Require Import base list strings gmap option.
From S2P Require Import Prelude Types RaftLog Node Election Replication.
Open Scope Z_scope.

(** ** Deployments *)

(** The configuration of every replica by node ID, and the node ID behind
    each address: what docker-compose.yml fixes. *)
Record Deployment : Type := mkDeployment {
  d_cfgs : gmap string Config;
  d_host : string -> string;
}.

Definition members (D : Deployment) : gset string := dom (d_cfgs D).

(** A deployment is well formed when each configuration is valid, is filed
    under its own node ID and lists exactly the other replicas as peers. *)
Class WellDeployed (D : Deployment) : Prop := {
  wd_id : forall i cfg, d_cfgs D !! i = Some cfg -> cfg_NodeID cfg = i;
  wd_valid : forall i cfg, d_cfgs D !! i = Some cfg -> Validate cfg = None;
  wd_nodup : forall i cfg, d_cfgs D !! i = Some cfg -> NoDup (map (d_host D) (cfg_PeerAddrs cfg));
  wd_peers : forall i cfg, d_cfgs D !! i = Some cfg ->
    (list_to_set (map (d_host D) (cfg_PeerAddrs cfg)) : gset string) = members D ∖ {[i]};
}.

(** ** Messages and cluster state *)

(** A request is addressed by its sender's node ID and the peer address it
    was posted to; a response carries the request it answers, which is what
    the waiting goroutine has captured. *)
Inductive message : Type :=
| MVoteReq (src peer : string) (req : VoteRequest)
| MVoteResp (src peer : string) (req : VoteRequest) (resp : VoteResponse)
| MAppendReq (src peer : string) (req : AppendEntriesRequest)
| MAppendResp (src peer : string) (req : AppendEntriesRequest) (resp : AppendEntriesResponse).

#[export] Instance message_eq_dec : EqDecision message.
Proof. solve_decision. Defined.

(** An election [startElection] is waiting on: its term, the vote counter and
    the peers whose goroutines have not finished. *)
Record ElectionRun : Type := mkElectionRun {
  er_term : int;
  er_votes : int;
  er_pending : list string;
}.

Record Cluster : Type := mkCluster {
  c_nodes : gmap string Node;
  c_elections : gmap string ElectionRun;
  c_net : list message;
}.

Definition init (D : Deployment) : Cluster := mkCluster (NewNode <$> d_cfgs D) ∅ [].

(** ** Events *)

Inductive event : Type :=
| EvTimeout (i : string)
| EvDeliver (k : nat)
| EvVoteFail (i peer : string)
| EvElectionEnd (i : string)
| EvStroke (i : string) (s : StrokeEvent)
| EvSend (i peer : string)
| EvApply (i : string)
| EvConsume (i : string).

Definition put (c : Cluster) (i : string) (n : Node) : Cluster :=
  mkCluster (<[i := n]> (c_nodes c)) (c_elections c) (c_net c).
Definition post (c : Cluster) (ms : list message) : Cluster :=
  mkCluster (c_nodes c) (c_elections c) (c_net c ++ ms).
Definition set_election (c : Cluster) (i : string) (e : option ElectionRun) : Cluster :=
  mkCluster (c_nodes c) (partial_alter (fun _ => e) i (c_elections c)) (c_net c).

(** Remove the first occurrence: the goroutine of that peer is done. *)
Fixpoint remove_one (p : string) (l : list string) : list string :=
  match l with
  | [] => []
  | q :: l => if bool_decide (p = q) then l else q :: remove_one p l
  end.

Definition deliver (D : Deployment) (c : Cluster) (m : message) : option Cluster :=
  match m with
  | MVoteReq src p req =>
      n ← c_nodes c !! d_host D p;
      let '(n', resp) := HandleVoteRequest n req in
      Some (post (put c (d_host D p) n') [MVoteResp src p req resp])
  | MVoteResp src p req resp =>
      n ← c_nodes c !! src;
      e ← c_elections c !! src;
      if bool_decide (er_term e = vreq_Term req /\ p ∈ er_pending e) then
        let '(n', votes) := requestVoteFromPeer n (er_votes e) (er_term e) (Some resp) in
        Some (set_election (put c src n') src
                (Some (mkElectionRun (er_term e) votes (remove_one p (er_pending e)))))
      else None
  | MAppendReq src p req =>
      n ← c_nodes c !! d_host D p;
      match HandleAppendEntries n req with
      | (n', Ok resp) => Some (post (put c (d_host D p) n') [MAppendResp src p req resp])
      | (n', Panicked _) => Some (put c (d_host D p) n')
      end
  | MAppendResp src p req resp =>
      n ← c_nodes c !! src;
      Some (put c src
              (sendAppendEntries_response n p (areq_Term req) (areq_Entries req) (Some resp)))
  end.

(** One event; [None] when it is not enabled. *)
Definition exec (D : Deployment) (ev : event) (c : Cluster) : option Cluster :=
  match ev with
  | EvTimeout i =>
      n ← c_nodes c !! i;
      match c_elections c !! i, runElectionTimer n TimerFired with
      | None, (n, TimerElection) =>
          let '(n', req) := startElection_begin n in
          Some (post (set_election (put c i n') i
                        (Some (mkElectionRun (vreq_Term req) 1 (n_peers n))))
                     (map (fun p => MVoteReq i p req) (n_peers n)))
      | _, _ => None
      end
  | EvDeliver k =>
      m ← c_net c !! k;
      deliver D c m
  | EvVoteFail i p =>
      n ← c_nodes c !! i;
      e ← c_elections c !! i;
      if bool_decide (p ∈ er_pending e) then
        let '(n', votes) := requestVoteFromPeer n (er_votes e) (er_term e) None in
        Some (set_election (put c i n') i
                (Some (mkElectionRun (er_term e) votes (remove_one p (er_pending e)))))
      else None
  | EvElectionEnd i =>
      n ← c_nodes c !! i;
      e ← c_elections c !! i;
      if bool_decide (er_pending e = []) then
        let '(n', _) := startElection_finish n (er_term e) (er_votes e) in
        Some (set_election (put c i n') i None)
      else None
  | EvStroke i s =>
      n ← c_nodes c !! i;
      Some (put c i (fst (HandleStroke n s)))
  | EvSend i p =>
      n ← c_nodes c !! i;
      if bool_decide (p ∈ sendHeartbeats n) then
        match sendAppendEntries_request n p with
        | Some req => Some (post c [MAppendReq i p req])
        | None => Some c
        end
      else None
  | EvApply i =>
      n ← c_nodes c !! i;
      Some (put c i (applyCommitted n))
  | EvConsume i =>
      n ← c_nodes c !! i;
      match n_commitCh n with
      | [] => None
      | _ :: ch => Some (put c i (set_commitCh ch n))
      end
  end.

(** A trace of events. *)
Fixpoint run (D : Deployment) (tr : list event) (c : Cluster) : option Cluster :=
  match tr with
  | [] => Some c
  | ev :: tr => c' ← exec D ev c; run D tr c'
  end.

(** ** Concrete deployments *)

(** The three replicas the README describes; docker-compose.yml's four are in
    Deploy. *)
Definition trio_host (addr : string) : string :=
  if bool_decide (addr = "replica1:9001"%string) then "node1"
  else if bool_decide (addr = "replica2:9002"%string) then "node2"
  else if bool_decide (addr = "replica3:9003"%string) then "node3"
  else EmptyString.

Definition trio : Deployment :=
  mkDeployment
    (<["node1" := mkConfig "node1" ["replica2:9002"; "replica3:9003"] "gateway:8080"]>
    (<["node2" := mkConfig "node2" ["replica1:9001"; "replica3:9003"] "gateway:8080"]>
    (<["node3" := mkConfig "node3" ["replica1:9001"; "replica2:9002"] "gateway:8080"]> ∅)))%string
    trio_host.

Ltac solve_deployed :=
  split; intros i cfg Hcfg; simpl in Hcfg;
  repeat (apply lookup_insert_Some in Hcfg as [[<- <-]|[_ Hcfg]];
          [first [reflexivity | apply (bool_decide_unpack _); vm_compute; exact I
                 | vm_compute; reflexivity]|]);
  by apply lookup_empty_Some in Hcfg.

#[export] Instance trio_deployed : WellDeployed trio.
Proof. solve_deployed. Qed.

(** ** Lemmas: deployments *)

Section deployments.
Context (D : Deployment) {WD : WellDeployed D}.

Lemma elem_of_members i : i ∈ members D <-> is_Some (d_cfgs D !! i).
Proof. apply elem_of_dom. Qed.

Lemma member_cfg i cfg : d_cfgs D !! i = Some cfg -> i ∈ members D.
Proof. intros H. apply elem_of_members. by exists cfg. Qed.

Lemma member_nonempty i : i ∈ members D -> i <> EmptyString.
Proof.
  intros [cfg Hc]%elem_of_members ->. pose proof (wd_valid _ _ Hc) as Hv.
  unfold Validate in Hv. by rewrite (wd_id _ _ Hc), bool_decide_true in Hv.
Qed.

Lemma peer_host i cfg p :
  d_cfgs D !! i = Some cfg -> p ∈ cfg_PeerAddrs cfg -> d_host D p ∈ members D ∖ {[i]}.
Proof.
  intros Hc Hp. rewrite <- (wd_peers _ _ Hc).
  apply elem_of_list_to_set, list_elem_of_fmap. eauto.
Qed.

Lemma members_size i cfg :
  d_cfgs D !! i = Some cfg -> size (members D) = S (length (cfg_PeerAddrs cfg)).
Proof.
  intros Hc. pose proof (member_cfg _ _ Hc).
  rewrite <- (length_map (d_host D)), <- (size_list_to_set (C:=gset string)) by (by eapply wd_nodup).
  rewrite (wd_peers _ _ Hc), size_difference by set_solver.
  rewrite size_singleton. assert (size (members D) <> 0%nat); [|lia].
  intros Hz%size_empty_inv. set_solver.
Qed.

(** [majority] is a strict majority of the members. *)
Lemma majority_members i cfg :
  d_cfgs D !! i = Some cfg ->
  majority (cfg_PeerAddrs cfg) = Z.of_nat (size (members D) / 2 + 1).
Proof.
  intros Hc. unfold majority, len. rewrite (members_size _ _ Hc).
  rewrite Nat2Z.inj_add, Nat2Z.inj_div. f_equal. f_equal. lia.
Qed.

Lemma remove_one_elem p q l : q ∈ remove_one p l -> q ∈ l.
Proof.
  induction l as [|x l IH]; simpl; [done|]. case_bool_decide; [by constructor|].
  intros [->|?]%elem_of_cons; constructor; auto.
Qed.

Lemma remove_one_NoDup p l :
  NoDup (map (d_host D) l) -> NoDup (map (d_host D) (remove_one p l)) /\
  (forall q, q ∈ remove_one p l -> p ∈ l -> d_host D q <> d_host D p).
Proof.
  induction l as [|x l IH]; simpl; [by split; [|intros ? ?%elem_of_nil]|].
  intros [Hx Hl]%list.NoDup_cons. case_bool_decide; simpl.
  - subst x. split; [done|]. intros q Hq _ Heq. apply Hx. rewrite <- Heq.
    by apply (list_elem_of_fmap_2 (d_host D)).
  - destruct (IH Hl) as [IH1 IH2]. split.
    + apply list.NoDup_cons. split; [|done]. intros (q & Heq & Hq)%list_elem_of_fmap.
      apply Hx. rewrite Heq. apply (list_elem_of_fmap_2 (d_host D)). by eapply remove_one_elem.
    + intros q [->|Hq]%elem_of_cons [->|Hp]%elem_of_cons; [done| |done|by apply IH2].
      intros Heq. apply Hx. rewrite Heq. by apply (list_elem_of_fmap_2 (d_host D)).
Qed.
End deployments.
