(* ===== verification/History.v ===== *)
(** * History: what a run has established

    The proofs about [Cluster] speak of facts the cluster state does not
    hold: who was elected in a term and with whose votes, what log the leader
    of a term has written, who voted first for whom and with what log.  A
    [Hist] records them.  It is not part of the model: the safety proofs show
    that every reachable cluster has one ([Invariant], [Safety]). *)

From Stdlib Require Import ZArith Lia.
From stdpp Require Import base list strings gmap option.
From S2P Require Import Prelude Types RaftLog Node Election Replication Cluster.
Open Scope Z_scope.

(** The leader of a term: the votes that elected it, its log at the election
    and the log it has written since. *)
Record LeadRec : Type := mkLeadRec {
  l_id : string;
  l_quorum : gset string;
  l_init : list LogEntry;
  l_log : list LogEntry;
}.

(** The first vote a replica gives in a term: the candidate, the voter's log,
    and the last entry the candidate announced. *)
Record VoteRec : Type := mkVoteRec {
  v_cand : string;
  v_log : list LogEntry;
  v_lastIndex : Z;
  v_lastTerm : Z;
}.

Record Hist : Type := mkHist {
  h_lead : gmap Z LeadRec;
  h_vote : gmap (string * Z) VoteRec;
}.

Definition hist0 : Hist := mkHist ∅ ∅.

(** The last entry of a log, as a vote request announces it. *)
Definition log_lastIndex (l : list LogEntry) : Z := Log.LastIndex (Log.mk l).
Definition log_lastTerm (l : list LogEntry) : Z := Log.LastTerm (Log.mk l).

(** Histories grow: leaders' logs are appended to, nothing is forgotten. *)
Record hist_le (h h' : Hist) : Prop := {
  hle_lead : forall T L, h_lead h !! T = Some L -> exists L', h_lead h' !! T = Some L' /\
    l_id L' = l_id L /\ l_quorum L' = l_quorum L /\ l_init L' = l_init L /\
    l_log L `prefix_of` l_log L';
  hle_vote : forall k v, h_vote h !! k = Some v -> h_vote h' !! k = Some v;
}.

#[export] Instance hist_le_refl : Reflexive hist_le.
Proof. intros h. split; [|done]. intros T L HL. exists L. split_and!; done. Qed.

#[export] Instance hist_le_trans : Transitive hist_le.
Proof.
  intros h1 h2 h3 [H1 V1] [H2 V2]. split; [|by auto].
  intros T L HL. destruct (H1 _ _ HL) as (L2 & HL2 & ? & ? & ? & ?).
  destruct (H2 _ _ HL2) as (L3 & HL3 & ? & ? & ? & ?).
  exists L3. split_and!; [done|congruence..|by etrans].
Qed.

(** [holds h T m l]: the log [l] has the entries the leader of term [T] has
    written up to position [m]. *)
Definition holds (h : Hist) (T : Z) (m : nat) (l : list LogEntry) : Prop :=
  exists L, h_lead h !! T = Some L /\ (m < length (l_log L))%nat /\ agree_upto m l (l_log L).

(** Every entry of the log was written by the leader of its term, together
    with everything before it. *)
Definition coherent (h : Hist) (l : list LogEntry) : Prop :=
  forall i e, l !! i = Some e -> (0 < i)%nat -> holds h (le_Term e) i l.

(** A log a replica of term [T] may have. *)
Record log_ok (h : Hist) (T : Z) (l : list LogEntry) : Prop := {
  lok_wf : Log.wf l;
  lok_coherent : coherent h l;
  lok_sorted : Log.term_sorted l;
  lok_terms : Log.terms_le l T;
}.

(** No leader elected after term [T], up to term [U], lacks the entries of
    term [T]'s leader up to [m]. *)
Definition safe_upto (h : Hist) (T U : Z) (m : nat) : Prop :=
  forall V L, T < V <= U -> h_lead h !! V = Some L -> holds h T m (l_init L).

(** ** Monotonicity *)

Section monotone.
Context (h h' : Hist) (Hle : hist_le h h').

Lemma holds_mono T m l : holds h T m l -> holds h' T m l.
Proof.
  intros (L & HL & Hm & Ha). destruct (hle_lead _ _ Hle _ _ HL) as (L' & HL' & _ & _ & _ & Hp).
  exists L'. split_and!; [done| |].
  - apply prefix_length in Hp. lia.
  - etrans; [done|]. by apply agree_upto_prefix.
Qed.

(** What holds later of a part already written held before. *)
Lemma holds_anti T m l L :
  h_lead h !! T = Some L -> (m < length (l_log L))%nat -> holds h' T m l -> holds h T m l.
Proof.
  intros HL Hm (L2 & HL2 & _ & Ha).
  destruct (hle_lead _ _ Hle _ _ HL) as (L' & HL' & _ & _ & _ & Hp). simplify_eq.
  exists L. split_and!; [done..|]. etrans; [done|]. symmetry. by apply agree_upto_prefix.
Qed.

Lemma coherent_mono l : coherent h l -> coherent h' l.
Proof. intros H i e ??. apply holds_mono. by apply H. Qed.

Lemma log_ok_mono T T' l : log_ok h T l -> T <= T' -> log_ok h' T' l.
Proof.
  intros [H1 H2 H3 H4] ?. split; [done|by apply coherent_mono|done|].
  by eapply Log.terms_le_mono.
Qed.

Lemma safe_upto_anti T U m L :
  h_lead h !! T = Some L -> (m < length (l_log L))%nat -> safe_upto h' T U m -> safe_upto h T U m.
Proof.
  intros HL Hm Hs V L1 HV HL1. destruct (hle_lead _ _ Hle _ _ HL1) as (L1' & HL1' & _ & _ & Hi & _).
  eapply holds_anti; [done..|]. rewrite <- Hi. by eapply Hs.
Qed.
End monotone.

Lemma safe_upto_le h T U U' m : safe_upto h T U' m -> U <= U' -> safe_upto h T U m.
Proof. intros H ? V L ? ?. eapply H; [|done]. lia. Qed.

(** ** Logs *)

Section logs.
Context (h : Hist).

Lemma holds_le T m m' l : holds h T m l -> (m' <= m)%nat -> holds h T m' l.
Proof.
  intros (L & ? & ? & ?) ?. exists L. split_and!; [done|lia|by eapply agree_upto_le].
Qed.

Lemma holds_agree T m l l' : holds h T m l -> agree_upto m l l' -> holds h T m l'.
Proof. intros (L & ? & ? & Ha) Hl. exists L. split_and!; [done..|]. by rewrite <- Hl. Qed.

Lemma holds_length T m l : holds h T m l -> (m < length l)%nat.
Proof. intros (L & ? & ? & Ha). symmetry in Ha. by eapply agree_upto_length. Qed.

(** Two logs that hold the same part agree on it. *)
Lemma holds_inj T m l l' : holds h T m l -> holds h T m l' -> agree_upto m l l'.
Proof. intros (L & ? & ? & Ha) (L' & ? & ? & Ha'). simplify_eq. by rewrite Ha, Ha'. Qed.

(** The log matching property: two coherent logs with entries of the same
    term at the same index agree up to there. *)
Lemma log_ok_matching T T' l l' : log_ok h T l -> log_ok h T' l' -> Log.matching l l'.
Proof.
  intros H H' i e e' He He' Ht. destruct i as [|i].
  - apply agree_upto_intro. intros m ?. replace m with 0%nat by lia.
    by rewrite (proj1 (lok_wf _ _ _ H)), (proj1 (lok_wf _ _ _ H')).
  - eapply (holds_inj (le_Term e)).
    + by eapply (lok_coherent _ _ _ H); [|lia].
    + rewrite Ht. by eapply (lok_coherent _ _ _ H'); [|lia].
Qed.

Lemma coherent_take l n : coherent h l -> coherent h (take n l).
Proof.
  intros H i e [Hi Hn]%lookup_take_Some Hpos.
  eapply holds_agree; [by apply H|]. symmetry. by apply agree_upto_take.
Qed.

Lemma log_ok_take T l n : log_ok h T l -> (0 < n)%nat -> log_ok h T (take n l).
Proof.
  intros [H1 H2 H3 H4] ?. split.
  - by apply Log.wf_take.
  - by apply coherent_take.
  - by apply Log.term_sorted_take.
  - by apply Log.terms_le_take.
Qed.

Lemma log_ok_le T T' l : log_ok h T l -> T <= T' -> log_ok h T' l.
Proof. by apply log_ok_mono. Qed.

(** An entry of a coherent log is from a term that had a leader. *)
Lemma log_ok_lead T l i e :
  log_ok h T l -> l !! i = Some e -> (0 < i)%nat -> exists L, h_lead h !! le_Term e = Some L.
Proof. intros H Hi Hpos. destruct (lok_coherent _ _ _ H _ _ Hi Hpos) as (L & ? & _). eauto. Qed.

(** With no leader in term [T], a log of term [T] is a log of term [T - 1]. *)
Lemma log_ok_no_lead T l :
  log_ok h T l -> 0 < T -> h_lead h !! T = None -> log_ok h (T - 1) l.
Proof.
  intros H HT Hn. pose proof H as [H1 H2 H3 H4]. split; [done..|].
  intros i e Hi. specialize (H4 _ _ Hi).
  destruct (decide (le_Term e = T)) as [Heq|]; [|lia].
  destruct i as [|i].
  - rewrite (proj1 H1) in Hi. simplify_eq. simpl in *. lia.
  - destruct (log_ok_lead _ _ _ _ H Hi) as [L HL]; [lia|]. congruence.
Qed.

Lemma log_ok_last T l :
  log_ok h T l -> exists e, l !! (length l - 1)%nat = Some e /\
    log_lastTerm l = le_Term e /\ log_lastIndex l = Z.of_nat (length l - 1).
Proof. intros H. apply (Log.last_lookup (Log.mk l)). apply Log.wf_length, (lok_wf _ _ _ H). Qed.
End logs.

(** ** Votes, acknowledgements, commitment *)

Section evidence.
Context (D : Deployment).

(** Replica [w] has acknowledged, in term [T], the leader's log up to [m]:
    it answered a request with success, or it is the leader itself. *)
Definition acked (net : list message) (h : Hist) (w : string) (T : Z) (m : nat) : Prop :=
  (exists src p req resp, MAppendResp src p req resp ∈ net /\ d_host D p = w /\
      areq_Term req = T /\ aresp_Success resp = true /\
      (m <= Z.to_nat (areq_PrevLogIndex req) + length (areq_Entries req))%nat) \/
  (exists L, h_lead h !! T = Some L /\ l_id L = w /\ (m < length (l_log L))%nat).

(** Position [m] is committed in term [T]: the leader of [T] wrote it in
    [T], and a quorum acknowledged it in [T]. *)
Definition committed (net : list message) (h : Hist) (T : Z) (m : nat) : Prop :=
  exists L Q, h_lead h !! T = Some L /\ (m < length (l_log L))%nat /\
    Log.term_at (l_log L) m = T /\ is_quorum (members D) Q /\
    forall w, w ∈ Q -> acked net h w T m.

(** A commit index [c] of a replica of term [T] is justified. *)
Definition commit_ok (net : list message) (h : Hist) (T : Z) (l : list LogEntry) (c : nat) : Prop :=
  c = 0%nat \/
  exists T0 m, T0 <= T /\ committed net h T0 m /\ (c <= m)%nat /\ holds h T0 c l.

(** A granted vote of [w] for [c] in term [T]: the first of the term, or
    one that cannot matter because the term has its leader already. *)
Definition granted (h : Hist) (w : string) (T : Z) (c : string) : Prop :=
  (exists v, h_vote h !! (w, T) = Some v /\ v_cand v = c) \/
  (exists L, h_lead h !! T = Some L /\ w ∉ l_quorum L).

Lemma acked_mono net net' h h' w T m :
  hist_le h h' -> (forall x, x ∈ net -> x ∈ net') -> acked net h w T m -> acked net' h' w T m.
Proof.
  intros Hle Hnet [(src & p & req & resp & Hin & H)|(L & HL & Hid & Hm)].
  - left. exists src, p, req, resp. eauto.
  - right. destruct (hle_lead _ _ Hle _ _ HL) as (L' & HL' & Hid' & _ & _ & Hp).
    exists L'. split_and!; [done|congruence|]. apply prefix_length in Hp. lia.
Qed.

Lemma committed_mono net net' h h' T m :
  hist_le h h' -> (forall x, x ∈ net -> x ∈ net') -> committed net h T m -> committed net' h' T m.
Proof.
  intros Hle Hnet (L & Q & HL & Hm & Ht & HQ & Ha).
  destruct (hle_lead _ _ Hle _ _ HL) as (L' & HL' & _ & _ & _ & Hp).
  exists L', Q. split_and!; [done| | |done|].
  - apply prefix_length in Hp. lia.
  - rewrite <- Ht. unfold Log.term_at. destruct Hp as [z ->]. by rewrite lookup_app_l by lia.
  - intros w Hw. eapply acked_mono; [done..|]. by apply Ha.
Qed.

Lemma commit_ok_mono net net' h h' T T' l c :
  hist_le h h' -> (forall x, x ∈ net -> x ∈ net') -> T <= T' ->
  commit_ok net h T l c -> commit_ok net' h' T' l c.
Proof.
  intros Hle Hnet ? [?|(T0 & m & ? & Hc & ? & Hh)]; [by left|right].
  exists T0, m. split_and!; [lia|by eapply committed_mono|done|by eapply holds_mono].
Qed.

Lemma commit_ok_agree net h T l l' c :
  commit_ok net h T l c -> agree_upto c l l' -> commit_ok net h T l' c.
Proof.
  intros [?|(T0 & m & ? & ? & ? & ?)] ?; [by left|right].
  exists T0, m. split_and!; [done..|]. by eapply holds_agree.
Qed.

Lemma commit_ok_le net h T l c c' :
  commit_ok net h T l c -> (c' <= c)%nat -> commit_ok net h T l c'.
Proof.
  intros [?|(T0 & m & ? & ? & ? & ?)] ?; [left; lia|right].
  exists T0, m. split_and!; [done|done|lia|]. by eapply holds_le.
Qed.

Lemma granted_mono h h' w T c : hist_le h h' -> granted h w T c -> granted h' w T c.
Proof.
  intros Hle [(v & Hv & ?)|(L & HL & Hw)].
  - left. exists v. split; [by apply (hle_vote _ _ Hle)|done].
  - right. destruct (hle_lead _ _ Hle _ _ HL) as (L' & HL' & _ & Hq & _).
    exists L'. split; [done|]. by rewrite Hq.
Qed.
End evidence.

#[export] Hint Resolve holds_mono coherent_mono granted_mono acked_mono committed_mono : go.
