(* ===== verification/Invariant.v ===== *)
(** * Invariant: what every reachable cluster satisfies

    The invariant relates a cluster to a history: each leader was elected by
    a quorum of first votes, each vote and each message says what its sender
    knew, each replica's log, votes and commit index are justified.  Leader
    completeness ([leader_completeness_hist]) follows from the invariant
    alone, by quorum intersection and induction on the term. *)

From Stdlib Require Import ZArith Lia.
From stdpp Require Import base list strings gmap option.
From S2P Require Import Prelude Types RaftLog Node Election Replication Cluster History.
Open Scope Z_scope.

Section invariant.
Context (D : Deployment).

(** ** The history *)

Record lead_ok (h : Hist) (T : Z) (L : LeadRec) : Prop := {
  ldo_term : 0 < T;
  ldo_id : l_id L ∈ l_quorum L;
  ldo_quorum : is_quorum (members D) (l_quorum L);
  ldo_votes : forall w, w ∈ l_quorum L -> exists v, h_vote h !! (w, T) = Some v /\
    v_cand v = l_id L /\ v_lastIndex v = log_lastIndex (l_init L) /\
    v_lastTerm v = log_lastTerm (l_init L);
  ldo_init : log_ok h (T - 1) (l_init L);
  ldo_prefix : l_init L `prefix_of` l_log L;
  ldo_own : forall i e, l_log L !! i = Some e -> (length (l_init L) <= i)%nat -> le_Term e = T;
  ldo_log : log_ok h T (l_log L);
}.

Record vote_ok (net : list message) (h : Hist) (w : string) (T : Z) (v : VoteRec) : Prop := {
  vo_term : 0 < T;
  vo_cand : v_cand v <> EmptyString;
  vo_req : v_cand v = w \/ exists p req, MVoteReq (v_cand v) p req ∈ net /\ vreq_Term req = T;
  vo_log : log_ok h T (v_log v);
  vo_uptodate : up_to_date (v_lastTerm v) (v_lastIndex v)
                  (log_lastTerm (v_log v)) (log_lastIndex (v_log v)) = true;
  vo_safe : forall T' m, T' < T -> acked D net h w T' m ->
    safe_upto h T' (T - 1) m -> holds h T' m (v_log v);
}.

Record hist_ok (net : list message) (h : Hist) : Prop := {
  ho_lead : forall T L, h_lead h !! T = Some L -> lead_ok h T L;
  ho_vote : forall w T v, h_vote h !! (w, T) = Some v -> vote_ok net h w T v;
}.

(** ** Messages *)

Record vreq_ok (k : Z) (src p : string) (req : VoteRequest) : Prop := {
  vro_peer : d_host D p ∈ members D ∖ {[src]};
  vro_src : src ∈ members D;
  vro_cand : vreq_CandidateID req = src;
  vro_term : 0 < vreq_Term req <= k;
}.

Record areq_ok (k : Z) (net : list message) (h : Hist) (src p : string)
    (req : AppendEntriesRequest) (L : LeadRec) : Prop := {
  aro_peer : d_host D p ∈ members D ∖ {[src]};
  aro_from : forall cfg, d_cfgs D !! src = Some cfg -> p ∈ cfg_PeerAddrs cfg;
  aro_leader : areq_LeaderID req = src;
  aro_term : areq_Term req <= k;
  aro_id : l_id L = src;
  aro_prev : 0 <= areq_PrevLogIndex req;
  aro_prev_lt : (Z.to_nat (areq_PrevLogIndex req) < length (l_log L))%nat;
  aro_prevTerm : areq_PrevLogTerm req = Log.term_at (l_log L) (Z.to_nat (areq_PrevLogIndex req));
  aro_entries : Log.segment (l_log L) (Z.to_nat (areq_PrevLogIndex req)) (areq_Entries req);
  aro_commit_nonneg : 0 <= areq_LeaderCommit req;
  aro_commit_le : (Z.to_nat (areq_LeaderCommit req) <=
                   Z.to_nat (areq_PrevLogIndex req) + length (areq_Entries req))%nat;
  aro_commit : commit_ok D net h (areq_Term req) (l_log L) (Z.to_nat (areq_LeaderCommit req));
}.

Definition msg_ok (k : Z) (net : list message) (h : Hist) (m : message) : Prop :=
  match m with
  | MVoteReq src p req => vreq_ok k src p req
  | MVoteResp src p req resp =>
      vreq_ok k src p req /\ vresp_Term resp <= k /\
      (vresp_VoteGranted resp = true -> granted h (d_host D p) (vreq_Term req) src)
  | MAppendReq src p req =>
      exists L, h_lead h !! areq_Term req = Some L /\ areq_ok k net h src p req L
  | MAppendResp src p req resp =>
      (exists L, h_lead h !! areq_Term req = Some L /\ areq_ok k net h src p req L) /\
      aresp_Term resp <= k /\ aresp_ConflictIndex resp <= areq_PrevLogIndex req
  end.

(** ** Replicas *)

(** The leader's maps, for one peer. *)
Record peer_ok (net : list message) (h : Hist) (n : Node) (p : string) (ni mi : Z) : Prop := {
  po_next : 1 <= ni <= len (Log.entries (n_log n));
  po_match : 0 <= mi < len (Log.entries (n_log n));
  po_acked : 0 < mi -> acked D net h (d_host D p) (n_currentTerm n) (Z.to_nat mi);
}.

Record election_ok (h : Hist) (i : string) (n : Node) (e : ElectionRun) : Prop := {
  eo_term : er_term e <= n_currentTerm n;
  eo_nodup : NoDup (map (d_host D) (er_pending e));
  eo_peers : forall p, p ∈ er_pending e -> p ∈ n_peers n;
  eo_votes : n_state n = Candidate -> er_term e = n_currentTerm n ->
    exists S, S ⊆ members D /\ er_votes e = Z.of_nat (size S) /\ i ∈ S /\
      (forall p, p ∈ er_pending e -> d_host D p ∉ S) /\
      (forall w, w ∈ S -> granted h w (n_currentTerm n) i);
}.

Record node_ok (k : Z) (net : list message) (h : Hist) (er : option ElectionRun)
    (i : string) (n : Node) : Prop := {
  no_id : n_id n = i;
  no_cfg : exists cfg, d_cfgs D !! i = Some cfg /\ n_peers n = cfg_PeerAddrs cfg;
  no_term : 0 <= n_currentTerm n <= k;
  no_log : log_ok h (n_currentTerm n) (Log.entries (n_log n));
  no_commit : 0 <= n_commitIndex n < len (Log.entries (n_log n));
  no_commit_ok : commit_ok D net h (n_currentTerm n) (Log.entries (n_log n))
                   (Z.to_nat (n_commitIndex n));
  no_vote : forall T v, h_vote h !! (i, T) = Some v -> T <= n_currentTerm n /\
    (T = n_currentTerm n -> h_lead h !! T = None -> n_votedFor n = v_cand v);
  no_voted : n_votedFor n <> EmptyString -> h_lead h !! n_currentTerm n = None ->
    exists v, h_vote h !! (i, n_currentTerm n) = Some v /\ v_cand v = n_votedFor n;
  no_elector : forall L, h_lead h !! n_currentTerm n = Some L -> i ∈ l_quorum L ->
    n_votedFor n = l_id L;
  no_role : n_state n <> Follower -> n_votedFor n = i /\ 0 < n_currentTerm n;
  no_candidate : n_state n = Candidate ->
    (forall L, h_lead h !! n_currentTerm n = Some L -> l_id L <> i) /\
    (forall w v, h_vote h !! (w, n_currentTerm n) = Some v -> v_cand v = i ->
       v_lastIndex v = Log.LastIndex (n_log n) /\ v_lastTerm v = Log.LastTerm (n_log n)) /\
    (forall p req, MVoteReq i p req ∈ net -> vreq_Term req = n_currentTerm n ->
       vreq_LastLogIndex req = Log.LastIndex (n_log n) /\
       vreq_LastLogTerm req = Log.LastTerm (n_log n));
  no_leader : n_state n = Leader ->
    (exists L, h_lead h !! n_currentTerm n = Some L /\ l_id L = i /\
       l_log L = Log.entries (n_log n)) /\
    (forall p, p ∈ n_peers n -> exists ni mi, n_nextIndex n !! p = Some ni /\
       n_matchIndex n !! p = Some mi /\ peer_ok net h n p ni mi);
  no_acked : forall T m, acked D net h i T m -> T <= n_currentTerm n /\
    (safe_upto h T (n_currentTerm n) m -> holds h T m (Log.entries (n_log n)));
  no_requests : forall p req, MVoteReq i p req ∈ net -> vreq_Term req <= n_currentTerm n;
  no_election : forall e, er = Some e -> election_ok h i n e;
}.

Record Inv (k : Z) (c : Cluster) (h : Hist) : Prop := {
  inv_dom : dom (c_nodes c) = members D;
  inv_hist : hist_ok (c_net c) h;
  inv_msgs : forall m, m ∈ c_net c -> msg_ok k (c_net c) h m;
  inv_nodes : forall i n, c_nodes c !! i = Some n ->
    node_ok k (c_net c) h (c_elections c !! i) i n;
}.

(** ** Leader completeness *)

Section completeness.
Context (net : list message) (h : Hist) (Hh : hist_ok net h).

Lemma lead_log T L : h_lead h !! T = Some L -> log_ok h T (l_log L).
Proof. intros H. apply (ldo_log _ _ _ (ho_lead _ _ Hh _ _ H)). Qed.

(** The leader's log continues its initial log with its own entries. *)
Lemma holds_init_log T U L m :
  h_lead h !! U = Some L -> holds h T m (l_init L) -> holds h T m (l_log L).
Proof.
  intros HL Hm. eapply holds_agree; [done|]. apply agree_upto_prefix.
  - by eapply holds_length.
  - apply (ldo_prefix _ _ _ (ho_lead _ _ Hh _ _ HL)).
Qed.

Lemma safe_upto_log T U L m :
  h_lead h !! U = Some L -> safe_upto h T U m -> (T <= U) ->
  (exists L0, h_lead h !! T = Some L0 /\ (m < length (l_log L0))%nat) -> holds h T m (l_log L).
Proof.
  intros HL Hs ? (L0 & HL0 & Hm). destruct (decide (T = U)) as [->|].
  - simplify_eq. exists L. by split_and!.
  - eapply holds_init_log; [done|]. eapply Hs; [|done]. lia.
Qed.

(** A log whose last entry is as up to date as a log that holds term
    [T]'s log up to [m] holds it too, when the leaders in between do. *)
Lemma up_to_date_holds T U m T1 T2 (l l' : list LogEntry) :
  log_ok h T1 l -> log_ok h T2 l' -> T2 < U ->
  up_to_date (log_lastTerm l') (log_lastIndex l') (log_lastTerm l) (log_lastIndex l) = true ->
  holds h T m l -> Log.term_at l m = T -> (0 < T) ->
  (forall V L, T < V < U -> h_lead h !! V = Some L -> holds h T m (l_init L)) ->
  holds h T m l'.
Proof.
  intros Hl Hl' HU Hup Hm Ht HT Hsafe.
  destruct (log_ok_last _ _ _ Hl) as (e & He & Hte & Hie).
  destruct (log_ok_last _ _ _ Hl') as (e' & He' & Hte' & Hie').
  pose proof (holds_length _ _ _ _ Hm) as Hml.
  destruct (lookup_lt_is_Some_2 _ _ Hml) as [x Hx].
  assert (le_Term x = T) as Hxt by (by rewrite <- (Log.term_at_Some _ _ _ Hx)).
  assert (T <= le_Term e) as HTe.
  { rewrite <- Hxt. eapply (lok_sorted _ _ _ Hl m); [|done..]. lia. }
  pose proof (Log.wf_length _ (lok_wf _ _ _ Hl)). pose proof (Log.wf_length _ (lok_wf _ _ _ Hl')).
  unfold up_to_date in Hup. rewrite Hte, Hte', Hie, Hie' in Hup.
  apply orb_true_iff in Hup as [Hup%bool_decide_eq_true|[Hup1 Hup2]%andb_true_iff].
  - (* later last term: that term's leader holds it, and wrote past it *)
    assert (T < le_Term e') as HTe' by lia.
    assert (0 < length l' - 1)%nat as Hpos.
    { destruct (decide (length l' - 1 = 0)%nat) as [Hz|]; [|lia].
      rewrite Hz, (proj1 (lok_wf _ _ _ Hl')) in He'. simplify_eq. simpl in *. lia. }
    destruct (lok_coherent _ _ _ Hl' _ _ He' Hpos) as (L & HL & HlL & HaL).
    pose proof (lok_terms _ _ _ Hl' _ _ He').
    assert (holds h T m (l_log L)) as HTL.
    { eapply holds_init_log; [done|]. eapply Hsafe; [|done]. lia. }
    eapply holds_agree; [done|]. symmetry. eapply agree_upto_le; [done|].
    destruct (decide (m <= length l' - 1)%nat); [done|].
    destruct HTL as (L0 & HL0 & Hm0 & Ha0).
    assert (l_log L !! m = Some x) as HxL.
    { rewrite (agree_upto_lookup _ _ _ _ Ha0) by lia.
      destruct Hm as (L0' & ? & ? & Ha0'). simplify_eq.
      by rewrite <- (agree_upto_lookup _ _ _ _ Ha0') by lia. }
    assert (le_Term e' <= le_Term x); [|lia].
    eapply (lok_sorted _ _ _ (lead_log _ _ HL) (length l' - 1)%nat m); [lia| |done].
    by rewrite <- (agree_upto_lookup _ _ _ _ HaL) by lia.
  - (* same last term: the longer log extends the shorter *)
    apply bool_decide_eq_true in Hup1. apply bool_decide_eq_true in Hup2.
    assert (0 < length l - 1)%nat as Hpos.
    { destruct (decide (length l - 1 = 0)%nat) as [Hz|]; [|lia].
      rewrite Hz, (proj1 (lok_wf _ _ _ Hl)) in He. simplify_eq. simpl in *. lia. }
    assert (holds h (le_Term e) (length l - 1) l) as H1 by (by eapply (lok_coherent _ _ _ Hl)).
    assert (holds h (le_Term e') (length l' - 1) l') as H2 by (eapply (lok_coherent _ _ _ Hl'); [done|lia]).
    rewrite Hup1 in H2. eapply holds_agree; [done|].
    eapply agree_upto_le; [|apply Nat.lt_le_pred; rewrite Nat.sub_1_r in *; exact Hml].
    rewrite <- Nat.sub_1_r. eapply holds_inj; [done|]. eapply holds_le; [done|]. lia.
Qed.

(** Leader completeness: what is committed in a term is in the initial
    log of every later leader. *)
Lemma leader_completeness_hist T m U L :
  committed D net h T m -> h_lead h !! U = Some L -> T < U -> holds h T m (l_init L).
Proof.
  intros Hc. assert (0 < T) as HT.
  { destruct Hc as (L0 & Q & HL0 & _). apply (ldo_term _ _ _ (ho_lead _ _ Hh _ _ HL0)). }
  revert L. induction (Z.lt_wf T U) as [U _ IH]. intros L HL HTU.
  destruct Hc as (L0 & Q & HL0 & Hm & Ht & HQ & Hack).
  pose proof (ho_lead _ _ Hh _ _ HL) as HLok.
  destruct (quorum_intersect _ _ _ HQ (ldo_quorum _ _ _ HLok)) as (w & HwQ & HwL).
  destruct (ldo_votes _ _ _ HLok w HwL) as (v & Hv & Hcand & Hvi & Hvt).
  pose proof (ho_vote _ _ Hh _ _ _ Hv) as Hvok.
  assert (holds h T m (v_log v)) as Hvl.
  { eapply (vo_safe _ _ _ _ _ Hvok); [done|by apply Hack|].
    intros V L1 HV HL1. eapply IH; [|done|]; lia. }
  eapply (up_to_date_holds T U m U (U - 1) (v_log v));
    [apply (vo_log _ _ _ _ _ Hvok)|apply (ldo_init _ _ _ HLok)|lia| |done| |done|].
  - rewrite <- Hvi, <- Hvt. apply (vo_uptodate _ _ _ _ _ Hvok).
  - destruct Hvl as (L0' & ? & ? & Ha). simplify_eq.
    unfold Log.term_at. by rewrite (agree_upto_lookup _ _ _ _ Ha) by lia.
  - intros V L1 HV HL1. eapply IH; [|done|]; lia.
Qed.
End completeness.
End invariant.
