(* ===== verification/Frame.v ===== *)
(** * Frame: what a step of one replica leaves true of the others

    A step changes one replica, extends the history and posts messages.
    [ext] says what the extension must not do to a replica that did not act;
    [Inv_step] rebuilds the invariant from the facts about the acting replica
    alone. *)

From Stdlib Require Import ZArith Lia.
From stdpp Require Import base list strings gmap option.
From S2P Require Import Prelude Types RaftLog Node Election Replication Cluster History Invariant.
Open Scope Z_scope.

(** The fields the invariant speaks of. *)
Definition same_core (n n' : Node) : Prop :=
  n_id n' = n_id n /\ n_peers n' = n_peers n /\ n_currentTerm n' = n_currentTerm n /\
  n_votedFor n' = n_votedFor n /\ n_log n' = n_log n /\ n_state n' = n_state n /\
  n_commitIndex n' = n_commitIndex n /\ n_nextIndex n' = n_nextIndex n /\
  n_matchIndex n' = n_matchIndex n.

#[export] Instance same_core_equiv : Equivalence same_core.
Proof.
  split; unfold same_core.
  - intros n. by split_and!.
  - intros n n' H. destruct_and!. by split_and!.
  - intros n1 n2 n3 H1 H2. destruct_and!. split_and!; by etrans.
Qed.

Section frame.
Context (D : Deployment) {WD : WellDeployed D}.

(** The extension of network and history does not concern replica [i]. *)
Record ext (i : string) (net net' : list message) (h h' : Hist) : Prop := {
  ext_le : hist_le h h';
  ext_net : forall m, m ∈ net -> m ∈ net';
  ext_vote : forall T v, h_vote h' !! (i, T) = Some v -> h_vote h !! (i, T) = Some v;
  ext_lead : forall T L, h_lead h' !! T = Some L -> l_id L = i -> h_lead h !! T = Some L;
  ext_cand : forall w T v, h_vote h' !! (w, T) = Some v -> v_cand v = i ->
    h_vote h !! (w, T) = Some v \/
    exists p req, MVoteReq i p req ∈ net /\ vreq_Term req = T /\
      v_lastIndex v = vreq_LastLogIndex req /\ v_lastTerm v = vreq_LastLogTerm req;
  ext_req : forall p req, MVoteReq i p req ∈ net' -> MVoteReq i p req ∈ net;
  ext_ack : forall src p req resp, MAppendResp src p req resp ∈ net' ->
    d_host D p = i -> aresp_Success resp = true -> MAppendResp src p req resp ∈ net;
}.

(** Acknowledged positions are positions of the leader's log. *)
Definition acked_bounded (net : list message) (h : Hist) : Prop :=
  forall w T m, acked D net h w T m ->
    exists L, h_lead h !! T = Some L /\ (m < length (l_log L))%nat.

Lemma msgs_acked_bounded k net h :
  (forall m, m ∈ net -> msg_ok D k net h m) -> acked_bounded net h.
Proof.
  intros Hmsgs w T m [(src & p & req & resp & Hin & _ & <- & _ & Hle)|(L & HL & _ & Hm)]; [|by eauto].
  destruct (Hmsgs _ Hin) as [(L & HL & Hok) _]. exists L. split; [done|].
  pose proof (Log.segment_length _ _ _ (aro_entries _ _ _ _ _ _ _ _ Hok) (aro_prev_lt _ _ _ _ _ _ _ _ Hok)). lia.
Qed.

Lemma Inv_acked_bounded k c h : Inv D k c h -> acked_bounded (c_net c) h.
Proof. intros H. eapply msgs_acked_bounded, inv_msgs, H. Qed.

Lemma ext_acked i net net' h h' T m :
  ext i net net' h h' -> acked D net' h' i T m -> acked D net h i T m.
Proof.
  intros He [(src & p & req & resp & Hin & Hp & HT & Hs & Hm)|(L & HL & Hid & Hm)].
  - left. exists src, p, req, resp. split_and!; [by eapply (ext_ack _ _ _ _ _ He)|done..].
  - right. exists L. split_and!; [by eapply (ext_lead _ _ _ _ _ He)|done..].
Qed.

Lemma hist_le_None h h' T : hist_le h h' -> h_lead h' !! T = None -> h_lead h !! T = None.
Proof.
  intros Hle Hn. destruct (h_lead h !! T) as [L|] eqn:HL; [|done].
  destruct (hle_lead _ _ Hle _ _ HL) as (L' & ? & _). congruence.
Qed.

Lemma areq_ok_mono k k' net net' h h' src p req L :
  hist_le h h' -> (forall m, m ∈ net -> m ∈ net') -> k <= k' ->
  h_lead h !! areq_Term req = Some L -> areq_ok D k net h src p req L ->
  exists L', h_lead h' !! areq_Term req = Some L' /\ areq_ok D k' net' h' src p req L'.
Proof.
  intros Hle Hnet ? HL []. destruct (hle_lead _ _ Hle _ _ HL) as (L' & HL' & Hid & _ & _ & Hp).
  exists L'. split; [done|]. pose proof (prefix_length _ _ Hp). split; try done; try lia; try congruence.
  - rewrite aro_prevTerm. unfold Log.term_at. destruct Hp as [z ->]. by rewrite lookup_app_l by lia.
  - by eapply Log.segment_mono.
  - eapply commit_ok_mono; [done..|]. eapply commit_ok_agree; [done|].
    apply agree_upto_prefix; [|done].
    pose proof (Log.segment_length _ _ _ aro_entries aro_prev_lt). lia.
Qed.

Lemma msg_ok_mono k k' net net' h h' m :
  hist_le h h' -> (forall m, m ∈ net -> m ∈ net') -> k <= k' ->
  msg_ok D k net h m -> msg_ok D k' net' h' m.
Proof.
  intros Hle Hnet ?. destruct m; simpl.
  - intros []. split; [done..|lia].
  - intros ([] & ? & Hg). split_and!; [split; [done..|lia]|lia|].
    intros Hgr. by eapply granted_mono, Hg.
  - intros (L & HL & Hok). by eapply areq_ok_mono.
  - intros ((L & HL & Hok) & ? & ?). split_and!; [by eapply areq_ok_mono|lia|done].
Qed.

Lemma election_ok_mono h h' i n e : hist_le h h' -> election_ok D h i n e -> election_ok D h' i n e.
Proof.
  intros Hle []. split; [done..|]. intros Hs Ht.
  destruct (eo_votes Hs Ht) as (S & ? & ? & ? & ? & Hg). exists S. split_and!; [done..|].
  intros w Hw. by eapply granted_mono, Hg.
Qed.

Lemma node_ok_ext k k' net net' h h' er i n :
  node_ok D k net h er i n -> ext i net net' h h' -> k <= k' ->
  hist_ok D net' h' -> acked_bounded net h -> node_ok D k' net' h' er i n.
Proof.
  intros [] He ? Hh' Hb. pose proof (ext_le _ _ _ _ _ He) as Hle.
  pose proof (ext_net _ _ _ _ _ He) as Hnet. split; try done.
  - lia.
  - by eapply log_ok_mono.
  - by eapply commit_ok_mono.
  - intros T v Hv. destruct (no_vote T v) as [? Hvf]; [by eapply ext_vote|]. split; [done|].
    intros ? ?. apply Hvf; [done|]. by eapply hist_le_None.
  - intros Hne Hn. destruct no_voted as (v & ? & ?); [done|by eapply hist_le_None|].
    exists v. split; [by apply (hle_vote _ _ Hle)|done].
  - intros L' HL' Hq. destruct (h_lead h !! n_currentTerm n) as [L|] eqn:HL.
    + destruct (hle_lead _ _ Hle _ _ HL) as (L2 & HL2 & Hid & Hqu & _). simplify_eq.
      rewrite Hid. apply no_elector; [done|]. by rewrite <- Hqu.
    + destruct (ldo_votes _ _ _ _ (ho_lead _ _ _ Hh' _ _ HL') i Hq) as (v & Hv & Hc & _).
      destruct (no_vote (n_currentTerm n) v) as [_ Hvf]; [by eapply ext_vote|].
      rewrite <- Hc. by apply Hvf.
  - intros Hs. destruct (no_candidate Hs) as (H1 & H2 & H3). split_and!.
    + intros L HL Hid. eapply H1; [|done]. by eapply ext_lead.
    + intros w v Hv Hc. destruct (ext_cand _ _ _ _ _ He _ _ _ Hv Hc) as [?|(p & req & Hin & Ht & -> & ->)]; [by eapply H2|].
      by eapply H3.
    + intros p req Hin. apply (H3 p). by eapply ext_req.
  - intros Hs. destruct (no_leader Hs) as ((L & HL & Hid & Hlog) & Hp). split.
    + destruct (hle_lead _ _ Hle _ _ HL) as (L' & HL' & Hid' & _).
      assert (h_lead h !! n_currentTerm n = Some L') by (eapply ext_lead; [done..|congruence]).
      simplify_eq. eauto.
    + intros p Hin. destruct (Hp p Hin) as (ni & mi & ? & ? & []). exists ni, mi.
      split_and!; [done..|]. split; [done..|]. intros. by eapply acked_mono, po_acked.
  - intros T m Ha. apply (ext_acked _ _ _ _ _ _ _ He) in Ha.
    destruct (no_acked _ _ Ha) as [? Hn]. split; [done|]. intros Hs.
    destruct (Hb _ _ _ Ha) as (L & HL & Hm).
    eapply holds_mono; [done|]. apply Hn. by eapply safe_upto_anti.
  - intros p req Hin. apply (no_requests p). by eapply ext_req.
  - intros e Hee. eapply election_ok_mono; [done|by apply no_election].
Qed.

Lemma ext_refl i net h : ext i net net h h.
Proof. split; try done. by left. Qed.

(** The invariant after a step of replica [j]. *)
Lemma Inv_step k k' c h h' j n n' er' ms :
  Inv D k c h -> k <= k' -> c_nodes c !! j = Some n ->
  hist_le h h' -> hist_ok D (c_net c ++ ms) h' ->
  (forall m, m ∈ ms -> msg_ok D k' (c_net c ++ ms) h' m) ->
  (forall i, i <> j -> ext i (c_net c) (c_net c ++ ms) h h') ->
  node_ok D k' (c_net c ++ ms) h' er' j n' ->
  Inv D k' (post (set_election (put c j n') j er') ms) h'.
Proof.
  intros HI ? Hj Hle Hh' Hms Hext Hn'. pose proof (Inv_acked_bounded _ _ _ HI) as Hb.
  destruct HI as [Hdom Hh Hm Hn]. split; simpl.
  - rewrite dom_insert_L, Hdom. apply elem_of_dom_2 in Hj. rewrite Hdom in Hj. clear -Hj. set_solver.
  - done.
  - intros m [Hin|Hin]%elem_of_app; [|by apply Hms].
    eapply msg_ok_mono; [done| |done|by apply Hm]. intros; apply elem_of_app; by left.
  - intros i ni Hi. destruct (decide (i = j)) as [->|Hne].
    + rewrite lookup_insert_eq in Hi. simplify_eq. by rewrite lookup_partial_alter_eq.
    + rewrite lookup_insert_ne in Hi by done. rewrite lookup_partial_alter_ne by done.
      eapply node_ok_ext; [by apply Hn|by apply Hext|done..].
Qed.

Lemma put_election_id c j n :
  post (set_election (put c j n) j (c_elections c !! j)) [] = put c j n.
Proof.
  unfold post, set_election, put. simpl. rewrite app_nil_r. f_equal.
  by apply partial_alter_self.
Qed.

Lemma set_election_id c j n : set_election (put c j n) j (c_elections c !! j) = put c j n.
Proof. unfold set_election, put. simpl. by rewrite partial_alter_self. Qed.

(** The same, the replica's election untouched. *)
Lemma Inv_step_post k c h h' j n n' ms :
  Inv D k c h -> c_nodes c !! j = Some n ->
  hist_le h h' -> hist_ok D (c_net c ++ ms) h' ->
  (forall m, m ∈ ms -> msg_ok D k (c_net c ++ ms) h' m) ->
  (forall i, i <> j -> ext i (c_net c) (c_net c ++ ms) h h') ->
  node_ok D k (c_net c ++ ms) h' (c_elections c !! j) j n' ->
  Inv D k (post (put c j n') ms) h'.
Proof. intros. rewrite <- set_election_id. by eapply Inv_step. Qed.

(** A step that changes one replica and nothing else. *)
Lemma Inv_put k c h j n n' :
  Inv D k c h -> c_nodes c !! j = Some n ->
  node_ok D k (c_net c) h (c_elections c !! j) j n' -> Inv D k (put c j n') h.
Proof.
  intros HI Hj Hn'. rewrite <- put_election_id.
  eapply Inv_step; [done|done|done|done|..]; rewrite ?app_nil_r.
  - apply HI.
  - by intros m ?%elem_of_nil.
  - intros. apply ext_refl.
  - done.
Qed.

(** The invariant only reads the core fields of a replica. *)
Lemma node_ok_core k net h er i n n' :
  same_core n n' -> node_ok D k net h er i n -> node_ok D k net h er i n'.
Proof.
  intros (E1 & E2 & E3 & E4 & E5 & E6 & E7 & E8 & E9) [].
  split; rewrite ?E1, ?E2, ?E3, ?E4, ?E5, ?E6, ?E7, ?E8, ?E9; try done.
  - intros Hs. destruct (no_leader Hs) as (? & Hp). split; [done|].
    intros p Hin. destruct (Hp p Hin) as (ni & mi & ? & ? & []).
    exists ni, mi. split_and!; [done..|]. split; by rewrite ?E3, ?E5.
  - intros e He. destruct (no_election e He).
    split; rewrite ?E2, ?E3, ?E6; done.
Qed.

Lemma Inv_core k c h j n n' :
  Inv D k c h -> c_nodes c !! j = Some n -> same_core n n' -> Inv D k (put c j n') h.
Proof.
  intros HI Hj Hc. eapply Inv_put; [done..|]. eapply node_ok_core; [done|by apply HI].
Qed.

Lemma Inv_le k k' c h : Inv D k c h -> k <= k' -> Inv D k' c h.
Proof.
  intros HI ?. pose proof (Inv_acked_bounded _ _ _ HI) as Hb. destruct HI as [? ? Hm Hn]. split; [done|done| |].
  - intros m Hin. eapply msg_ok_mono; [done|done|done|by apply Hm].
  - intros i n Hi. eapply node_ok_ext; [by apply Hn|apply ext_refl|done..].
Qed.

Lemma put_put c j n n' : put (put c j n) j n' = put c j n'.
Proof. unfold put; simpl. by rewrite insert_insert_eq. Qed.

Lemma put_lookup c j n : c_nodes (put c j n) !! j = Some n.
Proof. apply lookup_insert_eq. Qed.

Lemma put_id c j n : c_nodes c !! j = Some n -> put c j n = c.
Proof. intros H. unfold put. rewrite insert_id by done. by destruct c. Qed.
End frame.
