(* ===== verification/ElectionSteps.v ===== *)
(** * ElectionSteps: stepping down and granting votes keeps the invariant *)

From Stdlib Require Import ZArith Lia.
From stdpp Require Import base list strings gmap option.
From S2P Require Import Prelude Types RaftLog Node Election Replication Cluster History Invariant Frame.
Open Scope Z_scope.

(** Record a vote when it is the first of its term and the term has no leader. *)
Definition record_vote (h : Hist) (w : string) (T : Z) (v : VoteRec) : Hist :=
  match h_lead h !! T, h_vote h !! (w, T) with
  | None, None => mkHist (h_lead h) (<[(w, T) := v]> (h_vote h))
  | _, _ => h
  end.

(** A message that neither requests a vote nor acknowledges entries. *)
Definition neutral (m : message) : Prop :=
  match m with
  | MVoteReq _ _ _ => False
  | MAppendResp _ _ _ resp => aresp_Success resp = false
  | _ => True
  end.

Section steps.
Context (D : Deployment) {WD : WellDeployed D}.

(** ** Histories that grow by votes *)

Lemma record_vote_lead h w T v : h_lead (record_vote h w T v) = h_lead h.
Proof. unfold record_vote. by destruct (h_lead h !! T), (h_vote h !! (w, T)). Qed.

Lemma record_vote_le h w T v : hist_le h (record_vote h w T v).
Proof.
  unfold record_vote. destruct (h_lead h !! T); [done|].
  destruct (h_vote h !! (w, T)) eqn:Hv; [done|].
  split; simpl.
  - intros T' L ?. exists L. by split_and!.
  - intros k v' Hk. destruct (decide (k = (w, T))) as [->|]; [congruence|].
    by rewrite lookup_insert_ne.
Qed.

Lemma record_vote_inv h w T v k v' :
  h_vote (record_vote h w T v) !! k = Some v' ->
  h_vote h !! k = Some v' \/ (k = (w, T) /\ v' = v /\ h_lead h !! T = None /\ h_vote h !! k = None).
Proof.
  unfold record_vote. destruct (h_lead h !! T) eqn:HT; [by left|].
  destruct (h_vote h !! (w, T)) eqn:Hv; [by left|]. simpl.
  destruct (decide (k = (w, T))) as [->|Hne].
  - rewrite lookup_insert_eq. intros [= ->]. by right.
  - rewrite lookup_insert_ne by done. by left.
Qed.

Lemma record_vote_new h w T v :
  h_lead h !! T = None -> exists v', h_vote (record_vote h w T v) !! (w, T) = Some v' /\
    (h_vote h !! (w, T) = None -> v' = v).
Proof.
  intros HT. unfold record_vote. rewrite HT. destruct (h_vote h !! (w, T)) as [v'|] eqn:Hv.
  - by exists v'.
  - exists v. simpl. by rewrite lookup_insert_eq.
Qed.

Lemma lead_ok_mono h h' T L :
  hist_le h h' -> lead_ok D h T L -> lead_ok D h' T L.
Proof.
  intros Hle []. split; try done.
  - intros w Hw. destruct (ldo_votes w Hw) as (v & Hv & ?). exists v.
    split; [by apply (hle_vote _ _ Hle)|done].
  - by eapply log_ok_mono.
  - by eapply log_ok_mono.
Qed.

Lemma vote_ok_mono net net' h h' w T v :
  hist_le h h' -> (forall m, m ∈ net -> m ∈ net') -> acked_bounded D net h ->
  (forall T' m, T' < T -> acked D net' h' w T' m -> acked D net h w T' m) ->
  vote_ok D net h w T v -> vote_ok D net' h' w T v.
Proof.
  intros Hle Hnet Hb Hack []. split; try done.
  - destruct vo_req as [?|(p & req & ? & ?)]; [by left|right]. exists p, req. auto.
  - by eapply log_ok_mono.
  - intros T' m HT Ha Hs. apply Hack in Ha; [|done]. destruct (Hb _ _ _ Ha) as (L & HL & Hm).
    eapply holds_mono; [done|]. apply vo_safe; [done..|]. by eapply safe_upto_anti.
Qed.

(** Messages that acknowledge nothing. *)
Definition no_acks (ms : list message) : Prop :=
  forall src p req resp, MAppendResp src p req resp ∈ ms -> aresp_Success resp = false.

Lemma acked_no_acks net ms h w T m :
  no_acks ms -> acked D (net ++ ms) h w T m -> acked D net h w T m.
Proof.
  intros Hms [(src & p & req & resp & [Hin|Hin]%elem_of_app & Hp & HT & Hs & Hm)|?]; [| |by right].
  - left. by exists src, p, req, resp.
  - apply Hms in Hin. congruence.
Qed.

Lemma neutral_no_acks ms : Forall neutral ms -> no_acks ms.
Proof. intros Hms src p req resp Hin. by apply (proj1 (list.Forall_forall _ _) Hms) in Hin. Qed.

(** ** Stepping down, posting, and the elections' bookkeeping *)

Lemma node_ok_stepdown k net h er j n T l :
  hist_ok D net h -> node_ok D k net h er j n -> n_currentTerm n < T <= k ->
  node_ok D k net h er j (becomeFollower n T l).
Proof.
  intros Hh [] ?. split; simpl; try done.
  - lia.
  - eapply log_ok_le; [done|lia].
  - eapply commit_ok_mono; [done..| |done]. lia.
  - intros T0 v Hv. destruct (no_vote _ _ Hv). split; lia.
  - intros L HL Hq. destruct (ldo_votes _ _ _ _ (ho_lead _ _ _ Hh _ _ HL) j Hq) as (v & Hv & _).
    destruct (no_vote _ _ Hv). lia.
  - intros T0 m Ha. destruct (no_acked _ _ Ha) as [? Hn]. split; [lia|].
    intros Hs. apply Hn. eapply safe_upto_le; [done|lia].
  - intros p req Hin. specialize (no_requests _ _ Hin). lia.
  - intros e He. destruct (no_election e He). split; simpl; [lia|done..].
Qed.

Lemma Inv_stepdown k c h j n T l :
  Inv D k c h -> c_nodes c !! j = Some n -> n_currentTerm n < T <= k ->
  Inv D k (put c j (becomeFollower n T l)) h.
Proof.
  intros HI Hj ?. eapply Inv_put; [done..|]. eapply node_ok_stepdown; [apply HI|by apply HI|done].
Qed.

Lemma ext_neutral i net ms h : Forall neutral ms -> ext D i net (net ++ ms) h h.
Proof.
  intros Hms. rewrite list.Forall_forall in Hms. split; try done.
  - intros m ?. apply elem_of_app. by left.
  - by left.
  - intros p req [?|Hin]%elem_of_app; [done|]. by apply Hms in Hin.
  - intros src p req resp [?|Hin]%elem_of_app _ Hs; [done|]. apply Hms in Hin. simpl in Hin. congruence.
Qed.

Lemma hist_ok_neutral net ms h :
  acked_bounded D net h -> Forall neutral ms -> hist_ok D net h -> hist_ok D (net ++ ms) h.
Proof.
  intros Hb Hms [Hl Hv]. split; [done|]. intros w T v Hwv.
  eapply vote_ok_mono; [done| |done| |by apply Hv].
  - intros m ?. apply elem_of_app. by left.
  - intros. eapply acked_no_acks; [by apply neutral_no_acks|done].
Qed.

Lemma Inv_post k c h ms :
  Inv D k c h -> Forall neutral ms -> (forall m, m ∈ ms -> msg_ok D k (c_net c) h m) ->
  Inv D k (post c ms) h.
Proof.
  intros HI Hn Hms. pose proof (Inv_acked_bounded _ _ _ _ HI) as Hb. destruct HI as [Hd Hh Hm Hno].
  assert (forall m, m ∈ c_net c -> m ∈ c_net c ++ ms) as Hsub by (intros m ?; apply elem_of_app; by left).
  split; simpl; [done|by apply hist_ok_neutral| |].
  - intros m Hin. eapply msg_ok_mono; [done|exact Hsub|done|].
    apply elem_of_app in Hin as [?|?]; [by apply Hm|by apply Hms].
  - intros i n Hi. eapply node_ok_ext; [by apply Hno|by apply ext_neutral|done| |done].
    by apply hist_ok_neutral.
Qed.

Lemma node_ok_election k net h er er' j n :
  node_ok D k net h er j n -> (forall e, er' = Some e -> election_ok D h j n e) ->
  node_ok D k net h er' j n.
Proof. intros [] ?. by split. Qed.

Lemma Inv_set_election k c h j n er' :
  Inv D k c h -> c_nodes c !! j = Some n -> (forall e, er' = Some e -> election_ok D h j n e) ->
  Inv D k (set_election c j er') h.
Proof.
  intros [Hd Hh Hm Hn] Hj He. split; simpl; [done..|].
  intros i ni Hi. destruct (decide (i = j)) as [->|].
  - simplify_eq. rewrite lookup_partial_alter_eq. eapply node_ok_election; [by apply Hn|done].
  - rewrite lookup_partial_alter_ne by done. by apply Hn.
Qed.

(** [stepDown] on an incoming term that the bound covers. *)
Lemma Inv_stepDown k c h j n T :
  Inv D k c h -> c_nodes c !! j = Some n -> T <= k ->
  Inv D k (put c j (fst (stepDown n T))) h.
Proof.
  intros HI Hj HT. unfold stepDown. case_bool_decide; simpl.
  - by apply Inv_stepdown.
  - by rewrite put_id.
Qed.

Lemma node_ok_term k c h j n :
  Inv D k c h -> c_nodes c !! j = Some n -> 0 <= n_currentTerm n <= k.
Proof. intros HI Hj. apply (no_term _ _ _ _ _ _ _ (inv_nodes _ _ _ _ HI _ _ Hj)). Qed.

Lemma stepDown_term n T :
  T <= n_currentTerm (fst (stepDown n T)) /\ n_currentTerm n <= n_currentTerm (fst (stepDown n T)).
Proof. unfold stepDown. case_bool_decide; simpl; lia. Qed.
(** ** Granting a vote *)

(** Recording a vote acknowledges nothing. *)
Lemma record_vote_acked net ms h j T v w T0 m :
  no_acks ms -> acked D (net ++ ms) (record_vote h j T v) w T0 m -> acked D net h w T0 m.
Proof.
  intros Hms Ha. apply (acked_no_acks _ _ _ _ _ _ Hms) in Ha.
  destruct Ha as [?|(L & HL & ?)]; [by left|right]. rewrite record_vote_lead in HL. eauto.
Qed.

(** What a replica has acknowledged its log still holds after the record. *)
Lemma record_vote_holds k net ms h er j n T v T0 m U :
  node_ok D k net h er j n -> acked_bounded D net h -> no_acks ms ->
  acked D (net ++ ms) (record_vote h j T v) j T0 m ->
  (forall V L, T0 < V <= n_currentTerm n -> h_lead h !! V = Some L -> V <= U) ->
  safe_upto (record_vote h j T v) T0 U m -> holds (record_vote h j T v) T0 m (Log.entries (n_log n)).
Proof.
  intros Hn Hb Hms Ha HU Hs. apply record_vote_acked in Ha; [|done].
  destruct (Hb _ _ _ Ha) as (L & HL & Hm). pose proof (record_vote_le h j T v) as Hle.
  eapply holds_mono; [done|]. apply (no_acked _ _ _ _ _ _ _ Hn _ _ Ha).
  eapply safe_upto_anti; [done..|]. intros V L0 HV HL0. apply (Hs V L0); [|done].
  rewrite record_vote_lead in HL0. specialize (HU V L0 HV HL0). lia.
Qed.

Lemma hist_ok_record net ms h j T v :
  acked_bounded D net h -> no_acks ms -> hist_ok D net h ->
  (h_lead h !! T = None -> h_vote h !! (j, T) = None ->
    vote_ok D (net ++ ms) (record_vote h j T v) j T v) ->
  hist_ok D (net ++ ms) (record_vote h j T v).
Proof.
  intros Hb Hms [Hl Hv] Hnew. pose proof (record_vote_le h j T v) as Hle. split.
  - intros T' L. rewrite record_vote_lead. intros HL. eapply lead_ok_mono; [done|by apply Hl].
  - intros w T' v' [Hv'|([= -> ->] & -> & ? & ?)]%record_vote_inv; [|by apply Hnew].
    eapply vote_ok_mono; [done| |done| |by apply Hv].
    + intros m ?. apply elem_of_app. by left.
    + intros T0 m _ Ha. by eapply record_vote_acked.
Qed.

Lemma node_ok_grant k net ms h er j n src T v :
  node_ok D k net h er j n -> hist_ok D net h -> WellDeployed D ->
  no_acks ms -> acked_bounded D net h ->
  (forall p req, MVoteReq j p req ∉ ms) ->
  n_currentTerm n = T -> src <> j -> src ∈ members D -> v_cand v = src ->
  n_votedFor n = EmptyString \/ n_votedFor n = src ->
  node_ok D k (net ++ ms) (record_vote h j T v) er j (set_votedFor src n).
Proof.
  intros Hnok Hh HWD Hms Hb Hreq HT Hsrc Hmem Hvc Hcan. pose proof Hnok as [].
  pose proof (record_vote_le h j T v) as Hle.
  assert (forall m, m ∈ net -> m ∈ net ++ ms) as Hsub by (intros m ?; apply elem_of_app; by left).
  pose proof (member_nonempty D src Hmem) as Hne.
  assert (n_state n = Follower) as Hfol.
  { destruct (decide (n_state n = Follower)) as [|Hs]; [done|].
    destruct (no_role Hs) as [Hvf _]. destruct no_cfg as (cfg & Hcfg & _).
    pose proof (member_nonempty D j (member_cfg D _ _ Hcfg)). destruct Hcan; congruence. }
  split; simpl; try done; try (rewrite Hfol; by intros).
  - by eapply log_ok_mono.
  - eapply commit_ok_mono; [done..|exact no_commit_ok].
  - intros T' v' Hv'. rewrite record_vote_lead.
    apply record_vote_inv in Hv' as [Hv'|([= ->] & -> & _)]; [|by subst].
    destruct (no_vote _ _ Hv') as [? Hvf]. split; [done|]. intros Heq Hn.
    specialize (Hvf Heq Hn). destruct Hcan as [He|He]; [|congruence].
    destruct (ho_vote _ _ _ Hh _ _ _ Hv'). congruence.
  - intros _ Hn. rewrite record_vote_lead, HT in Hn. rewrite HT.
    destruct (record_vote_new h j T v Hn) as (v' & Hv' & Hnew). exists v'. split; [done|].
    destruct (h_vote h !! (j, T)) as [v0|] eqn:Hv0; [|by rewrite Hnew].
    apply (hle_vote _ _ Hle) in Hv0 as Hv0'. simplify_eq.
    destruct (no_vote _ _ Hv0) as [_ Hvf]. specialize (Hvf eq_refl Hn).
    destruct (ho_vote _ _ _ Hh _ _ _ Hv0). destruct Hcan; congruence.
  - intros L. rewrite record_vote_lead. intros HL Hq. specialize (no_elector _ HL Hq).
    destruct (ldo_votes _ _ _ _ (ho_lead _ _ _ Hh _ _ HL) j Hq) as (v0 & Hv0 & Hc0 & _).
    destruct (ho_vote _ _ _ Hh _ _ _ Hv0). destruct Hcan; congruence.
  - intros T0 m Ha. split; [by eapply no_acked, record_vote_acked|].
    eapply record_vote_holds; [done..|]. intros; lia.
  - intros p req [Hin|Hin]%elem_of_app; [by eapply no_requests|by apply Hreq in Hin].
  - intros e He. destruct (no_election e He). split; simpl; try done. rewrite Hfol. by intros.
Qed.

Lemma ext_grant i j net ms h T v p req :
  Forall neutral ms -> i <> j -> MVoteReq (v_cand v) p req ∈ net -> vreq_Term req = T ->
  v_lastIndex v = vreq_LastLogIndex req -> v_lastTerm v = vreq_LastLogTerm req ->
  ext D i net (net ++ ms) h (record_vote h j T v).
Proof.
  intros Hms Hij Hin HT Hvi Hvt. destruct (ext_neutral i net ms h Hms) as [_ Hn _ _ _ Hr Ha].
  split; [apply record_vote_le|done| | | |done|done].
  - intros T0 v0 [?|([= ??] & _)]%record_vote_inv; [done|congruence].
  - intros T0 L. by rewrite record_vote_lead.
  - intros w T0 v0 [?|([= -> ->] & -> & _)]%record_vote_inv Hc; [by left|right].
    exists p, req. rewrite <- Hc. done.
Qed.

(** The vote is granted to the candidate: the recorded one, or one of a term
    whose leader is known and was elected without this replica. *)
Lemma grant_evidence k net h er j n T v :
  node_ok D k net h er j n -> hist_ok D net h -> n_currentTerm n = T ->
  n_votedFor n = EmptyString \/ n_votedFor n = v_cand v ->
  granted (record_vote h j T v) j T (v_cand v).
Proof.
  intros Hn Hh HT Hvf. pose proof (record_vote_le h j T v) as Hle.
  assert (forall v0, h_vote h !! (j, T) = Some v0 -> v_cand v0 = n_votedFor n -> v_cand v0 = v_cand v) as Hsame.
  { intros v0 Hv0 He. destruct (ho_vote _ _ _ Hh _ _ _ Hv0). destruct Hvf; congruence. }
  destruct (h_lead h !! T) as [L|] eqn:HL.
  - destruct (decide (j ∈ l_quorum L)) as [Hq|Hq].
    + left. destruct (ldo_votes _ _ _ _ (ho_lead _ _ _ Hh _ _ HL) j Hq) as (v0 & Hv0 & Hc0 & _).
      exists v0. split; [by apply Hle|]. pose proof (no_elector _ _ _ _ _ _ _ Hn L) as He. rewrite HT in He.
      apply Hsame; [done|]. rewrite (He HL Hq). congruence.
    + right. exists L. by rewrite record_vote_lead.
  - left. destruct (record_vote_new h j T v HL) as (v' & Hv' & Hnew). exists v'. split; [done|].
    destruct (h_vote h !! (j, T)) as [v0|] eqn:Hv0; [|by rewrite Hnew].
    apply (hle_vote _ _ Hle) in Hv0 as Hv0'. simplify_eq. apply Hsame; [done|].
    destruct (no_vote _ _ _ _ _ _ _ Hn _ _ Hv0) as [_ He]. symmetry. by apply He.
Qed.

(** The vote recorded for a request is as the history demands. *)
Lemma grant_vote_ok k net ms h er j n src p req :
  node_ok D k net h er j n -> acked_bounded D net h -> no_acks ms -> MVoteReq src p req ∈ net ->
  n_currentTerm n = vreq_Term req -> 0 < vreq_Term req -> src <> EmptyString -> h_lead h !! vreq_Term req = None ->
  up_to_date (vreq_LastLogTerm req) (vreq_LastLogIndex req) (Log.LastTerm (n_log n)) (Log.LastIndex (n_log n)) = true ->
  let v := mkVoteRec src (Log.entries (n_log n)) (vreq_LastLogIndex req) (vreq_LastLogTerm req) in
  vote_ok D (net ++ ms) (record_vote h j (vreq_Term req) v) j (vreq_Term req) v.
Proof.
  intros Hn Hb Hms Hin HT Hpos Hne HL Hup v. pose proof (record_vote_le h j (vreq_Term req) v) as Hle.
  split; simpl; [done|done| | |exact Hup|].
  - right. exists p, req. split; [apply elem_of_app; by left|done].
  - eapply log_ok_mono; [done|apply (no_log _ _ _ _ _ _ _ Hn)|lia].
  - intros T' m HT' Ha. eapply record_vote_holds; [done..|].
    intros V L HV HLV. destruct (decide (V = vreq_Term req)); [congruence|lia].
Qed.

(** Granting the vote, on the replica that has reached the request's term. *)
Lemma vote_granted_keeps k c h j src p req n n' resp :
  Inv D k c h -> c_nodes c !! j = Some n -> MVoteReq src p req ∈ c_net c -> d_host D p = j ->
  vreq_ok D k src p req -> n_currentTerm n = vreq_Term req -> src <> j -> vresp_Term resp <= k ->
  n_votedFor n = EmptyString \/ n_votedFor n = src ->
  up_to_date (vreq_LastLogTerm req) (vreq_LastLogIndex req) (Log.LastTerm (n_log n)) (Log.LastIndex (n_log n)) = true ->
  same_core (set_votedFor src n) n' ->
  exists h', hist_le h h' /\ Inv D k (post (put c j n') [MVoteResp src p req resp]) h'.
Proof.
  intros HI Hj Hin Hhost Hreq HT Hsj Hrt Hvf Hup Hcore. pose proof Hreq as [Hpeer Hmem Hcand Hterm].
  set (v := mkVoteRec src (Log.entries (n_log n)) (vreq_LastLogIndex req) (vreq_LastLogTerm req)).
  set (ms := [MVoteResp src p req resp]). assert (Forall neutral ms) as Hneu by (by repeat constructor).
  pose proof (Inv_acked_bounded _ _ _ _ HI) as Hb. pose proof (inv_nodes _ _ _ _ HI j n Hj) as Hn.
  exists (record_vote h j (vreq_Term req) v). split; [apply record_vote_le|].
  eapply (Inv_step_post _ _ _ h); [exact HI|done|apply record_vote_le| | | |].
  - apply hist_ok_record; [done|by apply neutral_no_acks|apply HI|]. intros HL _.
    eapply grant_vote_ok; try done; [by apply neutral_no_acks|lia|by apply (member_nonempty D)].
  - intros m ->%list_elem_of_singleton. simpl. split_and!; [done|done|]. intros _. rewrite Hhost.
    by eapply (grant_evidence k (c_net c) h _ j n (vreq_Term req) v); [|apply HI|..].
  - intros i Hi. by eapply (ext_grant i j _ ms h (vreq_Term req) v p req).
  - eapply node_ok_core; [exact Hcore|]. apply node_ok_grant; try done; [apply HI|by apply neutral_no_acks|].
    intros ?? ?%list_elem_of_singleton. done.
Qed.

Lemma vote_request_keeps k c h src p req n n' resp :
  Inv D k c h -> MVoteReq src p req ∈ c_net c -> c_nodes c !! d_host D p = Some n ->
  HandleVoteRequest n req = (n', resp) ->
  exists h', hist_le h h' /\
    Inv D k (post (put c (d_host D p) n') [MVoteResp src p req resp]) h'.
Proof.
  intros HI Hin Hj. pose proof (inv_msgs _ _ _ _ HI _ Hin) as [Hpeer Hmem Hcand Hterm].
  set (j := d_host D p) in *. pose proof (node_ok_term k c h j n HI Hj) as Hnt.
  unfold HandleVoteRequest. pose proof (stepDown_term n (vreq_Term req)) as [Hle1 Hle2].
  assert (vreq_Term req <= k) as Hk by lia.
  pose proof (Inv_stepDown k c h j n (vreq_Term req) HI Hj Hk) as HI1.
  set (n1 := fst (stepDown n (vreq_Term req))) in *.
  pose proof (node_ok_term _ _ _ j n1 HI1 (put_lookup c j n1)) as Hnt1.
  assert (forall t, t <= k -> msg_ok D k (c_net (put c j n1)) h
            (MVoteResp src p req (mkVoteResponse t false))) as Hrej by (by intros).
  case_bool_decide as Hlt.
  { intros [= <- <-]. exists h. split; [done|]. apply Inv_post; [done|by repeat constructor|].
    intros m ->%list_elem_of_singleton. apply Hrej. lia. }
  destruct (_ && _) eqn:Hg; intros [= <- <-].
  2: { exists h. split; [done|]. apply Inv_post; [done|by repeat constructor|].
    intros m ->%list_elem_of_singleton. apply Hrej. lia. }
  apply andb_true_iff in Hg as [Hcan Hup]. rewrite <- (put_put c j n1).
  assert (n_votedFor n1 = EmptyString \/ n_votedFor n1 = src) as Hvf.
  { rewrite Hcand in Hcan. apply orb_true_iff in Hcan. by rewrite !bool_decide_eq_true in Hcan. }
  assert (n_currentTerm n1 = vreq_Term req) as HT by lia.
  apply (vote_granted_keeps k (put c j n1) h j src p req n1); try done; [apply put_lookup|set_solver].
Qed.
End steps.
