(* ===== verification/ElectionEvents.v ===== *)
(** * ElectionEvents: candidates, tallies and new leaders keep the invariant *)

From Stdlib Require Import ZArith Lia.
From stdpp Require Import base list strings gmap option.
From S2P Require Import Prelude Types RaftLog Node Election Replication Cluster History Invariant Frame ElectionSteps.
Open Scope Z_scope.

Section events.
Context (D : Deployment) {WD : WellDeployed D}.

(** ** Becoming a candidate *)

Definition self_vote (j : string) (n : Node) : VoteRec :=
  mkVoteRec j (Log.entries (n_log n)) (Log.LastIndex (n_log n)) (Log.LastTerm (n_log n)).

Lemma up_to_date_refl t i : up_to_date t i t i = true.
Proof.
  unfold up_to_date. rewrite (bool_decide_true (t = t)), (bool_decide_true (i <= i)) by lia.
  by rewrite orb_true_r.
Qed.

(** Before it stands in term [T], a replica has neither voted nor asked for
    votes in it. *)
Lemma fresh_term k c h j n T :
  Inv D k c h -> c_nodes c !! j = Some n -> n_currentTerm n < T ->
  h_vote h !! (j, T) = None /\
  (forall L, h_lead h !! T = Some L -> j ∉ l_quorum L) /\
  (forall w v, h_vote h !! (w, T) = Some v -> v_cand v <> j) /\
  (forall p req, MVoteReq j p req ∈ c_net c -> vreq_Term req <> T).
Proof.
  intros HI Hj HT. pose proof (inv_nodes _ _ _ _ HI _ _ Hj) as Hn.
  assert (h_vote h !! (j, T) = None) as Hnone.
  { destruct (h_vote h !! (j, T)) as [v|] eqn:Hv; [|done].
    destruct (no_vote _ _ _ _ _ _ _ Hn _ _ Hv). lia. }
  assert (forall p req, MVoteReq j p req ∈ c_net c -> vreq_Term req <> T) as Hreq.
  { intros p req Hin. pose proof (no_requests _ _ _ _ _ _ _ Hn _ _ Hin). lia. }
  split_and!; [done| | |done].
  - intros L HL Hq. destruct (ldo_votes _ _ _ _ (ho_lead _ _ _ (inv_hist _ _ _ _ HI) _ _ HL) j Hq) as (v & Hv & _).
    congruence.
  - intros w v Hv Hc. destruct (ho_vote _ _ _ (inv_hist _ _ _ _ HI) _ _ _ Hv).
    destruct vo_req as [Hw|(p & req & Hin & Ht)]; [congruence|].
    rewrite Hc in Hin. by eapply Hreq.
Qed.

Lemma becomeCandidate_core k n :
  0 <= n_currentTerm n <= k -> k < MaxInt64 ->
  n_currentTerm (becomeCandidate n) = n_currentTerm n + 1.
Proof. intros. simpl. apply wrap64_small. unfold MinInt64, MaxInt64 in *. lia. Qed.

Lemma timeout_ext k c h j n i :
  Inv D k c h -> c_nodes c !! j = Some n -> i <> j ->
  let T := n_currentTerm n + 1 in
  let ms := map (fun p => MVoteReq j p (mkVoteRequest T j (Log.LastIndex (n_log n)) (Log.LastTerm (n_log n)))) (n_peers n) in
  ext D i (c_net c) (c_net c ++ ms) h (record_vote h j T (self_vote j n)).
Proof.
  intros HI Hj Hij T ms. split.
  - apply record_vote_le.
  - intros m ?. apply elem_of_app. by left.
  - intros T0 v0 [?|([= ??] & _)]%record_vote_inv; [done|congruence].
  - intros T0 L. by rewrite record_vote_lead.
  - intros w T0 v0 [?|(_ & -> & _)]%record_vote_inv Hc; [by left|]. simpl in Hc. congruence.
  - intros p req [?|(p' & ? & ?)%list_elem_of_fmap]%elem_of_app; [done|congruence].
  - intros src p req resp [?|(p' & ? & ?)%list_elem_of_fmap]%elem_of_app; done.
Qed.

(** The election starts with the candidate's own vote. *)
Lemma timeout_election k c h j n n' :
  Inv D k c h -> c_nodes c !! j = Some n ->
  let T := n_currentTerm n + 1 in
  n_currentTerm n' = T -> n_peers n' = n_peers n ->
  election_ok D (record_vote h j T (self_vote j n)) j n' (mkElectionRun T 1 (n_peers n)).
Proof.
  intros HI Hj T HT Hp'. destruct (fresh_term k c h j n T HI Hj) as (Hv0 & Hq0 & _ & _); [lia|].
  destruct (no_cfg _ _ _ _ _ _ _ (inv_nodes _ _ _ _ HI _ _ Hj)) as (cfg & Hcfg & Hpeers).
  split; rewrite ?HT, ?Hp'; simpl; [lia| |done|].
  - rewrite Hpeers. by eapply wd_nodup.
  - intros _ _. exists {[j]}. pose proof (member_cfg D _ _ Hcfg). split_and!.
    + set_solver.
    + by rewrite size_singleton.
    + set_solver.
    + intros p Hp. rewrite Hpeers in Hp. pose proof (peer_host D _ _ _ Hcfg Hp). set_solver.
    + intros w ->%elem_of_singleton. destruct (h_lead h !! T) as [L|] eqn:HL.
      * right. exists L. rewrite record_vote_lead. split; [done|by apply Hq0].
      * left. destruct (record_vote_new h j T (self_vote j n) HL) as (v & Hv & Hnew).
        exists v. split; [done|]. by rewrite (Hnew Hv0).
Qed.

Lemma timeout_node k c h j n :
  Inv D k c h -> c_nodes c !! j = Some n -> k < MaxInt64 ->
  let T := n_currentTerm n + 1 in
  let ms := map (fun p => MVoteReq j p (mkVoteRequest T j (Log.LastIndex (n_log n)) (Log.LastTerm (n_log n)))) (n_peers n) in
  node_ok D (k + 1) (c_net c ++ ms) (record_vote h j T (self_vote j n))
    (Some (mkElectionRun T 1 (n_peers n))) j (becomeCandidate n).
Proof.
  intros HI Hj Hk T ms. pose proof (inv_nodes _ _ _ _ HI _ _ Hj) as Hn.
  destruct (fresh_term k c h j n T HI Hj) as (Hv0 & Hq0 & Hc0 & Hr0); [lia|].
  pose proof (Inv_acked_bounded _ _ _ _ HI) as Hb.
  set (h' := record_vote h j T (self_vote j n)).
  pose proof (record_vote_le h j T (self_vote j n)) as Hle. fold h' in Hle.
  assert (no_acks ms) as Hms by (intros ???? (p' & ? & ?)%list_elem_of_fmap; done).
  pose proof Hn as []. pose proof (becomeCandidate_core k n no_term Hk) as HT. fold T in HT.
  split; rewrite ?HT; simpl; try done.
  - lia.
  - eapply log_ok_mono; [done..|]. lia.
  - eapply commit_ok_mono; [done| | |exact no_commit_ok]; [|lia]. intros m ?. apply elem_of_app. by left.
  - intros T0 v [Hv|([= ->] & -> & _)]%record_vote_inv.
    + destruct (no_vote _ _ Hv). split; [lia|]. intros ->. lia.
    + split; [done|]. intros. simpl. congruence.
  - intros _. unfold h'. rewrite record_vote_lead. intros HL. destruct (record_vote_new h j T (self_vote j n) HL) as (v & Hv & Hnew).
    exists v. split; [done|]. by rewrite (Hnew Hv0), no_id.
  - intros L. unfold h'. rewrite record_vote_lead. intros HL Hq. by destruct (Hq0 _ HL).
  - intros _. split; [done|lia].
  - intros _. split_and!.
    + intros L. unfold h'. rewrite record_vote_lead. intros HL <-. apply (Hq0 _ HL).
      apply (ldo_id _ _ _ _ (ho_lead _ _ _ (inv_hist _ _ _ _ HI) _ _ HL)).
    + intros w v [Hv|(_ & -> & _)]%record_vote_inv Hc; [by destruct (Hc0 _ _ Hv)|done].
    + intros p req [Hin|(p' & [= -> ->] & ?)%list_elem_of_fmap]%elem_of_app Ht; [by destruct (Hr0 _ _ Hin)|done].
  - intros T0 m Ha. pose proof (record_vote_acked _ _ _ _ _ _ _ _ _ _ Hms Ha) as Ha'.
    split; [destruct (no_acked _ _ Ha'); lia|]. eapply record_vote_holds; [done..|]. intros; lia.
  - intros p req [Hin|(p' & [= -> ->] & ?)%list_elem_of_fmap]%elem_of_app; [|simpl; lia].
    specialize (no_requests _ _ Hin). lia.
  - intros e [= <-]. by eapply timeout_election.
Qed.

Lemma timeout_keeps k c h j n :
  Inv D k c h -> c_nodes c !! j = Some n -> k < MaxInt64 ->
  let n' := fst (startElection_begin n) in
  let req := snd (startElection_begin n) in
  exists h', hist_le h h' /\
    Inv D (k + 1) (post (set_election (put c j n') j (Some (mkElectionRun (vreq_Term req) 1 (n_peers n))))
                   (map (fun p => MVoteReq j p req) (n_peers n))) h'.
Proof.
  intros HI Hj Hk. pose proof (inv_nodes _ _ _ _ HI _ _ Hj) as Hn.
  pose proof (becomeCandidate_core k n (no_term _ _ _ _ _ _ _ Hn) Hk) as HT.
  destruct (no_cfg _ _ _ _ _ _ _ Hn) as (cfg & Hcfg & Hpeers).
  exists (record_vote h j (n_currentTerm n + 1) (self_vote j n)). split; [apply record_vote_le|].
  assert (snd (startElection_begin n) = mkVoteRequest (n_currentTerm n + 1) j (Log.LastIndex (n_log n)) (Log.LastTerm (n_log n))) as ->.
  { unfold startElection_begin. cbn [snd]. rewrite HT. simpl. by rewrite (no_id _ _ _ _ _ _ _ Hn). }
  eapply (Inv_step _ _ _ _ h); [exact HI|lia|exact Hj|apply record_vote_le| | | |by apply timeout_node].
  - apply hist_ok_record; [by eapply Inv_acked_bounded| |apply HI|].
    { intros ???? (p' & ? & ?)%list_elem_of_fmap; done. }
    intros HL Hv. pose proof (no_term _ _ _ _ _ _ _ Hn). split; simpl.
    + lia.
    + eapply member_nonempty, member_cfg; done.
    + by left.
    + eapply log_ok_mono; [apply record_vote_le|apply Hn|lia].
    + apply up_to_date_refl.
    + intros T' m HT' Ha Hs.
      apply acked_no_acks in Ha; [|intros ???? (p' & ? & ?)%list_elem_of_fmap; done].
      assert (acked D (c_net c) h j T' m) as Ha'.
      { destruct Ha as [?|(L & HL' & ?)]; [by left|right]. rewrite record_vote_lead in HL'. eauto. }
      destruct (Inv_acked_bounded _ _ _ _ HI _ _ _ Ha') as (L & HL' & Hm).
      eapply holds_mono; [apply record_vote_le|].
      apply (no_acked _ _ _ _ _ _ _ Hn _ _ Ha').
      eapply safe_upto_anti; [apply record_vote_le|done..|].
      eapply safe_upto_le; [done|lia].
  - intros m (p & -> & Hp)%list_elem_of_fmap. rewrite Hpeers in Hp.
    pose proof (no_term _ _ _ _ _ _ _ Hn). split; simpl; [by eapply peer_host|by eapply member_cfg|done|lia].
  - intros i Hi. by eapply (timeout_ext k).
Qed.
(** ** Collecting votes *)

Lemma election_shrink h j n e p :
  election_ok D h j n e ->
  election_ok D h j n (mkElectionRun (er_term e) (er_votes e) (remove_one p (er_pending e))).
Proof.
  intros []. destruct (remove_one_NoDup D p _ eo_nodup) as [Hnd _]. split; simpl; try done.
  - intros q Hq. by eapply eo_peers, remove_one_elem.
  - intros Hs Ht. destruct (eo_votes Hs Ht) as (S & ? & ? & ? & Hp & ?). exists S. split_and!; try done.
    intros q Hq. by eapply Hp, remove_one_elem.
Qed.

Lemma election_count h j n e p :
  election_ok D h j n e -> p ∈ er_pending e -> d_host D p ∈ members D ->
  (n_state n = Candidate -> er_term e = n_currentTerm n -> granted h (d_host D p) (n_currentTerm n) j) ->
  election_ok D h j n (mkElectionRun (er_term e) (er_votes e + 1) (remove_one p (er_pending e))).
Proof.
  intros [] Hp Hmem Hg. destruct (remove_one_NoDup D p _ eo_nodup) as [Hnd Hne]. split; simpl; try done.
  - intros q Hq. by eapply eo_peers, remove_one_elem.
  - intros Hs Ht. destruct (eo_votes Hs Ht) as (S & HS & Hv & Hj & Hd & HG).
    exists ({[d_host D p]} ∪ S). split_and!.
    + clear -HS Hmem. set_solver.
    + rewrite Hv, size_union, size_singleton by (specialize (Hd _ Hp); clear -Hd; set_solver). lia.
    + clear -Hj. set_solver.
    + intros q Hq. specialize (Hne _ Hq Hp). specialize (Hd _ (remove_one_elem _ _ _ Hq)).
      clear -Hne Hd. set_solver.
    + intros w [->%elem_of_singleton|Hw]%elem_of_union; [by apply Hg|by apply HG].
Qed.

Lemma vote_response_keeps k c h src p req resp n e :
  Inv D k c h -> MVoteResp src p req resp ∈ c_net c -> c_nodes c !! src = Some n ->
  c_elections c !! src = Some e -> er_term e = vreq_Term req -> p ∈ er_pending e ->
  let r := requestVoteFromPeer n (er_votes e) (er_term e) (Some resp) in
  Inv D k (set_election (put c src (fst r)) src
             (Some (mkElectionRun (er_term e) (snd r) (remove_one p (er_pending e))))) h.
Proof.
  intros HI Hin Hj He Ht Hp. pose proof (inv_nodes _ _ _ _ HI _ _ Hj) as Hn.
  destruct (inv_msgs _ _ _ _ HI _ Hin) as ([Hpeer Hmem _ _] & Hk & Hg).
  pose proof (no_election _ _ _ _ _ _ _ Hn _ He) as Heo.
  cbn [requestVoteFromPeer]. case_bool_decide as Hlt; simpl.
  { assert (Inv D k (put c src (becomeFollower n (vresp_Term resp) EmptyString)) h) as HI'.
    { apply Inv_stepdown; [done|done|lia]. }
    eapply Inv_set_election; [done|apply put_lookup|].
    intros e' [= <-]. apply election_shrink.
    by apply (no_election _ _ _ _ _ _ _ (inv_nodes _ _ _ _ HI' _ _ (put_lookup _ _ _))). }
  assert (put c src n = c) as Hput by (by apply put_id).
  case_bool_decide as Hother; [|destruct (vresp_VoteGranted resp) eqn:Hgr]; simpl; rewrite Hput;
    (eapply Inv_set_election; [done|done|]); intros e' [= <-];
    [by apply election_shrink| |by apply election_shrink].
  apply election_count; [done|done|clear -Hpeer; set_solver|].
  intros _ Het. rewrite <- Het, Ht. by apply Hg.
Qed.

Lemma vote_fail_keeps k c h i p n e :
  Inv D k c h -> c_nodes c !! i = Some n -> c_elections c !! i = Some e ->
  Inv D k (set_election (put c i n) i
             (Some (mkElectionRun (er_term e) (er_votes e) (remove_one p (er_pending e))))) h.
Proof.
  intros HI Hi He. rewrite put_id by done. eapply Inv_set_election; [done|done|].
  intros e' [= <-]. apply election_shrink.
  by apply (no_election _ _ _ _ _ _ _ (inv_nodes _ _ _ _ HI _ _ Hi)).
Qed.

(** ** Becoming leader *)

(** A candidate with a majority of votes is the first leader of its term,
    elected by first votes. *)
Lemma election_won k c h j n e :
  Inv D k c h -> c_nodes c !! j = Some n -> c_elections c !! j = Some e ->
  n_state n = Candidate -> n_currentTerm n = er_term e -> majority (n_peers n) <= er_votes e ->
  h_lead h !! n_currentTerm n = None /\
  exists S, is_quorum (members D) S /\ j ∈ S /\
    forall w, w ∈ S -> exists v, h_vote h !! (w, n_currentTerm n) = Some v /\ v_cand v = j /\
      v_lastIndex v = Log.LastIndex (n_log n) /\ v_lastTerm v = Log.LastTerm (n_log n).
Proof.
  intros HI Hj He Hs Ht Hmaj. pose proof (inv_nodes _ _ _ _ HI _ _ Hj) as Hn.
  destruct (no_cfg _ _ _ _ _ _ _ Hn) as (cfg & Hcfg & Hpeers).
  destruct (eo_votes _ _ _ _ _ (no_election _ _ _ _ _ _ _ Hn _ He) Hs (eq_sym Ht))
    as (S & HS & Hv & HjS & _ & HG).
  destruct (no_candidate _ _ _ _ _ _ _ Hn Hs) as (Hc1 & Hc2 & _).
  rewrite Hpeers, (majority_members D _ _ Hcfg) in Hmaj.
  assert (is_quorum (members D) S) as HQ by (split; [done|lia]).
  assert (h_lead h !! n_currentTerm n = None) as Hnone.
  { destruct (h_lead h !! n_currentTerm n) as [L|] eqn:HL; [|done]. exfalso.
    pose proof (ho_lead _ _ _ (inv_hist _ _ _ _ HI) _ _ HL) as HLok.
    apply (quorum_disjoint _ _ _ HQ (ldo_quorum _ _ _ _ HLok)).
    intros w HwS HwL. destruct (HG w HwS) as [(v & Hwv & Hcv)|(L' & HL' & Hw)]; [|congruence].
    destruct (ldo_votes _ _ _ _ HLok w HwL) as (v' & Hv' & Hcv' & _).
    apply (Hc1 L eq_refl). congruence. }
  split; [done|]. exists S. split_and!; [done..|]. intros w Hw.
  destruct (HG w Hw) as [(v & Hwv & Hcv)|(L & HL & _)]; [|congruence].
  exists v. split_and!; [done..| |]; by apply (Hc2 w).
Qed.
(** The history with a new leader. *)
Definition record_leader (h : Hist) (T : Z) (L : LeadRec) : Hist :=
  mkHist (<[T := L]> (h_lead h)) (h_vote h).

Lemma record_leader_le h T L : h_lead h !! T = None -> hist_le h (record_leader h T L).
Proof.
  intros Hn. split; [|done]. simpl. intros T' L' HL'. exists L'.
  rewrite lookup_insert_ne by congruence. by split_and!.
Qed.

Lemma record_leader_acked net h T L w T' m :
  acked D net (record_leader h T L) w T' m ->
  acked D net h w T' m \/ (T' = T /\ l_id L = w /\ (m < length (l_log L))%nat).
Proof.
  intros [?|(L' & HL' & Hid & Hm)]; [by left; left|]. simpl in HL'.
  apply lookup_insert_Some in HL' as [[-> ->]|[_ HL']]; [by right|left; right; by exists L'].
Qed.

Lemma new_leader_hist k c h j n S :
  Inv D k c h -> c_nodes c !! j = Some n ->
  h_lead h !! n_currentTerm n = None -> 0 < n_currentTerm n ->
  is_quorum (members D) S -> j ∈ S ->
  (forall w, w ∈ S -> exists v, h_vote h !! (w, n_currentTerm n) = Some v /\ v_cand v = j /\
      v_lastIndex v = Log.LastIndex (n_log n) /\ v_lastTerm v = Log.LastTerm (n_log n)) ->
  let L := mkLeadRec j S (Log.entries (n_log n)) (Log.entries (n_log n)) in
  hist_ok D (c_net c) (record_leader h (n_currentTerm n) L).
Proof.
  intros HI Hj Hnone HT HQ HjS HS L. set (T := n_currentTerm n) in *.
  pose proof (record_leader_le h T L Hnone) as Hle. pose proof (inv_hist _ _ _ _ HI) as Hh.
  pose proof (inv_nodes _ _ _ _ HI _ _ Hj) as Hn. split.
  - intros T' L' HL'. simpl in HL'. apply lookup_insert_Some in HL' as [[<- <-]|[_ HL']].
    2: { eapply lead_ok_mono; [done|by apply Hh]. }
    pose proof (no_log _ _ _ _ _ _ _ Hn) as Hlog. split; simpl; try done.
    + eapply log_ok_mono; [done| |reflexivity]. by apply log_ok_no_lead.
    + intros i e' Hi Hge. apply lookup_lt_Some in Hi. lia.
    + by eapply log_ok_mono.
  - intros w T' v Hv. eapply vote_ok_mono; [done|done|by eapply Inv_acked_bounded| |by apply Hh].
    intros T0 m HT0 [Ha|(-> & Hid & _)]%record_leader_acked; [done|].
    simpl in Hid. subst w. destruct (no_vote _ _ _ _ _ _ _ Hn _ _ Hv). lia.
Qed.

Lemma new_leader_node k c h j n e S :
  Inv D k c h -> c_nodes c !! j = Some n -> n_state n = Candidate ->
  h_lead h !! n_currentTerm n = None -> c_elections c !! j = Some e ->
  let L := mkLeadRec j S (Log.entries (n_log n)) (Log.entries (n_log n)) in
  node_ok D k (c_net c) (record_leader h (n_currentTerm n) L) None j (becomeLeader n).
Proof.
  intros HI Hj Hs Hnone He L. set (T := n_currentTerm n) in *.
  pose proof (record_leader_le h T L Hnone) as Hle.
  pose proof (Inv_acked_bounded _ _ _ _ HI) as Hb.
  destruct (inv_nodes _ _ _ _ HI _ _ Hj).
  destruct no_role as [Hvf HT]; [by rewrite Hs|].
  unfold becomeLeader.
  pose proof (init_indexes_fields (Log.LastIndex (n_log n)) (n_peers n)
                (set_leaderID (n_id n) (set_state Leader n))) as Hf.
  simpl in Hf. destruct Hf as (F1 & F2 & F3 & F4 & F5 & F6 & F7 & F8 & _).
  simpl. set (n' := init_indexes _ _ _) in *.
  pose proof (Log.wf_length _ (lok_wf _ _ _ no_log)) as Hlen.
  split; rewrite ?F1, ?F2, ?F3, ?F4, ?F5, ?F6, ?F7; try done.
  - by eapply log_ok_mono.
  - eapply commit_ok_mono; [done..|exact no_commit_ok].
  - intros T0 v Hv. destruct (no_vote _ _ Hv). split; [done|]. simpl. intros ->.
    by rewrite lookup_insert_eq.
  - simpl. intros _. fold T. by rewrite lookup_insert_eq.
  - simpl. intros L'. fold T. rewrite lookup_insert_eq. by intros [= <-].
  - intros _. split.
    + exists L. simpl. fold T. by rewrite lookup_insert_eq.
    + intros p Hp. destruct (F8 p Hp) as [-> ->]. exists (Log.LastIndex (n_log n) + 1), 0.
      split_and!; [done..|]. split; rewrite ?F5; unfold Log.LastIndex, len; lia.
  - fold T. intros T0 m [Ha|(-> & _ & Hm)]%record_leader_acked.
    + destruct (no_acked _ _ Ha) as [? Hn]. split; [done|]. intros Hsf.
      destruct (Hb _ _ _ Ha) as (L0 & HL0 & Hm0). eapply holds_mono; [done|].
      apply Hn. by eapply safe_upto_anti.
    + split; [done|]. intros _. exists L. simpl. by rewrite lookup_insert_eq.
Qed.

Lemma election_end_keeps k c h j n e :
  Inv D k c h -> c_nodes c !! j = Some n -> c_elections c !! j = Some e ->
  exists h', hist_le h h' /\
    Inv D k (set_election (put c j (fst (startElection_finish n (er_term e) (er_votes e)))) j None) h'.
Proof.
  intros HI Hj He. unfold startElection_finish. case_bool_decide as Hst; simpl.
  { exists h. split; [done|]. rewrite put_id by done. by eapply Inv_set_election. }
  case_bool_decide as Hmaj; simpl.
  2: { exists h. split; [done|]. rewrite put_id by done. by eapply Inv_set_election. }
  apply Decidable.not_or in Hst as [Hs%dec_stable Ht%dec_stable].
  destruct (election_won k c h j n e) as (Hnone & S & HQ & HjS & HS); [done..|].
  set (L := mkLeadRec j S (Log.entries (n_log n)) (Log.entries (n_log n))).
  pose proof (inv_nodes _ _ _ _ HI _ _ Hj) as Hn.
  destruct (no_role _ _ _ _ _ _ _ Hn) as [_ HT]; [by rewrite Hs|].
  exists (record_leader h (n_currentTerm n) L). split; [by apply record_leader_le|].
  replace (set_election _ _ _) with
    (post (set_election (put c j (becomeLeader n)) j None) []) by
    (unfold post; simpl; by rewrite app_nil_r).
  eapply (Inv_step _ _ _ _ h); [exact HI|done|exact Hj|by apply record_leader_le|..]; rewrite ?app_nil_r.
  - by apply (new_leader_hist k c).
  - by intros m ?%elem_of_nil.
  - intros i Hi. split; try done; [by apply record_leader_le| |by left].
    simpl. intros T L' HL' Hid. apply lookup_insert_Some in HL' as [[_ <-]|[_ ?]]; done.
  - by eapply new_leader_node.
Qed.
End events.
