(* ===== verification/LeaderSteps.v ===== *)
(** * LeaderSteps: what a leader does keeps the invariant

    Appending a stroke, sending entries, handling their acknowledgement and
    advancing the commit index. *)

From Stdlib Require Import ZArith Lia.
From stdpp Require Import base list strings gmap option.
From S2P Require Import Prelude Types RaftLog Node Election Replication Cluster History Invariant Frame ElectionSteps ElectionEvents.
Open Scope Z_scope.

Section leader.
Context (D : Deployment) {WD : WellDeployed D}.

(** ** Appending a stroke *)

(** The history after the leader [L] of [T] has written [l]. *)
Definition record_append (h : Hist) (T : Z) (L : LeadRec) (l : list LogEntry) : Hist :=
  mkHist (<[T := mkLeadRec (l_id L) (l_quorum L) (l_init L) l]> (h_lead h)) (h_vote h).

Lemma record_append_le h T L l :
  h_lead h !! T = Some L -> l_log L `prefix_of` l -> hist_le h (record_append h T L l).
Proof.
  intros HL Hp. split; [|done]. simpl. intros T' L' HL'. destruct (decide (T' = T)) as [->|].
  - simplify_eq. rewrite lookup_insert_eq. eexists. split; [done|]. by split_and!.
  - rewrite lookup_insert_ne by done. exists L'. by split_and!.
Qed.

Lemma record_append_acked net h T L l w T' m :
  acked D net (record_append h T L l) w T' m ->
  acked D net h w T' m \/ (T' = T /\ w = l_id L /\ (m < length l)%nat).
Proof.
  intros [?|(L' & HL' & Hid & Hm)]; [by left; left|]. simpl in HL'.
  apply lookup_insert_Some in HL' as [[-> <-]|[_ HL']]; [by right|left; right; by exists L'].
Qed.

Lemma log_ok_append h T L e :
  h_lead h !! T = Some L -> log_ok h T (l_log L) -> 0 < T ->
  le_Term e = T -> le_Index e = len (l_log L) ->
  log_ok (record_append h T L (l_log L ++ [e])) T (l_log L ++ [e]).
Proof.
  intros HL [H1 H2 H3 H4] HT Het Hei. set (l := l_log L ++ [e]).
  pose proof (record_append_le h T L l HL ltac:(by eexists)) as Hle. split.
  - apply Log.wf_snoc; [done..|lia].
  - intros i x [Hi|[Hge [Hi <-]%list_lookup_singleton_Some]]%lookup_app_Some Hpos.
    + eapply holds_agree; [eapply holds_mono; [done|by apply H2]|].
      apply agree_upto_app. by eapply lookup_lt_Some.
    + rewrite Het. eexists. simpl. rewrite lookup_insert_eq. split; [done|]. simpl.
      split; [|done]. unfold l. rewrite length_app. simpl. lia.
  - apply Log.term_sorted_snoc; [done|]. by rewrite Het.
  - apply Log.terms_le_snoc; [done|lia].
Qed.

Section stroke.
Context (k : Z) (c : Cluster) (h : Hist) (j : string) (n : Node) (L : LeadRec) (e : LogEntry).
Context (HI : Inv D k c h) (Hj : c_nodes c !! j = Some n).
Context (HL : h_lead h !! n_currentTerm n = Some L) (Hid : l_id L = j).
Context (Hlog : l_log L = Log.entries (n_log n)) (Hs : n_state n = Leader).
Context (Het : le_Term e = n_currentTerm n) (Hei : le_Index e = len (Log.entries (n_log n))).

Let T := n_currentTerm n.
Let l := Log.entries (n_log n) ++ [e].
Let h' := record_append h T L l.

Local Lemma stroke_le : hist_le h h'.
Proof. apply record_append_le; [done|]. rewrite Hlog. by eexists. Qed.

Local Lemma stroke_term : 0 < T.
Proof. apply (no_role _ _ _ _ _ _ _ (inv_nodes _ _ _ _ HI _ _ Hj)). by rewrite Hs. Qed.

Local Lemma stroke_log : log_ok h' T l.
Proof.
  unfold h', l. rewrite <- Hlog. apply log_ok_append; [done| |apply stroke_term|done|by rewrite Hlog].
  eapply lead_log; [apply HI|done].
Qed.

Local Lemma stroke_hist : hist_ok D (c_net c) h'.
Proof.
  pose proof stroke_le as Hle. pose proof (inv_hist _ _ _ _ HI) as Hh.
  pose proof (inv_nodes _ _ _ _ HI _ _ Hj) as Hn. split.
  - simpl. intros T' L' HL'. apply lookup_insert_Some in HL' as [[<- <-]|[_ HL']].
    2: { eapply lead_ok_mono; [done|by apply Hh]. }
    destruct (lead_ok_mono D _ _ _ _ Hle (ho_lead _ _ _ Hh _ _ HL)). split; simpl; try done.
    + etrans; [done|]. rewrite Hlog. by eexists.
    + intros i x [Hi|[Hge [Hi <-]%list_lookup_singleton_Some]]%lookup_app_Some Hge'; [|done].
      eapply ldo_own; [by rewrite Hlog|done].
    + apply stroke_log.
  - intros w T' v Hv. eapply vote_ok_mono; [done|done|by eapply Inv_acked_bounded| |by apply Hh].
    intros T0 m HT0 [Ha|(-> & -> & _)]%record_append_acked; [done|].
    rewrite Hid in Hv. destruct (no_vote _ _ _ _ _ _ _ Hn _ _ Hv). unfold T in *. lia.
Qed.

Local Lemma stroke_node :
  node_ok D k (c_net c) h' (c_elections c !! j) j (set_log (Log.mk l) n).
Proof.
  pose proof stroke_le as Hle. pose proof (Inv_acked_bounded _ _ _ _ HI) as Hb.
  destruct (inv_nodes _ _ _ _ HI _ _ Hj).
  assert (len l = len (Log.entries (n_log n)) + 1) as Hll by (unfold l; by rewrite len_app).
  assert (forall m, (m < length (Log.entries (n_log n)))%nat ->
            agree_upto m (Log.entries (n_log n)) l) as Hag by (intros; by apply agree_upto_app).
  split; simpl; try done; fold T; fold l.
  - apply stroke_log.
  - lia.
  - eapply commit_ok_mono; [done..|]. eapply commit_ok_agree; [exact no_commit_ok|].
    apply Hag. unfold len in *. lia.
  - intros T0 v Hv. destruct (no_vote _ _ Hv). split; [done|]. intros ->.
    unfold T. by rewrite lookup_insert_eq.
  - intros _. by rewrite lookup_insert_eq.
  - intros L'. rewrite lookup_insert_eq. intros [= <-]. simpl. by apply no_elector.
  - rewrite Hs. by intros.
  - intros _. destruct (no_leader Hs) as [_ Hp]. split.
    + eexists. rewrite lookup_insert_eq. split; [done|]. done.
    + intros p Hin. destruct (Hp p Hin) as (ni & mi & ? & ? & []). exists ni, mi.
      split_and!; [done..|]. split; simpl; fold l; [lia|lia|].
      intros. by eapply acked_mono, po_acked.
  - intros T0 m [Ha|(-> & _ & Hm)]%record_append_acked.
    + destruct (no_acked _ _ Ha) as [? Hn]. split; [done|]. intros Hsf.
      destruct (Hb _ _ _ Ha) as (L0 & HL0 & Hm0).
      assert (holds h T0 m (Log.entries (n_log n))) as Hh0 by (apply Hn; by eapply safe_upto_anti).
      eapply holds_agree; [by eapply holds_mono|]. apply Hag. by eapply holds_length.
    + split; [done|]. intros _. eexists. simpl. rewrite lookup_insert_eq. split; [done|]. by split.
  - intros e' He. destruct (no_election e' He). split; simpl; try done. rewrite Hs. by intros.
Qed.

Lemma stroke_keeps : Inv D k (put c j (set_log (Log.mk l) n)) h'.
Proof.
  rewrite <- put_election_id.
  eapply (Inv_step D k k c h); [done|done|done|apply stroke_le|..]; rewrite ?app_nil_r.
  - apply stroke_hist.
  - by intros m ?%elem_of_nil.
  - intros i Hi. split; try done; [apply stroke_le| |by left].
    simpl. intros T' L' HL' Hid'. apply lookup_insert_Some in HL' as [[_ <-]|[_ ?]]; [|done].
    simpl in Hid'. congruence.
  - apply stroke_node.
Qed.
End stroke.

Lemma HandleStroke_keeps k c h j n s :
  Inv D k c h -> c_nodes c !! j = Some n ->
  exists h', hist_le h h' /\ Inv D k (put c j (fst (HandleStroke n s))) h'.
Proof.
  intros HI Hj. unfold HandleStroke. case_bool_decide as Hs; simpl.
  { exists h. split; [done|]. by rewrite put_id. }
  pose proof (inv_nodes _ _ _ _ HI _ _ Hj) as Hn.
  destruct (no_leader _ _ _ _ _ _ _ Hn Hs) as ((L & HL & Hid & Hlog) & _).
  set (e := Log.with_Index _ _).
  exists (record_append h (n_currentTerm n) L (Log.entries (n_log n) ++ [e])).
  split; [apply record_append_le; [done|]; rewrite Hlog; by eexists|].
  rewrite <- (put_put c j (set_log (Log.mk (Log.entries (n_log n) ++ [e])) n)).
  eapply Inv_core; [by eapply stroke_keeps|apply put_lookup|]. by split_and!.
Qed.

(** ** Sending entries *)

Lemma send_keeps k c h i p n req :
  Inv D k c h -> c_nodes c !! i = Some n -> p ∈ n_peers n ->
  sendAppendEntries_request n p = Some req ->
  Inv D k (post c [MAppendReq i p req]) h.
Proof.
  intros HI Hi Hp Hreq. pose proof (inv_nodes _ _ _ _ HI _ _ Hi) as Hn.
  unfold sendAppendEntries_request in Hreq. case_bool_decide as Hs; [done|].

  destruct (no_leader _ _ _ _ _ _ _ Hn Hs) as ((L & HL & Hid & Hlog) & Hmaps).
  destruct (Hmaps p Hp) as (ni & mi & Hni & _ & []). rewrite Hni in Hreq. simplify_eq.
  destruct (no_cfg _ _ _ _ _ _ _ Hn) as (cfg & Hcfg & Hpeers).
  pose proof (no_commit _ _ _ _ _ _ _ Hn). pose proof (no_term _ _ _ _ _ _ _ Hn).
  apply Inv_post; [done|by repeat constructor|].
  intros m ->%list_elem_of_singleton. exists L. simpl. split; [done|].
  rewrite (Log.GetFrom_drop (n_log n)) by lia.
  split; simpl; rewrite ?Hlog; try done; try lia.
  - rewrite Hpeers in Hp. by eapply peer_host.
  - intros cfg' ?. simplify_eq. by rewrite <- Hpeers.
  - apply (no_id _ _ _ _ _ _ _ Hn).
  - unfold len in *. lia.
  - apply Log.Term_term_at. lia.
  - replace (Z.to_nat ni) with (S (Z.to_nat (ni - 1))) by lia.
    intros x e. rewrite lookup_drop. done.
  - rewrite length_drop. unfold len in *. lia.
  - apply Hn.
Qed.

(** ** Advancing the commit index *)

Lemma acked_le net h w T m m' : acked D net h w T m -> (m' <= m)%nat -> acked D net h w T m'.
Proof.
  intros [(src & p & req & resp & ? & ? & ? & ? & ?)|(L & ? & ? & ?)] ?.
  - left. exists src, p, req, resp. split_and!; try done. lia.
  - right. exists L. split_and!; try done. lia.
Qed.

(** The peers whose match index reaches [idx]. *)
Definition matched (n : Node) (idx : Z) : list string :=
  filter (fun p => idx <= map_get (n_matchIndex n) p) (n_peers n).

Lemma replicaCount_matched n idx : replicaCount n idx = 1 + len (matched n idx).
Proof.
  unfold replicaCount, matched, len.
  assert (forall ps a, foldl (fun c p => if bool_decide (idx <= map_get (n_matchIndex n) p) then c + 1 else c) a ps
            = a + Z.of_nat (length (filter (fun p => idx <= map_get (n_matchIndex n) p) ps))) as H; [|apply H].
  induction ps as [|p ps IH]; intros a; simpl; [lia|].
  rewrite IH, filter_cons. case_bool_decide; case_decide; try done; simpl; lia.
Qed.

Lemma commit_evidence k c h j n idx :
  Inv D k c h -> c_nodes c !! j = Some n -> n_state n = Leader ->
  0 < idx <= Log.LastIndex (n_log n) -> Log.Term (n_log n) idx = n_currentTerm n ->
  majority (n_peers n) <= replicaCount n idx ->
  committed D (c_net c) h (n_currentTerm n) (Z.to_nat idx).
Proof.
  intros HI Hj Hs Hidx Hterm Hmaj. pose proof (inv_nodes _ _ _ _ HI _ _ Hj) as Hn.
  destruct (no_leader _ _ _ _ _ _ _ Hn Hs) as ((L & HL & Hid & Hlog) & Hmaps).
  destruct (no_cfg _ _ _ _ _ _ _ Hn) as (cfg & Hcfg & Hpeers).
  unfold Log.LastIndex, len in Hidx.
  set (Q := ({[j]} ∪ list_to_set (map (d_host D) (matched n idx)) : gset string)).
  assert (forall p, p ∈ matched n idx -> p ∈ n_peers n /\ idx <= map_get (n_matchIndex n) p) as Hmat.
  { intros p [? ?]%list_elem_of_filter. done. }
  assert (matched n idx `sublist_of` n_peers n) as Hsub by apply sublist_filter.
  assert (NoDup (map (d_host D) (matched n idx))) as Hnd.
  { eapply sublist_NoDup; [|by apply (fmap_sublist (d_host D))]. change (NoDup (map (d_host D) (n_peers n))). rewrite Hpeers. by eapply wd_nodup. }
  assert (forall w, w ∈ Q -> w = j \/ exists p, p ∈ matched n idx /\ w = d_host D p) as HQ.
  { intros w [->%elem_of_singleton|(p & -> & ?)%elem_of_list_to_set%list_elem_of_fmap]%elem_of_union; eauto. }
  assert (forall p, p ∈ matched n idx -> d_host D p ∈ members D ∖ {[j]}) as Hhost.
  { intros p [Hp _]%Hmat. rewrite Hpeers in Hp. by eapply peer_host. }
  exists L, Q. split_and!; [done|rewrite Hlog; lia| | |].
  - rewrite Hlog. by rewrite <- Log.Term_term_at by lia.
  - split.
    + intros w [->|(p & Hp & ->)]%HQ; [by eapply member_cfg|].
      specialize (Hhost p Hp). apply elem_of_difference in Hhost. tauto.
    + rewrite replicaCount_matched, Hpeers, (majority_members D _ _ Hcfg) in Hmaj.
      unfold Q. rewrite size_union, size_singleton, size_list_to_set by
        (done || (intros w ->%elem_of_singleton (p & Heq & Hp)%elem_of_list_to_set%list_elem_of_fmap;
                  specialize (Hhost p Hp); rewrite <- Heq in Hhost; apply elem_of_difference in Hhost;
                  destruct Hhost as [_ Hhost]; by apply Hhost, elem_of_singleton)).
      rewrite length_map. unfold len in Hmaj. lia.
  - intros w [->|(p & Hp & ->)]%HQ.
    + right. exists L. split_and!; [done..|]. rewrite Hlog. lia.
    + destruct (Hmat p Hp) as [Hin Hle]. destruct (Hmaps p Hin) as (ni & mi & _ & Hmi & []).
      unfold map_get in Hle. rewrite Hmi in Hle. simpl in Hle.
      eapply acked_le; [apply po_acked; lia|lia].
Qed.

Lemma node_ok_commit k net h er j n v :
  node_ok D k net h er j n -> 0 <= v < len (Log.entries (n_log n)) ->
  commit_ok D net h (n_currentTerm n) (Log.entries (n_log n)) (Z.to_nat v) ->
  node_ok D k net h er j (set_commitIndex v n).
Proof.
  intros [] ??. split; try done.
  - intros Hs. destruct (no_leader Hs) as (? & Hp). split; [done|].
    intros p Hin. destruct (Hp p Hin) as (ni & mi & ? & ? & []). exists ni, mi. by split_and!.
  - intros e He. by destruct (no_election e He).
Qed.

Lemma advance_at_keeps k c h j n idx :
  Inv D k c h -> c_nodes c !! j = Some n -> n_state n = Leader ->
  0 < idx <= Log.LastIndex (n_log n) -> Inv D k (put c j (advance_at n idx)) h.
Proof.
  intros HI Hj Hs Hidx. unfold advance_at.
  case_bool_decide as Ht; [by rewrite put_id|].
  case_bool_decide as Hm; [|by rewrite put_id].
  pose proof (commit_evidence k c h j n idx HI Hj Hs Hidx Ht Hm) as Hc.
  pose proof (inv_nodes _ _ _ _ HI _ _ Hj) as Hn.
  eapply Inv_put; [done..|]. unfold Log.LastIndex in Hidx. apply node_ok_commit; [done|lia|].
  right. exists (n_currentTerm n), (Z.to_nat idx). split_and!; [done..|].
  destruct (no_leader _ _ _ _ _ _ _ Hn Hs) as ((L & HL & Hid & Hlog) & _).
  exists L. rewrite Hlog. unfold len in *. split_and!; [done|lia|done].
Qed.

Lemma advance_at_fields n idx :
  n_state (advance_at n idx) = n_state n /\ n_log (advance_at n idx) = n_log n.
Proof. unfold advance_at. by repeat case_bool_decide. Qed.

Lemma advance_loop_keeps k h j fuel : forall idx n c,
  Inv D k (put c j n) h -> n_state n = Leader -> 0 < idx ->
  Inv D k (put c j (advance_loop fuel idx n)) h.
Proof.
  induction fuel as [|fuel IH]; intros idx n c HI Hs Hidx; simpl; [done|].
  case_bool_decide as Hle; [|done]. destruct (advance_at_fields n idx) as [Hs' Hl'].
  apply IH; [|by rewrite Hs'|lia]. rewrite <- (put_put c j n).
  apply advance_at_keeps; [done|apply put_lookup|done|lia].
Qed.

Lemma advanceCommitIndex_keeps k c h j n :
  Inv D k (put c j n) h -> n_state n = Leader -> Inv D k (put c j (advanceCommitIndex n)) h.
Proof.
  intros HI Hs. apply advance_loop_keeps; [done..|].
  pose proof (no_commit _ _ _ _ _ _ _ (inv_nodes _ _ _ _ HI _ _ (put_lookup c j n))). lia.
Qed.
End leader.
