(* ===== verification/FollowerSteps.v ===== *)
(** * FollowerSteps: receiving entries and acknowledgements keeps the invariant

    Also that [HandleAppendEntries] never panics on a request of the cluster:
    a conflict with a committed entry would contradict leader completeness. *)

From Stdlib Require Import ZArith Lia.
From stdpp Require Import base list strings gmap option.
From S2P Require Import Prelude Types RaftLog Node Election Replication Handlers Cluster History Invariant Frame.
From S2P Require Import ElectionSteps LeaderSteps.
Open Scope Z_scope.

Section follower.
Context (D : Deployment) {WD : WellDeployed D}.

(** ** Recognising the leader *)

Definition to_follower (n : Node) : Node :=
  set_state Follower
    (if bool_decide (n_state n = Follower) then n else set_votedFor EmptyString n).

Lemma accept_leader_core n req :
  areq_Term req = n_currentTerm n -> same_core (to_follower n) (accept_leader n req).
Proof.
  intros HT. unfold accept_leader, to_follower, same_core. simpl.
  destruct (decide (n_state n = Candidate)) as [Hs|Hs]; simpl.
  - rewrite !(bool_decide_true (_ = Candidate)) by done. simpl. rewrite Hs.
    rewrite (bool_decide_false (Candidate = Follower)) by done. by split_and!.
  - rewrite (bool_decide_false (_ = Candidate)) by done. simpl.
    destruct (decide (n_state n = Follower)) as [Hf|Hf].
    + rewrite (bool_decide_true (_ = Follower)), (bool_decide_false (_ <> Follower)) by (simpl; tauto).
      simpl. by split_and!.
    + rewrite (bool_decide_false (_ = Follower)), (bool_decide_true (_ <> Follower)) by done.
      simpl. by split_and!.
Qed.

Lemma node_ok_to_follower k net h er j n L :
  node_ok D k net h er j n -> h_lead h !! n_currentTerm n = Some L -> l_id L <> j ->
  node_ok D k net h er j (to_follower n).
Proof.
  intros [] HL Hid. unfold to_follower.
  assert (forall n', (n' = n \/ n' = set_votedFor EmptyString n /\ n_state n <> Follower) ->
    node_ok D k net h er j (set_state Follower n')) as Hgoal; [|case_bool_decide; eauto].
  intros n' Hn'. assert (n_votedFor n' = n_votedFor n \/ n_state n <> Follower) as Hvf.
  { destruct Hn' as [->|[-> ?]]; [by left|by right]. }
  assert (forall {A} (f : Node -> A), (forall v, f (set_votedFor v n) = f n) -> f n' = f n) as Hsame.
  { intros A f Hf. destruct Hn' as [->|[-> _]]; auto. }
  split; simpl; rewrite ?(Hsame _ n_id), ?(Hsame _ n_peers), ?(Hsame _ n_currentTerm),
    ?(Hsame _ n_log), ?(Hsame _ n_commitIndex) by done; try done.
  - intros T v Hv. destruct (no_vote _ _ Hv). split; [done|]. intros ->. congruence.
  - intros _. congruence.
  - intros L' HL' Hq. simplify_eq. destruct Hvf as [->|Hs]; [by apply no_elector|].
    destruct (no_role Hs) as [Hv _]. rewrite (no_elector _ HL Hq) in Hv. done.
  - intros e He. destruct (no_election e He). split; simpl;
      rewrite ?(Hsame _ n_peers), ?(Hsame _ n_currentTerm) by done; done.
Qed.

(** ** The follower's log against the leader's *)

Lemma commit_agrees net h T L T' l c :
  hist_ok D net h -> h_lead h !! T = Some L -> T' <= T ->
  log_ok h T' l -> commit_ok D net h T' l c -> agree_upto c l (l_log L).
Proof.
  intros Hh HL HT Hl Hc. assert (log_ok h T (l_log L)) as HlL by (by eapply lead_log).
  destruct Hc as [->|(T0 & m & HT0 & Hcm & Hcle & Hhold)].
  - apply agree_upto_intro. intros m ?. replace m with 0%nat by lia.
    by rewrite (proj1 (lok_wf _ _ _ Hl)), (proj1 (lok_wf _ _ _ HlL)).
  - eapply holds_inj; [done|]. destruct (decide (T0 = T)) as [->|].
    + destruct Hhold as (L' & ? & ? & ?). simplify_eq. exists L. by split_and!.
    + eapply (holds_init_log D); [done|done|]. eapply holds_le; [|done].
      eapply leader_completeness_hist; [done|done|done|]. lia.
Qed.

(** The facts [append_and_commit] rests on: a follower of the request's
    term whose log agrees with the leader's up to [PrevLogIndex]. *)
Section append.
Context (k : Z) (c : Cluster) (h : Hist) (j src p : string) (n : Node) (L : LeadRec)
        (req : AppendEntriesRequest).
Context (HI : Inv D k c h) (Hj : c_nodes c !! j = Some n) (Hjp : j = d_host D p).
Context (HL : h_lead h !! areq_Term req = Some L)
        (Hreq : areq_ok D k (c_net c) h src p req L).
Context (HT : n_currentTerm n = areq_Term req) (Hs : n_state n = Follower).
Let prev := Z.to_nat (areq_PrevLogIndex req).
Let bound := (prev + length (areq_Entries req))%nat.
Context (Hprev : (prev < length (Log.entries (n_log n)))%nat)
        (Hag : agree_upto prev (Log.entries (n_log n)) (l_log L)).

Local Lemma append_lead_log : log_ok h (areq_Term req) (l_log L).
Proof. eapply lead_log; [apply HI|done]. Qed.

Local Lemma append_node : node_ok D k (c_net c) h (c_elections c !! j) j n.
Proof. by apply HI. Qed.

Local Lemma append_matching : Log.matching (Log.entries (n_log n)) (l_log L).
Proof. eapply log_ok_matching; [apply append_node|apply append_lead_log]. Qed.

Local Lemma append_commit_agrees :
  agree_upto (Z.to_nat (n_commitIndex n)) (Log.entries (n_log n)) (l_log L).
Proof.
  eapply (commit_agrees (c_net c) h (areq_Term req)); [apply HI|done| | |apply append_node].
  - rewrite HT. reflexivity.
  - apply append_node.
Qed.

(** The call returns, and the log it leaves. *)
Lemma append_result : exists l',
  Log.AppendEntries (n_log n) (areq_Entries req) (n_commitIndex n) = (l', Ok tt) /\
  agree_upto bound (Log.entries l') (l_log L) /\ (bound < length (Log.entries l'))%nat /\
  log_ok h (areq_Term req) (Log.entries l') /\
  forall m, agree_upto m (Log.entries (n_log n)) (l_log L) ->
    (m < length (Log.entries (n_log n)))%nat -> agree_upto m (Log.entries l') (l_log L).
Proof.
  pose proof append_lead_log as HlL.
  destruct (Log.AppendEntries_segment (areq_Entries req) (n_log n) prev (l_log L) (n_commitIndex n))
    as (l' & Hrun & Hl').
  - apply HlL.
  - apply Hreq.
  - done.
  - done.
  - apply append_matching.
  - intros i e e' Hi He He'.
    pose proof (agree_upto_lookup _ i _ _ append_commit_agrees ltac:(lia)). congruence.
  - exists l'. split; [done|].
    pose proof (Log.segment_length _ _ _ (aro_entries _ _ _ _ _ _ _ _ Hreq) (aro_prev_lt _ _ _ _ _ _ _ _ Hreq)) as Hlen.
    fold prev in Hlen. fold bound in Hl', Hlen.
    destruct Hl' as [(-> & Ha & Hlt)|[Heq Hkeep]].
    + split_and!; [done|done| |by eauto]. rewrite <- HT. apply append_node.
    + rewrite Heq. split_and!.
      * apply agree_upto_take. lia.
      * rewrite length_take. lia.
      * apply log_ok_take; [done|lia].
      * intros m Hm Hml. apply agree_upto_take. specialize (Hkeep m Hm Hml). lia.
Qed.

Lemma append_node_ok l' v :
  agree_upto bound (Log.entries l') (l_log L) -> (bound < length (Log.entries l'))%nat ->
  log_ok h (areq_Term req) (Log.entries l') ->
  (forall m, agree_upto m (Log.entries (n_log n)) (l_log L) ->
    (m < length (Log.entries (n_log n)))%nat -> agree_upto m (Log.entries l') (l_log L)) ->
  (v = n_commitIndex n \/
   (0 <= v < len (Log.entries l') /\ v <= areq_LeaderCommit req)) ->
  node_ok D k (c_net c) h (c_elections c !! j) j (set_commitIndex v (set_log l' n)).
Proof.
  intros Hb Hbl Hl' Hkeep Hv. pose proof append_commit_agrees as Hca.
  pose proof (Inv_acked_bounded _ _ _ _ HI) as Hbd.
  destruct append_node.
  assert (Z.to_nat (n_commitIndex n) < length (Log.entries (n_log n)))%nat as Hcl by (unfold len in *; lia).
  pose proof (Hkeep _ Hca Hcl) as Hca'.
  assert (0 <= v < len (Log.entries l')) as Hvr.
  { destruct Hv as [->|?]; [|tauto]. split; [lia|].
    assert (Z.to_nat (n_commitIndex n) < length (Log.entries l'))%nat; [|unfold len; lia].
    eapply agree_upto_length; [symmetry; exact Hca'|]. eapply agree_upto_length; [exact Hca|done]. }
  split; simpl; try done; try (rewrite Hs; by intros).
  - by rewrite HT.
  - destruct Hv as [->|[_ Hv]].
    + eapply commit_ok_agree; [exact no_commit_ok|]. by rewrite Hca, Hca'.
    + rewrite HT. eapply commit_ok_agree.
      * eapply commit_ok_le; [apply (aro_commit _ _ _ _ _ _ _ _ Hreq)|lia].
      * symmetry. eapply agree_upto_le; [exact Hb|].
        pose proof (aro_commit_le _ _ _ _ _ _ _ _ Hreq). unfold bound, prev. lia.
  - intros T0 m Ha. destruct (no_acked _ _ Ha) as [? Hn]. split; [done|]. intros Hsf.
    destruct (Hbd _ _ _ Ha) as (L0 & HL0 & Hm0). specialize (Hn Hsf).
    assert (holds h T0 m (l_log L)) as HLh.
    { eapply (safe_upto_log D (c_net c) h (inv_hist _ _ _ _ HI) T0 (areq_Term req)); [done|by rewrite <- HT|lia|eauto]. }
    pose proof (holds_inj _ _ _ _ _ Hn HLh) as Hag'.
    eapply holds_agree; [exact HLh|]. symmetry. apply Hkeep; [done|].
    by eapply holds_length.
  - intros e He. by destruct (no_election e He).
Qed.

(** Posting the acknowledgement. *)
Lemma ack_keeps resp :
  holds h (areq_Term req) bound (Log.entries (n_log n)) ->
  aresp_Term resp <= k -> aresp_ConflictIndex resp <= areq_PrevLogIndex req ->
  aresp_Success resp = true ->
  Inv D k (post c [MAppendResp src p req resp]) h.
Proof.
  intros Hhold Hk Hci Hsucc. pose proof append_node as Hn.
  pose proof (Inv_acked_bounded _ _ _ _ HI) as Hbd.
  assert (forall x, x ∈ c_net c -> x ∈ c_net c ++ [MAppendResp src p req resp]) as Hsub
    by (intros; apply elem_of_app; by left).
  assert (forall w T m, acked D (c_net c ++ [MAppendResp src p req resp]) h w T m ->
    acked D (c_net c) h w T m \/ (w = j /\ T = areq_Term req /\ (m <= bound)%nat)) as Hack.
  { intros w T m [(s & q & rq & rp & Hin & Hw & HTq & Hsq & Hm)|?]; [|by left; right].
    apply elem_of_app in Hin as [Hin|Hin%list_elem_of_singleton].
    - left. left. exists s, q, rq, rp. by split_and!.
    - right. simplify_eq. done. }
  rewrite <- (put_id c j n Hj).
  eapply (Inv_step_post D _ _ h); [exact HI|exact Hj|done| | | |].
  - destruct (inv_hist _ _ _ _ HI) as [Hl Hv]. split; [done|]. intros w T v Hwv.
    eapply vote_ok_mono; [done|exact Hsub|done| |by apply Hv].
    intros T' m HT' [?|(-> & -> & _)]%Hack; [done|].
    destruct (no_vote _ _ _ _ _ _ _ Hn _ _ Hwv). lia.
  - intros m ->%list_elem_of_singleton. split_and!; [|done..].
    exists L. split; [done|].
    destruct (areq_ok_mono D k k _ _ h h src p req L (reflexivity h) Hsub ltac:(lia) HL Hreq) as (L' & ? & ?).
    by simplify_eq.
  - intros i Hi. split; try done; [by left| |].
    + intros q rq [?|Hin%list_elem_of_singleton]%elem_of_app; done.
    + intros s q rq rp [?|Hin%list_elem_of_singleton]%elem_of_app Hq _; [done|]. simplify_eq.
  - destruct Hn. split; try done.
    + eapply commit_ok_mono; [done|exact Hsub| |exact no_commit_ok]. lia.
    + rewrite Hs. by intros.
    + rewrite Hs. by intros.
    + intros T m [Ha|(_ & -> & Hm)]%Hack; [by apply no_acked|]. split; [lia|]. intros _.
      by eapply holds_le.
    + intros q rq [?|Hin%list_elem_of_singleton]%elem_of_app; [by eapply no_requests|done].
Qed.
End append.

(** The whole tail of the handler: it returns success. *)
Lemma append_and_commit_keeps k c h j src p n L req :
  Inv D k c h -> c_nodes c !! j = Some n -> j = d_host D p ->
  h_lead h !! areq_Term req = Some L -> areq_ok D k (c_net c) h src p req L ->
  n_currentTerm n = areq_Term req -> n_state n = Follower ->
  (Z.to_nat (areq_PrevLogIndex req) < length (Log.entries (n_log n)))%nat ->
  agree_upto (Z.to_nat (areq_PrevLogIndex req)) (Log.entries (n_log n)) (l_log L) ->
  exists n' resp, append_and_commit n req = (n', Ok resp) /\
    Inv D k (post (put c j n') [MAppendResp src p req resp]) h.
Proof.
  intros HI Hj Hjp HL Hreq HT Hs Hprev Hag.
  destruct (append_result k c h j src p n L req) as (l' & Hrun & Hb & Hbl & Hl' & Hkeep); [done..|].
  unfold append_and_commit.
  assert ((if bool_decide (0 < len (areq_Entries req))
           then Log.AppendEntries (n_log n) (areq_Entries req) (n_commitIndex n)
           else (n_log n, Ok tt)) = (l', Ok tt)) as ->.
  { case_bool_decide as Hne; [done|]. destruct (areq_Entries req); [done|].
    unfold len in Hne; simpl in Hne. lia. }
  set (n2 := if bool_decide (n_commitIndex (set_log l' n) < areq_LeaderCommit req) then _ else _).
  assert (exists v, n2 = set_commitIndex v (set_log l' n) /\
    (v = n_commitIndex n \/ (0 <= v < len (Log.entries l') /\ v <= areq_LeaderCommit req))) as (v & Hn2 & Hv).
  { unfold n2. clear n2. simpl. pose proof (no_commit _ _ _ _ _ _ _ (inv_nodes _ _ _ _ HI _ _ Hj)).
    unfold Log.LastIndex, len in *.
    repeat case_bool_decide; eexists; split; try reflexivity; [right; lia|right; lia|by left]. }
  exists n2. eexists. split; [done|].
  assert (node_ok D k (c_net c) h (c_elections c !! j) j n2) as Hn2ok.
  { rewrite Hn2. by eapply (append_node_ok k c h j src p n L req). }
  assert (n_currentTerm n2 = areq_Term req /\ n_state n2 = Follower /\ n_log n2 = l') as (HT2 & Hs2 & Hlog2)
    by (by rewrite Hn2).
  assert (Inv D k (put c j n2) h) as HI2 by (by eapply Inv_put).
  eapply (ack_keeps k (put c j n2) h j src p n2 L req); simpl; try done.
  - apply put_lookup.
  - rewrite Hlog2. lia.
  - rewrite Hlog2. exists L. split_and!; [done| |done].
    by eapply agree_upto_length.
  - rewrite HT2. apply Hreq.
  - apply Hreq.
Qed.

(** Recognising the leader keeps the invariant, and leaves the log, in the
    request's term. *)
Lemma accept_leader_keeps_inv k c h j src p n req L :
  Inv D k c h -> c_nodes c !! j = Some n -> n_currentTerm n = areq_Term req ->
  h_lead h !! areq_Term req = Some L -> areq_ok D k (c_net c) h src p req L -> d_host D p = j ->
  Inv D k (put c j (accept_leader n req)) h /\
  n_currentTerm (accept_leader n req) = areq_Term req /\ n_state (accept_leader n req) = Follower.
Proof.
  intros HI Hj HT HL Hreq Hhost. pose proof (accept_leader_core n req (eq_sym HT)) as Hcore.
  assert (l_id L <> j) as Hid.
  { rewrite (aro_id _ _ _ _ _ _ _ _ Hreq). pose proof (aro_peer _ _ _ _ _ _ _ _ Hreq) as Hp.
    rewrite Hhost in Hp. set_solver. }
  split.
  - eapply Inv_put; [exact HI|exact Hj|]. eapply node_ok_core; [exact Hcore|].
    eapply node_ok_to_follower; [by eapply inv_nodes| |done]. by rewrite HT.
  - destruct Hcore as (_ & _ & E3 & _ & _ & E6 & _). rewrite E3, E6. unfold to_follower. simpl.
    split; [|done]. by case_bool_decide.
Qed.

(** A follower whose log passes the check agrees with the leader's up to the
    previous index. *)
Lemma prev_check_agrees k c h src p req L n T :
  Inv D k c h -> h_lead h !! areq_Term req = Some L -> areq_ok D k (c_net c) h src p req L ->
  log_ok h T (Log.entries (n_log n)) ->
  prev_check (Log.entries (n_log n)) (areq_PrevLogIndex req) (areq_PrevLogTerm req) = None ->
  (Z.to_nat (areq_PrevLogIndex req) < length (Log.entries (n_log n)))%nat /\
  agree_upto (Z.to_nat (areq_PrevLogIndex req)) (Log.entries (n_log n)) (l_log L).
Proof.
  intros HI HL Hreq Hlog Hpc. pose proof (lok_wf _ _ _ Hlog) as Hwf. pose proof (Log.wf_length _ Hwf) as Hlen.
  assert (log_ok h (areq_Term req) (l_log L)) as HlL by (eapply lead_log; [apply HI|done]).
  split; [by eapply prev_check_None|]. unfold prev_check in Hpc.
  destruct (decide (areq_PrevLogIndex req <= 0)) as [Hz|Hpos].
  - pose proof (aro_prev _ _ _ _ _ _ _ _ Hreq). replace (Z.to_nat (areq_PrevLogIndex req)) with 0%nat by lia.
    apply agree_upto_intro. intros m ?. replace m with 0%nat by lia.
    by rewrite (proj1 Hwf), (proj1 (lok_wf _ _ _ HlL)).
  - rewrite bool_decide_false in Hpc by done.
    destruct (Log.entries (n_log n) !! Z.to_nat (areq_PrevLogIndex req)) as [e|] eqn:He; [|done].
    case_bool_decide as Hterm; [|done].
    destruct (lookup_lt_is_Some_2 _ _ (aro_prev_lt _ _ _ _ _ _ _ _ Hreq)) as [e' He'].
    eapply log_ok_matching; [exact Hlog|apply HlL|done|done|].
    rewrite Hterm, (aro_prevTerm _ _ _ _ _ _ _ _ Hreq). by apply Log.term_at_Some.
Qed.

Lemma append_request_keeps k c h src p req n :
  Inv D k c h -> MAppendReq src p req ∈ c_net c -> c_nodes c !! d_host D p = Some n ->
  exists n' resp, HandleAppendEntries n req = (n', Ok resp) /\
    Inv D k (post (put c (d_host D p) n') [MAppendResp src p req resp]) h.
Proof.
  intros HI Hin Hj. destruct (inv_msgs _ _ _ _ HI _ Hin) as (L & HL & Hreq).
  set (j := d_host D p) in *. unfold HandleAppendEntries.
  pose proof (Inv_stepDown D k c h j n (areq_Term req) HI Hj (aro_term _ _ _ _ _ _ _ _ Hreq)) as HI1.
  destruct (stepDown_term n (areq_Term req)) as [Hle1 _].
  pose proof (node_ok_term _ _ _ _ _ _ HI Hj) as Hnt.
  set (n1 := fst (stepDown n (areq_Term req))) in *.
  assert (forall n2 t ci, Inv D k (put c j n2) h -> t <= k -> ci <= areq_PrevLogIndex req ->
    Inv D k (post (put c j n2) [MAppendResp src p req (mkAppendEntriesResponse t false ci)]) h) as Hrej.
  { intros n2 t ci HI2 ? ?. apply Inv_post; [done|by repeat constructor|].
    intros m ->%list_elem_of_singleton. simpl. split_and!; [|done..]. by exists L. }
  case_bool_decide as Hlt.
  { eexists _, _. split; [done|]. apply Hrej; [done| |apply Hreq].
    by apply (node_ok_term _ _ _ _ _ _ HI1 (put_lookup c j n1)). }
  destruct (accept_leader_keeps_inv k (put c j n1) h j src p n1 req L) as (HI2 & HT2 & Hs2);
    try done; [apply put_lookup|lia|]. rewrite put_put in HI2.
  set (n2 := accept_leader n1 req) in *.
  pose proof (inv_nodes _ _ _ _ HI2 _ _ (put_lookup c j n2)) as Hn2.
  rewrite (prev_check_code (n_log n2) (areq_PrevLogIndex req) (areq_PrevLogTerm req)
             (fun ci => (n2, Ok (mkAppendEntriesResponse (n_currentTerm n) false ci)))).
  destruct (prev_check _ _ _) as [ci|] eqn:Hpc.
  - eexists _, _. split; [done|]. apply Hrej; [done|lia|by eapply prev_check_le].
  - destruct (prev_check_agrees k (put c j n2) h src p req L n2 _ HI2 HL Hreq (no_log _ _ _ _ _ _ _ Hn2) Hpc) as [Hp Ha].
    destruct (append_and_commit_keeps k (put c j n2) h j src p n2 L req) as (n' & resp & Hr & HI');
      try done; [apply put_lookup|]. exists n', resp. split; [done|]. by rewrite put_put in HI'.
Qed.

(** ** The acknowledgement at the leader *)

Lemma node_ok_maps k net h er j n p ni mi :
  node_ok D k net h er j n ->
  1 <= ni <= len (Log.entries (n_log n)) ->
  (forall mi', mi = Some mi' -> 0 <= mi' < len (Log.entries (n_log n)) /\
     acked D net h (d_host D p) (n_currentTerm n) (Z.to_nat mi')) ->
  node_ok D k net h er j
    (set_matchIndex (match mi with Some m => <[p := m]> (n_matchIndex n) | None => n_matchIndex n end)
      (set_nextIndex (<[p := ni]> (n_nextIndex n)) n)).
Proof.
  intros [] Hni Hmi. split; try done.
  - intros Hs. destruct (no_leader Hs) as (? & Hp). split; [done|]. simpl.
    intros q Hin. destruct (Hp q Hin) as (ni0 & mi0 & E1 & E2 & []).
    destruct (decide (q = p)) as [->|Hne].
    + exists ni. rewrite lookup_insert_eq. destruct mi as [mi'|].
      * destruct (Hmi mi' eq_refl) as [? ?]. exists mi'. rewrite lookup_insert_eq.
        by split_and!.
      * exists mi0. by split_and!.
    + exists ni0, mi0. rewrite lookup_insert_ne by done. split_and!; [done| |by split].
      destruct mi; [by rewrite lookup_insert_ne|done].
  - intros e He. by destruct (no_election e He).
Qed.

Lemma last_index_segment L prev es :
  Log.wf L -> Log.segment L prev es -> es <> [] ->
  last_index_of es = Z.of_nat (prev + length es).
Proof.
  intros [_ HL] Hseg Hne. unfold last_index_of.
  destruct (exists_last Hne) as (es' & e & ->). rewrite last_snoc. simpl.
  destruct (HL (S prev + length es')%nat e) as [-> _].
  - apply Hseg. by rewrite lookup_app_r, Nat.sub_diag by lia.
  - rewrite length_app. simpl. lia.
Qed.

Lemma append_response_keeps k c h src p req resp n :
  Inv D k c h -> MAppendResp src p req resp ∈ c_net c -> c_nodes c !! src = Some n ->
  Inv D k (put c src (sendAppendEntries_response n p (areq_Term req) (areq_Entries req) (Some resp))) h.
Proof.
  intros HI Hin Hj. destruct (inv_msgs _ _ _ _ HI _ Hin) as ((L & HL & Hreq) & Hk & Hci).
  pose proof (inv_nodes _ _ _ _ HI _ _ Hj) as Hn.
  unfold sendAppendEntries_response, stepDown. case_bool_decide as Hdown.
  { by apply Inv_stepdown. }
  case_bool_decide as Hst; [by rewrite put_id|].
  apply Decidable.not_or in Hst as [Hs%dec_stable HT%dec_stable].
  destruct (no_leader _ _ _ _ _ _ _ Hn Hs) as ((L' & HL' & Hid & Hlog) & Hmaps).
  rewrite HT in HL'. assert (L' = L) as -> by congruence.
  pose proof (aro_prev_lt _ _ _ _ _ _ _ _ Hreq) as Hpl. rewrite Hlog in Hpl.
  pose proof (aro_prev _ _ _ _ _ _ _ _ Hreq).
  assert (forall ni, 1 <= ni <= len (Log.entries (n_log n)) ->
    Inv D k (put c src (set_nextIndex (<[p := ni]> (n_nextIndex n)) n)) h) as Hnext.
  { intros ni Hni. eapply Inv_put; [done..|]. eapply (node_ok_core _ _ _ _ _ _ (set_matchIndex (n_matchIndex n) (set_nextIndex (<[p:=ni]> (n_nextIndex n)) n))).
    { by split_and!. }
    by apply (node_ok_maps k _ _ _ _ n p ni None). }
  destruct (aresp_Success resp) eqn:Hsucc.
  - apply advanceCommitIndex_keeps; [done| |by case_bool_decide].
    case_bool_decide as Hne; [|by rewrite put_id].
    pose proof (Log.segment_length _ _ _ (aro_entries _ _ _ _ _ _ _ _ Hreq) (aro_prev_lt _ _ _ _ _ _ _ _ Hreq)) as Hlen.
    rewrite Hlog in Hlen.
    rewrite (last_index_segment (l_log L) (Z.to_nat (areq_PrevLogIndex req)));
      [|eapply lok_wf, lead_log; [apply HI|done]|apply Hreq|by intros Hz; rewrite Hz in Hne].
    eapply Inv_put; [done..|].
    apply (node_ok_maps k _ _ _ _ n p _ (Some _)); [done|unfold len; lia|].
    intros mi [= <-]. split; [unfold len; lia|]. left.
    exists src, p, req, resp. split_and!; [done..|]. lia.
  - case_bool_decide as Hcpos; [apply Hnext; unfold len; lia|].
    case_bool_decide as Hpos; [|by rewrite put_id]. apply Hnext.
    unfold map_get in *. destruct (n_nextIndex n !! p) as [ni|] eqn:Hni; simpl in *; [|lia].
    destruct (no_cfg _ _ _ _ _ _ _ Hn) as (cfg & Hcfg & Hpeers).
    destruct (Hmaps p) as (ni' & mi & E & _ & []).
    { rewrite Hpeers. by apply (aro_from _ _ _ _ _ _ _ _ Hreq). }
    simplify_eq. lia.
Qed.
End follower.
