(* ===== verification/Safety.v ===== *)
(** * Safety: every reachable cluster satisfies the invariant

    Each event of [Cluster] preserves [Inv] (the lemmas of ElectionSteps,
    ElectionEvents, LeaderSteps and FollowerSteps, one per branch of [exec]),
    so every run does.  The bound on the length of a run keeps the terms
    below 2^63: a term grows by at most one per event. *)

From Stdlib Require Import ZArith Lia.
From stdpp Require Import base list strings gmap option.
From S2P Require Import Prelude Types RaftLog Node Election Replication Cluster.
From S2P Require Import History Invariant Frame ElectionSteps ElectionEvents LeaderSteps FollowerSteps.
Open Scope Z_scope.

(** A run short enough for the terms to stay in an [int]. *)
Definition short (tr : list event) : Prop := Z.of_nat (length tr) <= MaxInt64.

(** ** The application loop *)

Lemma send_commit_core n e : same_core n (send_commit n e).
Proof. unfold send_commit. destruct (offer _ _ _) as [ch []]; by split_and!. Qed.

Lemma apply_loop_core fuel i c n : same_core n (apply_loop fuel i c n).
Proof.
  revert i n. induction fuel as [|fuel IH]; intros i n; simpl; [done|].
  case_bool_decide; [|done]. destruct (Log.GetEntry _ _) as [e []]; [|done].
  etrans; [apply (send_commit_core n e)|]. etrans; [|apply IH]. by split_and!.
Qed.

Lemma applyCommitted_core n : same_core n (applyCommitted n).
Proof. apply apply_loop_core. Qed.

Section safety.
Context (D : Deployment) {WD : WellDeployed D}.

(** ** The initial cluster *)

Lemma log_ok_init h T : 0 <= T -> log_ok h T [zeroEntry].
Proof.
  intros. split.
  - apply Log.wf_NewLog.
  - intros [|i] e He ?; [lia|done].
  - intros i j e e' ? Hi Hj. destruct i, j; simplify_eq/=; done.
  - intros [|i] e ?; simplify_eq/=; lia.
Qed.

Lemma Inv_init : Inv D 0 (init D) hist0.
Proof.
  assert (forall w T m, ¬ acked D [] hist0 w T m) as Hack.
  { intros w T m [(? & ? & ? & ? & []%elem_of_nil & _)|(L & HL & _)]. simpl in HL. by apply lookup_empty_Some in HL. }
  split; simpl.
  - by rewrite dom_fmap_L.
  - split; intros *; simpl; [intros HL|intros HL]; by apply lookup_empty_Some in HL.
  - by intros m ?%elem_of_nil.
  - intros i n Hn. rewrite lookup_empty. apply lookup_fmap_Some in Hn as (cfg & <- & Hcfg).
    split; simpl; try done.
    + by apply wd_id.
    + by exists cfg.
    + by apply log_ok_init.
    + by left.
    + by intros ? ? ?%Hack.
    + by intros ? ? ?%elem_of_nil.
Qed.

(** ** One event *)

Lemma deliver_keeps k c c' h m :
  Inv D k c h -> m ∈ c_net c -> deliver D c m = Some c' -> exists h', hist_le h h' /\ Inv D k c' h'.
Proof.
  intros HI Hm Hd. destruct m as [src p req|src p req resp|src p req|src p req resp]; simpl in Hd.
  - apply bind_Some in Hd as (n & Hn & Hd). destruct (HandleVoteRequest n req) eqn:Hr. simplify_eq.
    by eapply vote_request_keeps.
  - apply bind_Some in Hd as (n & Hn & (e & He & Hd)%bind_Some).
    case_bool_decide as Hc; [|done]. destruct Hc as [Ht Hp].
    pose proof (vote_response_keeps D k c h src p req resp n e HI Hm Hn He Ht Hp) as HI'. simpl in HI'.
    repeat case_bool_decide; simplify_eq/=; eexists h; (split; [done|]);
      destruct (vresp_VoteGranted resp); simplify_eq/=; exact HI'.
  - apply bind_Some in Hd as (n & Hn & Hd).
    destruct (append_request_keeps D k c h src p req n HI Hm Hn) as (n' & resp & Hr & HI').
    rewrite Hr in Hd. simplify_eq. by exists h.
  - apply bind_Some in Hd as (n & Hn & Hd). simplify_eq. exists h. split; [done|].
    by eapply append_response_keeps.
Qed.

Lemma exec_keeps k c c' h ev :
  Inv D k c h -> k < MaxInt64 -> exec D ev c = Some c' ->
  exists h', hist_le h h' /\ Inv D (k + 1) c' h'.
Proof.
  intros HI Hk He.
  assert (forall h', hist_le h h' -> Inv D k c' h' -> exists h', hist_le h h' /\ Inv D (k + 1) c' h') as Hok.
  { intros h' ??. exists h'. split; [done|]. eapply Inv_le; [done|lia]. }
  destruct ev as [i|x|i p|i|i s|i p|i|i]; simpl in He; apply bind_Some in He as (n & Hn & He).
  - destruct (c_elections c !! i) eqn:Hel; [done|]. case_bool_decide; [done|].
    pose proof (timeout_keeps D k c h i n HI Hn Hk) as HI'. by simplify_eq.
  - edestruct deliver_keeps as (h' & ? & ?); [done|by eapply list_elem_of_lookup_2|done|by eapply Hok].
  - apply bind_Some in He as (e & Hel & He). case_bool_decide; [|done]. simplify_eq.
    eapply (Hok h); [done|]. by apply vote_fail_keeps.
  - apply bind_Some in He as (e & Hel & He). case_bool_decide; [|done].
    destruct (election_end_keeps D k c h i n e HI Hn Hel) as (h' & ? & HI').
    destruct (startElection_finish n (er_term e) (er_votes e)). simplify_eq. by eapply Hok.
  - simplify_eq. edestruct HandleStroke_keeps as (h' & ? & ?); [done..|]. by eapply Hok.
  - case_bool_decide as Hp; [|done]. unfold sendHeartbeats in Hp. case_bool_decide; [by apply elem_of_nil in Hp|].
    destruct (sendAppendEntries_request n p) eqn:Hr; simplify_eq; (eapply (Hok h); [done|]); [|done].
    by eapply send_keeps.
  - simplify_eq. eapply (Hok h); [done|]. eapply Inv_core; [done..|]. apply applyCommitted_core.
  - destruct (n_commitCh n); simplify_eq. eapply (Hok h); [done|]. eapply Inv_core; [done..|]. by split_and!.
Qed.

(** ** Runs *)

Lemma run_keeps tr k c c' h :
  Inv D k c h -> k + Z.of_nat (length tr) <= MaxInt64 -> run D tr c = Some c' ->
  exists h', hist_le h h' /\ Inv D (k + Z.of_nat (length tr)) c' h'.
Proof.
  revert k c h. induction tr as [|ev tr IH]; intros k c h HI Hk Hr; simpl in *.
  - simplify_eq. exists h. split; [done|]. eapply Inv_le; [done|lia].
  - apply bind_Some in Hr as (c1 & He & Hr).
    destruct (exec_keeps k c c1 h ev) as (h1 & ? & HI1); [done|lia|done|].
    destruct (IH _ _ _ HI1 ltac:(lia) Hr) as (h' & ? & ?). exists h'. split; [by etrans|].
    eapply Inv_le; [done|lia].
Qed.

(** Messages are never removed. *)
Lemma exec_net c c' ev : exec D ev c = Some c' -> c_net c `prefix_of` c_net c'.
Proof.
  destruct ev as [i|x|i p|i|i s|i p|i|i]; simpl; intros He; apply bind_Some in He as (n & Hn & He).
  2:{ destruct n; simpl in He; repeat (apply bind_Some in He as (? & _ & He)); simpl in He;
      repeat case_match; simplify_eq/=; try done; by eexists. }
  all: try (apply bind_Some in He as (e & Hel & He)); repeat case_match; simplify_eq/=; try done; by eexists.
Qed.

Lemma run_net tr c c' : run D tr c = Some c' -> c_net c `prefix_of` c_net c'.
Proof.
  revert c. induction tr as [|ev tr IH]; simpl; intros c; [by intros [= ->]|].
  intros (c1 & He & Hr)%bind_Some. etrans; [by eapply exec_net|by apply IH].
Qed.

Lemma run_app tr1 tr2 c : run D (tr1 ++ tr2) c = c1 ← run D tr1 c; run D tr2 c1.
Proof.
  revert c. induction tr1 as [|ev tr1 IH]; intros c; simpl; [done|].
  destruct (exec D ev c); simpl; [apply IH|done].
Qed.

(** Two moments of one run share their histories. *)
Lemma reach_two tr1 tr2 c1 c2 :
  short (tr1 ++ tr2) -> run D tr1 (init D) = Some c1 -> run D tr2 c1 = Some c2 ->
  exists k1 k2 h1 h2, k1 <= k2 /\ hist_le h1 h2 /\ (forall m, m ∈ c_net c1 -> m ∈ c_net c2) /\
    Inv D k1 c1 h1 /\ Inv D k2 c2 h2.
Proof.
  unfold short. rewrite length_app. intros Hs H1 H2.
  destruct (run_keeps tr1 0 _ _ _ Inv_init ltac:(lia) H1) as (h1 & _ & HI1).
  destruct (run_keeps tr2 _ _ _ _ HI1 ltac:(lia) H2) as (h2 & Hle & HI2).
  eexists _, _, h1, h2. split_and!; [|done| |exact HI1|exact HI2]; [lia|].
  intros m. destruct (run_net _ _ _ H2) as [z ->]. intros. apply elem_of_app. by left.
Qed.

Lemma reach_one tr c :
  short tr -> run D tr (init D) = Some c -> exists k h, Inv D k c h.
Proof.
  intros Hs H. destruct (reach_two tr [] c c) as (k & _ & h & _ & _ & _ & _ & ? & _); [|done..|eauto].
  by rewrite app_nil_r.
Qed.
End safety.
