(* ===== verification/Scenario.v ===== *)
(** * Scenario: concrete executions of the three-replica cluster

    The runs the witnesses of the cluster theorems evaluate: an election, a
    stroke replicated and committed, and a second election that finds it. *)

From Stdlib Require Import ZArith.
From stdpp Require Import base list strings gmap.
From S2P Require Import Prelude Types RaftLog Node Election Replication Cluster Safety.
Open Scope Z_scope.
Open Scope string_scope.

Definition stroke1 : StrokeEvent := mkStrokeEvent "s1" "stroke" EmptyString [] "red" 0 "u1".
Definition stroke2 : StrokeEvent := mkStrokeEvent "s2" "stroke" EmptyString [] "blue" 0 "u2".

(** node1 is elected in term 1 with node2's vote; node3 does not answer. *)
Definition elect : list event :=
  [EvTimeout "node1"; EvDeliver 0; EvDeliver 2; EvVoteFail "node1" "replica3:9003"; EvElectionEnd "node1"].

(** A stroke reaches node1 and is committed with node2's acknowledgement;
    node2 learns the commit index from the next request; both apply. *)
Definition replicate : list event :=
  [EvStroke "node1" stroke1; EvSend "node1" "replica2:9002"; EvDeliver 3; EvDeliver 4;
   EvSend "node1" "replica2:9002"; EvDeliver 5; EvApply "node1"; EvApply "node2"].

(** node2 times out and is elected in term 2 with node3's vote, while node1
    still believes it leads. *)
Definition reelect : list event :=
  [EvTimeout "node2"; EvDeliver 8; EvDeliver 9; EvVoteFail "node2" "replica1:9001";
   EvElectionEnd "node2"; EvSend "node2" "replica3:9003"].

(** Both notifiers take the committed stroke. *)
Definition delivered : list event := (elect ++ replicate ++ [EvConsume "node1"; EvConsume "node2"])%list.

Definition after (tr : list event) : Cluster := default (init trio) (run trio tr (init trio)).

(** The replica [i] of the cluster, for [i] a member. *)
Definition replica (c : Cluster) (i : string) : Node :=
  default (NewNode (mkConfig EmptyString [] EmptyString)) (c_nodes c !! i).

(** Two moments of one run of the deployment. *)
Definition execution (D : Deployment) (c1 c2 : Cluster) : Prop :=
  exists tr1 tr2, short (tr1 ++ tr2) /\ run D tr1 (init D) = Some c1 /\ run D tr2 c1 = Some c2.

Definition reachable (D : Deployment) (c : Cluster) : Prop := execution D c c.

Lemma after_execution tr1 tr2 :
  bool_decide (short (tr1 ++ tr2)) = true -> run trio (tr1 ++ tr2) (init trio) = Some (after (tr1 ++ tr2)) ->
  execution trio (after tr1) (after (tr1 ++ tr2)).
Proof.
  intros Hs%bool_decide_eq_true Hr. exists tr1, tr2. split; [done|].
  pose proof Hr as Hr'. rewrite run_app in Hr. unfold after at 1 2.
  destruct (run trio tr1 (init trio)) as [c|] eqn:H1; simpl in *; [|done]. by rewrite Hr.
Qed.
