(* ===== verification/Monotone.v ===== *)
(** * Monotone: what no operation of a replica takes back

    [keeps n n']: the term and the commit index do not decrease, the log up to
    the commit index stays as it is, and the apply loop's state is untouched.
    Every operation of the protocol keeps a node, whatever request or
    response it is given; [exec_node] lifts this to the events of a cluster. *)

From Stdlib Require Import ZArith Lia.
From stdpp Require Import base list strings gmap option.
From S2P Require Import Prelude Types RaftLog Node Election Replication Cluster.
From S2P Require Import History Invariant Frame Safety.
Open Scope Z_scope.

(** The commit index is a position of the log. *)
Definition commit_in (n : Node) : Prop := 0 <= n_commitIndex n < len (Log.entries (n_log n)).

Record keeps (n n' : Node) : Prop := {
  kp_id : n_id n' = n_id n;
  kp_peers : n_peers n' = n_peers n;
  kp_term : n_currentTerm n <= n_currentTerm n';
  kp_commit : n_commitIndex n <= n_commitIndex n';
  kp_log : agree_upto (Z.to_nat (n_commitIndex n)) (Log.entries (n_log n)) (Log.entries (n_log n'));
  kp_in : commit_in n -> commit_in n';
  kp_applied : n_lastApplied n' = n_lastApplied n;
  kp_ch : n_commitCh n' = n_commitCh n;
}.

#[export] Instance keeps_refl : Reflexive keeps.
Proof. intros n. split; done. Qed.

#[export] Instance keeps_trans : Transitive keeps.
Proof.
  intros n1 n2 n3 [] []. split; try congruence; try lia; [|by auto].
  etrans; [done|]. eapply agree_upto_le; [done|lia].
Qed.

(** An operation that leaves log, commit index and apply state alone. *)
Lemma keeps_simple n n' :
  n_id n' = n_id n -> n_peers n' = n_peers n -> n_currentTerm n <= n_currentTerm n' ->
  n_commitIndex n' = n_commitIndex n -> n_log n' = n_log n ->
  n_lastApplied n' = n_lastApplied n -> n_commitCh n' = n_commitCh n -> keeps n n'.
Proof.
  intros ??? Hc Hl ??. split; try done.
  - rewrite Hc. reflexivity.
  - by rewrite Hl.
  - unfold commit_in. by rewrite Hc, Hl.
Qed.

Ltac keeps_simple := apply keeps_simple; simpl; lia || done.

(** ** The operations *)

Lemma stepDown_keeps n T : keeps n (fst (stepDown n T)).
Proof. unfold stepDown. case_bool_decide; [keeps_simple|done]. Qed.

Lemma becomeFollower_keeps n T l : n_currentTerm n <= T -> keeps n (becomeFollower n T l).
Proof. intros. keeps_simple. Qed.

Lemma HandleVoteRequest_monotone n req : keeps n (fst (HandleVoteRequest n req)).
Proof.
  unfold HandleVoteRequest. etrans; [apply (stepDown_keeps n (vreq_Term req))|].
  case_bool_decide; [done|]. by destruct (_ && _); [keeps_simple|].
Qed.

Lemma startElection_begin_monotone n :
  0 <= n_currentTerm n < MaxInt64 -> keeps n (fst (startElection_begin n)).
Proof.
  intros. apply keeps_simple; simpl; try done. rewrite wrap64_small; unfold MinInt64, MaxInt64 in *; lia.
Qed.

Lemma requestVoteFromPeer_monotone n v T o : keeps n (fst (requestVoteFromPeer n v T o)).
Proof.
  unfold requestVoteFromPeer. destruct o as [resp|]; [|done].
  case_bool_decide; [apply becomeFollower_keeps; lia|]. case_bool_decide; [done|].
  by destruct (vresp_VoteGranted resp).
Qed.

Lemma init_indexes_keeps i ps n : keeps n (init_indexes i ps n).
Proof.
  unfold init_indexes. revert n. induction ps as [|p ps IH]; intros n; simpl; [done|].
  etrans; [|apply IH]. keeps_simple.
Qed.

Lemma startElection_finish_monotone n T v : keeps n (fst (startElection_finish n T v)).
Proof.
  unfold startElection_finish. repeat case_bool_decide; try done.
  etrans; [|apply init_indexes_keeps]. keeps_simple.
Qed.

Lemma HandleStroke_monotone n s : commit_in n -> keeps n (fst (HandleStroke n s)).
Proof.
  intros [? ?]. unfold HandleStroke. case_bool_decide; [done|].
  split; simpl; try done; try lia.
  - apply agree_upto_app. unfold len in *. lia.
  - unfold commit_in, len in *. simpl. rewrite length_app. simpl. lia.
Qed.

Lemma advance_loop_monotone fuel i n :
  n_commitIndex n < i -> keeps n (advance_loop fuel i n).
Proof.
  revert i n. induction fuel as [|fuel IH]; intros i n Hi; simpl; [done|].
  case_bool_decide as Hl; [|done].
  assert (keeps n (advance_at n i) /\ n_commitIndex (advance_at n i) < i + 1) as [? ?].
  { unfold advance_at. repeat case_bool_decide; (split; [|simpl; lia]); try done.
    split; simpl; try done; try lia. unfold commit_in, Log.LastIndex in *. simpl. lia. }
  etrans; [done|]. by apply IH.
Qed.

Lemma sendAppendEntries_response_monotone n p T es o :
  keeps n (sendAppendEntries_response n p T es o).
Proof.
  unfold sendAppendEntries_response. destruct o as [resp|]; [|done].
  pose proof (stepDown_keeps n (aresp_Term resp)) as Hs.
  destruct (stepDown n (aresp_Term resp)) as [n1 [|]]; simpl in Hs; [done|].
  etrans; [exact Hs|]. case_bool_decide; [done|].
  destruct (aresp_Success resp).
  - etrans; [|apply advance_loop_monotone; lia]. case_bool_decide; [keeps_simple|done].
  - repeat case_bool_decide; try done; keeps_simple.
Qed.

Lemma accept_leader_keeps n req : n_currentTerm n <= areq_Term req -> keeps n (accept_leader n req).
Proof.
  intros. unfold accept_leader. simpl. repeat (case_bool_decide; simpl); keeps_simple.
Qed.

Lemma append_and_commit_monotone n req : commit_in n -> keeps n (fst (append_and_commit n req)).
Proof.
  intros [Hc Hlt]. unfold append_and_commit.
  destruct (if bool_decide (0 < len (areq_Entries req)) then _ else _) as [l r] eqn:Hl.
  assert (forall i, Z.of_nat i <= n_commitIndex n ->
    Log.entries l !! i = Log.entries (n_log n) !! i /\ (i < length (Log.entries l))%nat) as Hk.
  { intros i Hi. unfold len in Hlt. case_bool_decide; simplify_eq; [|split; [done|lia]].
    eapply Log.AppendEntries_keeps; [done|lia|lia]. }
  assert (n_commitIndex n < len (Log.entries l)) as Hin.
  { destruct (Hk (Z.to_nat (n_commitIndex n))) as [_ ?]; [lia|]. unfold len. lia. }
  assert (keeps n (set_log l n)) as Hn.
  { split; try done.
    apply agree_upto_intro. intros m ?. symmetry. apply Hk. lia. }
  etrans; [exact Hn|]. destruct r; simpl; [|done]. unfold Log.LastIndex.
  repeat case_bool_decide; try done; simpl in *; (split; simpl; try done; try lia; unfold commit_in; simpl; lia).
Qed.

Lemma HandleAppendEntries_monotone n req : commit_in n -> keeps n (fst (HandleAppendEntries n req)).
Proof.
  intros Hin. unfold HandleAppendEntries. pose proof (stepDown_keeps n (areq_Term req)) as Hs.
  set (n1 := fst (stepDown n (areq_Term req))) in *. etrans; [exact Hs|].
  case_bool_decide; [done|]. pose proof (accept_leader_keeps n1 req ltac:(lia)) as Ha.
  etrans; [exact Ha|]. assert (commit_in (accept_leader n1 req)) by (by apply Ha, Hs).
  case_bool_decide; [|by apply append_and_commit_monotone].
  destruct (Log.GetEntry _ _) as [e [|]]; simpl; [|done].
  case_bool_decide; [done|by apply append_and_commit_monotone].
Qed.

(** ** Events *)

Section events.
Context (D : Deployment) {WD : WellDeployed D}.

(** What an event does to a replica: a step of the protocol, the apply loop
    or a receive from the commit channel. *)
Inductive node_step (ev : event) (i : string) (n : Node) : Node -> Prop :=
| step_keeps n' : keeps n n' -> node_step ev i n n'
| step_apply : ev = EvApply i -> node_step ev i n (applyCommitted n)
| step_consume e ch : ev = EvConsume i -> n_commitCh n = e :: ch ->
    node_step ev i n (set_commitCh ch n).

Lemma put_node c ev i j n n1 n' :
  c_nodes c !! i = Some n -> c_nodes c !! j = Some n1 -> node_step ev j n1 n' ->
  exists n'', (<[j := n']> (c_nodes c)) !! i = Some n'' /\ node_step ev i n n''.
Proof.
  intros Hi Hj Hs. destruct (decide (i = j)) as [->|Hne].
  - rewrite lookup_insert_eq. simplify_eq. eauto.
  - rewrite lookup_insert_ne by done. exists n. split; [done|]. by constructor.
Qed.

Lemma deliver_node ev c c' m i n :
  (forall j n, c_nodes c !! j = Some n -> commit_in n) ->
  deliver D c m = Some c' -> c_nodes c !! i = Some n ->
  exists n', c_nodes c' !! i = Some n' /\ node_step ev i n n'.
Proof.
  intros Hall Hd Hi. destruct m as [src p req|src p req resp|src p req|src p req resp]; unfold deliver in Hd;
    apply bind_Some in Hd as (n1 & Hn1 & Hd).
  - pose proof (HandleVoteRequest_monotone n1 req) as Hk.
    destruct (HandleVoteRequest n1 req) as [n2 resp]. simplify_eq/=.
    eapply put_node; [done..|]. by constructor.
  - apply bind_Some in Hd as (e & He & Hd).
    pose proof (requestVoteFromPeer_monotone n1 (er_votes e) (er_term e) (Some resp)) as Hk.
    destruct (requestVoteFromPeer _ _ _ _) as [n2 v]. case_bool_decide; [|done]. simplify_eq/=.
    eapply put_node; [done..|]. by constructor.
  - pose proof (HandleAppendEntries_monotone n1 req (Hall _ _ Hn1)) as Hk.
    destruct (HandleAppendEntries n1 req) as [n2 [resp|]]; simplify_eq/=;
      (eapply put_node; [done..|]); by constructor.
  - injection Hd as <-. eapply put_node; [done..|].
    apply step_keeps, (sendAppendEntries_response_monotone n1 p (areq_Term req) (areq_Entries req) (Some resp)).
Qed.

Lemma exec_node k h c c' ev i n :
  Inv D k c h -> k < MaxInt64 -> exec D ev c = Some c' -> c_nodes c !! i = Some n ->
  exists n', c_nodes c' !! i = Some n' /\ node_step ev i n n'.
Proof.
  intros HI Hk He Hi.
  assert (forall j n, c_nodes c !! j = Some n -> commit_in n /\ 0 <= n_currentTerm n <= k) as Hall.
  { intros j n1 Hj. pose proof (inv_nodes _ _ _ _ HI _ _ Hj) as []. done. }
  destruct ev as [j|x|j p|j|j s|j p|j|j]; simpl in He; apply bind_Some in He as (n1 & Hn1 & He).
  - destruct (c_elections c !! j); [done|]. case_bool_decide; [done|]. simplify_eq/=.
    eapply put_node; [done..|]. constructor. apply (startElection_begin_monotone n1).
    destruct (Hall _ _ Hn1). lia.
  - eapply deliver_node; [|done..]. apply Hall.
  - apply bind_Some in He as (e & Hel & He). case_bool_decide; [|done]. simplify_eq/=.
    eapply put_node; [done..|]. by constructor.
  - apply bind_Some in He as (e & Hel & He). case_bool_decide; [|done].
    pose proof (startElection_finish_monotone n1 (er_term e) (er_votes e)) as Hm.
    destruct (startElection_finish n1 (er_term e) (er_votes e)). simplify_eq/=.
    eapply put_node; [done..|]. by constructor.
  - simplify_eq/=. eapply put_node; [done..|]. constructor. apply HandleStroke_monotone, (Hall _ _ Hn1).
  - case_bool_decide; [|done]. exists n. split; [|by constructor].
    by destruct (sendAppendEntries_request n1 p); simplify_eq/=.
  - simplify_eq/=. eapply put_node; [done..|]. by constructor.
  - destruct (n_commitCh n1) eqn:Hch; simplify_eq/=.
    eapply put_node; [done..|]. by eapply step_consume.
Qed.

(** What a whole run does to a replica. *)
Record grows (n n' : Node) : Prop := {
  gr_term : n_currentTerm n <= n_currentTerm n';
  gr_commit : n_commitIndex n <= n_commitIndex n';
  gr_log : agree_upto (Z.to_nat (n_commitIndex n)) (Log.entries (n_log n)) (Log.entries (n_log n'));
}.

#[export] Instance grows_refl : Reflexive grows.
Proof. intros n. split; done. Qed.

#[export] Instance grows_trans : Transitive grows.
Proof.
  intros n1 n2 n3 [] []. split; try lia. etrans; [done|]. eapply agree_upto_le; [done|lia].
Qed.

Lemma core_grows n n' : same_core n n' -> grows n n'.
Proof. intros (_ & _ & E3 & _ & E5 & _ & E7 & _). split; rewrite ?E3, ?E5, ?E7; done. Qed.

Lemma step_grows ev i n n' : node_step ev i n n' -> grows n n'.
Proof.
  intros [n1 []| |e ch _ _]; [by split|apply core_grows, applyCommitted_core|apply core_grows; by split_and!].
Qed.

Lemma run_grows tr k h c c' i n :
  Inv D k c h -> k + Z.of_nat (length tr) <= MaxInt64 -> run D tr c = Some c' ->
  c_nodes c !! i = Some n -> exists n', c_nodes c' !! i = Some n' /\ grows n n'.
Proof.
  revert k h c n. induction tr as [|ev tr IH]; intros k h c n HI Hk Hr Hi; simpl in *.
  - simplify_eq. exists n. done.
  - apply bind_Some in Hr as (c1 & He & Hr).
    destruct (exec_node k h c c1 ev i n) as (n1 & Hi1 & Hs1); [done|lia|done|done|].
    destruct (exec_keeps D k c c1 h ev) as (h1 & _ & HI1); [done|lia|done|].
    destruct (IH _ _ _ n1 HI1 ltac:(lia) Hr Hi1) as (n' & ? & ?). exists n'. split; [done|].
    etrans; [by eapply step_grows|done].
Qed.
End events.
