(* ===== verification/Applier.v ===== *)
(** * Applier: from the commit index to the commit channel

    [applyCommitted] of [replica/internal/raft/node.go] sends the entries
    between lastApplied and commitIndex to [commitCh], dropping the oldest
    notification when the channel is full.  The channel is at every moment a
    window of the committed log that ends at lastApplied ([window]); a reader
    ([EvConsume]) sees committed entries in log order, each at most once. *)

From Stdlib Require Import ZArith Lia Sorted.
From stdpp Require Import base list strings gmap option.
From S2P Require Import Prelude Types RaftLog Node Election Replication Cluster.
From S2P Require Import History Invariant Frame Safety Monotone.
Open Scope Z_scope.

(** The last [k] elements. *)
Definition lastn {A} (k : nat) (l : list A) : list A := drop (length l - k) l.

(** The entries at positions [a + 1 .. b]. *)
Definition entries_between (l : list LogEntry) (a b : Z) : list LogEntry :=
  drop (S (Z.to_nat a)) (take (S (Z.to_nat b)) l).

(** The entries a replica knows to be committed, the sentinel included. *)
Definition committed_prefix (n : Node) : list LogEntry :=
  take (S (Z.to_nat (n_commitIndex n))) (Log.entries (n_log n)).

Definition applied_in (n : Node) : Prop := 0 <= n_lastApplied n <= n_commitIndex n.

(** ** The channel *)

Lemma lastn_all {A} k (l : list A) : (length l <= k)%nat -> lastn k l = l.
Proof. intros. unfold lastn. by replace (length l - k)%nat with 0%nat by lia. Qed.

Lemma lastn_app {A} k (l m : list A) : lastn k (lastn k l ++ m) = lastn k (l ++ m).
Proof.
  unfold lastn. rewrite !length_app, length_drop.
  destruct (decide (length l <= k)%nat).
  - by replace (length l - k)%nat with 0%nat by lia; rewrite drop_0, Nat.sub_0_r.
  - rewrite <- (drop_app_le l m (length l - k)) by lia.
    rewrite drop_drop. f_equal. lia.
Qed.

Lemma length_lastn {A} k (l : list A) : (length (lastn k l) <= k)%nat.
Proof. unfold lastn. rewrite length_drop. lia. Qed.

Lemma send_commit_ch n e :
  (length (n_commitCh n) <= commitCap)%nat ->
  n_commitCh (send_commit n e) = lastn commitCap (n_commitCh n ++ [e]).
Proof.
  intros Hl. unfold send_commit, offer. case_bool_decide; simpl.
  - rewrite lastn_all; [done|]. rewrite length_app. simpl. lia.
  - assert (length (n_commitCh n) = commitCap) as Heq by lia.
    unfold lastn. rewrite length_app, Heq. simpl.
    destruct (n_commitCh n); [done|]. reflexivity.
Qed.

Lemma send_commit_applied n e : n_lastApplied (send_commit n e) = n_lastApplied n.
Proof. unfold send_commit. by destruct (offer _ _ _) as [ch []]. Qed.

Lemma entries_between_cons l a b e :
  0 <= a < b -> l !! Z.to_nat (a + 1) = Some e ->
  entries_between l a b = e :: entries_between l (a + 1) b.
Proof.
  intros ? He. unfold entries_between. replace (Z.to_nat (a + 1)) with (S (Z.to_nat a)) in * by lia.
  apply drop_S. rewrite lookup_take_lt by lia. done.
Qed.

Lemma entries_between_nil l a : entries_between l a a = [].
Proof. unfold entries_between. apply skipn_all2. rewrite length_take. lia. Qed.

(** ** The loop *)

Lemma apply_loop_spec fuel : forall n c,
  commit_in n -> 0 <= n_lastApplied n <= c -> c <= n_commitIndex n ->
  fuel = Z.to_nat (c - n_lastApplied n) -> (length (n_commitCh n) <= commitCap)%nat ->
  let n' := apply_loop fuel (n_lastApplied n + 1) c n in
  n_lastApplied n' = c /\
  n_commitCh n' = lastn commitCap (n_commitCh n ++ entries_between (Log.entries (n_log n)) (n_lastApplied n) c).
Proof.
  induction fuel as [|fuel IH]; intros n c Hin Ha Hc Hf Hl; simpl.
  { assert (n_lastApplied n = c) as -> by lia. split; [done|].
    by rewrite entries_between_nil, app_nil_r, lastn_all. }
  rewrite bool_decide_true by lia.
  destruct Hin as [? Hlen]. unfold Log.GetEntry. rewrite bool_decide_false by (unfold len in *; lia).
  destruct (index_is_Some (Log.entries (n_log n)) (n_lastApplied n + 1)) as [e He]; [lia|].
  rewrite He. simpl. apply index_Some in He as [_ He].
  set (n1 := set_lastApplied (n_lastApplied n + 1) (send_commit n e)).
  pose proof (send_commit_core n e) as (_ & _ & _ & _ & El & _ & Ec & _).
  assert (n_commitCh n1 = lastn commitCap (n_commitCh n ++ [e])) as Hch by (by apply send_commit_ch).
  change (n_lastApplied n + 1 + 1) with (n_lastApplied n1 + 1).
  destruct (IH n1 c) as [-> ->].
  - unfold commit_in. simpl. rewrite El, Ec. lia.
  - simpl. lia.
  - simpl. lia.
  - simpl. lia.
  - rewrite Hch. apply length_lastn.
  - split; [done|]. rewrite Hch, lastn_app. simpl. rewrite El, <- app_assoc. simpl.
    by rewrite (entries_between_cons _ (n_lastApplied n) c e) by (lia || done).
Qed.

(** ** The window *)

Record window (n : Node) : Prop := {
  wn_applied : applied_in n;
  wn_cap : (length (n_commitCh n) <= commitCap)%nat;
  wn_ch : n_commitCh n = lastn (length (n_commitCh n))
            (entries_between (Log.entries (n_log n)) 0 (n_lastApplied n));
}.

Lemma entries_between_agree l l' a b :
  agree_upto (Z.to_nat b) l l' -> entries_between l a b = entries_between l' a b.
Proof. unfold agree_upto, entries_between. by intros ->. Qed.

Lemma keeps_window n n' : keeps n n' -> window n -> window n'.
Proof.
  intros [] [[? ?] ? Hw]. split; unfold applied_in; rewrite ?kp_ch, ?kp_applied; [lia|done|].
  rewrite Hw at 1. f_equal. apply entries_between_agree. eapply agree_upto_le; [done|lia].
Qed.

Lemma entries_between_app l a b c :
  0 <= a <= b -> b <= c -> b < len l ->
  entries_between l a c = entries_between l a b ++ entries_between l b c.
Proof.
  intros. unfold entries_between, len in *.
  rewrite <- (take_drop (S (Z.to_nat b)) (take (S (Z.to_nat c)) l)) at 1.
  rewrite drop_app_le by (rewrite !length_take; lia).
  by rewrite take_take, Nat.min_l by lia.
Qed.

Lemma lastn_lastn {A} j k (l : list A) : (j <= k)%nat -> lastn j (lastn k l) = lastn j l.
Proof. intros. unfold lastn. rewrite drop_drop, length_drop. f_equal. lia. Qed.

Lemma lastn_suffix {A} (s l : list A) : s = lastn (length s) l <-> s `suffix_of` l.
Proof.
  unfold lastn. split.
  - intros ->. apply suffix_drop.
  - intros [k ->]. rewrite length_app. rewrite drop_app_ge by lia.
    by replace (length k + length s - length s - length k)%nat with 0%nat by lia.
Qed.

Lemma lastn_is_suffix {A} k (l : list A) : lastn k l `suffix_of` l.
Proof. apply suffix_drop. Qed.

Lemma applyCommitted_window n : commit_in n -> window n -> window (applyCommitted n).
Proof.
  intros Hin [Ha Hcap Hw]. destruct (applyCommitted_core n) as (_ & _ & _ & _ & El & _ & Ec & _).
  unfold applied_in in Ha. pose proof Hin as [? ?].
  destruct (apply_loop_spec (Z.to_nat (n_commitIndex n - n_lastApplied n)) n (n_commitIndex n))
    as [Hl Hch]; [done|lia|lia|done|done|].
  fold (applyCommitted n) in Hl, Hch. split; unfold applied_in; rewrite ?Hl, ?Ec, ?El; [lia| |].
  - rewrite Hch. apply length_lastn.
  - apply lastn_suffix. rewrite Hch. etrans; [apply lastn_is_suffix|].
    rewrite (entries_between_app _ 0 (n_lastApplied n) (n_commitIndex n)) by lia.
    apply suffix_app. apply lastn_suffix in Hw. done.
Qed.

(** ** Reading the channel *)

(** The index of the last entry taken from the channel, or dropped from it. *)
Definition seen (n : Node) : Z := n_lastApplied n - len (n_commitCh n).

Lemma length_entries_between n :
  commit_in n -> applied_in n ->
  len (entries_between (Log.entries (n_log n)) 0 (n_lastApplied n)) = n_lastApplied n.
Proof.
  intros [? ?] [? ?]. unfold entries_between, len in *. rewrite length_drop, length_take. lia.
Qed.

Lemma entries_between_lookup l b x e :
  entries_between l 0 b !! x = Some e -> l !! S x = Some e /\ (x < Z.to_nat b)%nat.
Proof.
  unfold entries_between. rewrite lookup_drop. simpl. intros [? ?]%lookup_take_Some. split; [done|lia].
Qed.

(** The entry at the head of the channel is the one after [seen]. *)
Lemma window_head n e ch :
  commit_in n -> window n -> n_commitCh n = e :: ch ->
  0 <= seen n /\ committed_prefix n !! Z.to_nat (seen n + 1) = Some e.
Proof.
  intros Hin [Ha _ Hw] Hch. pose proof (length_entries_between n Hin Ha) as Hlen.
  rewrite Hch in Hw. apply lastn_suffix in Hw as [p Hp]. rewrite Hp in Hlen.
  assert (entries_between (Log.entries (n_log n)) 0 (n_lastApplied n) !! length p = Some e) as Hx.
  { rewrite Hp. rewrite lookup_app_r, Nat.sub_diag by lia. done. }
  apply entries_between_lookup in Hx as [Hx ?]. destruct Ha as [? ?].
  unfold seen, len in *. rewrite Hch, length_app in *. simpl in *. split; [lia|].
  unfold committed_prefix. rewrite lookup_take_lt by lia.
  by replace (Z.to_nat (n_lastApplied n - Z.of_nat (S (length ch)) + 1)) with (S (length p)) by lia.
Qed.

Lemma consume_window n e ch :
  window n -> n_commitCh n = e :: ch -> window (set_commitCh ch n).
Proof.
  intros [Ha Hcap Hw] Hch. rewrite Hch in *. split; simpl; [done|simpl in Hcap; lia|].
  apply lastn_suffix. apply lastn_suffix in Hw as [p Hp]. exists (p ++ [e]). by rewrite <- app_assoc.
Qed.

Lemma applyCommitted_seen n : commit_in n -> window n -> seen n <= seen (applyCommitted n).
Proof.
  intros Hin [[? ?] Hcap _]. pose proof Hin as [? ?].
  destruct (apply_loop_spec (Z.to_nat (n_commitIndex n - n_lastApplied n)) n (n_commitIndex n))
    as [Hl Hch]; [done|lia|lia|done|done|].
  fold (applyCommitted n) in Hl, Hch. unfold seen. rewrite Hl, Hch. unfold lastn, entries_between, len in *.
  rewrite length_drop, !length_app, length_drop, length_take. lia.
Qed.

(** The entries replica [i]'s notifier takes from the channel in a run. *)
Definition taken (i : string) (ev : event) (c : Cluster) : list LogEntry :=
  match ev with
  | EvConsume j =>
      if bool_decide (j = i) then
        match c_nodes c !! i with Some n => take 1 (n_commitCh n) | None => [] end
      else []
  | _ => []
  end.

Fixpoint consumed (D : Deployment) (i : string) (tr : list event) (c : Cluster) : list LogEntry :=
  match tr with
  | [] => []
  | ev :: tr => taken i ev c ++ match exec D ev c with Some c' => consumed D i tr c' | None => [] end
  end.

(** What is committed stays committed. *)
Lemma grows_committed n n' : grows n n' -> committed_prefix n `prefix_of` committed_prefix n'.
Proof.
  intros [_ Hc Ha]. unfold committed_prefix. rewrite Ha.
  rewrite <- (Nat.min_l (S (Z.to_nat (n_commitIndex n))) (S (Z.to_nat (n_commitIndex n')))) by lia.
  rewrite <- take_take. apply prefix_take.
Qed.

Definition index_lt (a b : LogEntry) : Prop := le_Index a < le_Index b.

Section deliveries.
Context (D : Deployment) {WD : WellDeployed D}.

Lemma step_window ev i n n' : commit_in n -> node_step ev i n n' -> window n -> window n' /\ seen n <= seen n'.
Proof.
  intros Hin [n1 Hk| |e ch _ Hch] Hw.
  - split; [by eapply keeps_window|]. destruct Hk. unfold seen. by rewrite kp_applied, kp_ch.
  - split; [by apply applyCommitted_window|by apply applyCommitted_seen].
  - split; [by eapply consume_window|]. unfold seen, len. rewrite Hch. simpl. lia.
Qed.

Lemma taken_spec k h c c' ev i n n' :
  Inv D k c h -> exec D ev c = Some c' -> c_nodes c !! i = Some n -> c_nodes c' !! i = Some n' ->
  window n -> taken i ev c <> [] ->
  exists e, taken i ev c = [e] /\ 0 <= seen n /\ le_Index e = seen n + 1 /\ seen n' = seen n + 1 /\
    committed_prefix n !! Z.to_nat (seen n + 1) = Some e.
Proof.
  intros HI He Hi Hi' Hw Hne. destruct ev as [j|x|j p|j|j s|j p|j|j]; try done.
  simpl in *. case_bool_decide as Hj; [subst j|done]. rewrite Hi in *. simpl in He.
  destruct (n_commitCh n) as [|e ch] eqn:Hch; [done|]. simplify_eq. exists e.
  simpl in Hi'. rewrite lookup_insert_eq in Hi'. simplify_eq.
  pose proof (inv_nodes _ _ _ _ HI _ _ Hi) as Hn.
  destruct (window_head n e ch) as [Hs Hp]; [apply Hn|done|done|].
  split_and!; [done|done| | |done].
  - unfold committed_prefix in Hp. apply lookup_take_Some in Hp as [Hp _].
    destruct (proj2 (lok_wf _ _ _ (no_log _ _ _ _ _ _ _ Hn)) _ _ Hp) as [-> _]. lia.
  - unfold seen, len. rewrite Hch. simpl. lia.
Qed.

Lemma consumed_spec tr : forall k h c c' i n,
  Inv D k c h -> k + Z.of_nat (length tr) <= MaxInt64 -> run D tr c = Some c' ->
  c_nodes c !! i = Some n -> window n -> exists n', c_nodes c' !! i = Some n' /\ grows n n' /\
    window n' /\ seen n <= seen n' /\ StronglySorted index_lt (consumed D i tr c) /\
    forall e, e ∈ consumed D i tr c -> seen n < le_Index e <= seen n' /\
      committed_prefix n' !! Z.to_nat (le_Index e) = Some e.
Proof.
  induction tr as [|ev tr IH]; intros k h c c' i n HI Hk Hr Hi Hw; simpl in *.
  - simplify_eq. exists n. split_and!; try done; [constructor|by intros ? ?%elem_of_nil].
  - apply bind_Some in Hr as (c1 & He & Hr). rewrite He.
    destruct (exec_keeps D k c c1 h ev) as (h1 & _ & HI1); [done|lia|done|].
    destruct (exec_node D k h c c1 ev i n) as (n1 & Hi1 & Hs1); [done|lia|done|done|].
    pose proof (no_commit _ _ _ _ _ _ _ (inv_nodes _ _ _ _ HI _ _ Hi)) as Hin.
    destruct (step_window _ _ _ _ Hin Hs1 Hw) as [Hw1 Hle1]. apply step_grows in Hs1.
    destruct (IH _ _ _ _ _ _ HI1 ltac:(lia) Hr Hi1 Hw1) as (n' & Hi' & Hg & Hw' & Hle & Hsort & Hall).
    exists n'. split_and!; [done|by etrans|done|lia| |].
    + destruct (decide (taken i ev c = [])) as [->|Hne]; [done|].
      destruct (taken_spec _ _ _ _ _ _ _ _ HI He Hi Hi1 Hw Hne) as (e & -> & _ & Hidx & Hseen & _).
      simpl. constructor; [done|]. apply list.Forall_forall. intros e' [? _]%Hall. unfold index_lt. lia.
    + intros e [Het|[? ?]%Hall]%elem_of_app; [|split; [lia|done]].
      destruct (taken_spec _ _ _ _ _ _ _ _ HI He Hi Hi1 Hw) as (e' & Heq & ? & Hidx & Hseen & Hp).
      { intros Hz. rewrite Hz in Het. by apply elem_of_nil in Het. }
      rewrite Heq in Het. apply list_elem_of_singleton in Het as ->. split; [lia|]. rewrite Hidx.
      assert (grows n n') as [_ Hc Ha] by (by etrans). unfold committed_prefix in *.
      apply lookup_take_Some in Hp as [Hp Hlt]. rewrite lookup_take_lt by lia.
      rewrite <- Hp. symmetry. eapply agree_upto_lookup; [exact Ha|lia].
Qed.

Lemma init_window i n : c_nodes (init D) !! i = Some n -> window n.
Proof. simpl. intros (cfg & <- & _)%lookup_fmap_Some. by split; [|simpl; lia|]. Qed.
End deliveries.

(** ** Properties *)

(** one pass of the apply loop hands over exactly the entries between
    lastApplied and the commit index, in log order, and ends with lastApplied
    at the commit index; when they do not fit, the channel keeps the most
    recent 256. *)
Theorem applyCommitted_delivers n :
  commit_in n -> applied_in n -> (length (n_commitCh n) <= commitCap)%nat ->
  n_lastApplied (applyCommitted n) = n_commitIndex n /\
  n_commitCh (applyCommitted n) =
    lastn commitCap (n_commitCh n ++ entries_between (Log.entries (n_log n)) (n_lastApplied n) (n_commitIndex n)).
Proof. intros ? [? ?] ?. by apply apply_loop_spec. Qed.

Module ApplierWitness.
Open Scope string_scope.

Definition one_committed : Node :=
  set_commitIndex 1 (set_log (Log.mk [zeroEntry; mkLogEntry 1 1 (mkStrokeEvent "s1" "stroke" EmptyString [] "red" 0 "u1")])
    (NewNode (mkConfig "node1" ["replica2:9002"] "gateway:8080"))).

Lemma applyCommitted_delivers_witness :
  n_lastApplied (applyCommitted one_committed) = 1 /\ length (n_commitCh (applyCommitted one_committed)) = 1%nat.
Proof.
  destruct (applyCommitted_delivers one_committed) as [H1 H2];
    [vm_compute; by split|vm_compute; by split|vm_compute; lia|].
  split; [exact H1|]. rewrite H2. vm_compute. reflexivity.
Defined.
End ApplierWitness.
