(* ===== verification/Agreement.v ===== *)
(** * Agreement: the safety theorems of the cluster

    Raft's safety properties, proved of the code's own handlers: election
    safety, leader append-only, log matching, leader completeness and state
    machine safety.  Each relates replicas at two moments of one run, so it
    speaks of the past of a replica as well as of the others. *)

From Stdlib Require Import ZArith Lia Sorted.
From stdpp Require Import base list strings gmap option.
From S2P Require Import Prelude Types RaftLog Node Election Replication Cluster.
From S2P Require Import History Invariant Frame Safety Monotone Applier Scenario FollowerSteps.
Open Scope Z_scope.

Section agreement.
Context (D : Deployment) {WD : WellDeployed D}.

(** Two moments of a run share a history, and the messages of the first are
    still there at the second. *)
Lemma execution_inv c1 c2 :
  execution D c1 c2 -> exists k h1 h2, k <= MaxInt64 /\ hist_le h1 h2 /\
    (forall m, m ∈ c_net c1 -> m ∈ c_net c2) /\ Inv D k c1 h1 /\ Inv D k c2 h2.
Proof.
  intros (tr1 & tr2 & Hs & H1 & H2). unfold short in Hs. rewrite length_app in Hs.
  destruct (run_keeps D tr1 0 _ _ _ (Inv_init D) ltac:(lia) H1) as (h1 & _ & HI1).
  destruct (run_keeps D tr2 _ _ _ _ HI1 ltac:(lia) H2) as (h2 & Hle & HI2).
  eexists _, h1, h2. split_and!; [|done| |eapply Inv_le; [exact HI1|]|exact HI2].
  1, 3: lia.
  - intros m. destruct (run_net D _ _ _ H2) as [z ->]. intros. apply elem_of_app. by left.
Qed.

Lemma reachable_inv c : reachable D c -> exists k h, k <= MaxInt64 /\ Inv D k c h.
Proof. intros (k & h & _ & ? & _ & _ & ? & _)%execution_inv. eauto. Qed.

(** The leader's record, and its growth. *)
Lemma leader_record k c h i n :
  Inv D k c h -> c_nodes c !! i = Some n -> n_state n = Leader ->
  exists L, h_lead h !! n_currentTerm n = Some L /\ l_id L = i /\ l_log L = Log.entries (n_log n).
Proof. intros HI Hi Hs. apply (inv_nodes _ _ _ _ HI _ _ Hi) in Hs as [? _]. done. Qed.

(** Two justified commit indexes: the logs agree up to the smaller one. *)
Lemma commit_ok_agreement net h T1 T2 l1 l2 a b :
  hist_ok D net h -> log_ok h T1 l1 -> log_ok h T2 l2 ->
  commit_ok D net h T1 l1 a -> commit_ok D net h T2 l2 b -> agree_upto (a `min` b) l1 l2.
Proof.
  intros Hh Hl1 Hl2 Ha Hb.
  assert (agree_upto 0 l1 l2) as H0.
  { apply agree_upto_intro. intros m ?. replace m with 0%nat by lia.
    by rewrite (proj1 (lok_wf _ _ _ Hl1)), (proj1 (lok_wf _ _ _ Hl2)). }
  destruct Ha as [->|(Ta & ma & _ & Hca & Hma & Hha)]; [done|].
  destruct Hb as [->|(Tb & mb & _ & Hcb & Hmb & Hhb)]; [by rewrite Nat.min_0_r|].
  assert (forall T T' m m' x y l l', T <= T' -> committed D net h T m -> (x <= m)%nat -> holds h T x l ->
    committed D net h T' m' -> (y <= m')%nat -> holds h T' y l' -> agree_upto (x `min` y) l l') as Hwlog.
  { clear -Hh. intros T T' m m' x y l l' HT Hc Hx Hl (L' & Q & HL' & _) Hy Hl'.
    eapply (holds_inj h T'); [|eapply holds_le; [exact Hl'|lia]].
    apply (holds_le _ _ x); [|lia]. destruct (decide (T = T')) as [->|]; [done|].
    pose proof (leader_completeness_hist D net h Hh T m T' L' Hc HL' ltac:(lia)) as Hi.
    pose proof (holds_init_log D net h Hh T T' L' m HL' Hi) as Hlog.
    pose proof (holds_inj _ _ _ _ _ (holds_le _ _ _ x _ Hlog Hx) Hl) as Hag.
    exists L'. split_and!; [done| |by symmetry].
    apply holds_length in Hlog. lia. }
  destruct (decide (Ta <= Tb)).
  - by eapply (Hwlog Ta Tb).
  - rewrite Nat.min_comm. symmetry. eapply (Hwlog Tb Ta); eauto. lia.
Qed.

(** The log and commit index of a replica, justified at a later moment. *)
Lemma justified_later k c1 c2 h1 h2 i n :
  Inv D k c1 h1 -> hist_le h1 h2 -> (forall m, m ∈ c_net c1 -> m ∈ c_net c2) ->
  c_nodes c1 !! i = Some n ->
  log_ok h2 (n_currentTerm n) (Log.entries (n_log n)) /\
  commit_ok D (c_net c2) h2 (n_currentTerm n) (Log.entries (n_log n)) (Z.to_nat (n_commitIndex n)).
Proof.
  intros HI Hle Hnet Hi. pose proof (inv_nodes _ _ _ _ HI _ _ Hi) as [].
  split; [by eapply log_ok_mono|by eapply commit_ok_mono].
Qed.

(** Two replicas of one cluster know the same committed entries. *)
Lemma committed_prefix_agree k h c i j ni nj x e e' :
  Inv D k c h -> c_nodes c !! i = Some ni -> c_nodes c !! j = Some nj ->
  committed_prefix ni !! x = Some e -> committed_prefix nj !! x = Some e' -> e = e'.
Proof.
  intros HI Hi Hj [He ?]%lookup_take_Some [He' ?]%lookup_take_Some.
  pose proof (inv_nodes _ _ _ _ HI _ _ Hi) as Hni. pose proof (inv_nodes _ _ _ _ HI _ _ Hj) as Hnj.
  pose proof (commit_ok_agreement _ _ _ _ _ _ _ _ (inv_hist _ _ _ _ HI)
    (no_log _ _ _ _ _ _ _ Hni) (no_log _ _ _ _ _ _ _ Hnj)
    (no_commit_ok _ _ _ _ _ _ _ Hni) (no_commit_ok _ _ _ _ _ _ _ Hnj)) as Ha.
  pose proof (agree_upto_lookup _ x _ _ Ha ltac:(lia)) as Hl. congruence.
Qed.

(** What a member takes from its channel it knows to be committed; others
    take nothing. *)
Lemma consumed_committed tr c i e :
  short tr -> run D tr (init D) = Some c -> e ∈ consumed D i tr (init D) ->
  exists n, c_nodes c !! i = Some n /\ 0 < le_Index e /\ committed_prefix n !! Z.to_nat (le_Index e) = Some e.
Proof.
  intros Hs Hr He. unfold short in Hs. destruct (c_nodes (init D) !! i) as [n0|] eqn:Hn0.
  - destruct (consumed_spec D tr 0 hist0 (init D) c i n0) as (n' & Hn' & _ & _ & _ & _ & Hall);
      [apply (Inv_init D)|lia|done|done|by eapply init_window|].
    destruct (Hall e He) as [[Hlo _] Hp]. exists n'. split_and!; [done| |done].
    simpl in Hn0. apply lookup_fmap_Some in Hn0 as (cfg & <- & _). exact Hlo.
  - exfalso. assert (forall k h c0 c', Inv D k c0 h -> k + Z.of_nat (length tr) <= MaxInt64 ->
      run D tr c0 = Some c' -> i ∉ members D -> e ∉ consumed D i tr c0) as Hnone.
    { clear -WD. induction tr as [|ev tr IH]; intros k h c0 c' HI Hk Hr Hi; simpl in *; [by apply not_elem_of_nil|].
      apply bind_Some in Hr as (c1 & He & Hr). rewrite He.
      destruct (exec_keeps D k c0 c1 h ev) as (h1 & _ & HI1); [done|lia|done|].
      assert (taken i ev c0 = []) as ->; [|eapply IH; [done|lia|done|done]].
      destruct ev; try done. simpl. case_bool_decide; [|done].
      assert (c_nodes c0 !! i = None) as ->; [|done]. apply not_elem_of_dom. by rewrite (inv_dom _ _ _ _ HI). }
    eapply (Hnone 0 hist0); [apply (Inv_init D)|lia|done| |done].
    rewrite <- (inv_dom _ _ _ _ (Inv_init D)). by apply not_elem_of_dom.
Qed.

Lemma init_member tr c i n :
  short tr -> run D tr (init D) = Some c -> c_nodes c !! i = Some n ->
  exists n0, c_nodes (init D) !! i = Some n0.
Proof.
  intros Hs Hr Hi. destruct (reach_one D tr c Hs Hr) as (k & h & HI).
  apply elem_of_dom. rewrite (inv_dom _ _ _ _ (Inv_init D)), <- (inv_dom _ _ _ _ HI).
  by eapply elem_of_dom_2.
Qed.

(** C1: (election safety) two replicas that lead in the same term, at any
    two moments of a run, are the same replica. *)
Theorem election_safety c1 c2 i j n1 n2 :
  execution D c1 c2 -> c_nodes c1 !! i = Some n1 -> c_nodes c2 !! j = Some n2 ->
  n_state n1 = Leader -> n_state n2 = Leader -> n_currentTerm n1 = n_currentTerm n2 -> i = j.
Proof.
  intros (k & h1 & h2 & _ & Hle & _ & HI1 & HI2)%execution_inv Hi Hj Hs1 Hs2 HT.
  destruct (leader_record _ _ _ _ _ HI1 Hi Hs1) as (L1 & HL1 & Hid1 & _).
  destruct (leader_record _ _ _ _ _ HI2 Hj Hs2) as (L2 & HL2 & Hid2 & _).
  destruct (hle_lead _ _ Hle _ _ HL1) as (L & HL & Hid & _). rewrite HT in HL. congruence.
Qed.

(** C2: (state machine safety) the logs of any two replicas at any two
    moments agree on every position both know to be committed. *)
Theorem state_machine_safety c1 c2 i j n1 n2 (x : nat) :
  execution D c1 c2 -> c_nodes c1 !! i = Some n1 -> c_nodes c2 !! j = Some n2 ->
  Z.of_nat x <= n_commitIndex n1 -> Z.of_nat x <= n_commitIndex n2 ->
  exists e, Log.entries (n_log n1) !! x = Some e /\ Log.entries (n_log n2) !! x = Some e.
Proof.
  intros (k & h1 & h2 & _ & Hle & Hnet & HI1 & HI2)%execution_inv Hi Hj Hx1 Hx2.
  destruct (justified_later _ _ c2 _ _ _ _ HI1 Hle Hnet Hi) as [Hl1 Hc1].
  pose proof (inv_nodes _ _ _ _ HI2 _ _ Hj) as Hn2. pose proof (inv_nodes _ _ _ _ HI1 _ _ Hi) as Hn1.
  pose proof (commit_ok_agreement _ _ _ _ _ _ _ _ (inv_hist _ _ _ _ HI2) Hl1
    (no_log _ _ _ _ _ _ _ Hn2) Hc1 (no_commit_ok _ _ _ _ _ _ _ Hn2)) as Ha.
  destruct (lookup_lt_is_Some_2 (Log.entries (n_log n1)) x) as [e He].
  { pose proof (no_commit _ _ _ _ _ _ _ Hn1). unfold len in *. lia. }
  exists e. split; [done|]. rewrite <- He. symmetry. eapply agree_upto_lookup; [exact Ha|lia].
Qed.

(** C3: (leader completeness) what a replica knows to be committed is in
    the log of every leader of the same or a later term, at any later
    moment, at the same positions. *)
Theorem leader_completeness c1 c2 i j n1 n2 (x : nat) :
  execution D c1 c2 -> c_nodes c1 !! i = Some n1 -> c_nodes c2 !! j = Some n2 ->
  n_state n2 = Leader -> n_currentTerm n1 <= n_currentTerm n2 -> Z.of_nat x <= n_commitIndex n1 ->
  exists e, Log.entries (n_log n1) !! x = Some e /\ Log.entries (n_log n2) !! x = Some e.
Proof.
  intros (k & h1 & h2 & _ & Hle & Hnet & HI1 & HI2)%execution_inv Hi Hj Hs HT Hx.
  destruct (justified_later _ _ c2 _ _ _ _ HI1 Hle Hnet Hi) as [Hl1 Hc1].
  destruct (leader_record _ _ _ _ _ HI2 Hj Hs) as (L & HL & _ & Hlog).
  pose proof (commit_agrees D _ _ _ _ _ _ _ (inv_hist _ _ _ _ HI2) HL HT Hl1 Hc1) as Ha.
  pose proof (no_commit _ _ _ _ _ _ _ (inv_nodes _ _ _ _ HI1 _ _ Hi)) as Hc.
  destruct (lookup_lt_is_Some_2 (Log.entries (n_log n1)) x) as [e He]; [unfold len in *; lia|].
  exists e. split; [done|]. rewrite <- He, <- Hlog. symmetry. eapply agree_upto_lookup; [exact Ha|lia].
Qed.

(** C9: (log matching) if the logs of two replicas, at any two moments,
    have entries of one term at one index, they are equal up to there. *)
Theorem log_matching c1 c2 i j n1 n2 (x : nat) e1 e2 :
  execution D c1 c2 -> c_nodes c1 !! i = Some n1 -> c_nodes c2 !! j = Some n2 ->
  Log.entries (n_log n1) !! x = Some e1 -> Log.entries (n_log n2) !! x = Some e2 ->
  le_Term e1 = le_Term e2 ->
  take (S x) (Log.entries (n_log n1)) = take (S x) (Log.entries (n_log n2)).
Proof.
  intros (k & h1 & h2 & _ & Hle & Hnet & HI1 & HI2)%execution_inv Hi Hj.
  destruct (justified_later _ _ c2 _ _ _ _ HI1 Hle Hnet Hi) as [Hl1 _].
  pose proof (inv_nodes _ _ _ _ HI2 _ _ Hj) as Hn2.
  by eapply (log_ok_matching h2); [|apply Hn2].
Qed.

(** C23: (leader append-only) between two moments at which a replica leads
    in the same term, its log only had entries appended. *)
Theorem leader_append_only c1 c2 i n1 n2 :
  execution D c1 c2 -> c_nodes c1 !! i = Some n1 -> c_nodes c2 !! i = Some n2 ->
  n_state n1 = Leader -> n_state n2 = Leader -> n_currentTerm n1 = n_currentTerm n2 ->
  Log.entries (n_log n1) `prefix_of` Log.entries (n_log n2).
Proof.
  intros (k & h1 & h2 & _ & Hle & _ & HI1 & HI2)%execution_inv Hi Hj Hs1 Hs2 HT.
  destruct (leader_record _ _ _ _ _ HI1 Hi Hs1) as (L1 & HL1 & _ & Hlog1).
  destruct (leader_record _ _ _ _ _ HI2 Hj Hs2) as (L2 & HL2 & _ & Hlog2).
  destruct (hle_lead _ _ Hle _ _ HL1) as (L & HL & _ & _ & _ & Hp).
  rewrite HT in HL. assert (L = L2) as -> by congruence. by rewrite <- Hlog1, <- Hlog2.
Qed.

(** C24: (no step back) over a run a replica's term and commit index do not
    decrease, and the entries it knew to be committed stay in its log. *)
Theorem replica_monotone c1 c2 i n1 n2 :
  execution D c1 c2 -> c_nodes c1 !! i = Some n1 -> c_nodes c2 !! i = Some n2 ->
  n_currentTerm n1 <= n_currentTerm n2 /\ n_commitIndex n1 <= n_commitIndex n2 /\
  committed_prefix n1 `prefix_of` committed_prefix n2.
Proof.
  intros (tr1 & tr2 & Hs & H1 & H2) Hi1 Hi2. unfold short in Hs. rewrite length_app in Hs.
  destruct (run_keeps D tr1 0 _ _ _ (Inv_init D) ltac:(lia) H1) as (h1 & _ & HI1).
  destruct (run_grows D tr2 _ _ _ _ _ _ HI1 ltac:(lia) H2 Hi1) as (n & Hn & Hg).
  assert (n = n2) as -> by congruence. split_and!; [apply Hg..|by apply grows_committed].
Qed.



(** C14: (no panic) the truncation guard of [AppendEntries] never fires in a
    cluster: every request in flight is handled and answered. *)
Theorem append_never_panics c src p req n :
  reachable D c -> MAppendReq src p req ∈ c_net c -> c_nodes c !! d_host D p = Some n ->
  exists n' resp, HandleAppendEntries n req = (n', Ok resp).
Proof.
  intros (k & h & _ & HI)%reachable_inv Hm Hn.
  destruct (append_request_keeps D k c h src p req n HI Hm Hn) as (n' & resp & Hr & _). eauto.
Qed.

(** (delivery) what the notifier of a replica has taken from the commit
    channel, over a whole run, is in strictly increasing index order - no
    entry twice, none out of order - and each of them is the committed
    entry of its index. *)
Theorem deliveries_in_order tr c i n :
  short tr -> run D tr (init D) = Some c -> c_nodes c !! i = Some n ->
  StronglySorted index_lt (consumed D i tr (init D)) /\
  forall e, e ∈ consumed D i tr (init D) -> committed_prefix n !! Z.to_nat (le_Index e) = Some e.
Proof.
  intros Hs Hr Hi. destruct (init_member tr c i n Hs Hr Hi) as [n0 Hn0].
  destruct (consumed_spec D tr 0 hist0 (init D) c i n0) as (n' & Hn' & _ & _ & _ & Hsort & Hall);
    [apply (Inv_init D)|unfold short in *; lia|done|done|by eapply init_window|].
  simplify_eq. split; [done|]. intros e He. by apply Hall.
Qed.

(** C15: (one board) whatever replicas two delivered entries come from, if
    they have the same index they are the same entry. *)
Theorem deliveries_agree tr c i j e e' :
  short tr -> run D tr (init D) = Some c ->
  e ∈ consumed D i tr (init D) -> e' ∈ consumed D j tr (init D) -> le_Index e = le_Index e' -> e = e'.
Proof.
  intros Hs Hr He He' Hidx. destruct (reach_one D tr c Hs Hr) as (k & h & HI).
  destruct (consumed_committed tr c i e Hs Hr He) as (n1 & H1 & _ & Hp1).
  destruct (consumed_committed tr c j e' Hs Hr He') as (n2 & H2 & _ & Hp2).
  eapply (committed_prefix_agree k h c i j n1 n2); [done..|]. by rewrite Hidx.
Qed.
End agreement.

(** ** Witnesses *)

Module Witness.
Open Scope string_scope.

(** The facts a witness needs of the scenario, by evaluation. *)
Ltac scenario := first [apply after_execution; vm_compute; reflexivity | vm_compute; (reflexivity || done)].

Lemma election_safety_witness :
  n_state (replica (after elect) "node1") = Leader /\ "node1" = "node1".
Proof.
  split; [vm_compute; reflexivity|].
  apply (election_safety trio (after elect) (after (elect ++ replicate)) "node1" "node1"
           (replica (after elect) "node1") (replica (after (elect ++ replicate)) "node1")); scenario.
Defined.

Lemma state_machine_safety_witness : exists e,
  Log.entries (n_log (replica (after (elect ++ replicate)) "node1")) !! 1%nat = Some e /\
  Log.entries (n_log (replica (after ((elect ++ replicate) ++ reelect)) "node2")) !! 1%nat = Some e.
Proof.
  apply (state_machine_safety trio (after (elect ++ replicate)) (after ((elect ++ replicate) ++ reelect))
           "node1" "node2" _ _ 1); scenario.
Defined.

Lemma leader_completeness_witness : exists e,
  Log.entries (n_log (replica (after (elect ++ replicate)) "node1")) !! 1%nat = Some e /\
  Log.entries (n_log (replica (after ((elect ++ replicate) ++ reelect)) "node2")) !! 1%nat = Some e.
Proof.
  apply (leader_completeness trio (after (elect ++ replicate)) (after ((elect ++ replicate) ++ reelect))
           "node1" "node2" _ _ 1); scenario.
Defined.

Lemma log_matching_witness :
  take 2 (Log.entries (n_log (replica (after (elect ++ replicate)) "node1"))) =
  take 2 (Log.entries (n_log (replica (after ((elect ++ replicate) ++ reelect)) "node2"))).
Proof.
  apply (log_matching trio (after (elect ++ replicate)) (after ((elect ++ replicate) ++ reelect))
           "node1" "node2" _ _ 1 (mkLogEntry 1 1 stroke1) (mkLogEntry 1 1 stroke1)); scenario.
Defined.

Lemma leader_append_only_witness :
  Log.entries (n_log (replica (after elect) "node1")) `prefix_of`
  Log.entries (n_log (replica (after (elect ++ replicate)) "node1")).
Proof.
  apply (leader_append_only trio (after elect) (after (elect ++ replicate)) "node1"); scenario.
Defined.

Lemma replica_monotone_witness :
  committed_prefix (replica (after elect) "node2") `prefix_of`
  committed_prefix (replica (after (elect ++ replicate)) "node2").
Proof.
  apply (replica_monotone trio (after elect) (after (elect ++ replicate)) "node2"); scenario.
Defined.


Lemma append_never_panics_witness : exists req n' resp,
  HandleAppendEntries (replica (after (elect ++ replicate)) "node2") req = (n', Ok resp) /\
  areq_Entries req = [mkLogEntry 1 1 stroke1].
Proof.
  exists (mkAppendEntriesRequest 1 "node1" 0 0 [mkLogEntry 1 1 stroke1] 0).
  edestruct (append_never_panics trio (after (elect ++ replicate)) "node1" "replica2:9002") as (n' & resp & H).
  - exists (elect ++ replicate)%list, []. split; [|split]; [by vm_compute|vm_compute; reflexivity|reflexivity].
  - apply (list_elem_of_lookup_2 _ 3). vm_compute. reflexivity.
  - vm_compute. reflexivity.
  - exists n', resp. split; [exact H|reflexivity].
Defined.

Lemma deliveries_in_order_witness :
  consumed trio "node2" delivered (init trio) = [mkLogEntry 1 1 stroke1] /\
  StronglySorted index_lt (consumed trio "node2" delivered (init trio)).
Proof.
  split; [vm_compute; reflexivity|].
  apply (deliveries_in_order trio delivered (after delivered) "node2" (replica (after delivered) "node2")); scenario.
Defined.

Lemma deliveries_agree_witness :
  mkLogEntry 1 1 stroke1 ∈ consumed trio "node1" delivered (init trio) /\
  mkLogEntry 1 1 stroke1 = mkLogEntry 1 1 stroke1.
Proof.
  assert (consumed trio "node1" delivered (init trio) = [mkLogEntry 1 1 stroke1] /\
          consumed trio "node2" delivered (init trio) = [mkLogEntry 1 1 stroke1]) as [H1 H2]
    by (split; vm_compute; reflexivity).
  split; [rewrite H1; by constructor|].
  apply (deliveries_agree trio delivered (after delivered) "node1" "node2");
    [scenario..| | |reflexivity]; rewrite ?H1, ?H2; by constructor.
Defined.
End Witness.
