(* ===== verification/Spec.v ===== *)
(** * Spec: the replicated log the cluster implements

    The abstract service: a list of submitted strokes and one agreed log that
    only grows, by strokes that were submitted.  [cluster_refines_spec]: each
    event of a cluster is a step of this service (or leaves it unchanged). *)

From Stdlib Require Import ZArith Lia.
From stdpp Require Import base list strings gmap option fin_maps.
From S2P Require Import Prelude Types RaftLog Node Election Replication Cluster.
From S2P Require Import History Invariant Frame Safety Monotone Applier Scenario FollowerSteps Agreement.
Open Scope list_scope.
Open Scope Z_scope.

(** ** The abstract service *)

Record Spec : Type := mkSpec {
  sp_submitted : list StrokeEvent;
  sp_log : list LogEntry;
}.

Definition spec_init : Spec := mkSpec [] [].

Inductive spec_next : Spec -> Spec -> Prop :=
| spec_submit subs log s : spec_next (mkSpec subs log) (mkSpec (subs ++ [s]) log)
| spec_commit subs log es :
    Log.contiguous (S (length log)) es -> Forall (fun e => le_Stroke e ∈ subs) es ->
    spec_next (mkSpec subs log) (mkSpec subs (log ++ es)).

(** ** The abstraction *)

Definition longer (l k : list LogEntry) : list LogEntry :=
  if bool_decide (length l < length k)%nat then k else l.

(** The longest committed prefix any replica knows of, less the sentinel. *)
Definition agreed (c : Cluster) : list LogEntry :=
  tl (map_fold (fun _ l acc => longer acc l) [] (committed_prefix <$> c_nodes c)).

(** The strokes a run accepted, in the order they were accepted. *)
Definition accepted (ev : event) (c : Cluster) : list StrokeEvent :=
  match ev with
  | EvStroke i s =>
      match c_nodes c !! i with
      | Some n => match HandleStroke n s with (_, None) => [s] | _ => [] end
      | None => []
      end
  | _ => []
  end.

Fixpoint submitted (D : Deployment) (tr : list event) (c : Cluster) : list StrokeEvent :=
  match tr with
  | [] => []
  | ev :: tr =>
      accepted ev c ++ match exec D ev c with Some c' => submitted D tr c' | None => [] end
  end.

Definition abstract (D : Deployment) (tr : list event) (c : Cluster) : Spec :=
  mkSpec (submitted D tr (init D)) (agreed c).

(** ** The longest of a family of lists *)

Lemma longest_spec (m : gmap string (list LogEntry)) :
  let r := map_fold (fun _ l acc => longer acc l) [] m in
  (r = [] \/ exists i, m !! i = Some r) /\ forall i l, m !! i = Some l -> (length l <= length r)%nat.
Proof.
  apply (map_fold_weak_ind (fun r m => (r = [] \/ exists i, m !! i = Some r) /\
    forall i l, m !! i = Some l -> (length l <= length r)%nat)).
  - split; [by left|]. by intros i l ?%lookup_empty_Some.
  - intros j x m' r Hj [Hr Hall]. unfold longer. case_bool_decide.
    + split; [right; exists j; by rewrite lookup_insert_eq|].
      intros i l [[<- <-]|[_ Hi]]%lookup_insert_Some; [done|]. specialize (Hall _ _ Hi). lia.
    + split.
      * destruct Hr as [->|[i Hi]]; [by left|right]. exists i.
        rewrite lookup_insert_ne; [done|]. intros ->. congruence.
      * intros i l [[<- <-]|[_ Hi]]%lookup_insert_Some; [lia|by eapply Hall].
Qed.

(** ** Where the strokes come from *)

(** The entry is a sentinel or carries one of the strokes. *)
Definition from (S : list StrokeEvent) (e : LogEntry) : Prop := le_Term e = 0 \/ le_Stroke e ∈ S.

Record sourced (S : list StrokeEvent) (c : Cluster) : Prop := {
  src_logs : forall i n, c_nodes c !! i = Some n -> Forall (from S) (Log.entries (n_log n));
  src_net : forall src p req, MAppendReq src p req ∈ c_net c -> Forall (from S) (areq_Entries req);
}.

Lemma from_mono S S' e : (forall s, s ∈ S -> s ∈ S') -> from S e -> from S' e.
Proof. intros H [?|?]; [by left|right; auto]. Qed.

Lemma from_with_Index S e i : from S e -> from S (Log.with_Index e i).
Proof. done. Qed.

Lemma AppendEntries_from S es : forall l c,
  Forall (from S) (Log.entries l) -> Forall (from S) es ->
  Forall (from S) (Log.entries (fst (Log.AppendEntries l es c))).
Proof.
  induction es as [|e es IH]; intros l c Hl Hes; simpl; [done|].
  apply list.Forall_cons in Hes as [He Hes].
  assert (forall k, Forall (from S) k -> Forall (from S) (Log.entries (fst (Log.Append (Log.mk k) e)))) as Ha.
  { intros k Hk. simpl. apply Forall_app. split; [done|]. apply list.Forall_singleton. by apply from_with_Index. }
  repeat (case_bool_decide || case_match); simpl; try done; apply IH; try done; apply Ha; try done.
  by apply Forall_take.
Qed.

Lemma GetFrom_from S l i : Forall (from S) (Log.entries l) -> Forall (from S) (Log.GetFrom l i).
Proof. intros H. unfold Log.GetFrom, slice_from. case_bool_decide; [done|by apply Forall_drop]. Qed.

Section sources.
Context (D : Deployment).

(** The operations that leave the log alone. *)
Lemma stepDown_log n T : n_log (fst (stepDown n T)) = n_log n.
Proof. unfold stepDown. by case_bool_decide. Qed.

Lemma HandleVoteRequest_log n req : n_log (fst (HandleVoteRequest n req)) = n_log n.
Proof.
  unfold HandleVoteRequest. rewrite <- (stepDown_log n (vreq_Term req)).
  case_bool_decide; [done|]. by destruct (_ && _).
Qed.

Lemma requestVoteFromPeer_log n v T o : n_log (fst (requestVoteFromPeer n v T o)) = n_log n.
Proof.
  unfold requestVoteFromPeer. destruct o as [resp|]; [|done].
  repeat case_bool_decide; try done. by destruct (vresp_VoteGranted resp).
Qed.

Lemma startElection_finish_log n T v : n_log (fst (startElection_finish n T v)) = n_log n.
Proof.
  unfold startElection_finish, becomeLeader. repeat case_bool_decide; try done. simpl.
  by destruct (init_indexes_fields (Log.LastIndex (n_log n)) (n_peers n)
    (set_leaderID (n_id n) (set_state Leader n))) as (_ & _ & _ & _ & -> & _).
Qed.

Lemma advance_loop_log fuel i n : n_log (advance_loop fuel i n) = n_log n.
Proof.
  revert i n. induction fuel as [|fuel IH]; intros i n; simpl; [done|].
  case_bool_decide; [|done]. rewrite IH. unfold advance_at. by repeat case_bool_decide.
Qed.

Lemma response_log n p T es o : n_log (sendAppendEntries_response n p T es o) = n_log n.
Proof.
  unfold sendAppendEntries_response. destruct o as [resp|]; [|done].
  pose proof (stepDown_log n (aresp_Term resp)) as Hs.
  destruct (stepDown n (aresp_Term resp)) as [n1 [|]]; simpl in Hs; [done|].
  rewrite <- Hs. unfold advanceCommitIndex.
  repeat (case_bool_decide || case_match); rewrite ?advance_loop_log; done.
Qed.

Lemma accept_leader_log n req : n_log (accept_leader n req) = n_log n.
Proof. unfold accept_leader. simpl. by repeat (case_bool_decide; simpl). Qed.

Lemma HandleAppendEntries_from S n req :
  Forall (from S) (Log.entries (n_log n)) -> Forall (from S) (areq_Entries req) ->
  Forall (from S) (Log.entries (n_log (fst (HandleAppendEntries n req)))).
Proof.
  intros Hl Hes. unfold HandleAppendEntries. set (n1 := fst (stepDown n (areq_Term req))).
  assert (n_log n1 = n_log n) as H1 by apply stepDown_log.
  case_bool_decide; simpl; [by rewrite H1|].
  assert (n_log (accept_leader n1 req) = n_log n) as H2 by (by rewrite accept_leader_log).
  set (n2 := accept_leader n1 req) in *. clearbody n2 n1.
  assert (Forall (from S) (Log.entries (n_log (fst (append_and_commit n2 req))))) as Hac.
  { unfold append_and_commit. case_bool_decide.
    - pose proof (AppendEntries_from S (areq_Entries req) (n_log n2) (n_commitIndex n2)) as Ha.
      rewrite H2 in Ha at 1. specialize (Ha Hl Hes).
      destruct (Log.AppendEntries _ _ _) as [l [|]]; simpl in *; [|done]. by repeat case_bool_decide.
    - rewrite <- H2 in Hl. by repeat case_bool_decide. }
  case_bool_decide; [|done]. destruct (Log.GetEntry _ _) as [e [|]]; simpl; [|by rewrite H2].
  case_bool_decide; simpl; [by rewrite H2|done].
Qed.

Lemma apply_log n : n_log (applyCommitted n) = n_log n.
Proof. apply applyCommitted_core. Qed.

Lemma sourced_put S c j n n' :
  sourced S c -> c_nodes c !! j = Some n -> Forall (from S) (Log.entries (n_log n')) -> sourced S (put c j n').
Proof.
  intros [Hl Hn] Hj Hn'. split; [|done]. intros i n1 Hi. simpl in Hi.
  apply lookup_insert_Some in Hi as [[<- <-]|[_ ?]]; eauto.
Qed.

Lemma sourced_same S c j n n' :
  sourced S c -> c_nodes c !! j = Some n -> n_log n' = n_log n -> sourced S (put c j n').
Proof. intros HS Hj Hl. eapply sourced_put; [done..|]. rewrite Hl. by eapply src_logs. Qed.

Lemma sourced_post S c ms :
  sourced S c -> (forall src p req, MAppendReq src p req ∈ ms -> Forall (from S) (areq_Entries req)) ->
  sourced S (post c ms).
Proof. intros [Hl Hn] Hms. split; [done|]. intros src p req [?|?]%elem_of_app; eauto. Qed.

Lemma sourced_election S c i e : sourced S c -> sourced S (set_election c i e).
Proof. by intros [? ?]. Qed.

Lemma sourced_mono S S' c : (forall s, s ∈ S -> s ∈ S') -> sourced S c -> sourced S' c.
Proof.
  intros H [Hl Hn]. split.
  - intros i n Hi. eapply Forall_impl; [by eapply Hl|]. intros e. by apply from_mono.
  - intros src p req Hi. eapply Forall_impl; [by eapply Hn|]. intros e. by apply from_mono.
Qed.

Lemma deliver_sourced S c c' m :
  sourced S c -> m ∈ c_net c -> deliver D c m = Some c' -> sourced S c'.
Proof.
  intros HS Hm Hd. destruct m as [src p req|src p req resp|src p req|src p req resp]; unfold deliver in Hd;
    apply bind_Some in Hd as (n & Hn & Hd).
  - pose proof (HandleVoteRequest_log n req) as Hk. destruct (HandleVoteRequest n req) as [n' resp].
    injection Hd as <-. apply sourced_post; [by eapply sourced_same|].
    by intros ??? ?%list_elem_of_singleton.
  - apply bind_Some in Hd as (e & He & Hd).
    pose proof (requestVoteFromPeer_log n (er_votes e) (er_term e) (Some resp)) as Hk.
    destruct (requestVoteFromPeer _ _ _ _) as [n' v]. case_bool_decide; [|done]. injection Hd as <-.
    apply sourced_election. by eapply sourced_same.
  - pose proof (HandleAppendEntries_from S n req (src_logs _ _ HS _ _ Hn) (src_net _ _ HS _ _ _ Hm)) as Hk.
    destruct (HandleAppendEntries n req) as [n' [resp|]]; injection Hd as <-; [|by eapply sourced_put].
    apply sourced_post; [by eapply sourced_put|]. by intros ??? ?%list_elem_of_singleton.
  - injection Hd as <-. eapply sourced_same; [done..|].
    apply (response_log n p (areq_Term req) (areq_Entries req) (Some resp)).
Qed.

Lemma exec_sourced S c c' ev :
  sourced S c -> exec D ev c = Some c' -> sourced (S ++ accepted ev c) c'.
Proof.
  intros HS He.
  assert (sourced S c' -> sourced (S ++ accepted ev c) c') as Hmono.
  { apply sourced_mono. intros s ?. apply elem_of_app. by left. }
  destruct ev as [i|x|i p|i|i s|i p|i|i]; unfold exec in He; apply bind_Some in He as (n & Hn & He).
  - apply Hmono. destruct (c_elections c !! i); [done|]. simpl in He. case_bool_decide; [done|].
    injection He as <-. apply sourced_post; [by apply sourced_election; eapply sourced_same|].
    intros ??? (? & ? & _)%list_elem_of_fmap. done.
  - apply Hmono. eapply deliver_sourced; [done|by eapply list_elem_of_lookup_2|done].
  - apply Hmono. apply bind_Some in He as (e & Hel & He). case_bool_decide; [|done].
    injection He as <-. apply sourced_election. by eapply sourced_same.
  - apply Hmono. apply bind_Some in He as (e & Hel & He). case_bool_decide; [|done].
    pose proof (startElection_finish_log n (er_term e) (er_votes e)) as Hk.
    destruct (startElection_finish _ _ _). injection He as <-. apply sourced_election. by eapply sourced_same.
  - injection He as <-. unfold accepted. rewrite Hn. unfold HandleStroke. case_bool_decide; simpl.
    + rewrite app_nil_r. by eapply sourced_same.
    + assert (sourced (S ++ [s]) c) as HS'.
      { eapply sourced_mono; [|done]. intros ??. apply elem_of_app. by left. }
      eapply sourced_put; [done..|]. simpl. apply Forall_app. split; [by eapply src_logs|].
      apply list.Forall_singleton. right. simpl. apply elem_of_app. right. by constructor.
  - apply Hmono. case_bool_decide; [|done]. destruct (sendAppendEntries_request n p) eqn:Hr; simplify_eq; [|done].
    apply sourced_post; [done|]. intros src q req Hin%list_elem_of_singleton. simplify_eq.
    unfold sendAppendEntries_request in Hr. case_bool_decide; [done|].
    destruct (n_nextIndex n !! p); simplify_eq. simpl. apply GetFrom_from. by eapply src_logs.
  - apply Hmono. injection He as <-. eapply sourced_same; [done..|]. apply apply_log.
  - apply Hmono. destruct (n_commitCh n); simplify_eq. by eapply sourced_same.
Qed.

Lemma run_sourced S tr c c' :
  sourced S c -> run D tr c = Some c' -> sourced (S ++ submitted D tr c) c'.
Proof.
  revert S c. induction tr as [|ev tr IH]; intros S c HS Hr; simpl in *.
  - simplify_eq. by rewrite app_nil_r.
  - apply bind_Some in Hr as (c1 & He & Hr). rewrite He, app_assoc. apply IH; [|done]. by eapply exec_sourced.
Qed.

Lemma init_sourced : sourced [] (init D).
Proof.
  split; simpl; [|by intros ??? ?%elem_of_nil].
  intros i n (cfg & <- & _)%lookup_fmap_Some. apply list.Forall_singleton. by left.
Qed.

Lemma submitted_snoc tr ev c c' :
  run D tr c = Some c' -> submitted D (tr ++ [ev]) c = submitted D tr c ++ accepted ev c'.
Proof.
  revert c. induction tr as [|ev0 tr IH]; intros c Hr; simpl in *.
  - simplify_eq. destruct (exec D ev c'); by rewrite app_nil_r.
  - apply bind_Some in Hr as (c1 & He & Hr). rewrite He, <- app_assoc. by rewrite IH.
Qed.
End sources.

(** ** The refinement *)

Section refinement.
Context (D : Deployment) {WD : WellDeployed D}.

Lemma contiguous_app_r l k b : Log.contiguous b (l ++ k) -> Log.contiguous (b + length l) k.
Proof.
  revert b. induction l as [|e l IH]; intros b; simpl; [by rewrite Nat.add_0_r|].
  intros [_ H%IH]. by rewrite Nat.add_succ_r.
Qed.

(** Committed prefixes of two replicas at two moments: the shorter is a
    prefix of the longer. *)
Lemma committed_prefix_comparable k h1 h2 c1 c2 i j n1 n2 :
  Inv D k c1 h1 -> Inv D k c2 h2 -> hist_le h1 h2 -> (forall m, m ∈ c_net c1 -> m ∈ c_net c2) ->
  c_nodes c1 !! i = Some n1 -> c_nodes c2 !! j = Some n2 ->
  (length (committed_prefix n1) <= length (committed_prefix n2))%nat ->
  committed_prefix n1 `prefix_of` committed_prefix n2.
Proof.
  intros HI1 HI2 Hle Hnet Hi Hj Hlen.
  destruct (justified_later D _ _ c2 _ _ _ _ HI1 Hle Hnet Hi) as [Hl1 Hc1].
  pose proof (inv_nodes _ _ _ _ HI2 _ _ Hj) as Hn2. pose proof (inv_nodes _ _ _ _ HI1 _ _ Hi) as Hn1.
  pose proof (commit_ok_agreement D _ _ _ _ _ _ _ _ (inv_hist _ _ _ _ HI2) Hl1
    (no_log _ _ _ _ _ _ _ Hn2) Hc1 (no_commit_ok _ _ _ _ _ _ _ Hn2)) as Ha.
  pose proof (no_commit _ _ _ _ _ _ _ Hn1) as Hr1. pose proof (no_commit _ _ _ _ _ _ _ Hn2) as Hr2.
  unfold committed_prefix in *. rewrite !length_take in Hlen. unfold len in *.
  assert (Z.to_nat (n_commitIndex n1) <= Z.to_nat (n_commitIndex n2))%nat as Hle' by lia.
  rewrite Nat.min_l in Ha by done. unfold agree_upto in Ha. rewrite Ha.
  rewrite <- (Nat.min_l (S (Z.to_nat (n_commitIndex n1))) (S (Z.to_nat (n_commitIndex n2)))) by lia.
  rewrite <- take_take. apply prefix_take.
Qed.

Lemma committed_prefix_head k h c i n :
  Inv D k c h -> c_nodes c !! i = Some n -> exists l, committed_prefix n = mkLogEntry 0 0 zeroStroke :: l.
Proof.
  intros HI Hi. pose proof (lok_wf _ _ _ (no_log _ _ _ _ _ _ _ (inv_nodes _ _ _ _ HI _ _ Hi))) as [H0 _].
  unfold committed_prefix. destruct (Log.entries (n_log n)); simplify_eq/=. eauto.
Qed.

(** The agreed log is a replica's committed prefix, and the longest. *)
Lemma agreed_spec k h c :
  Inv D k c h -> (exists i n, c_nodes c !! i = Some n) ->
  (exists i n, c_nodes c !! i = Some n /\ committed_prefix n = mkLogEntry 0 0 zeroStroke :: agreed c) /\
  forall i n, c_nodes c !! i = Some n -> (length (committed_prefix n) <= S (length (agreed c)))%nat.
Proof.
  intros HI (i0 & n0 & Hi0).
  destruct (longest_spec (committed_prefix <$> c_nodes c)) as [Hr Hall]. unfold agreed.
  set (r := map_fold _ _ _) in *. clearbody r.
  destruct (committed_prefix_head _ _ _ _ _ HI Hi0) as [l0 Hl0].
  assert (length (committed_prefix n0) <= length r)%nat as H0.
  { apply (Hall i0). by rewrite lookup_fmap, Hi0. }
  destruct Hr as [->|(i & Hi)]; [rewrite Hl0 in H0; simpl in H0; lia|].
  apply lookup_fmap_Some in Hi as (n & Hn & Hi).
  destruct (committed_prefix_head _ _ _ _ _ HI Hi) as [l Hl]. rewrite Hl in Hn. subst r. simpl. split; [eauto|].
  intros j n' Hj. apply (Hall j). by rewrite lookup_fmap, Hj.
Qed.

(** What a replica knows to be committed is agreed. *)
Lemma committed_agreed k h c i n :
  Inv D k c h -> c_nodes c !! i = Some n ->
  committed_prefix n `prefix_of` mkLogEntry 0 0 zeroStroke :: agreed c.
Proof.
  intros HI Hi. destruct (agreed_spec _ _ _ HI) as [(j & m & Hj & Hm) Hmax]; [eauto|].
  pose proof (Hmax _ _ Hi) as Hlen. rewrite <- Hm.
  eapply (committed_prefix_comparable _ h h c c); try done. by rewrite Hm.
Qed.

Lemma agreed_grows k h1 h2 c1 c2 :
  Inv D k c1 h1 -> Inv D k c2 h2 -> hist_le h1 h2 -> (forall m, m ∈ c_net c1 -> m ∈ c_net c2) ->
  (exists i n, c_nodes c1 !! i = Some n) ->
  (forall i n, c_nodes c1 !! i = Some n -> exists n', c_nodes c2 !! i = Some n' /\ grows n n') ->
  agreed c1 `prefix_of` agreed c2.
Proof.
  intros HI1 HI2 Hle Hnet Hne Hgr.
  destruct (agreed_spec _ _ _ HI1 Hne) as [(i & n & Hi & Hp) _].
  destruct (Hgr _ _ Hi) as (n' & Hi' & [_ Hc _]).
  destruct (agreed_spec _ _ _ HI2) as [(j & m & Hj & Hq) Hmax]; [eauto|].
  pose proof (Hmax _ _ Hi') as Hlen.
  pose proof (no_commit _ _ _ _ _ _ _ (inv_nodes _ _ _ _ HI1 _ _ Hi)) as Hr1.
  pose proof (no_commit _ _ _ _ _ _ _ (inv_nodes _ _ _ _ HI2 _ _ Hi')) as Hr2.
  assert (committed_prefix n `prefix_of` committed_prefix m) as Hpre.
  { eapply (committed_prefix_comparable k h1 h2 c1 c2 i j); try done. rewrite Hq. simpl.
    etrans; [|exact Hlen]. unfold committed_prefix. rewrite !length_take. unfold len in *. lia. }
  rewrite Hp, Hq in Hpre. by apply prefix_cons_inv_2 in Hpre.
Qed.

(** Every agreed entry carries an accepted stroke, at its own index. *)
Lemma agreed_sourced k h c S :
  Inv D k c h -> (exists i n, c_nodes c !! i = Some n) -> sourced S c ->
  Forall (fun e => le_Stroke e ∈ S) (agreed c) /\ Log.contiguous 1 (agreed c).
Proof.
  intros HI Hne HS. destruct (agreed_spec _ _ _ HI Hne) as [(i & n & Hi & Hp) _].
  pose proof (lok_wf _ _ _ (no_log _ _ _ _ _ _ _ (inv_nodes _ _ _ _ HI _ _ Hi))) as [_ Hwf].
  pose proof (src_logs _ _ HS _ _ Hi) as Hfrom.
  assert (forall x e, agreed c !! x = Some e -> Log.entries (n_log n) !! Datatypes.S x = Some e) as Hlook.
  { intros x e Hx. assert (committed_prefix n !! Datatypes.S x = Some e) as Hc by (by rewrite Hp).
    by apply lookup_take_Some in Hc as [? _]. }
  split.
  - apply list.Forall_lookup. intros x e Hx. specialize (Hlook _ _ Hx).
    destruct (Hwf _ _ Hlook) as [_ Hpos]. specialize (Hpos ltac:(lia)).
    rewrite list.Forall_lookup in Hfrom. destruct (Hfrom _ _ Hlook); [lia|done].
  - clear Hp. revert Hlook. generalize (agreed c) as l.
    assert (forall l b, (forall x e, l !! x = Some e -> Log.entries (n_log n) !! (b + Datatypes.S x)%nat = Some e) ->
      Log.contiguous (Datatypes.S b) l) as H; [|intros l Hl; by apply (H l 0%nat)].
    induction l as [|e l IH]; intros b Hl; simpl; [done|]. split.
    + destruct (Hwf (b + 1)%nat e) as [-> _]; [by apply (Hl 0%nat)|]. f_equal. lia.
    + apply IH. intros x e' Hx. replace (Datatypes.S b + Datatypes.S x)%nat with (b + Datatypes.S (Datatypes.S x))%nat by lia.
      by apply Hl.
Qed.

Lemma exec_member ev c c' : exec D ev c = Some c' -> exists i n, c_nodes c !! i = Some n.
Proof.
  intros He. destruct ev as [i|x|i p|i|i s|i p|i|i]; unfold exec in He; apply bind_Some in He as (n & Hn & He);
    try (by exists i, n).
  destruct n; unfold deliver in He; apply bind_Some in He as (m & Hm & _); by eexists _, m.
Qed.

(** A stroke changes no committed prefix. *)
Lemma stroke_agreed k h c c' i s :
  Inv D k c h -> exec D (EvStroke i s) c = Some c' -> agreed c' = agreed c.
Proof.
  intros HI He. simpl in He. apply bind_Some in He as (n & Hn & [= <-]). unfold agreed, put. simpl.
  rewrite fmap_insert.
  pose proof (no_commit _ _ _ _ _ _ _ (inv_nodes _ _ _ _ HI _ _ Hn)) as Hc.
  pose proof (HandleStroke_monotone n s Hc) as [_ _ _ _ Ha _ _ _].
  assert (committed_prefix (fst (HandleStroke n s)) = committed_prefix n) as ->.
  { unfold committed_prefix. unfold agree_upto in Ha. rewrite Ha. f_equal. unfold HandleStroke.
    by case_bool_decide. }
  rewrite insert_id; [done|]. by rewrite lookup_fmap, Hn.
Qed.

Lemma exec_refines k h c c' tr ev :
  Inv D k c h -> k < MaxInt64 -> run D tr (init D) = Some c -> exec D ev c = Some c' ->
  spec_next (abstract D tr c) (abstract D (tr ++ [ev]) c').
Proof.
  intros HI Hk Hr He. unfold abstract. rewrite (submitted_snoc D tr ev _ c Hr).
  destruct (exec_keeps D k c c' h ev HI Hk He) as (h' & Hle & HI').
  pose proof (exec_member _ _ _ He) as Hne.
  assert (accepted ev c = [] -> spec_next (mkSpec (submitted D tr (init D)) (agreed c))
    (mkSpec (submitted D tr (init D) ++ accepted ev c) (agreed c'))) as Hcommit.
  { intros Hacc. rewrite Hacc, app_nil_r.
    assert (agreed c `prefix_of` agreed c') as [es Hes].
    { eapply (agreed_grows (k + 1) h h'); [eapply Inv_le; [exact HI|lia]|done|done| |done|].
      - intros m. destruct (exec_net D _ _ _ He) as [z ->]. intros. apply elem_of_app. by left.
      - intros i n Hi. destruct (exec_node D k h c c' ev i n HI Hk He Hi) as (n' & ? & ?).
        exists n'. split; [done|by eapply step_grows]. }
    destruct Hne as (i & n & Hi). destruct (exec_node D k h c c' ev i n HI Hk He Hi) as (n' & Hi' & _).
    destruct (agreed_sourced _ _ c' (submitted D tr (init D)) HI') as [Hsrc Hcon]; [eauto| |].
    { pose proof (exec_sourced D _ _ _ _ (run_sourced D _ _ _ _ (init_sourced D) Hr) He) as HS.
      by rewrite Hacc, app_nil_r in HS. }
    rewrite Hes in *. apply spec_commit.
    - replace (S (length (agreed c))) with (1 + length (agreed c))%nat by lia. by eapply contiguous_app_r.
    - by apply Forall_app in Hsrc as [_ ?]. }
  destruct ev as [i|x|i p|i|i s|i p|i|i]; try by apply Hcommit.
  destruct (accepted (EvStroke i s) c) as [|s1 l] eqn:Hacc; [by apply Hcommit|].
  assert (l = []) as ->.
  { simpl in Hacc. destruct (c_nodes c !! i); [|done]. destruct (HandleStroke n s) as [? [?|]]; by simplify_eq. }
  rewrite (stroke_agreed k h c c' i s HI He). apply spec_submit.
Qed.

Lemma run_refines tr1 tr2 k h c1 c2 :
  Inv D k c1 h -> k + Z.of_nat (length tr2) <= MaxInt64 -> run D tr1 (init D) = Some c1 ->
  run D tr2 c1 = Some c2 -> rtc spec_next (abstract D tr1 c1) (abstract D (tr1 ++ tr2) c2).
Proof.
  revert tr1 k h c1. induction tr2 as [|ev tr2 IH]; intros tr1 k h c1 HI Hk H1 H2; simpl in *.
  - simplify_eq. by rewrite app_nil_r.
  - apply bind_Some in H2 as (c & He & H2). eapply rtc_l.
    + eapply exec_refines; [done|lia|done|done].
    + destruct (exec_keeps D k c1 c h ev) as (h' & _ & HI'); [done|lia|done|].
      replace (tr1 ++ ev :: tr2) with ((tr1 ++ [ev]) ++ tr2) by (by rewrite <- app_assoc).
      eapply IH; [done|lia| |done]. rewrite run_app, H1. simpl. by rewrite He.
Qed.

Lemma abstract_init : abstract D [] (init D) = spec_init.
Proof.
  unfold abstract, spec_init. f_equal. destruct (decide (c_nodes (init D) = ∅)) as [Hz|Hz].
  - unfold agreed. by rewrite Hz.
  - apply map_choose in Hz as (i & n & Hi).
    destruct (agreed_spec 0 hist0 (init D) (Inv_init D)) as [(j & m & Hj & Hm) _]; [eauto|].
    simpl in Hj. apply lookup_fmap_Some in Hj as (cfg & <- & _). by injection Hm.
Qed.

(** C4: (refinement) a run of the cluster is a run of the abstract service
    from its initial state: the agreed log only grows, and only by strokes
    a leader accepted, in contiguous positions; what any replica knows to be
    committed is a prefix of the agreed log. *)
Theorem cluster_refines_spec tr1 tr2 c1 c2 :
  short (tr1 ++ tr2) -> run D tr1 (init D) = Some c1 -> run D tr2 c1 = Some c2 ->
  rtc spec_next spec_init (abstract D tr1 c1) /\
  rtc spec_next (abstract D tr1 c1) (abstract D (tr1 ++ tr2) c2) /\
  forall i n, c_nodes c2 !! i = Some n ->
    committed_prefix n `prefix_of` mkLogEntry 0 0 zeroStroke :: agreed c2.
Proof.
  unfold short. rewrite length_app. intros Hs H1 H2.
  destruct (run_keeps D tr1 0 _ _ _ (Inv_init D) ltac:(lia) H1) as (h1 & _ & HI1).
  destruct (run_keeps D tr2 _ _ _ _ HI1 ltac:(lia) H2) as (h2 & _ & HI2).
  split_and!.
  - rewrite <- abstract_init. apply (run_refines [] tr1 0 hist0 (init D)); [apply (Inv_init D)|lia|done|done].
  - eapply run_refines; [exact HI1|lia|done|done].
  - intros i n Hi. by eapply committed_agreed.
Qed.
End refinement.

Module SpecWitness.
Lemma cluster_refines_spec_witness :
  rtc spec_next (abstract trio elect (after elect)) (abstract trio (elect ++ replicate) (after (elect ++ replicate))) /\
  abstract trio (elect ++ replicate) (after (elect ++ replicate)) = mkSpec [stroke1] [mkLogEntry 1 1 stroke1].
Proof.
  split; [|vm_compute; reflexivity].
  apply (cluster_refines_spec trio elect replicate (after elect) (after (elect ++ replicate)));
    vm_compute; (reflexivity || done).
Defined.
End SpecWitness.
