(* ===== verification/CatchUp.v ===== *)
(** * CatchUp: a leader repairs a follower's log

    A follower that was away, or that holds entries of an old leader, is
    brought up to date by the ordinary AppendEntries exchange: a refusal moves
    nextIndex back, a success replaces the follower's tail.  [sync_round] is
    one exchange of [sendAppendEntries] with a follower that answers; the
    theorem bounds their number by nextIndex. *)

From Stdlib Require Import ZArith Lia.
From stdpp Require Import base list strings gmap option.
From S2P Require Import Prelude Types RaftLog Node Election Replication Handlers Cluster.
From S2P Require Import History Invariant Frame Safety Scenario FollowerSteps Agreement.
Open Scope list_scope.
Open Scope Z_scope.

(** One exchange: the leader and the follower after it.  A handler that
    panics answers nothing: the leader's call fails. *)
Definition sync_round (p : string) (s : Node * Node) : Node * Node :=
  let '(n, f) := s in
  match sendAppendEntries_request n p with
  | None => (n, f)
  | Some req =>
      match HandleAppendEntries f req with
      | (f', Ok resp) => (sendAppendEntries_response n p (areq_Term req) (areq_Entries req) (Some resp), f')
      | (f', Panicked _) => (sendAppendEntries_response n p (areq_Term req) (areq_Entries req) None, f')
      end
  end.

Definition sync_rounds (k : nat) (p : string) (s : Node * Node) : Node * Node := Nat.iter k (sync_round p) s.

(** What the leader's log and the follower's log have in common, in a cluster:
    both are well formed, they match (log matching) and the follower's
    committed entries are the leader's. *)
Record pair_ok (n f : Node) : Prop := {
  pr_leader : n_state n = Leader;
  pr_term : n_currentTerm f <= n_currentTerm n;
  pr_wf : Log.wf (Log.entries (n_log n));
  pr_wf_f : Log.wf (Log.entries (n_log f));
  pr_matching : Log.matching (Log.entries (n_log f)) (Log.entries (n_log n));
  pr_commit : n_commitIndex n <= Log.LastIndex (n_log n);
  pr_committed : forall i e e', Z.of_nat i <= n_commitIndex f ->
    Log.entries (n_log f) !! i = Some e -> Log.entries (n_log n) !! i = Some e' -> le_Term e = le_Term e';
}.

(** The follower holds the leader's whole log. *)
Definition synced (n f : Node) : Prop :=
  agree_upto (Z.to_nat (Log.LastIndex (n_log n))) (Log.entries (n_log f)) (Log.entries (n_log n)).

Lemma segment_contiguous L prev es : Log.wf L -> Log.segment L prev es -> Log.contiguous (S prev) es.
Proof.
  intros [_ Hwf]. revert prev. induction es as [|e es IH]; intros prev Hs; simpl; [done|].
  apply Log.segment_cons in Hs as [He Hs]. split; [|by apply IH]. by destruct (Hwf _ _ He).
Qed.

Section round.
Context (n f : Node) (p : string) (ni : Z).
Context (Hok : pair_ok n f) (Hni : n_nextIndex n !! p = Some ni)
        (Hr : 1 <= ni <= len (Log.entries (n_log n))).

Local Abbreviation L := (Log.entries (n_log n)).
Let req := mkAppendEntriesRequest (n_currentTerm n) (n_id n) (ni - 1) (Log.Term (n_log n) (ni - 1))
             (drop (Z.to_nat ni) L) (n_commitIndex n).

Lemma round_request : sendAppendEntries_request n p = Some req.
Proof.
  unfold sendAppendEntries_request. rewrite bool_decide_false by (intros Hx; apply Hx, Hok).
  rewrite Hni, Log.GetFrom_drop by lia. done.
Qed.

Lemma round_segment : Log.segment L (Z.to_nat (ni - 1)) (areq_Entries req).
Proof.
  intros k e. simpl. rewrite lookup_drop. intros <-. f_equal. lia.
Qed.

(** The check passes: the follower ends with the leader's log. *)
Lemma round_success :
  prev_check (Log.entries (n_log f)) (ni - 1) (Log.Term (n_log n) (ni - 1)) = None ->
  exists f', HandleAppendEntries f req = (f', Ok (mkAppendEntriesResponse (n_currentTerm n) true 0)) /\
    synced n f' /\ n_currentTerm f' = n_currentTerm n.
Proof.
  intros Hck. pose proof Hok as [].  unfold len in Hr.
  pose proof (Log.wf_length _ pr_wf_f0) as Hpos.
  pose proof (segment_contiguous L _ _ pr_wf0 round_segment) as Hcon.
  assert (Z.to_nat (ni - 1) < length (Log.entries (n_log f)))%nat as Hprev.
  { unfold prev_check in Hck. case_bool_decide; [lia|].
    destruct (Log.entries (n_log f) !! Z.to_nat (ni - 1)) eqn:He; [|done]. by eapply lookup_lt_Some. }
  assert (agree_upto (Z.to_nat (ni - 1)) (Log.entries (n_log f)) L) as Hag.
  { unfold prev_check in Hck. case_bool_decide.
    - apply agree_upto_intro. intros m ?. replace m with 0%nat by lia.
      by rewrite (proj1 pr_wf_f0), (proj1 pr_wf0).
    - destruct (Log.entries (n_log f) !! Z.to_nat (ni - 1)) as [e|] eqn:He; [|done]. case_bool_decide as Ht; [|done].
      destruct (lookup_lt_is_Some_2 L (Z.to_nat (ni - 1))) as [e' He']; [lia|].
      eapply pr_matching0; [done..|]. rewrite Ht, Log.Term_term_at by lia. by apply Log.term_at_Some. }
  destruct (Log.AppendEntries_segment (areq_Entries req) (n_log f) (Z.to_nat (ni - 1)) L (n_commitIndex f))
    as (l' & Hrun & Hl'); [done|apply round_segment|done|done|done|done|].
  rewrite (Log.AppendEntries_reconcile_aux _ _ (Z.to_nat (ni - 1))) in Hrun by done. simpl in Hrun.
  pose proof (HandleAppendEntries_outcome f req ltac:(simpl; lia) Hcon Hpos) as Hspec.
  destruct (HandleAppendEntries f req) as [f' r]. destruct Hspec as [_ Hspec].
  destruct Hspec as (Hft & _ & _ & Happ); [done|]. simpl in Happ, Hft. rewrite Hck in Happ. unfold appended in Happ.
  simpl in *. destruct (Log.reconcile _ _ _ _) as [l1 o]. simpl in Hrun. injection Hrun as Hl1 Ho. subst l' o. simpl in *.
  destruct Happ as (Hlog & -> & _). exists f'. split; [done|]. split; [|done].
  unfold synced. rewrite Hlog.
  assert (Z.to_nat (Log.LastIndex (n_log n)) = Z.to_nat (ni - 1) + length (drop (Z.to_nat ni) L))%nat as ->.
  { rewrite length_drop. unfold Log.LastIndex, len. lia. }
  destruct Hl' as [(Heq & Ha & _)|[Heq _]].
  - by rewrite <- Heq in Ha.
  - simpl in Heq. rewrite Heq. apply agree_upto_take. lia.
Qed.

(** The check fails: nothing moves but the follower's term and role, and the
    conflict index is a smaller nextIndex. *)
Lemma round_refusal ci :
  prev_check (Log.entries (n_log f)) (ni - 1) (Log.Term (n_log n) (ni - 1)) = Some ci ->
  1 <= ci < ni /\ exists f', HandleAppendEntries f req = (f', Ok (mkAppendEntriesResponse (n_currentTerm f) false ci)) /\
    n_log f' = n_log f /\ n_commitIndex f' = n_commitIndex f /\ n_currentTerm f' = n_currentTerm n.
Proof.
  intros Hck. pose proof Hok as [].  unfold len in Hr.
  pose proof (Log.wf_length _ pr_wf_f0) as Hpos.
  pose proof (segment_contiguous L _ _ pr_wf0 round_segment) as Hcon. split.
  - unfold prev_check in Hck. case_bool_decide; [done|].
    destruct (Log.entries (n_log f) !! Z.to_nat (ni - 1)) as [e|] eqn:He; [case_bool_decide; simplify_eq; lia|].
    apply lookup_ge_None in He. simplify_eq. unfold len. lia.
  - pose proof (HandleAppendEntries_outcome f req ltac:(simpl; lia) Hcon Hpos) as Hspec.
    destruct (HandleAppendEntries f req) as [f' r]. destruct Hspec as [_ Hspec].
    destruct Hspec as (? & _ & _ & Happ); [done|]. simpl in *. rewrite Hck in Happ.
    destruct Happ as (-> & ? & ?). by exists f'.
Qed.
End round.

(** The leader's side of an answer of its own or an earlier term. *)
Lemma response_refused n p es T ci :
  n_state n = Leader -> T <= n_currentTerm n -> 0 < ci ->
  sendAppendEntries_response n p (n_currentTerm n) es (Some (mkAppendEntriesResponse T false ci)) =
    set_nextIndex (<[p := ci]> (n_nextIndex n)) n.
Proof.
  intros Hs HT Hc. unfold sendAppendEntries_response, stepDown. simpl.
  rewrite bool_decide_false by lia. rewrite (bool_decide_false (_ \/ _)) by (intros [?|?]; congruence).
  by rewrite bool_decide_true by lia.
Qed.

Lemma response_accepted n p es ci :
  n_state n = Leader -> n_commitIndex n <= Log.LastIndex (n_log n) ->
  let n' := sendAppendEntries_response n p (n_currentTerm n) es (Some (mkAppendEntriesResponse (n_currentTerm n) true ci)) in
  n_log n' = n_log n /\ n_state n' = Leader /\
  (es <> [] -> n_nextIndex n' !! p = Some (last_index_of es + 1) /\ n_matchIndex n' !! p = Some (last_index_of es)) /\
  (es = [] -> n_nextIndex n' = n_nextIndex n /\ n_matchIndex n' = n_matchIndex n).
Proof.
  intros Hs Hc n'. unfold n', sendAppendEntries_response, stepDown. simpl.
  rewrite bool_decide_false by lia. rewrite (bool_decide_false (_ \/ _)) by (intros [?|?]; congruence).
  case_bool_decide as Hne.
  - destruct (advanceCommitIndex_last (set_matchIndex (<[p:=last_index_of es]> (n_matchIndex n))
      (set_nextIndex (<[p:=last_index_of es + 1]> (n_nextIndex n)) n)) Hc) as (c & -> & _). simpl.
    split_and!; [done|done| |by intros ->]. intros _. by rewrite !lookup_insert_eq.
  - destruct (advanceCommitIndex_last n Hc) as (c & -> & _). simpl. split_and!; try done.
    intros Hx. destruct es; [done|]. unfold len in Hne. simpl in Hne. lia.
Qed.

Lemma last_index_of_drop (l : list LogEntry) ni :
  Log.wf l -> 1 <= ni -> drop (Z.to_nat ni) l <> [] -> last_index_of (drop (Z.to_nat ni) l) = len l - 1.
Proof.
  intros [_ Hwf] ? Hne. unfold last_index_of. rewrite last_lookup, length_drop, lookup_drop.
  assert (Z.to_nat ni < length l)%nat as Hlt.
  { destruct (decide (Z.to_nat ni < length l)%nat); [done|]. destruct Hne. apply drop_ge. lia. }
  destruct (lookup_lt_is_Some_2 l (Z.to_nat ni + pred (length l - Z.to_nat ni))) as [e He]; [lia|].
  rewrite He. simpl. destruct (Hwf _ _ He) as [-> _]. unfold len. lia.
Qed.

Lemma sync_rounds_converge p m : forall n f ni,
  pair_ok n f -> n_nextIndex n !! p = Some ni -> 1 <= ni <= len (Log.entries (n_log n)) ->
  (Z.to_nat ni <= m)%nat ->
  exists k n' f', (1 <= k <= m)%nat /\ sync_rounds k p (n, f) = (n', f') /\ synced n' f' /\
    n_log n' = n_log n /\ n_state n' = Leader /\
    n_nextIndex n' !! p = Some (len (Log.entries (n_log n))).
Proof.
  induction m as [|m IH]; intros n f ni Hok Hni Hr Hm; [lia|]. pose proof Hok as [].
  pose proof (round_request n f p ni Hok Hni Hr) as Hreq.
  destruct (prev_check (Log.entries (n_log f)) (ni - 1) (Log.Term (n_log n) (ni - 1))) as [ci|] eqn:Hck.
  - destruct (round_refusal n f ni Hok Hr ci Hck) as (Hci & f' & Hrun & Hlog & Hcom & Hterm).
    set (n1 := set_nextIndex (<[p := ci]> (n_nextIndex n)) n).
    assert (sync_round p (n, f) = (n1, f')) as Hround.
    { unfold sync_round. rewrite Hreq, Hrun. cbn [areq_Term areq_Entries].
      by rewrite response_refused by (done || lia). }
    destruct (IH n1 f' ci) as (k & n' & f2 & Hk & Hrun' & Hs & Hl & Hst & Hn).
    + split; simpl; rewrite ?Hlog, ?Hcom; try done. lia.
    + apply lookup_insert_eq.
    + simpl. lia.
    + lia.
    + exists (S k), n', f2. split_and!; [lia|lia| |done..].
      unfold sync_rounds. rewrite Nat.iter_succ_r, Hround. exact Hrun'.
  - destruct (round_success n f ni Hok Hr Hck) as (f' & Hrun & Hs & _).
    destruct (response_accepted n p (drop (Z.to_nat ni) (Log.entries (n_log n))) 0 pr_leader0 pr_commit0)
      as (Hl & Hst & Hne & Hnil).
    set (n' := sendAppendEntries_response n p _ _ _) in *.
    assert (sync_round p (n, f) = (n', f')) as Hround.
    { unfold sync_round. by rewrite Hreq, Hrun. }
    clearbody n'. exists 1%nat, n', f'. split_and!; [lia|lia|exact Hround| |done|done|].
    + unfold synced in *. by rewrite Hl.
    + destruct (decide (drop (Z.to_nat ni) (Log.entries (n_log n)) = [])) as [Hz|Hz].
      * destruct (Hnil Hz) as [-> _]. rewrite Hni. f_equal.
        apply (f_equal length) in Hz. rewrite length_drop in Hz. unfold len in *. simpl in Hz. lia.
      * destruct (Hne Hz) as [-> _]. rewrite last_index_of_drop by (done || lia). f_equal. lia.
Qed.

Section cluster.
Context (D : Deployment) {WD : WellDeployed D}.

(** In a cluster, the logs of a leader and of a replica of no later term are
    as the repair needs them. *)
Lemma cluster_pair_ok k h c i j n f :
  Inv D k c h -> c_nodes c !! i = Some n -> c_nodes c !! j = Some f ->
  n_state n = Leader -> n_currentTerm f <= n_currentTerm n -> pair_ok n f.
Proof.
  intros HI Hi Hj Hs HT. pose proof (inv_nodes _ _ _ _ HI _ _ Hi) as Hn.
  pose proof (inv_nodes _ _ _ _ HI _ _ Hj) as Hf.
  destruct (leader_record D _ _ _ _ _ HI Hi Hs) as (L & HL & _ & Hlog).
  pose proof (no_commit _ _ _ _ _ _ _ Hn). pose proof (no_commit _ _ _ _ _ _ _ Hf).
  split; [done|done|apply Hn|apply Hf| | |].
  - eapply log_ok_matching; [apply Hf|apply Hn].
  - unfold Log.LastIndex. lia.
  - intros x e e' Hx He He'.
    pose proof (commit_agrees D _ _ _ _ _ _ _ (inv_hist _ _ _ _ HI) HL HT
      (no_log _ _ _ _ _ _ _ Hf) (no_commit_ok _ _ _ _ _ _ _ Hf)) as Ha.
    pose proof (agree_upto_lookup _ x _ _ Ha ltac:(lia)) as Hl. rewrite Hlog in Hl. congruence.
Qed.

(** C10: (catch-up) in any reachable cluster, a leader that exchanges
    AppendEntries with a peer of no later term brings the peer's log to
    contain its own, in at most nextIndex exchanges and without a panic. *)
Theorem follower_catches_up c i p n f ni :
  reachable D c -> c_nodes c !! i = Some n -> c_nodes c !! d_host D p = Some f ->
  n_state n = Leader -> p ∈ n_peers n -> n_currentTerm f <= n_currentTerm n ->
  n_nextIndex n !! p = Some ni ->
  exists k n' f', (1 <= k <= Z.to_nat ni)%nat /\ sync_rounds k p (n, f) = (n', f') /\
    n_log n' = n_log n /\ synced n' f' /\ n_nextIndex n' !! p = Some (len (Log.entries (n_log n))).
Proof.
  intros (k & h & _ & HI)%(reachable_inv D) Hi Hj Hs Hp HT Hni.
  pose proof (cluster_pair_ok _ _ _ _ _ _ _ HI Hi Hj Hs HT) as Hok.
  destruct (no_leader _ _ _ _ _ _ _ (inv_nodes _ _ _ _ HI _ _ Hi) Hs) as (_ & Hmaps).
  destruct (Hmaps p Hp) as (ni' & mi & Hni' & _ & []). assert (ni' = ni) as -> by congruence.
  destruct (sync_rounds_converge p (Z.to_nat ni) n f ni Hok Hni po_next) as (x & n' & f' & ? & ? & ? & ? & ? & ?);
    [done|]. by exists x, n', f'.
Qed.
End cluster.

Module CatchUpWitness.
Open Scope string_scope.

Definition tr : list event := (elect ++ replicate ++ reelect)%list.

(** node3 missed the stroke of term 1; node2, leader of term 2, repairs its
    log: the first exchange is refused, the second succeeds. *)
Lemma follower_catches_up_witness :
  (exists k n' f', (1 <= k <= 2)%nat /\
    sync_rounds k "replica3:9003" (replica (after tr) "node2", replica (after tr) "node3") = (n', f') /\
    n_log n' = n_log (replica (after tr) "node2") /\ synced n' f' /\
    n_nextIndex n' !! "replica3:9003" = Some 2) /\
  Log.entries (n_log (snd (sync_rounds 2 "replica3:9003" (replica (after tr) "node2", replica (after tr) "node3")))) =
    [zeroEntry; mkLogEntry 1 1 stroke1].
Proof.
  split; [|vm_compute; reflexivity].
  edestruct (follower_catches_up trio (after tr) "node2" "replica3:9003"
               (replica (after tr) "node2") (replica (after tr) "node3") 2) as (k & n' & f' & Hk & H1 & H2 & H3 & H4).
  - exists tr, []. split; [by vm_compute|split; [vm_compute; reflexivity|reflexivity]].
  - vm_compute. reflexivity.
  - vm_compute. reflexivity.
  - vm_compute. reflexivity.
  - apply (list_elem_of_lookup_2 _ 1). vm_compute. reflexivity.
  - vm_compute. discriminate.
  - vm_compute. reflexivity.
  - exists k, n', f'. split_and!; [lia|exact (proj2 Hk)|exact H1|exact H2|exact H3|exact H4].
Defined.
End CatchUpWitness.
