(* ===== verification/Progress.v ===== *)
(** * Progress: a leader that a majority can follow can commit

    The safety theorems hold of a cluster that does nothing.  Here is what it
    can always do: from any reachable state, a leader with a majority of
    replicas of no later term can take a stroke and commit it, by exchanges of
    its own AppendEntries with those replicas, whatever messages are under
    way and however far the replicas' logs have diverged. *)

From Stdlib Require Import ZArith Lia.
From stdpp Require Import base list strings gmap option.
From S2P Require Import Prelude Types RaftLog Node Election Replication Handlers Cluster.
From S2P Require Import History Invariant Frame ElectionSteps ElectionEvents LeaderSteps FollowerSteps.
From S2P Require Import Safety Scenario Monotone Applier Agreement CatchUp.
Open Scope list_scope.
Open Scope Z_scope.

(** The events of an exchange. *)
Definition is_exchange (ev : event) : Prop :=
  match ev with EvSend _ _ | EvDeliver _ => True | _ => False end.

Section progress.
Context (D : Deployment) {WD : WellDeployed D}.

(** ** One exchange as three events *)

Definition exchange_trace (i p : string) (x : nat) : list event := [EvSend i p; EvDeliver x; EvDeliver (S x)].

Lemma run_step ev tr c c' : exec D ev c = Some c' -> run D (ev :: tr) c = run D tr c'.
Proof. intros He. change (run D (ev :: tr) c) with (c1 ← exec D ev c; run D tr c1). by rewrite He. Qed.

Lemma exchange_run k c h i p n f req f' resp :
  Inv D k c h -> c_nodes c !! i = Some n -> c_nodes c !! d_host D p = Some f -> d_host D p <> i ->
  p ∈ sendHeartbeats n -> sendAppendEntries_request n p = Some req -> HandleAppendEntries f req = (f', Ok resp) ->
  let n' := sendAppendEntries_response n p (areq_Term req) (areq_Entries req) (Some resp) in
  exists c', run D (exchange_trace i p (length (c_net c))) c = Some c' /\
    c_nodes c' = <[i := n']> (<[d_host D p := f']> (c_nodes c)) /\ c_elections c' = c_elections c /\ Inv D k c' h.
Proof.
  intros HI Hi Hf Hne Hp Hreq Hrun n'. set (x := length (c_net c)).
  set (c1 := post c [MAppendReq i p req]).
  set (c2 := post (put c1 (d_host D p) f') [MAppendResp i p req resp]).
  assert (exec D (EvSend i p) c = Some c1) as E1.
  { simpl. rewrite Hi. simpl. rewrite bool_decide_true by done. by rewrite Hreq. }
  assert (exec D (EvDeliver x) c1 = Some c2) as E2.
  { unfold exec. replace (c_net c1 !! x) with (Some (MAppendReq i p req)).
    - simpl. rewrite Hf. simpl. by rewrite Hrun.
    - simpl. by rewrite lookup_app_r, Nat.sub_diag by done. }
  assert (c_net c2 !! S x = Some (MAppendResp i p req resp)) as Hnet.
  { simpl. rewrite lookup_app_r by (rewrite length_app; simpl; lia). rewrite length_app. simpl.
    by replace (S x - (length (c_net c) + 1))%nat with 0%nat by lia. }
  assert (exec D (EvDeliver (S x)) c2 = Some (put c2 i n')) as E3.
  { unfold exec. rewrite Hnet. simpl. by rewrite lookup_insert_ne, Hi by done. }
  exists (put c2 i n'). split_and!.
  - unfold exchange_trace. by rewrite (run_step _ _ _ _ E1), (run_step _ _ _ _ E2), (run_step _ _ _ _ E3).
  - done.
  - done.
  - assert (p ∈ n_peers n) as Hpp by (unfold sendHeartbeats in Hp; case_bool_decide; [by apply elem_of_nil in Hp|done]).
    pose proof (send_keeps D k c h i p n req HI Hi Hpp Hreq) as HI1.
    destruct (append_request_keeps D k c1 h i p req f HI1) as (f1 & resp1 & Hr1 & HI2); [|done|].
    { simpl. apply elem_of_app. right. by constructor. }
    rewrite Hrun in Hr1. injection Hr1 as <- <-.
    apply (append_response_keeps D k c2 h i p req resp n HI2); [by eapply list_elem_of_lookup_2|].
    simpl. by rewrite lookup_insert_ne.
Qed.

(** ** What an exchange leaves of the leader *)

(** The leader after exchanges with the peers [ps]: it still leads with the
    same log, and of its maps only their entries have changed. *)
Record still_leads (ps : list string) (n n' : Node) : Prop := {
  sl_state : n_state n' = n_state n;
  sl_term : n_currentTerm n' = n_currentTerm n;
  sl_peers : n_peers n' = n_peers n;
  sl_log : n_log n' = n_log n;
  sl_match : forall q, q ∉ ps -> map_get (n_matchIndex n') q = map_get (n_matchIndex n) q;
  sl_next : forall q, q ∉ ps -> n_nextIndex n' !! q = n_nextIndex n !! q;
}.

Lemma still_leads_app ps1 ps2 n1 n2 n3 :
  still_leads ps1 n1 n2 -> still_leads ps2 n2 n3 -> still_leads (ps1 ++ ps2) n1 n3.
Proof.
  intros [] []. split; try congruence; intros q Hq; apply not_elem_of_app in Hq as [? ?].
  - by rewrite sl_match1, sl_match0.
  - by rewrite sl_next1, sl_next0.
Qed.

Lemma still_leads_dup p n n' : still_leads [p; p] n n' -> still_leads [p] n n'.
Proof. intros []. split; try done; intros q Hq; [apply sl_match0|apply sl_next0]; set_solver. Qed.

Lemma refused_leads p n ci : still_leads [p] n (set_nextIndex (<[p := ci]> (n_nextIndex n)) n).
Proof. split; simpl; try done. intros q Hq. rewrite lookup_insert_ne; [done|set_solver]. Qed.

(** A success with entries: the match index is the last of them, and the
    commit rule has been applied. *)
Lemma accepted_leads n p es ci :
  n_state n = Leader -> n_commitIndex n <= Log.LastIndex (n_log n) -> es <> [] ->
  let n' := sendAppendEntries_response n p (n_currentTerm n) es (Some (mkAppendEntriesResponse (n_currentTerm n) true ci)) in
  still_leads [p] n n' /\ map_get (n_matchIndex n') p = last_index_of es /\
  (committable n' (Log.LastIndex (n_log n)) -> Log.LastIndex (n_log n) <= n_commitIndex n').
Proof.
  intros Hs Hc Hne n'. unfold n', sendAppendEntries_response, stepDown. simpl.
  rewrite bool_decide_false by lia. rewrite (bool_decide_false (_ \/ _)) by (intros [?|?]; congruence).
  rewrite bool_decide_true by (destruct es; [done|unfold len; simpl; lia]).
  destruct (advanceCommitIndex_last (set_matchIndex (<[p:=last_index_of es]> (n_matchIndex n))
      (set_nextIndex (<[p:=last_index_of es + 1]> (n_nextIndex n)) n)) Hc) as (c & -> & Hcase & Hmax). simpl in *.
  split_and!.
  - split; simpl; try done; intros q Hq; [unfold map_get|]; rewrite lookup_insert_ne; set_solver.
  - unfold map_get. by rewrite lookup_insert_eq.
  - intros Hcm. destruct (decide (n_commitIndex n < Log.LastIndex (n_log n))).
    + apply Hmax; [lia|exact Hcm].
    + destruct Hcase as [->|[? _]]; lia.
Qed.

Lemma peer_not_self k c h i n p :
  Inv D k c h -> c_nodes c !! i = Some n -> p ∈ n_peers n -> d_host D p <> i.
Proof.
  intros HI Hi Hp. destruct (no_cfg _ _ _ _ _ _ _ (inv_nodes _ _ _ _ HI _ _ Hi)) as (cfg & Hcfg & Hpeers).
  rewrite Hpeers in Hp. pose proof (peer_host D _ _ _ Hcfg Hp). set_solver.
Qed.

(** ** Repairing one follower *)

(** A leader and a follower that can be repaired: the follower's next index is
    below the leader's last entry. *)
Record behind (k : Z) (c : Cluster) (h : Hist) (i : string) (n : Node) (p : string) (f : Node) (ni : Z) : Prop := {
  bh_inv : Inv D k c h;
  bh_leader : c_nodes c !! i = Some n;
  bh_follower : c_nodes c !! d_host D p = Some f;
  bh_state : n_state n = Leader;
  bh_peer : p ∈ n_peers n;
  bh_term : n_currentTerm f <= n_currentTerm n;
  bh_next : n_nextIndex n !! p = Some ni;
  bh_range : 1 <= ni < len (Log.entries (n_log n));
}.

(** A cluster in which only the leader and the follower have changed. *)
Definition moved (c c' : Cluster) (i j : string) (n f : Node) : Prop :=
  c_nodes c' = <[i := n]> (<[j := f]> (c_nodes c)).

Lemma moved_trans c1 c2 c3 i j n1 n2 f1 f2 :
  j <> i -> moved c1 c2 i j n1 f1 -> moved c2 c3 i j n2 f2 -> moved c1 c3 i j n2 f2.
Proof.
  unfold moved. intros Hne -> ->. apply map_eq. intros x. rewrite !lookup_insert. repeat case_decide; done.
Qed.

Lemma leader_sends n p : n_state n = Leader -> p ∈ n_peers n -> p ∈ sendHeartbeats n.
Proof. intros Hs Hp. unfold sendHeartbeats. by rewrite bool_decide_false by tauto. Qed.

Lemma exchange_refused k c h i n p f ni ci :
  behind k c h i n p f ni ->
  prev_check (Log.entries (n_log f)) (ni - 1) (Log.Term (n_log n) (ni - 1)) = Some ci ->
  let n1 := set_nextIndex (<[p := ci]> (n_nextIndex n)) n in
  exists c1 f1, run D (exchange_trace i p (length (c_net c))) c = Some c1 /\
    moved c c1 i (d_host D p) n1 f1 /\ behind k c1 h i n1 p f1 ci /\ ci < ni.
Proof.
  intros [HI Hi Hf Hs Hp HT Hni Hr] Hck n1.
  pose proof (cluster_pair_ok D _ _ _ _ _ _ _ HI Hi Hf Hs HT) as Hok.
  pose proof (peer_not_self _ _ _ _ _ _ HI Hi Hp) as Hne.
  assert (1 <= ni <= len (Log.entries (n_log n))) as Hr' by lia.
  destruct (round_refusal n f ni Hok Hr' ci Hck) as (Hci & f1 & Hrun & _ & _ & Hterm).
  destruct (exchange_run k c h i p n f _ f1 _ HI Hi Hf Hne (leader_sends n p Hs Hp) (round_request n f p ni Hok Hni Hr') Hrun)
    as (c1 & Hrun1 & Hn1 & _ & HI1).
  cbn [areq_Term areq_Entries] in Hn1. rewrite response_refused in Hn1 by (done || lia). fold n1 in Hn1.
  exists c1, f1. split_and!; [done|done| |lia]. split; simpl; try done; try lia.
  - rewrite Hn1. apply lookup_insert_eq.
  - rewrite Hn1, lookup_insert_ne by done. apply lookup_insert_eq.
  - apply lookup_insert_eq.
Qed.

(** What exchanges achieve: the follower holds the leader's log, the leader
    knows it and has applied the commit rule. *)
Record repaired (p : string) (n n' f' : Node) : Prop := {
  rp_leads : still_leads [p] n n';
  rp_synced : synced n f';
  rp_match : map_get (n_matchIndex n') p = Log.LastIndex (n_log n);
  rp_commit : committable n' (Log.LastIndex (n_log n)) -> Log.LastIndex (n_log n) <= n_commitIndex n';
}.

Lemma exchange_accepted k c h i n p f ni :
  behind k c h i n p f ni ->
  prev_check (Log.entries (n_log f)) (ni - 1) (Log.Term (n_log n) (ni - 1)) = None ->
  exists c1 n1 f1, run D (exchange_trace i p (length (c_net c))) c = Some c1 /\
    moved c c1 i (d_host D p) n1 f1 /\ Inv D k c1 h /\ repaired p n n1 f1.
Proof.
  intros [HI Hi Hf Hs Hp HT Hni Hr] Hck.
  pose proof (cluster_pair_ok D _ _ _ _ _ _ _ HI Hi Hf Hs HT) as Hok. pose proof Hok as [].
  pose proof (peer_not_self _ _ _ _ _ _ HI Hi Hp) as Hne.
  assert (1 <= ni <= len (Log.entries (n_log n))) as Hr' by lia.
  destruct (round_success n f ni Hok Hr' Hck) as (f1 & Hrun & Hsync & _).
  destruct (exchange_run k c h i p n f _ f1 _ HI Hi Hf Hne (leader_sends n p Hs Hp) (round_request n f p ni Hok Hni Hr') Hrun)
    as (c1 & Hrun1 & Hn1 & _ & HI1).
  cbn [areq_Term areq_Entries] in Hn1.
  assert (drop (Z.to_nat ni) (Log.entries (n_log n)) <> []) as Hes.
  { intros Hz%(f_equal length). rewrite length_drop in Hz. unfold len in *. simpl in Hz. lia. }
  destruct (accepted_leads n p _ 0 Hs pr_commit Hes) as (Hlead & Hmat & Hcm).
  eexists c1, _, f1. split_and!; [done|exact Hn1|done|]. split; [done|done| |done].
  rewrite Hmat, last_index_of_drop by (done || lia). done.
Qed.

Lemma repair p m : forall k c h i n f ni,
  behind k c h i n p f ni -> (Z.to_nat ni <= m)%nat ->
  exists tr c' n' f', run D tr c = Some c' /\ Forall is_exchange tr /\ (length tr <= 3 * m)%nat /\ Inv D k c' h /\
    moved c c' i (d_host D p) n' f' /\ repaired p n n' f'.
Proof.
  induction m as [|m IH]; intros k c h i n f ni Hb Hm; [destruct Hb; lia|].
  pose proof (peer_not_self _ _ _ _ _ _ (bh_inv _ _ _ _ _ _ _ _ Hb) (bh_leader _ _ _ _ _ _ _ _ Hb)
                (bh_peer _ _ _ _ _ _ _ _ Hb)) as Hne.
  assert (Forall is_exchange (exchange_trace i p (length (c_net c)))) as Hex by (by repeat constructor).
  destruct (prev_check (Log.entries (n_log f)) (ni - 1) (Log.Term (n_log n) (ni - 1))) as [ci|] eqn:Hck.
  - destruct (exchange_refused k c h i n p f ni ci Hb Hck) as (c1 & f1 & Hrun1 & Hmv1 & Hb1 & Hci).
    destruct (IH _ _ _ _ _ _ _ Hb1) as (tr & c' & n' & f' & Hrun2 & Hex2 & Hlen & HI2 & Hmv2 & [Hl ? ? ?]).
    { destruct Hb1. lia. }
    exists (exchange_trace i p (length (c_net c)) ++ tr), c', n', f'. split_and!.
    + rewrite run_app, Hrun1. exact Hrun2.
    + by apply Forall_app.
    + rewrite length_app. simpl. lia.
    + done.
    + by eapply moved_trans.
    + split; try done. apply still_leads_dup. eapply (still_leads_app [p] [p]); [apply refused_leads|done].
  - destruct (exchange_accepted k c h i n p f ni Hb Hck) as (c1 & n1 & f1 & ? & ? & ? & ?).
    exists (exchange_trace i p (length (c_net c))), c1, n1, f1. split_and!; try done. simpl. lia.
Qed.

(** ** Repairing a set of followers *)

Lemma host_inj k c h i n p q :
  Inv D k c h -> c_nodes c !! i = Some n -> p ∈ n_peers n -> q ∈ n_peers n -> d_host D p = d_host D q -> p = q.
Proof.
  intros HI Hi Hp Hq Heq. destruct (no_cfg _ _ _ _ _ _ _ (inv_nodes _ _ _ _ HI _ _ Hi)) as (cfg & Hcfg & Hpeers).
  pose proof (wd_nodup _ _ Hcfg) as Hnd. rewrite Hpeers in *.
  apply list_elem_of_lookup in Hp as [x Hx]. apply list_elem_of_lookup in Hq as [y Hy].
  assert (x = y) as ->; [|congruence]. eapply NoDup_lookup; [exact Hnd| |].
  - by rewrite list_lookup_fmap, Hx.
  - rewrite list_lookup_fmap, Hy. simpl. by rewrite Heq.
Qed.

(** What exchanges with all of [ps] achieve, from [c] to [c']. *)
Record all_repaired (ps : list string) (c c' : Cluster) (i : string) (n n' : Node) : Prop := {
  ar_leads : still_leads ps n n';
  ar_others : forall j, j <> i -> (forall p, p ∈ ps -> d_host D p <> j) -> c_nodes c' !! j = c_nodes c !! j;
  ar_match : forall p, p ∈ ps -> map_get (n_matchIndex n') p = Log.LastIndex (n_log n);
  ar_synced : forall p, p ∈ ps -> exists f', c_nodes c' !! d_host D p = Some f' /\ synced n f';
  ar_idle : ps = [] -> n' = n;
  ar_commit : ps <> [] -> committable n' (Log.LastIndex (n_log n)) -> Log.LastIndex (n_log n) <= n_commitIndex n';
}.

(** Repairing one more follower first. *)
Lemma all_repaired_cons p ps c c1 c' i n n1 n' f1 :
  moved c c1 i (d_host D p) n1 f1 -> d_host D p <> i -> p ∉ ps ->
  (forall q, q ∈ ps -> d_host D q <> d_host D p) ->
  repaired p n n1 f1 -> all_repaired ps c1 c' i n1 n' -> all_repaired (p :: ps) c c' i n n'.
Proof.
  intros Hmv Hne Hnotin Hhost [Hl Hs Hm Hc] [Hl2 Ho Hm2 Hs2 Hi2 Hc2]. pose proof (sl_log _ _ _ Hl) as Hlog.
  unfold moved in Hmv. rewrite Hlog in Hm2, Hc2. split.
  - by eapply (still_leads_app [p] ps).
  - intros j Hj Hps. rewrite Ho, Hmv; [| done | intros q Hq; apply Hps; by right].
    rewrite lookup_insert_ne by done. rewrite lookup_insert_ne; [done|]. apply Hps. by left.
  - intros q [->|Hq]%elem_of_cons; [|by apply Hm2]. by rewrite (sl_match _ _ _ Hl2).
  - intros q [->|Hq]%elem_of_cons.
    + exists f1. split; [|done]. rewrite Ho, Hmv by done. rewrite lookup_insert_ne by done. apply lookup_insert_eq.
    + destruct (Hs2 q Hq) as (f' & ? & Hy). exists f'. split; [done|]. unfold synced in *. by rewrite Hlog in Hy.
  - done.
  - intros _ Hcm. destruct (decide (ps = [])) as [Hz|]; [|by apply Hc2].
    rewrite (Hi2 Hz) in *. by apply Hc.
Qed.

Lemma repair_all ps : forall k c h i n,
  Inv D k c h -> c_nodes c !! i = Some n -> n_state n = Leader -> NoDup ps ->
  (forall p, p ∈ ps -> exists f ni, behind k c h i n p f ni) ->
  exists tr c' n', run D tr c = Some c' /\ Forall is_exchange tr /\
    (length tr <= 3 * (length ps * length (Log.entries (n_log n))))%nat /\
    Inv D k c' h /\ c_nodes c' !! i = Some n' /\ all_repaired ps c c' i n n'.
Proof.
  induction ps as [|p ps IH]; intros k c h i n HI Hi Hs Hnd Hps.
  { exists [], c, n. split_and!; try done. split; try done; by intros ? ?%elem_of_nil. }
  apply list.NoDup_cons in Hnd as [Hnotin Hnd]. destruct (Hps p) as (f & ni & Hb); [by left|]. pose proof Hb as [].
  destruct (repair p (Z.to_nat ni) k c h i n f ni Hb ltac:(done)) as (tr1 & c1 & n1 & f1 & Hr1 & Hx1 & Hlen1 & HI1 & Hmv & Hrep).
  pose proof (peer_not_self _ _ _ _ _ _ HI Hi bh_peer0) as Hne. pose proof (rp_leads _ _ _ _ Hrep) as [].
  assert (forall q, q ∈ ps -> q ∈ n_peers n /\ d_host D q <> d_host D p) as Hhost.
  { intros q Hq. destruct (Hps q) as (fq & nq & []); [by right|]. split; [done|]. intros Heq.
    assert (q = p) as -> by (by eapply (host_inj k c h i n)). done. }
  assert (c_nodes c1 !! i = Some n1) as Hi1 by (rewrite Hmv; apply lookup_insert_eq).
  destruct (IH k c1 h i n1 HI1 Hi1) as (tr2 & c2 & n2 & Hr2 & Hx2 & Hlen2 & HI2 & Hi2 & Hall); [congruence|done| |].
  { intros q Hq. destruct (Hps q) as (fq & nq & []); [by right|]. destruct (Hhost q Hq) as [Hqp Hqh].
    exists fq, nq. split; try congruence.
    - rewrite Hmv, !lookup_insert_ne by (done || by eapply not_eq_sym, peer_not_self). done.
    - rewrite sl_next0; [done|]. set_solver.
  }
  exists (tr1 ++ tr2), c2, n2. split_and!; try done.
  - by rewrite run_app, Hr1.
  - by apply Forall_app.
  - rewrite length_app. rewrite sl_log0 in Hlen2. unfold len in *. simpl. lia.
  - eapply all_repaired_cons; try done. intros q Hq. by apply Hhost.
Qed.

(** ** Committing a stroke *)

(** An entry of the leader's own term that a majority is known to hold. *)
Lemma majority_committable n ps idx :
  NoDup ps -> (forall p, p ∈ ps -> p ∈ n_peers n /\ idx <= map_get (n_matchIndex n) p) ->
  majority (n_peers n) <= 1 + len ps -> Log.Term (n_log n) idx = n_currentTerm n -> committable n idx.
Proof.
  intros Hnd Hps Hmaj HT. split; [done|]. rewrite replicaCount_matched.
  assert (length ps <= length (matched n idx))%nat; [|unfold len in *; lia].
  apply submseteq_length, NoDup_submseteq; [done|]. intros p Hp. unfold matched.
  apply list_elem_of_filter. by destruct (Hps p Hp).
Qed.

Lemma full_prefix n : n_commitIndex n = Log.LastIndex (n_log n) -> committed_prefix n = Log.entries (n_log n).
Proof. intros Hc. unfold committed_prefix. rewrite Hc. unfold Log.LastIndex, len. apply take_ge. lia. Qed.

Lemma synced_holds n f :
  Log.wf (Log.entries (n_log n)) -> synced n f -> Log.entries (n_log n) `prefix_of` Log.entries (n_log f).
Proof.
  intros Hwf%Log.wf_length Hs. unfold synced, agree_upto in Hs.
  rewrite <- (take_ge (Log.entries (n_log n)) (S (Z.to_nat (Log.LastIndex (n_log n))))), <- Hs; [apply prefix_take|].
  unfold Log.LastIndex, len. lia.
Qed.

(** A majority is more than the leader alone. *)
Lemma majority_others k c h i n (ps : list string) :
  Inv D k c h -> c_nodes c !! i = Some n -> majority (n_peers n) <= 1 + len ps -> ps <> [].
Proof.
  intros HI Hi Hmaj ->. destruct (no_cfg _ _ _ _ _ _ _ (inv_nodes _ _ _ _ HI _ _ Hi)) as (cfg & Hcfg & Hpeers).
  pose proof (wd_valid _ _ Hcfg) as Hv. unfold Validate in Hv. rewrite Hpeers in Hmaj.
  destruct (cfg_PeerAddrs cfg) as [|p l].
  - case_bool_decide; [done|]. simpl in Hv. done.
  - unfold majority, len in Hmaj. simpl in Hmaj. assert (1 <= (Z.of_nat (S (length l)) + 1) / 2); [|lia].
    apply Z.div_le_lower_bound; lia.
Qed.

Lemma Term_snoc l l' e :
  Log.entries l' = Log.entries l ++ [e] -> Log.Term l' (Log.LastIndex l + 1) = le_Term e.
Proof.
  intros Hl. unfold Log.LastIndex. rewrite Log.Term_term_at by (unfold len; lia). apply Log.term_at_Some.
  rewrite Hl, lookup_app_r by (unfold len; lia).
  by replace (Z.to_nat (len (Log.entries l) - 1 + 1) - length (Log.entries l))%nat with 0%nat by (unfold len; lia).
Qed.

(** The stroke appended, every follower in [ps] is behind. *)
Lemma stroke_behind k c h h1 i n s (ps : list string) :
  Inv D k c h -> c_nodes c !! i = Some n -> n_state n = Leader ->
  let n1 := fst (HandleStroke n s) in Inv D k (put c i n1) h1 ->
  (forall p, p ∈ ps -> p ∈ n_peers n /\ exists f, c_nodes c !! d_host D p = Some f /\ n_currentTerm f <= n_currentTerm n) ->
  forall p, p ∈ ps -> exists f ni, behind k (put c i n1) h1 i n1 p f ni.
Proof.
  intros HI Hi Hs n1 HI1 Hps p Hp. destruct (Hps p Hp) as (Hpp & f & Hf & HT).
  destruct (no_leader _ _ _ _ _ _ _ (inv_nodes _ _ _ _ HI _ _ Hi) Hs) as (_ & Hmaps).
  destruct (Hmaps p Hpp) as (ni & mi & Hni & _ & [Hr _ _]). exists f, ni.
  assert (HandleStroke n s = (n1, None)) as Hn1 by (unfold n1, HandleStroke; by rewrite bool_decide_false by tauto).
  unfold HandleStroke in Hn1. rewrite bool_decide_false in Hn1 by tauto. injection Hn1 as Hn1.
  clearbody n1. subst n1. split; simpl in *; try done.
  - apply put_lookup.
  - rewrite lookup_insert_ne; [done|]. by apply not_eq_sym, (peer_not_self k c h i n).
  - rewrite len_app. unfold len in *. simpl. lia.
Qed.

Lemma commit_from k c h i n s ps :
  Inv D k c h -> c_nodes c !! i = Some n -> n_state n = Leader ->
  NoDup ps -> majority (n_peers n) <= 1 + len ps ->
  (forall p, p ∈ ps -> p ∈ n_peers n /\ exists f, c_nodes c !! d_host D p = Some f /\ n_currentTerm f <= n_currentTerm n) ->
  exists tr2 c2 n2, run D (EvStroke i s :: tr2) c = Some c2 /\ Forall is_exchange tr2 /\
    (length tr2 <= 3 * (length ps * S (length (Log.entries (n_log n)))))%nat /\
    c_nodes c2 !! i = Some n2 /\ n_state n2 = Leader /\ n_currentTerm n2 = n_currentTerm n /\
    committed_prefix n2 =
      Log.entries (n_log n) ++ [mkLogEntry (Log.LastIndex (n_log n) + 1) (n_currentTerm n) s] /\
    forall p, p ∈ ps -> exists f2, c_nodes c2 !! d_host D p = Some f2 /\
      committed_prefix n2 `prefix_of` Log.entries (n_log f2).
Proof.
  intros HI Hi Hs Hnd Hmaj Hps.
  destruct (HandleStroke_keeps D k c h i n s HI Hi) as (h1 & _ & HI1).
  pose proof (HandleStroke_spec n s) as Hspec. pose proof (stroke_behind k c h h1 i n s ps HI Hi Hs HI1 Hps) as Hb.
  assert (exec D (EvStroke i s) c = Some (put c i (fst (HandleStroke n s)))) as He by (simpl; by rewrite Hi).
  assert (n_state (fst (HandleStroke n s)) = Leader /\ n_peers (fst (HandleStroke n s)) = n_peers n) as [Hs1 Hp1].
  { unfold HandleStroke. by rewrite bool_decide_false by tauto. }
  destruct (HandleStroke n s) as [n1 err]. cbn [fst snd] in *. destruct Hspec as [_ Hspec].
  destruct (Hspec Hs) as (_ & Hlog & _ & _ & Hc1 & HT1).
  destruct (repair_all ps k (put c i n1) h1 i n1 HI1 (put_lookup _ _ _) Hs1 Hnd Hb)
    as (tr2 & c2 & n2 & Hrun2 & Hex & Hlen & HI2 & Hi2 & [[] _ Hmat Hsync _ Hcommit]).
  pose proof (inv_nodes _ _ _ _ HI2 _ _ Hi2) as Hn2. pose proof (no_commit _ _ _ _ _ _ _ Hn2) as Hr2.
  assert (Log.LastIndex (n_log n1) = Log.LastIndex (n_log n) + 1) as Hlast.
  { unfold Log.LastIndex. rewrite Hlog, len_app. unfold len. simpl. lia. }
  assert (committable n2 (Log.LastIndex (n_log n1))) as Hcm.
  { apply (majority_committable n2 ps); [done| |congruence|].
    - intros p Hp. rewrite sl_peers0, Hp1, Hmat by done. split; [by apply Hps|done].
    - rewrite sl_log0, sl_term0, HT1, Hlast. by apply (Term_snoc _ _ _ Hlog). }
  apply Hcommit in Hcm; [|by apply (majority_others k c h i n)].
  assert (committed_prefix n2 = Log.entries (n_log n1)) as Hfull.
  { rewrite full_prefix; [congruence|]. rewrite sl_log0 in *. unfold Log.LastIndex in *. lia. }
  exists tr2, c2, n2. rewrite Hfull. split_and!; try congruence.
  - by rewrite (run_step _ _ _ _ He).
  - rewrite Hlog, length_app in Hlen. simpl in Hlen. lia.
  - intros p Hp. destruct (Hsync p Hp) as (f2 & Hf2 & Hsy). exists f2. split; [done|].
    apply synced_holds; [|done]. rewrite <- sl_log0. apply Hn2.
Qed.
(** C8: (progress) from any reachable state, a leader with a majority of
    replicas of no later term can commit a stroke it is given: some sequence
    of its own AppendEntries exchanges, no longer than three events per
    follower and log entry, makes its whole log with the stroke committed, and
    puts it on every follower of the majority. *)
Theorem commit_possible tr c i n s ps :
  short tr -> run D tr (init D) = Some c -> c_nodes c !! i = Some n -> n_state n = Leader ->
  NoDup ps -> majority (n_peers n) <= 1 + len ps ->
  (forall p, p ∈ ps -> p ∈ n_peers n /\ exists f, c_nodes c !! d_host D p = Some f /\ n_currentTerm f <= n_currentTerm n) ->
  exists tr2 c2 n2, run D (EvStroke i s :: tr2) c = Some c2 /\ Forall is_exchange tr2 /\
    (length tr2 <= 3 * (length ps * S (length (Log.entries (n_log n)))))%nat /\
    c_nodes c2 !! i = Some n2 /\ n_state n2 = Leader /\ n_currentTerm n2 = n_currentTerm n /\
    committed_prefix n2 =
      Log.entries (n_log n) ++ [mkLogEntry (Log.LastIndex (n_log n) + 1) (n_currentTerm n) s] /\
    forall p, p ∈ ps -> exists f2, c_nodes c2 !! d_host D p = Some f2 /\
      committed_prefix n2 `prefix_of` Log.entries (n_log f2).
Proof.
  intros Hshort Hrun. destruct (reach_one D tr c Hshort Hrun) as (k & h & HI). by apply (commit_from k c h).
Qed.
End progress.

Module ProgressWitness.
Open Scope string_scope.

(** node1 leads with node2's vote; node3 has never answered.  The two of them
    can commit a stroke. *)
Lemma commit_possible_witness :
  exists tr2 c2 n2, run trio (EvStroke "node1" stroke2 :: tr2) (after elect) = Some c2 /\
    c_nodes c2 !! "node1" = Some n2 /\ committed_prefix n2 = [zeroEntry; mkLogEntry 1 1 stroke2].
Proof.
  destruct (commit_possible trio elect (after elect) "node1" (replica (after elect) "node1") stroke2 ["replica3:9003"])
    as (tr2 & c2 & n2 & Hr & _ & _ & Hn & _ & _ & Hc & _).
  - by vm_compute.
  - vm_compute. reflexivity.
  - vm_compute. reflexivity.
  - vm_compute. reflexivity.
  - apply NoDup_singleton.
  - vm_compute. discriminate.
  - intros p ->%list_elem_of_singleton. split.
    + apply (list_elem_of_lookup_2 _ 1). vm_compute. reflexivity.
    + exists (replica (after elect) "node3"). split; [vm_compute; reflexivity|vm_compute; discriminate].
  - exists tr2, c2, n2. split_and!; [exact Hr|exact Hn|]. rewrite Hc. vm_compute. reflexivity.
Defined.
End ProgressWitness.
