(* ===== verification/Availability.v ===== *)
(** * Availability: a majority without a leader can elect one and commit

    Progress starts from a leader.  Here a replica times out, a majority whose
    logs are no more up to date than its own grants it their votes - whatever
    the others do, and whatever else is in flight - and the new leader commits
    a stroke. *)

From Stdlib Require Import ZArith Lia.
From stdpp Require Import base list strings gmap option.
From S2P Require Import Prelude Types RaftLog Node Election Replication Handlers Cluster.
From S2P Require Import History Invariant Frame ElectionSteps ElectionEvents.
From S2P Require Import Safety Scenario Monotone Applier Agreement CatchUp Progress.
Open Scope list_scope.
Open Scope Z_scope.

Section availability.
Context (D : Deployment) {WD : WellDeployed D}.

(** ** Gathering votes *)

(** An election of [i] under way: the candidate, and the peers still to answer. *)
Record electing (c : Cluster) (i : string) (n : Node) (v : int) (req : VoteRequest) (pend : list string) : Prop := {
  el_node : c_nodes c !! i = Some n;
  el_state : n_state n = Candidate;
  el_term : n_currentTerm n = vreq_Term req;
  el_run : c_elections c !! i = Some (mkElectionRun (vreq_Term req) v pend);
  el_hosts : NoDup (map (d_host D) pend);
  el_others : forall p, p ∈ pend -> d_host D p <> i;
  el_sent : forall p, p ∈ pend -> MVoteReq i p req ∈ c_net c;
}.

Lemma pending_tail c i n v req p pend :
  electing c i n v req (p :: pend) -> NoDup (map (d_host D) pend) /\
  forall q, q ∈ pend -> d_host D q <> d_host D p.
Proof.
  intros []. simpl in *. apply list.NoDup_cons in el_hosts0 as [Hnot Hnd]. split; [done|].
  intros q Hq Heq. apply Hnot. rewrite <- Heq. by apply list_elem_of_fmap_2.
Qed.

(** A peer that does not answer. *)
Lemma vote_missing c i n v req p pend :
  electing c i n v req (p :: pend) -> exists c', exec D (EvVoteFail i p) c = Some c' /\
    electing c' i n v req pend /\ forall j, j <> i -> c_nodes c' !! j = c_nodes c !! j.
Proof.
  intros He. destruct (pending_tail _ _ _ _ _ _ _ He) as [Hnd _]. destruct He. eexists. split.
  { simpl. rewrite el_node0. simpl. rewrite el_run0. simpl. rewrite bool_decide_true by (by left).
    by rewrite bool_decide_true. }
  split.
  - split; simpl; try done.
    + apply lookup_insert_eq.
    + by rewrite lookup_partial_alter_eq.
    + intros q Hq. apply el_others0. by right.
    + intros q Hq. apply el_sent0. by right.
  - intros j Hj. simpl. by rewrite lookup_insert_ne.
Qed.

(** A peer that grants its vote. *)
Lemma vote_granted c i n v req p pend f :
  electing c i n v req (p :: pend) -> c_nodes c !! d_host D p = Some f -> may_grant f req = true ->
  exists x c' f', run D [EvDeliver x; EvDeliver (length (c_net c))] c = Some c' /\
    electing c' i n (v + 1) req pend /\ c_nodes c' !! d_host D p = Some f' /\
    n_currentTerm f' = Z.max (n_currentTerm f) (vreq_Term req) /\
    forall j, j <> i -> j <> d_host D p -> c_nodes c' !! j = c_nodes c !! j.
Proof.
  intros He Hf Hg. destruct (pending_tail _ _ _ _ _ _ _ He) as [Hnd _]. destruct He.
  assert (d_host D p <> i) as Hne by (apply el_others0; by left).
  destruct (proj1 (list_elem_of_lookup _ _) (el_sent0 p ltac:(by left))) as [x Hx].
  pose proof (HandleVoteRequest_outcome f req) as (Hgr & HT & Hterm & _). rewrite Hg in Hgr, HT.
  destruct (HandleVoteRequest f req) as [f' resp] eqn:Hrun. simpl in Hgr, HT, Hterm.
  set (c1 := post (put c (d_host D p) f') [MVoteResp i p req resp]).
  assert (exec D (EvDeliver x) c = Some c1) as E1.
  { unfold exec. rewrite Hx. simpl. rewrite Hf. simpl. by rewrite Hrun. }
  assert (c_net c1 !! length (c_net c) = Some (MVoteResp i p req resp)) as Hnet.
  { simpl. by rewrite lookup_app_r, Nat.sub_diag by done. }
  set (c2 := set_election (put c1 i n) i (Some (mkElectionRun (vreq_Term req) (v + 1) pend))).
  assert (exec D (EvDeliver (length (c_net c))) c1 = Some c2) as E2.
  { unfold exec. rewrite Hnet. simpl. rewrite lookup_insert_ne, el_node0 by done. simpl. rewrite el_run0. simpl.
    rewrite (bool_decide_true (_ /\ _)) by (split; [done|by left]). rewrite HT, el_term0.
    rewrite (bool_decide_false (vreq_Term req < vreq_Term req)) by lia.
    rewrite (bool_decide_false (_ \/ _)) by (intros [?|?]; congruence). rewrite Hgr.
    by rewrite (bool_decide_true (p = p)). }
  exists x, c2, f'. split_and!.
  - by rewrite (run_step _ _ _ _ _ E1), (run_step _ _ _ _ _ E2).
  - split; simpl; try done.
    + apply lookup_insert_eq.
    + by rewrite lookup_partial_alter_eq.
    + intros q Hq. apply el_others0. by right.
    + intros q Hq. apply elem_of_app. left. apply el_sent0. by right.
  - simpl. rewrite lookup_insert_ne by done. apply lookup_insert_eq.
  - done.
  - intros j Hj Hjp. simpl. by rewrite !lookup_insert_ne.
Qed.

(** The votes of [ps], the other peers not answering. *)
Record voted (ps pend : list string) (c c' : Cluster) (i : string) (T : int) : Prop := {
  vt_others : forall j, j <> i -> (forall q, q ∈ pend -> d_host D q <> j) -> c_nodes c' !! j = c_nodes c !! j;
  vt_terms : forall p, p ∈ pend -> p ∈ ps -> exists f', c_nodes c' !! d_host D p = Some f' /\ n_currentTerm f' <= T;
}.

Definition can_grant (c : Cluster) (req : VoteRequest) (p : string) : Prop :=
  exists f, c_nodes c !! d_host D p = Some f /\ may_grant f req = true.

Lemma may_grant_term f req : may_grant f req = true -> n_currentTerm f <= vreq_Term req.
Proof. unfold may_grant. by intros [[?%bool_decide_eq_true _]%andb_true_iff _]%andb_true_iff. Qed.

Lemma voted_missing p (ps pend : list string) c c1 c' i T :
  p ∉ ps -> (forall j, j <> i -> c_nodes c1 !! j = c_nodes c !! j) ->
  voted ps pend c1 c' i T -> voted ps (p :: pend) c c' i T.
Proof.
  intros Hp Hsame [Ho Ht]. split.
  - intros j Hj Hq. rewrite Ho; [by apply Hsame|done|]. intros q ?. apply Hq. by right.
  - intros q [->|Hq]%elem_of_cons Hqs; [done|by apply Ht].
Qed.

Lemma voted_granted p (ps pend : list string) c c1 c' i T f1 :
  d_host D p <> i -> (forall q, q ∈ pend -> d_host D q <> d_host D p) ->
  c_nodes c1 !! d_host D p = Some f1 -> n_currentTerm f1 <= T ->
  (forall j, j <> i -> j <> d_host D p -> c_nodes c1 !! j = c_nodes c !! j) ->
  voted ps pend c1 c' i T -> voted ps (p :: pend) c c' i T.
Proof.
  intros Hpi Hhost Hf1 HT Hsame [Ho Ht]. split.
  - intros j Hj Hq. rewrite Ho; [|done|intros q ?; apply Hq; by right]. apply Hsame; [done|].
    apply not_eq_sym, Hq. by left.
  - intros q [->|Hq]%elem_of_cons Hqs; [|by apply Ht]. exists f1. by rewrite Ho.
Qed.

Lemma gather_votes (ps pend : list string) : forall c i n v req,
  electing c i n v req pend -> (forall p, p ∈ pend -> p ∈ ps -> can_grant c req p) ->
  exists tr c', run D tr c = Some c' /\ (length tr <= 2 * length pend)%nat /\
    electing c' i n (v + len (filter (fun p => p ∈ ps) pend)) req [] /\ voted ps pend c c' i (vreq_Term req).
Proof.
  induction pend as [|p pend IH]; intros c i n v req He Hps.
  { exists [], c. split_and!; [done|simpl; lia|by rewrite Z.add_0_r|]. split; [done|]. by intros ? ?%elem_of_nil. }
  destruct (pending_tail _ _ _ _ _ _ _ He) as [_ Hhost].
  assert (forall q, q ∈ p :: pend -> d_host D q <> i) as Hoth by apply He.
  rewrite filter_cons. destruct (decide (p ∈ ps)) as [Hp|Hp].
  - destruct (Hps p) as (f & Hf & Hg); [by left|done|].
    destruct (vote_granted c i n v req p pend f He Hf Hg) as (x & c1 & f1 & Hr1 & He1 & Hf1 & HT1 & Hsame).
    destruct (IH c1 i n (v + 1) req He1) as (tr & c2 & Hr2 & Hlen & He2 & Hv).
    { intros q Hq Hqs. unfold can_grant. rewrite Hsame; [apply Hps; [by right|done]|apply Hoth; by right|by apply Hhost]. }
    exists ([EvDeliver x; EvDeliver (length (c_net c))] ++ tr), c2. split_and!.
    + by rewrite run_app, Hr1.
    + simpl. lia.
    + unfold len in *. simpl. by rewrite Nat2Z.inj_succ, <- Z.add_1_l, Z.add_assoc.
    + apply may_grant_term in Hg. eapply (voted_granted p ps pend c c1 c2 i _ f1); try done; [apply Hoth; by left|lia].
  - destruct (vote_missing c i n v req p pend He) as (c1 & Hr1 & He1 & Hsame).
    destruct (IH c1 i n v req He1) as (tr & c2 & Hr2 & Hlen & He2 & Hv).
    { intros q Hq Hqs. unfold can_grant. rewrite Hsame; [apply Hps; [by right|done]|apply Hoth; by right]. }
    exists (EvVoteFail i p :: tr), c2. split_and!; [by rewrite (run_step _ _ _ _ _ Hr1)|simpl; lia|done|].
    by apply (voted_missing p ps pend c c1).
Qed.

(** ** Election *)

(** The timer fires: every peer is asked. *)
Lemma timeout_electing k c h i n :
  Inv D k c h -> k < MaxInt64 -> c_nodes c !! i = Some n -> n_state n <> Leader -> c_elections c !! i = None ->
  let req := snd (startElection_begin n) in
  exists c1 n1, exec D (EvTimeout i) c = Some c1 /\ electing c1 i n1 1 req (n_peers n) /\
    vreq_Term req = n_currentTerm n + 1 /\ n_log n1 = n_log n /\ n_peers n1 = n_peers n /\
    forall j, j <> i -> c_nodes c1 !! j = c_nodes c !! j.
Proof.
  intros HI Hk Hi Hs Hel req. pose proof (inv_nodes _ _ _ _ HI _ _ Hi) as Hn.
  destruct (no_cfg _ _ _ _ _ _ _ Hn) as (cfg & Hcfg & Hpeers).
  pose proof (becomeCandidate_core k n (no_term _ _ _ _ _ _ _ Hn) Hk) as HT.
  exists (post (set_election (put c i (fst (startElection_begin n))) i (Some (mkElectionRun (vreq_Term req) 1 (n_peers n))))
            (map (fun p => MVoteReq i p req) (n_peers n))), (fst (startElection_begin n)).
  split_and!; try done.
  - cbn [exec]. rewrite Hi. cbn [mbind option_bind]. rewrite Hel. unfold runElectionTimer.
    rewrite bool_decide_false by done. reflexivity.
  - split; try done.
    + apply lookup_insert_eq.
    + simpl. by rewrite lookup_partial_alter_eq.
    + rewrite Hpeers. by eapply wd_nodup.
    + intros p Hp. by eapply peer_not_self.
    + intros p Hp. apply elem_of_app. right. by apply (list_elem_of_fmap_2 (fun p => MVoteReq i p req)).
  - intros j Hj. simpl. by rewrite lookup_insert_ne.
Qed.

(** The tally: with a majority the candidate leads. *)
Lemma tally c i n v req :
  electing c i n v req [] -> majority (n_peers n) <= v ->
  exists c', exec D (EvElectionEnd i) c = Some c' /\ c_nodes c' !! i = Some (becomeLeader n) /\
    forall j, j <> i -> c_nodes c' !! j = c_nodes c !! j.
Proof.
  intros [] Hm. eexists. split_and!.
  - cbn [exec]. rewrite el_node0. cbn [mbind option_bind]. rewrite el_run0. cbn [mbind option_bind er_pending er_term er_votes].
    rewrite bool_decide_true by done. unfold startElection_finish.
    rewrite bool_decide_false by (intros [?|?]; congruence). by rewrite bool_decide_true.
  - apply lookup_insert_eq.
  - intros j Hj. simpl. by rewrite lookup_insert_ne.
Qed.

Lemma votes_counted (ps peers : list string) :
  NoDup ps -> (forall p, p ∈ ps -> p ∈ peers) -> len ps <= len (filter (fun p => p ∈ ps) peers).
Proof.
  intros Hnd Hps. assert (length ps <= length (filter (fun p => p ∈ ps) peers))%nat; [|unfold len; lia].
  apply submseteq_length, NoDup_submseteq; [done|]. intros p Hp. apply list_elem_of_filter. auto.
Qed.

Lemma becomeLeader_fields n :
  n_state (becomeLeader n) = Leader /\ n_currentTerm (becomeLeader n) = n_currentTerm n /\
  n_log (becomeLeader n) = n_log n /\ n_peers (becomeLeader n) = n_peers n.
Proof.
  pose proof (init_indexes_fields (Log.LastIndex (n_log n)) (n_peers n) (set_leaderID (n_id n) (set_state Leader n)))
    as (_ & ? & ? & _ & ? & ? & _). by split_and!.
Qed.

Lemma elect_from k c h i n (ps : list string) :
  Inv D k c h -> k < MaxInt64 -> c_nodes c !! i = Some n -> n_state n <> Leader -> c_elections c !! i = None ->
  NoDup ps -> majority (n_peers n) <= 1 + len ps ->
  (forall p, p ∈ ps -> p ∈ n_peers n /\ can_grant c (snd (startElection_begin n)) p) ->
  exists tr c' n', run D tr c = Some c' /\ (length tr <= 2 + 2 * length (n_peers n))%nat /\
    c_nodes c' !! i = Some n' /\ n_state n' = Leader /\ n_currentTerm n' = n_currentTerm n + 1 /\
    n_log n' = n_log n /\ n_peers n' = n_peers n /\
    forall p, p ∈ ps -> exists f, c_nodes c' !! d_host D p = Some f /\ n_currentTerm f <= n_currentTerm n'.
Proof.
  intros HI Hk Hi Hs Hel Hnd Hmaj Hps.
  destruct (timeout_electing k c h i n HI Hk Hi Hs Hel) as (c1 & n1 & E1 & He1 & HT & Hlog & Hp1 & Hsame1).
  set (req := snd (startElection_begin n)) in *.
  assert (forall p, p ∈ n_peers n -> d_host D p <> i) as Hoth by apply He1.
  destruct (gather_votes ps (n_peers n) c1 i n1 1 req He1) as (tr & c2 & Hr & Hlen & He2 & [_ Hv]).
  { intros p Hp Hpps. unfold can_grant. rewrite Hsame1 by auto. by apply Hps. }
  destruct (tally c2 i n1 _ req He2) as (c3 & E3 & Hi3 & Hsame3).
  { rewrite Hp1. pose proof (votes_counted ps (n_peers n) Hnd ltac:(intros; by apply Hps)). lia. }
  destruct (becomeLeader_fields n1) as (Fs & Ft & Fl & Fp). rewrite (el_term _ _ _ _ _ _ He1) in Ft.
  exists (EvTimeout i :: tr ++ [EvElectionEnd i]), c3, (becomeLeader n1). split_and!.
  - rewrite (run_step _ _ _ _ _ E1), run_app, Hr. simpl in E3 |- *. by rewrite E3.
  - simpl. rewrite length_app. simpl. lia.
  - done.
  - done.
  - congruence.
  - congruence.
  - congruence.
  - intros p Hp. destruct (Hps p Hp) as [Hpp _]. destruct (Hv p Hpp Hp) as (f & Hf & Hle).
    exists f. rewrite Hsame3 by auto. split; [done|]. by rewrite Ft.
Qed.

(** (availability) from any reachable state, a replica that does not lead
    and has no election under way, with a majority whose logs and votes let
    them grant its next request, can be elected in the next term and commit a
    stroke there: some sequence of events, of bounded length and whatever else
    is in flight, commits its whole log with the stroke and puts it on every
    member of the majority. *)
Theorem availability tr c i n s (ps : list string) :
  Z.of_nat (length tr + (2 + 2 * length (n_peers n))) <= MaxInt64 ->
  run D tr (init D) = Some c -> c_nodes c !! i = Some n -> n_state n <> Leader -> c_elections c !! i = None ->
  NoDup ps -> majority (n_peers n) <= 1 + len ps ->
  (forall p, p ∈ ps -> p ∈ n_peers n /\ can_grant c (snd (startElection_begin n)) p) ->
  exists tr2 c2 n2, run D tr2 c = Some c2 /\
    (length tr2 <= 3 + 2 * length (n_peers n) + 3 * (length ps * S (length (Log.entries (n_log n)))))%nat /\
    c_nodes c2 !! i = Some n2 /\ n_state n2 = Leader /\ n_currentTerm n2 = n_currentTerm n + 1 /\
    committed_prefix n2 =
      Log.entries (n_log n) ++ [mkLogEntry (Log.LastIndex (n_log n) + 1) (n_currentTerm n + 1) s] /\
    forall p, p ∈ ps -> exists f2, c_nodes c2 !! d_host D p = Some f2 /\
      committed_prefix n2 `prefix_of` Log.entries (n_log f2).
Proof.
  intros Hshort Hrun Hi Hs Hel Hnd Hmaj Hps.
  destruct (run_keeps D tr 0 _ _ _ (Inv_init D) ltac:(lia) Hrun) as (h & _ & HI).
  destruct (elect_from _ c h i n ps HI ltac:(lia) Hi Hs Hel Hnd Hmaj Hps)
    as (tr1 & c1 & n1 & Hr1 & Hlen1 & Hi1 & Hs1 & HT1 & Hlog1 & Hp1 & Hf1).
  destruct (run_keeps D tr1 _ _ _ _ HI ltac:(lia) Hr1) as (h1 & _ & HI1).
  destruct (commit_from D _ c1 h1 i n1 s ps HI1 Hi1 Hs1 Hnd)
    as (tr2 & c2 & n2 & Hr2 & _ & Hlen2 & Hi2 & Hs2 & HT2 & Hc2 & Hf2); try done.
  - by rewrite Hp1.
  - intros p Hp. rewrite Hp1. split; [by apply Hps|by apply Hf1].
  - exists (tr1 ++ EvStroke i s :: tr2), c2, n2. rewrite Hlog1, HT1 in *. split_and!; try done.
    + by rewrite run_app, Hr1.
    + rewrite length_app. simpl. lia.
Qed.
End availability.

Module AvailabilityWitness.
Open Scope string_scope.

(** node1 has led and committed a stroke with node2; node2, with node3's vote
    and from the same run, can lead and commit another. *)
Lemma availability_witness :
  exists tr2 c2 n2, run trio tr2 (after (elect ++ replicate)) = Some c2 /\ c_nodes c2 !! "node2" = Some n2 /\
    n_state n2 = Leader /\ committed_prefix n2 = [zeroEntry; mkLogEntry 1 1 stroke1; mkLogEntry 2 2 stroke2].
Proof.
  destruct (availability trio (elect ++ replicate) (after (elect ++ replicate)) "node2"
              (replica (after (elect ++ replicate)) "node2") stroke2 ["replica3:9003"])
    as (tr2 & c2 & n2 & Hr & _ & Hn & Hl & _ & Hc & _).
  - by vm_compute.
  - vm_compute. reflexivity.
  - vm_compute. reflexivity.
  - vm_compute. discriminate.
  - vm_compute. reflexivity.
  - apply NoDup_singleton.
  - vm_compute. discriminate.
  - intros p ->%list_elem_of_singleton. split.
    + apply (list_elem_of_lookup_2 _ 1). vm_compute. reflexivity.
    + exists (replica (after (elect ++ replicate)) "node3"). split; vm_compute; reflexivity.
  - exists tr2, c2, n2. split_and!; [exact Hr|exact Hn|exact Hl|]. rewrite Hc. vm_compute. reflexivity.
Defined.
End AvailabilityWitness.
