(* ===== verification/Recovery.v ===== *)
(** * Recovery: no reachable state is stuck

    Availability needs a replica that a majority may vote for.  Here: from
    every reachable state, whatever elections are under way, whoever believes
    to lead and in whatever terms, the replica with the most complete log can
    be brought to lead a term that nobody has passed, and then to commit a
    stroke on every replica. *)

From Stdlib Require Import ZArith Lia.
From stdpp Require Import base list strings gmap fin_maps option.
From S2P Require Import Prelude Types RaftLog Node Election Replication Handlers Cluster.
From S2P Require Import History Invariant Frame ElectionSteps ElectionEvents FollowerSteps.
From S2P Require Import Safety Scenario Monotone Applier Agreement CatchUp Progress Availability.
Open Scope list_scope.
Open Scope Z_scope.

Section recovery.
Context (D : Deployment) {WD : WellDeployed D}.

(** ** Steps that only concern one replica *)

(** The run changes replica [i] from [n] to [n'], its log and peers apart, and
    no other replica. *)
Record solo (c c' : Cluster) (i : string) (n n' : Node) : Prop := {
  so_node : c_nodes c' !! i = Some n';
  so_log : n_log n' = n_log n;
  so_peers : n_peers n' = n_peers n;
  so_term : n_currentTerm n <= n_currentTerm n';
  so_others : forall j, j <> i -> c_nodes c' !! j = c_nodes c !! j;
}.

Lemma solo_refl c i n : c_nodes c !! i = Some n -> solo c c i n n.
Proof. intros. by split. Qed.

Lemma solo_trans c1 c2 c3 i n1 n2 n3 : solo c1 c2 i n1 n2 -> solo c2 c3 i n2 n3 -> solo c1 c3 i n1 n3.
Proof.
  intros [] []. split; [done|congruence|congruence|lia|]. intros j Hj. by rewrite so_others1, so_others0.
Qed.

(** ** Ending an election *)

(** Every peer that has not answered fails to. *)
Lemma drain i n : forall pend c T v,
  c_nodes c !! i = Some n -> c_elections c !! i = Some (mkElectionRun T v pend) ->
  exists tr c', run D tr c = Some c' /\ length tr = length pend /\ c_nodes c' = c_nodes c /\
    c_elections c' !! i = Some (mkElectionRun T v []).
Proof.
  induction pend as [|p pend IH]; intros c T v Hi He; [by exists [], c|].
  assert (exists c1, exec D (EvVoteFail i p) c = Some c1 /\ c_nodes c1 = c_nodes c /\
    c_elections c1 !! i = Some (mkElectionRun T v pend)) as (c1 & E1 & Hn1 & He1).
  { eexists. split_and!.
    - cbn [exec]. rewrite Hi. cbn [mbind option_bind]. rewrite He. cbn [mbind option_bind er_pending].
      rewrite bool_decide_true by (by left). cbn. by rewrite bool_decide_true by done.
    - simpl. by rewrite insert_id.
    - simpl. by rewrite lookup_partial_alter_eq. }
  destruct (IH c1 T v) as (tr & c2 & Hr & Hlen & Hn2 & He2); [congruence|done|].
  exists (EvVoteFail i p :: tr), c2. split_and!; [by rewrite (run_step _ _ _ _ _ E1)|simpl; lia|congruence|done].
Qed.

Lemma startElection_finish_solo n T v :
  let n' := fst (startElection_finish n T v) in
  n_log n' = n_log n /\ n_peers n' = n_peers n /\ n_currentTerm n' = n_currentTerm n /\
  (v < majority (n_peers n) -> n' = n).
Proof.
  unfold startElection_finish. destruct (becomeLeader_fields n) as (_ & ? & ? & ?).
  repeat case_bool_decide; simpl; split_and!; try done. lia.
Qed.

(** An election is over once nobody has to answer. *)
Lemma finish c i n e :
  c_nodes c !! i = Some n -> c_elections c !! i = Some e -> exists tr c' n', run D tr c = Some c' /\
    length tr = S (length (er_pending e)) /\ solo c c' i n n' /\ c_elections c' !! i = None /\
    n_currentTerm n' = n_currentTerm n /\ (er_votes e < majority (n_peers n) -> n' = n).
Proof.
  intros Hi He. destruct e as [T v pend].
  destruct (drain i n pend c T v Hi He) as (tr & c1 & Hr & Hlen & Hn1 & He1). rewrite <- Hn1 in Hi.
  destruct (startElection_finish_solo n T v) as (Hl & Hp & HT & Hv).
  assert (exec D (EvElectionEnd i) c1 =
    Some (set_election (put c1 i (fst (startElection_finish n T v))) i None)) as E2.
  { cbn [exec]. rewrite Hi. cbn [mbind option_bind]. rewrite He1. cbn [mbind option_bind er_pending er_term er_votes].
    rewrite bool_decide_true by done. by destruct (startElection_finish n T v). }
  exists (tr ++ [EvElectionEnd i]), (set_election (put c1 i (fst (startElection_finish n T v))) i None), (fst (startElection_finish n T v)).
  split_and!; try done.
  - rewrite run_app, Hr. cbn [mbind option_bind]. by rewrite (run_step _ _ _ _ _ E2).
  - rewrite length_app. simpl. lia.
  - split; try done; [apply lookup_insert_eq|lia|]. intros j Hj. simpl. rewrite lookup_insert_ne by done. by rewrite Hn1.
  - simpl. by rewrite lookup_partial_alter_eq.
Qed.

(** A replica with no election under way. *)
Definition idle (c : Cluster) (i : string) : Prop := c_elections c !! i = None.

Lemma settle k c h i n :
  Inv D k c h -> c_nodes c !! i = Some n -> exists tr c' n', run D tr c = Some c' /\
    (length tr <= S (length (n_peers n)))%nat /\ solo c c' i n n' /\ idle c' i.
Proof.
  intros HI Hi. destruct (c_elections c !! i) as [e|] eqn:He.
  - destruct (finish c i n e Hi He) as (tr & c' & n' & Hr & Hlen & Hso & Hid & _). exists tr, c', n'.
    split_and!; try done. rewrite Hlen.
    destruct (no_election _ _ _ _ _ _ _ (inv_nodes _ _ _ _ HI _ _ Hi) e He) as [_ Hnd Hsub _].
    apply le_n_S, submseteq_length, NoDup_submseteq; [by apply (NoDup_fmap_1 (d_host D))|done].
  - exists [], c, n. split_and!; try done. simpl. lia.
Qed.

(** ** Raising the term *)

(** An election that nobody answers raises the candidate's term by one. *)
Lemma bump c i n :
  c_nodes c !! i = Some n -> idle c i -> n_state n <> Leader -> 0 <= n_currentTerm n < MaxInt64 ->
  1 < majority (n_peers n) -> exists tr c' n', run D tr c = Some c' /\ length tr = S (S (length (n_peers n))) /\
    solo c c' i n n' /\ idle c' i /\ n_state n' <> Leader /\ n_currentTerm n' = n_currentTerm n + 1.
Proof.
  intros Hi Hid Hs HT Hmaj. destruct (startElection_begin_spec n HT) as (n1 & Hb & Hs1 & HT1 & Hp1).
  assert (n_log n1 = n_log n) as Hl1 by (unfold startElection_begin in Hb; by injection Hb as <-).
  set (req := snd (startElection_begin n)).
  set (c1 := post (set_election (put c i n1) i (Some (mkElectionRun (vreq_Term req) 1 (n_peers n))))
               (map (fun p => MVoteReq i p req) (n_peers n))).
  assert (exec D (EvTimeout i) c = Some c1) as E1.
  { cbn [exec]. rewrite Hi. cbn [mbind option_bind]. rewrite Hid. unfold runElectionTimer.
    rewrite bool_decide_false by done. unfold c1, req. by rewrite Hb. }
  assert (solo c c1 i n n1) as Hso1.
  { split; try done; [apply lookup_insert_eq|lia|]. intros j Hj. simpl. by rewrite lookup_insert_ne. }
  destruct (finish c1 i n1 (mkElectionRun (vreq_Term req) 1 (n_peers n)))
    as (tr & c2 & n2 & Hr & Hlen & Hso2 & Hid2 & HT2 & Hn2).
  { apply Hso1. } { simpl. by rewrite lookup_partial_alter_eq. }
  exists (EvTimeout i :: tr), c2, n2. rewrite Hn2 in * by (rewrite Hp1; done). split_and!; try done.
  - by rewrite (run_step _ _ _ _ _ E1).
  - simpl in *. lia.
  - by eapply solo_trans.
  - by rewrite Hs1.
Qed.

Lemma climb i (m : nat) : forall c n,
  c_nodes c !! i = Some n -> idle c i -> n_state n <> Leader -> 0 <= n_currentTerm n ->
  n_currentTerm n + Z.of_nat m <= MaxInt64 -> 1 < majority (n_peers n) ->
  exists tr c' n', run D tr c = Some c' /\ length tr = (m * S (S (length (n_peers n))))%nat /\
    solo c c' i n n' /\ idle c' i /\ n_state n' <> Leader /\ n_currentTerm n' = n_currentTerm n + Z.of_nat m.
Proof.
  induction m as [|m IH]; intros c n Hi Hid Hs HT Hm Hmaj.
  { exists [], c, n. split_and!; try done; lia. }
  destruct (bump c i n Hi Hid Hs) as (tr1 & c1 & n1 & Hr1 & Hlen1 & Hso1 & Hid1 & Hs1 & HT1); [lia|done|].
  pose proof Hso1 as [Hi1 Hl1 Hp1 _ _].
  destruct (IH c1 n1) as (tr2 & c2 & n2 & Hr2 & Hlen2 & Hso2 & Hid2 & Hs2 & HT2); try done; rewrite ?Hp1; try done; try lia.
  exists (tr1 ++ tr2), c2, n2. split_and!; try done.
  - by rewrite run_app, Hr1.
  - rewrite length_app, Hlen1, Hlen2, Hp1. lia.
  - by eapply solo_trans.
  - lia.
Qed.

(** ** Giving up the lead *)

(** A leader that some peer's term has passed learns of it by one exchange. *)
Lemma yield_lead k c h i n p f :
  Inv D k c h -> c_nodes c !! i = Some n -> n_state n = Leader -> p ∈ n_peers n ->
  c_nodes c !! d_host D p = Some f -> n_currentTerm n < n_currentTerm f ->
  exists tr c' n', run D tr c = Some c' /\ length tr = 3%nat /\ solo c c' i n n' /\
    c_elections c' = c_elections c /\ n_state n' <> Leader.
Proof.
  intros HI Hi Hs Hp Hf HT. pose proof (peer_not_self D k c h i n p HI Hi Hp) as Hne.
  destruct (no_leader _ _ _ _ _ _ _ (inv_nodes _ _ _ _ HI _ _ Hi) Hs) as (_ & Hmaps).
  destruct (Hmaps p Hp) as (ni & mi & Hni & _).
  set (req := mkAppendEntriesRequest (n_currentTerm n) (n_id n) (ni - 1) (Log.Term (n_log n) (ni - 1))
                (Log.GetFrom (n_log n) ni) (n_commitIndex n)).
  assert (sendAppendEntries_request n p = Some req) as Hreq.
  { unfold sendAppendEntries_request. by rewrite bool_decide_false, Hni by tauto. }
  assert (HandleAppendEntries f req = (f, Ok (mkAppendEntriesResponse (n_currentTerm f) false 0))) as Hrun.
  { unfold HandleAppendEntries, stepDown. simpl. rewrite (bool_decide_false (n_currentTerm f < n_currentTerm n)) by lia.
    simpl. by rewrite bool_decide_true. }
  destruct (exchange_run D k c h i p n f req f _ HI Hi Hf Hne (leader_sends n p Hs Hp) Hreq Hrun)
    as (c1 & Hr & Hn1 & He1 & _). clear Hreq Hrun.
  assert (stepDown n (n_currentTerm f) = (becomeFollower n (n_currentTerm f) EmptyString, true)) as Hsd.
  { unfold stepDown. by rewrite bool_decide_true. }
  unfold sendAppendEntries_response in Hn1. simpl in Hn1. rewrite Hsd in Hn1.
  exists (exchange_trace i p (length (c_net c))), c1, (becomeFollower n (n_currentTerm f) EmptyString).
  split_and!; try done. split; try done; rewrite ?Hn1; [apply lookup_insert_eq|simpl; lia|].
  intros j Hj. rewrite lookup_insert_ne by done.
  destruct (decide (j = d_host D p)) as [->|]; [by rewrite lookup_insert_eq|by rewrite lookup_insert_ne].
Qed.

(** ** Nobody ahead *)

Definition term_of (c : Cluster) (j : string) : int := default 0 (n_currentTerm <$> c_nodes c !! j).

Definition ahead (c : Cluster) (n : Node) (p : string) : Prop := n_currentTerm n < term_of c (d_host D p).

#[local] Instance ahead_dec c n p : Decision (ahead c n p).
Proof. unfold ahead. apply _. Defined.

(** Either a leader nobody is ahead of, or a replica that may start an
    election that nobody's term forbids. *)
Definition ready (c : Cluster) (i : string) (n : Node) : Prop :=
  (n_state n = Leader \/ (n_state n <> Leader /\ idle c i)) /\ forall p, p ∈ n_peers n -> ~ ahead c n p.

Lemma solo_term c c' i n n' j : solo c c' i n n' -> j <> i -> term_of c' j = term_of c j.
Proof. intros [] Hj. unfold term_of. by rewrite so_others0. Qed.

Lemma Inv_term k c h j : Inv D k c h -> 0 <= k -> 0 <= term_of c j <= k.
Proof.
  intros HI Hk. unfold term_of. destruct (c_nodes c !! j) as [f|] eqn:Hf; simpl; [|lia].
  apply (no_term _ _ _ _ _ _ _ (inv_nodes _ _ _ _ HI _ _ Hf)).
Qed.

Lemma majority_two k c h i n : Inv D k c h -> c_nodes c !! i = Some n -> 1 < majority (n_peers n).
Proof.
  intros HI Hi. destruct (decide (1 < majority (n_peers n))) as [|Hle]; [done|].
  by destruct (majority_others D k c h i n [] HI Hi); [unfold len; simpl; lia|].
Qed.

(** A replica that does not lead can pass every term. *)
Lemma ready_by_climbing k c h i n :
  Inv D k c h -> 0 <= k <= MaxInt64 -> c_nodes c !! i = Some n -> n_state n <> Leader -> idle c i ->
  exists tr c' n', run D tr c = Some c' /\ (length tr <= Z.to_nat k * S (S (length (n_peers n))))%nat /\
    solo c c' i n n' /\ ready c' i n'.
Proof.
  intros HI Hk Hi Hs Hid. pose proof (no_term _ _ _ _ _ _ _ (inv_nodes _ _ _ _ HI _ _ Hi)) as HT.
  destruct (climb i (Z.to_nat (k - n_currentTerm n)) c n Hi Hid Hs) as (tr & c' & n' & Hr & Hlen & Hso & Hid' & Hs' & HT');
    [lia|lia|by eapply majority_two|].
  exists tr, c', n'. split_and!; try done.
  - rewrite Hlen. apply Nat.mul_le_mono_r. lia.
  - split; [by right|]. intros p Hp. unfold ahead. rewrite (so_peers _ _ _ _ _ Hso) in Hp.
    rewrite (solo_term _ _ _ _ _ _ Hso) by (by eapply peer_not_self).
    pose proof (Inv_term k c h (d_host D p) HI). lia.
Qed.

Lemma run_inv tr k c c' h :
  Inv D k c h -> k + Z.of_nat (length tr) <= MaxInt64 -> run D tr c = Some c' ->
  exists h', Inv D (k + Z.of_nat (length tr)) c' h'.
Proof. intros HI Hk Hr. destruct (run_keeps D tr k c c' h HI Hk Hr) as (h' & _ & ?). eauto. Qed.

(** The events it takes to make a replica ready: [P] peers, terms up to [k]. *)
Definition ready_bound (k P : nat) : nat := S P + 3 + (k + S P + 3) * S (S P).

Lemma make_ready (k : nat) c h i n :
  Inv D (Z.of_nat k) c h -> Z.of_nat (k + ready_bound k (length (n_peers n))) <= MaxInt64 -> c_nodes c !! i = Some n ->
  exists tr c' n', run D tr c = Some c' /\ (length tr <= ready_bound k (length (n_peers n)))%nat /\
    solo c c' i n n' /\ ready c' i n'.
Proof.
  intros HI Hk Hi. set (P := length (n_peers n)) in *. unfold ready_bound in *.
  destruct (settle _ c h i n HI Hi) as (tr1 & c1 & n1 & Hr1 & Hlen1 & Hso1 & Hid1). fold P in Hlen1.
  destruct (run_inv tr1 _ c c1 h HI ltac:(lia) Hr1) as (h1 & HI1). pose proof Hso1 as [Hi1 _ Hp1 _ _].
  destruct (decide (n_state n1 = Leader)) as [Hs1|Hs1].
  - destruct (decide (Exists (ahead c1 n1) (n_peers n1))) as [(p & Hp & Ha)%list.Exists_exists|Hnone].
    + unfold ahead, term_of in Ha. destruct (c_nodes c1 !! d_host D p) as [f|] eqn:Hf.
      2:{ simpl in Ha. pose proof (no_term _ _ _ _ _ _ _ (inv_nodes _ _ _ _ HI1 _ _ Hi1)). lia. }
      destruct (yield_lead _ c1 h1 i n1 p f HI1 Hi1 Hs1 Hp Hf Ha) as (tr2 & c2 & n2 & Hr2 & Hlen2 & Hso2 & He2 & Hs2).
      destruct (run_inv tr2 _ c1 c2 h1 HI1 ltac:(lia) Hr2) as (h2 & HI2). pose proof Hso2 as [Hi2 _ Hp2 _ _].
      destruct (ready_by_climbing _ c2 h2 i n2 HI2 ltac:(lia) Hi2 Hs2) as (tr3 & c3 & n3 & Hr3 & Hlen3 & Hso3 & Hready).
      { unfold idle. by rewrite He2. }
      exists (tr1 ++ tr2 ++ tr3), c3, n3. split_and!; try done.
      * rewrite run_app, Hr1. cbn [mbind option_bind]. by rewrite run_app, Hr2.
      * rewrite Hp2, Hp1 in Hlen3. fold P in Hlen3. rewrite !length_app, Hlen2. nia.
      * by eapply solo_trans, solo_trans.
    + exists tr1, c1, n1. split_and!; try done; [nia|]. split; [by left|].
      intros p Hp Ha. apply Hnone, list.Exists_exists. eauto.
  - destruct (ready_by_climbing _ c1 h1 i n1 HI1 ltac:(lia) Hi1 Hs1 Hid1) as (tr3 & c3 & n3 & Hr3 & Hlen3 & Hso3 & Hready).
    exists (tr1 ++ tr3), c3, n3. split_and!; try done.
    + by rewrite run_app, Hr1.
    + rewrite Hp1 in Hlen3. fold P in Hlen3. rewrite length_app. nia.
    + by eapply solo_trans.
Qed.

(** ** The most complete log *)

Definition log_le (f n : Node) : Prop :=
  up_to_date (Log.LastTerm (n_log n)) (Log.LastIndex (n_log n))
    (Log.LastTerm (n_log f)) (Log.LastIndex (n_log f)) = true.

#[local] Instance log_le_dec f n : Decision (log_le f n).
Proof. unfold log_le. apply _. Defined.

Lemma log_le_iff f n :
  log_le f n <-> Log.LastTerm (n_log f) < Log.LastTerm (n_log n) \/
    (Log.LastTerm (n_log n) = Log.LastTerm (n_log f) /\ Log.LastIndex (n_log f) <= Log.LastIndex (n_log n)).
Proof. unfold log_le, up_to_date. by rewrite orb_true_iff, andb_true_iff, !bool_decide_eq_true. Qed.

Lemma most_complete (m : gmap string Node) :
  m <> ∅ -> exists i n, m !! i = Some n /\ forall j f, m !! j = Some f -> log_le f n.
Proof.
  induction m as [|i n m Hnew IH] using map_ind; [done|]. intros _.
  destruct (decide (m = ∅)) as [->|Hne].
  { exists i, n. split; [apply lookup_insert_eq|].
    intros j f [[_ <-]|[_ ?]]%lookup_insert_Some; [apply log_le_iff; lia|done]. }
  destruct (IH Hne) as (i' & n' & Hi' & Hbest). assert (i <> i') by congruence.
  destruct (decide (log_le n' n)) as [Hle|Hle].
  - exists i, n. split; [apply lookup_insert_eq|].
    intros j f [[_ <-]|[_ Hf]]%lookup_insert_Some; [apply log_le_iff; lia|].
    apply Hbest in Hf. rewrite log_le_iff in *. lia.
  - exists i', n'. split; [by rewrite lookup_insert_ne|].
    intros j f [[_ <-]|[_ Hf]]%lookup_insert_Some; [|by apply (Hbest j)]. rewrite log_le_iff in *. lia.
Qed.

Lemma majority_all (ps : list string) : majority ps <= 1 + len ps.
Proof.
  unfold majority. pose proof (len_nonneg ps).
  assert ((len ps + 1) / 2 < 1 + len ps); [|lia]. apply Z.div_lt_upper_bound; lia.
Qed.

(** A ready replica with the most complete log can lead. *)
Lemma lead_from k c h i n :
  Inv D k c h -> k < MaxInt64 -> c_nodes c !! i = Some n -> ready c i n ->
  (forall p f, p ∈ n_peers n -> c_nodes c !! d_host D p = Some f -> log_le f n) ->
  exists tr c' n', run D tr c = Some c' /\ (length tr <= 2 + 2 * length (n_peers n))%nat /\
    c_nodes c' !! i = Some n' /\ n_state n' = Leader /\ n_currentTerm n <= n_currentTerm n' /\
    n_log n' = n_log n /\ n_peers n' = n_peers n /\
    forall p, p ∈ n_peers n -> exists f, c_nodes c' !! d_host D p = Some f /\ n_currentTerm f <= n_currentTerm n'.
Proof.
  intros HI Hk Hi [Hs Hahead] Hbest. pose proof (no_term _ _ _ _ _ _ _ (inv_nodes _ _ _ _ HI _ _ Hi)) as HT.
  destruct (no_cfg _ _ _ _ _ _ _ (inv_nodes _ _ _ _ HI _ _ Hi)) as (cfg & Hcfg & Hpeers).
  assert (forall p, p ∈ n_peers n -> exists f, c_nodes c !! d_host D p = Some f /\ n_currentTerm f <= n_currentTerm n) as Hf.
  { intros p Hp. assert (d_host D p ∈ dom (c_nodes c)) as [f Hf]%elem_of_dom.
    { rewrite (inv_dom _ _ _ _ HI). rewrite Hpeers in Hp. pose proof (peer_host D _ _ _ Hcfg Hp). set_solver. }
    exists f. split; [done|]. specialize (Hahead p Hp). unfold ahead, term_of in Hahead. rewrite Hf in Hahead. simpl in Hahead. lia. }
  destruct Hs as [Hs|[Hs Hid]].
  { exists [], c, n. split_and!; try done. simpl. lia. }
  destruct (elect_from D k c h i n (n_peers n) HI Hk Hi Hs Hid) as (tr & c' & n' & ? & ? & ? & ? & HT' & ? & ? & ?).
  - rewrite Hpeers. eapply (NoDup_fmap_1 (d_host D)), wd_nodup, Hcfg.
  - apply majority_all.
  - intros p Hp. split; [done|]. destruct (Hf p Hp) as (f & Hpf & HTf). exists f. split; [done|].
    destruct (startElection_begin_spec n) as (n1 & Hb & _); [lia|]. rewrite Hb. unfold may_grant. simpl.
    rewrite (bool_decide_true (n_currentTerm f <= _)) by lia. rewrite (bool_decide_true (n_currentTerm f < _)) by lia.
    by apply (Hbest p).
  - exists tr, c', n'. split_and!; try done. lia.
Qed.

(** What was committed is in the log of a later leader. *)
Lemma committed_in_leader k c1 c2 h1 h2 i j n1 n2 :
  Inv D k c1 h1 -> Inv D k c2 h2 -> hist_le h1 h2 -> (forall m, m ∈ c_net c1 -> m ∈ c_net c2) ->
  c_nodes c1 !! i = Some n1 -> c_nodes c2 !! j = Some n2 -> n_state n2 = Leader ->
  n_currentTerm n1 <= n_currentTerm n2 -> committed_prefix n1 `prefix_of` Log.entries (n_log n2).
Proof.
  intros HI1 HI2 Hle Hnet Hi Hj Hs HT.
  destruct (justified_later D _ _ c2 _ _ _ _ HI1 Hle Hnet Hi) as [Hl1 Hc1].
  destruct (leader_record D _ _ _ _ _ HI2 Hj Hs) as (L & HL & _ & Hlog).
  pose proof (commit_agrees D _ _ _ _ _ _ _ (inv_hist _ _ _ _ HI2) HL HT Hl1 Hc1) as Ha.
  unfold committed_prefix. unfold agree_upto in Ha. rewrite Ha, Hlog. apply prefix_take.
Qed.

(** ** Never stuck *)

Lemma lead_from_anywhere (k : nat) c h :
  Inv D (Z.of_nat k) c h -> c_nodes c <> ∅ ->
  Z.of_nat (k + ready_bound k (pred (size (members D))) + (2 + 2 * pred (size (members D)))) <= MaxInt64 ->
  exists i n tr c' n' k' h', c_nodes c !! i = Some n /\ run D tr c = Some c' /\
    (length tr <= ready_bound k (pred (size (members D))) + (2 + 2 * pred (size (members D))))%nat /\
    hist_le h h' /\ Inv D k' c h /\ Inv D k' c' h' /\ c_nodes c' !! i = Some n' /\ n_state n' = Leader /\
    n_log n' = n_log n /\ length (n_peers n') = pred (size (members D)) /\
    (forall j f, c_nodes c !! j = Some f -> n_currentTerm f <= n_currentTerm n') /\
    forall p, p ∈ n_peers n' -> exists f, c_nodes c' !! d_host D p = Some f /\ n_currentTerm f <= n_currentTerm n'.
Proof.
  intros HI Hne Hk. destruct (most_complete _ Hne) as (i & n & Hi & Hbest).
  destruct (no_cfg _ _ _ _ _ _ _ (inv_nodes _ _ _ _ HI _ _ Hi)) as (cfg & Hcfg & Hpeers).
  assert (length (n_peers n) = pred (size (members D))) as HP by (rewrite (members_size D _ _ Hcfg), Hpeers; done).
  rewrite <- HP in *. destruct (make_ready k c h i n HI ltac:(lia) Hi) as (tr1 & c1 & n1 & Hr1 & Hlen1 & Hso & Hready).
  destruct (run_inv tr1 _ c c1 h HI ltac:(lia) Hr1) as (h1 & HI1). pose proof Hso as [Hi1 Hl1 Hp1 HT1 Ho1].
  destruct (lead_from _ c1 h1 i n1 HI1 ltac:(lia) Hi1 Hready) as (tr2 & c2 & n2 & Hr2 & Hlen2 & Hi2 & Hs2 & HT2 & Hl2 & Hp2 & Hf2).
  { intros p f Hp Hf. rewrite Ho1 in Hf by (by eapply peer_not_self). apply Hbest in Hf. unfold log_le in *. by rewrite Hl1. }
  assert (run D (tr1 ++ tr2) c = Some c2) as Hr by (by rewrite run_app, Hr1).
  rewrite Hp1 in Hlen2. destruct (run_keeps D (tr1 ++ tr2) _ _ _ _ HI ltac:(rewrite length_app; lia) Hr) as (h2 & Hle & HI2).
  exists i, n, (tr1 ++ tr2), c2, n2, (Z.of_nat k + Z.of_nat (length (tr1 ++ tr2))), h2. split_and!; try done.
  - rewrite length_app. lia.
  - eapply Inv_le; [exact HI|lia].
  - congruence.
  - by rewrite Hp2, Hp1.
  - intros j f Hf. destruct (decide (j = i)) as [->|Hj]; [assert (f = n) as -> by congruence; lia|].
    etrans; [|exact HT2]. destruct Hready as [_ Hahead].
    assert (exists p, p ∈ n_peers n1 /\ d_host D p = j) as (p & Hp & <-).
    { assert (j ∈ members D ∖ {[i]}) as Hj'.
      { apply elem_of_difference. split; [|set_solver]. rewrite <- (inv_dom _ _ _ _ HI). by apply elem_of_dom_2 in Hf. }
      rewrite <- (wd_peers _ _ Hcfg) in Hj'. apply elem_of_list_to_set, list_elem_of_fmap in Hj' as (p & -> & Hp).
      exists p. by rewrite Hp1, Hpeers. }
    specialize (Hahead p Hp). unfold ahead, term_of in Hahead. rewrite (Ho1 _ Hj), Hf in Hahead. simpl in Hahead. lia.
  - by rewrite Hp2.
Qed.

(** C7: (never stuck) from every reachable state - whatever is in flight,
    whichever elections are under way, whoever believes to lead - some
    replica's log holds everything any replica has committed, and a bounded
    number of further events brings that replica to lead, to commit a given
    stroke after it, and to put it all on every replica. *)
Theorem never_stuck tr c s :
  let k := length tr in let P := pred (size (members D)) in
  d_cfgs D <> ∅ -> run D tr (init D) = Some c ->
  Z.of_nat (k + ready_bound k P + (2 + 2 * P)) <= MaxInt64 ->
  exists i n tr2 c2 n2, c_nodes c !! i = Some n /\
    (forall j f, c_nodes c !! j = Some f -> committed_prefix f `prefix_of` Log.entries (n_log n)) /\
    run D tr2 c = Some c2 /\
    (length tr2 <= ready_bound k P + (3 + 2 * P) + 3 * (P * S (length (Log.entries (n_log n)))))%nat /\
    c_nodes c2 !! i = Some n2 /\ n_state n2 = Leader /\ committed_prefix n2 =
      Log.entries (n_log n) ++ [mkLogEntry (Log.LastIndex (n_log n) + 1) (n_currentTerm n2) s] /\
    forall j, j ∈ members D -> exists f2, c_nodes c2 !! j = Some f2 /\
      committed_prefix n2 `prefix_of` Log.entries (n_log f2).
Proof.
  intros k P Hne Hr Hk. destruct (run_keeps D tr 0 _ _ _ (Inv_init D) ltac:(lia) Hr) as (h & _ & HI).
  assert (c_nodes c <> ∅) as Hc.
  { intros He. pose proof (inv_dom _ _ _ _ HI) as Hdom. rewrite He, dom_empty_L in Hdom.
    apply Hne, dom_empty_inv_L. by unfold members in Hdom. }
  destruct (lead_from_anywhere k c h HI Hc Hk)
    as (i & n & tr1 & c1 & n1 & k1 & h1 & Hi & Hr1 & Hlen1 & Hle & HI0 & HI1 & Hi1 & Hs1 & Hl1 & HP & HT & Hf).
  destruct (no_cfg _ _ _ _ _ _ _ (inv_nodes _ _ _ _ HI1 _ _ Hi1)) as (cfg & Hcfg & Hpeers).
  destruct (commit_from D k1 c1 h1 i n1 s (n_peers n1) HI1 Hi1 Hs1)
    as (tr2 & c2 & n2 & Hr2 & _ & Hlen2 & Hi2 & Hs2 & HT2 & Hc2 & Hf2).
  - rewrite Hpeers. eapply (NoDup_fmap_1 (d_host D)), wd_nodup, Hcfg.
  - by apply majority_all.
  - auto.
  - exists i, n, (tr1 ++ EvStroke i s :: tr2), c2, n2. rewrite Hl1 in *. rewrite HT2. split_and!; try done.
    + intros j f Hj. rewrite <- Hl1. eapply (committed_in_leader k1 c c1 h h1 j i); try done; [|by eapply HT].
      intros m. destruct (run_net D _ _ _ Hr1) as [z ->]. intros. apply elem_of_app. by left.
    + by rewrite run_app, Hr1.
    + rewrite length_app. cbn [length]. rewrite HP in Hlen2. fold P in Hlen1, Hlen2. lia.
    + intros j Hj. destruct (decide (j = i)) as [->|Hji].
      { exists n2. split; [done|]. apply prefix_take. }
      assert (j ∈ members D ∖ {[i]}) as Hj' by set_solver.
      rewrite <- (wd_peers _ _ Hcfg), <- Hpeers in Hj'. apply elem_of_list_to_set, list_elem_of_fmap in Hj' as (p & -> & Hp).
      by apply Hf2.
Qed.
End recovery.

Module RecoveryWitness.
Open Scope string_scope.

(** Two leaders, node1 of term 1 and node2 of term 2, with an append of
    node2's on its way. *)
Lemma never_stuck_witness : exists i tr2 c2 n2,
  run trio tr2 (after (elect ++ replicate ++ reelect)) = Some c2 /\ c_nodes c2 !! i = Some n2 /\
  n_state n2 = Leader /\ forall j, j ∈ members trio -> exists f2, c_nodes c2 !! j = Some f2 /\
    committed_prefix n2 `prefix_of` Log.entries (n_log f2).
Proof.
  destruct (never_stuck trio (elect ++ replicate ++ reelect) (after (elect ++ replicate ++ reelect)) stroke2)
    as (i & n & tr2 & c2 & n2 & _ & _ & Hr & _ & Hn & Hl & _ & Hall).
  - intros He. apply (f_equal (fun m => m !! "node1")) in He. vm_compute in He. discriminate.
  - vm_compute. reflexivity.
  - vm_compute. discriminate.
  - exists i, tr2, c2, n2. split_and!; [exact Hr|exact Hn|exact Hl|exact Hall].
Defined.
End RecoveryWitness.
