(* ===== verification/Deploy.v ===== *)
(** * Deploy: a replica's environment, and the deployment it makes

    [main] of [replica/cmd/main.go] up to the running node, for any
    environment; a compose file as the list of its services - the host name
    and the environment of each - and the deployment of Cluster that it
    describes.  A file whose services list each other's addresses describes a
    well-formed deployment, the assumption of the theorems on runs. *)

From Stdlib Require Import ZArith Lia Ascii String.
From stdpp Require Import base list strings gmap option.
From S2P Require Import Prelude Types RaftLog Node Addrs Cluster.
Open Scope list_scope.

(** [os.Getenv]: an unset variable reads as the empty string. *)
Definition Env : Type := list (string * string).

Fixpoint Getenv (env : Env) (key : string) : string :=
  match env with
  | [] => EmptyString
  | (k, v) :: env => if bool_decide (k = key) then v else Getenv env key
  end.

Definition with_default (s d : string) : string := if bool_decide (s = EmptyString) then d else s.

(** [fmt.Sprintf(":%s", port)]: the address both servers listen on. *)
Definition listen_addr (port : string) : string := String.append ":" port.

Definition split_string (split : bytes -> list bytes) (s : string) : list string :=
  map string_of_list_ascii (split (list_ascii_of_string s)).

(** ** A replica *)

Record Replica_process : Type := mkReplica_process {
  rp_addr : string;
  rp_node : Node;
}.

Definition replica_config (env : Env) : Config :=
  mkConfig (Getenv env "NODE_ID") (split_string Replica.splitAddrs (Getenv env "PEER_ADDRS")) (Getenv env "GATEWAY_ADDR").

(** [log.Fatalf] is the left case. *)
Definition replica_main (env : Env) : string + Replica_process :=
  let port := with_default (Getenv env "PORT") "9001" in
  let cfg := replica_config env in
  match Validate cfg with
  | Some err => inl (String.append "invalid configuration: " err)
  | None => inr (mkReplica_process (listen_addr port) (NewNode cfg))
  end.

(** ** Compose files *)

Record Service : Type := mkService {
  sv_hostname : string;
  sv_env : Env;
}.

Definition sv_id (s : Service) : string := Getenv (sv_env s) "NODE_ID".

(** Where the service is reached: its host name and the port it listens on. *)
Definition sv_addr (s : Service) : string :=
  String.append (sv_hostname s) (listen_addr (with_default (Getenv (sv_env s) "PORT") "9001")).

(** The node ID behind an address. *)
Fixpoint resolve (services : list Service) (addr : string) : string :=
  match services with
  | [] => EmptyString
  | s :: services => if bool_decide (sv_addr s = addr) then sv_id s else resolve services addr
  end.

Definition deploy (services : list Service) : Deployment :=
  mkDeployment (list_to_map (map (fun s => (sv_id s, replica_config (sv_env s))) services)) (resolve services).

(** The nodes of the processes that start. *)
Definition started (services : list Service) : gmap string Node :=
  list_to_map (omap (fun s => match replica_main (sv_env s) with
                              | inr p => Some (n_id (rp_node p), rp_node p)
                              | inl _ => None
                              end) services).

(** ** docker-compose.yml *)

Definition replica_env (id port peers : string) : Env :=
  [("NODE_ID", id); ("PORT", port); ("PEER_ADDRS", peers); ("GATEWAY_ADDR", "gateway:8080")]%string.

Definition compose_replicas : list Service :=
  [mkService "replica1" (replica_env "node1" "9001" "replica2:9002,replica3:9003,replica4:9004");
   mkService "replica2" (replica_env "node2" "9002" "replica1:9001,replica3:9003,replica4:9004");
   mkService "replica3" (replica_env "node3" "9003" "replica1:9001,replica2:9002,replica4:9004");
   mkService "replica4" (replica_env "node4" "9004" "replica1:9001,replica2:9002,replica3:9003")]%string.

Definition compose : Deployment := deploy compose_replicas.

(** ** Addresses *)

(** A configured address: not empty, no comma, no white space around it. *)
Definition good_addr (a : string) : Prop :=
  a <> EmptyString /\ ~ comma ∈ (list_ascii_of_string a) /\ trimmed (list_ascii_of_string a).

Definition join_addrs (addrs : list string) : string :=
  string_of_list_ascii (join_with comma (map list_ascii_of_string addrs)).

Lemma split_string_good split s :
  (forall b, clean (split b)) -> Forall good_addr (split_string split s).
Proof.
  intros Hc. specialize (Hc (list_ascii_of_string s)). unfold split_string, good_addr.
  induction Hc as [|a l (Hne & Hcm & Ht) _ IH]; simpl; constructor; [|exact IH].
  rewrite list_ascii_of_string_of_list_ascii. split_and!; try done. intros Hz. apply Hne.
  by rewrite <- (list_ascii_of_string_of_list_ascii a), Hz.
Qed.

Lemma replica_clean b : clean (Replica.splitAddrs b).
Proof. unfold Replica.splitAddrs. case_bool_decide; [constructor|apply trimmed_parts_clean]. Qed.

Lemma good_clean l : Forall good_addr l -> clean (map list_ascii_of_string l).
Proof.
  intros Hl. apply list.Forall_forall. intros b (a & -> & Ha)%list_elem_of_fmap.
  rewrite list.Forall_forall in Hl. destruct (Hl a Ha) as (Hne & ? & ?). split_and!; try done.
  intros Hz. apply Hne. by rewrite <- (string_of_list_ascii_of_string a), Hz.
Qed.

Lemma map_ascii_id l : map string_of_list_ascii (map list_ascii_of_string l) = l.
Proof. rewrite map_map. erewrite map_ext; [apply map_id|]. intros a. apply string_of_list_ascii_of_string. Qed.

Lemma split_join l :
  Forall good_addr l -> split_string Gateway.splitAddrs (join_addrs l) = l /\
    split_string Replica.splitAddrs (join_addrs l) = l.
Proof.
  intros Hl%good_clean. destruct splitAddrs_roundtrip as (Hsame & _ & Hrt).
  assert (split_string Gateway.splitAddrs (join_addrs l) = l) as H.
  { unfold split_string, join_addrs. by rewrite list_ascii_of_string_of_list_ascii, Hrt, map_ascii_id. }
  split; [done|]. unfold split_string in *. by rewrite Hsame.
Qed.

(** ** The deployment of a file *)

Definition others (services : list Service) (s : Service) : list Service :=
  filter (fun t => sv_id t <> sv_id s) services.

(** Distinct node IDs and addresses, all variables set, and every service
    lists the addresses of the others, in some order. *)
Record well_composed (services : list Service) : Prop := {
  wc_ids : NoDup (map sv_id services);
  wc_addrs : NoDup (map sv_addr services);
  wc_good : Forall good_addr (map sv_addr services);
  wc_set : forall s, s ∈ services -> sv_id s <> EmptyString /\ Getenv (sv_env s) "GATEWAY_ADDR" <> EmptyString;
  wc_peers : forall s, s ∈ services -> exists l,
    l ≡ₚ map sv_addr (others services s) /\ Getenv (sv_env s) "PEER_ADDRS" = join_addrs l;
  wc_two : (2 <= length services)%nat;
}.

Lemma resolve_addr services s :
  NoDup (map sv_addr services) -> s ∈ services -> resolve services (sv_addr s) = sv_id s.
Proof.
  induction services as [|t services IH]; simpl; [by intros _ ?%elem_of_nil|].
  intros [Ht Hnd]%list.NoDup_cons [->|Hs]%elem_of_cons; [by rewrite bool_decide_true|].
  rewrite bool_decide_false; [by apply IH|]. intros Heq. apply Ht. rewrite Heq. by apply (list_elem_of_fmap_2 sv_addr).
Qed.

Section deploy.
Context (services : list Service) (Hwc : well_composed services).

Lemma others_sub s : others services s ⊆ services.
Proof. by intros t [_ Ht]%list_elem_of_filter. Qed.

Lemma resolve_all l : l ⊆ services -> map (resolve services) (map sv_addr l) = map sv_id l.
Proof.
  intros Hl. rewrite map_map. apply map_ext_in. intros s Hs%list_elem_of_In.
  apply resolve_addr; [apply Hwc|by apply Hl].
Qed.

Lemma service_peers s :
  s ∈ services -> cfg_PeerAddrs (replica_config (sv_env s)) ≡ₚ map sv_addr (others services s).
Proof.
  intros Hs. destruct (wc_peers _ Hwc s Hs) as (l & Hl & He). simpl. rewrite He.
  destruct (split_join l) as [_ ->]; [|done]. rewrite Hl. apply list.Forall_forall.
  intros a (t & -> & Ht)%list_elem_of_fmap. apply (proj1 (list.Forall_forall _ _) (wc_good _ Hwc)).
  apply (list_elem_of_fmap_2 sv_addr). by eapply others_sub.
Qed.

Lemma peers_hosts s :
  s ∈ services -> map (resolve services) (cfg_PeerAddrs (replica_config (sv_env s))) ≡ₚ map sv_id (others services s).
Proof. intros Hs. rewrite (service_peers s Hs). rewrite resolve_all; [done|apply others_sub]. Qed.

Lemma keys_ids : (map (fun s => (sv_id s, replica_config (sv_env s))) services).*1 = map sv_id services.
Proof. by rewrite <- list_fmap_compose. Qed.

Lemma deploy_lookup i cfg :
  d_cfgs (deploy services) !! i = Some cfg <-> exists s, s ∈ services /\ sv_id s = i /\ cfg = replica_config (sv_env s).
Proof.
  simpl. rewrite <- elem_of_list_to_map by (rewrite keys_ids; apply Hwc). rewrite list_elem_of_fmap. firstorder congruence.
Qed.

Lemma deploy_members i : i ∈ members (deploy services) <-> i ∈ map sv_id services.
Proof.
  unfold members. rewrite elem_of_dom. split.
  - intros [cfg (s & Hs & <- & _)%deploy_lookup]. by apply (list_elem_of_fmap_2 sv_id).
  - intros (s & -> & Hs)%list_elem_of_fmap. eexists. apply deploy_lookup. by exists s.
Qed.

Lemma service_valid s : s ∈ services -> Validate (replica_config (sv_env s)) = None.
Proof.
  intros Hs. destruct (wc_set _ Hwc s Hs) as [Hid Hgw]. unfold Validate. simpl.
  rewrite (bool_decide_false (Getenv _ _ = _)) by exact Hid. rewrite bool_decide_false.
  { by rewrite bool_decide_false. }
  intros Hz. pose proof (service_peers s Hs) as Hp. simpl in Hp. apply Permutation_length in Hp.
  assert (length (others services s) = 0%nat) as H0.
  { rewrite length_map in Hp. unfold len in Hz. lia. }
  pose proof (wc_two _ Hwc) as H2. assert (map sv_id services ⊆ [sv_id s]) as Hsub.
  { intros i (t & -> & Ht)%list_elem_of_fmap. destruct (decide (sv_id t = sv_id s)) as [->|Hne]; [by left|].
    assert (t ∈ others services s) as Hin by (by apply list_elem_of_filter).
    destruct (others services s); [by apply elem_of_nil in Hin|done]. }
  pose proof (submseteq_length _ _ (NoDup_submseteq _ _ (wc_ids _ Hwc) Hsub)) as Hle.
  rewrite length_map in Hle. simpl in Hle. lia.
Qed.

#[export] Instance deploy_well : WellDeployed (deploy services).
Proof.
  split.
  - by intros i cfg (s & _ & <- & ->)%deploy_lookup.
  - intros i cfg (s & Hs & _ & ->)%deploy_lookup. by apply service_valid.
  - intros i cfg (s & Hs & _ & ->)%deploy_lookup. simpl. rewrite (peers_hosts s Hs).
    eapply sublist_NoDup; [apply (wc_ids _ Hwc)|]. apply (fmap_sublist sv_id), sublist_filter.
  - intros i cfg (s & Hs & <- & ->)%deploy_lookup. apply set_eq. intros j.
    rewrite elem_of_list_to_set, (peers_hosts s Hs), elem_of_difference, deploy_members, elem_of_singleton.
    rewrite !list_elem_of_fmap. setoid_rewrite list_elem_of_filter. clear. firstorder congruence.
Qed.

Lemma service_starts s :
  s ∈ services -> exists p, replica_main (sv_env s) = inr p /\ rp_node p = NewNode (replica_config (sv_env s)) /\
    String.append (sv_hostname s) (rp_addr p) = sv_addr s.
Proof. intros Hs. unfold replica_main. rewrite (service_valid s Hs). by eexists. Qed.

Lemma started_init : started services = c_nodes (init (deploy services)).
Proof.
  unfold started. simpl. rewrite <- list_to_map_fmap. f_equal.
  assert (forall l, l ⊆ services -> omap (fun s => match replica_main (sv_env s) with
    | inr p => Some (n_id (rp_node p), rp_node p) | inl _ => None end) l =
    prod_map id NewNode <$> map (fun s => (sv_id s, replica_config (sv_env s))) l) as H; [|by apply H].
  induction l as [|s l IH]; intros Hsub; [done|]. simpl.
  destruct (service_starts s) as (p & -> & -> & _); [apply Hsub; by left|]. simpl. f_equal.
  apply IH. intros t Ht. apply Hsub. by right.
Qed.
End deploy.

(** docker-compose.yml is such a file. *)
Lemma compose_composed : well_composed compose_replicas.
Proof.
  split.
  - apply (bool_decide_unpack _). by vm_compute.
  - apply (bool_decide_unpack _). by vm_compute.
  - repeat (apply list.Forall_cons_2; [split_and!; [done|apply (bool_decide_unpack _); by vm_compute|by vm_compute]|]).
    apply list.Forall_nil_2.
  - intros s Hs. repeat (apply elem_of_cons in Hs as [->|Hs]; [done|]). by apply elem_of_nil in Hs.
  - intros s Hs. exists (map sv_addr (others compose_replicas s)). split; [done|].
    repeat (apply elem_of_cons in Hs as [->|Hs]; [by vm_compute|]). by apply elem_of_nil in Hs.
  - by vm_compute; lia.
Qed.

#[export] Instance compose_deployed : WellDeployed compose := deploy_well compose_replicas compose_composed.
