(* ===== verification/Restart.v ===== *)
(** * Restart: a replica that comes back empty

    The code keeps everything in memory: a replica that restarts is the node
    [NewNode] makes of its configuration, without its term, its vote and its
    log.  The connections of the old process are gone with it: what was on its
    way to it is never delivered, while what it had sent still can be.  A
    restarted follower is repaired in at most two exchanges; but the promises
    it had made are lost, and Raft's guarantees with them. *)

From Stdlib Require Import ZArith Lia.
From stdpp Require Import base list strings gmap option.
From S2P Require Import Prelude Types RaftLog Node Election Replication Handlers Cluster.
From S2P Require Import History Invariant Frame Safety Scenario Monotone Applier FollowerSteps Agreement CatchUp Deploy.
Open Scope list_scope.
Open Scope Z_scope.

(** ** Runs with restarts *)

(** [r_dead]: the messages, by position, whose receiver has gone. *)
Record Restartable : Type := mkRestartable {
  r_cluster : Cluster;
  r_dead : list nat;
}.

Inductive rs_event : Type :=
| RsEvent (ev : event)
| RsRestart (i : string).

Definition receiver (D : Deployment) (m : message) : string :=
  match m with
  | MVoteReq _ p _ | MAppendReq _ p _ => d_host D p
  | MVoteResp src _ _ _ | MAppendResp src _ _ _ => src
  end.

(** The positions of the messages on their way to [i]. *)
Definition bound_for (D : Deployment) (i : string) (net : list message) : list nat :=
  List.filter (fun k => match net !! k with Some m => bool_decide (receiver D m = i) | None => false end)
    (seq 0 (length net)).

Definition restart (D : Deployment) (i : string) (s : Restartable) : option Restartable :=
  cfg ← d_cfgs D !! i;
  let c := r_cluster s in
  Some (mkRestartable (mkCluster (<[i := NewNode cfg]> (c_nodes c)) (delete i (c_elections c)) (c_net c))
          (bound_for D i (c_net c))).

Definition is_dead (ev : event) (s : Restartable) : bool :=
  match ev with EvDeliver k => bool_decide (k ∈ r_dead s) | _ => false end.

Definition rs_exec (D : Deployment) (ev : rs_event) (s : Restartable) : option Restartable :=
  match ev with
  | RsEvent ev => if is_dead ev s then None else c ← exec D ev (r_cluster s); Some (mkRestartable c (r_dead s))
  | RsRestart i => s' ← restart D i s; Some (mkRestartable (r_cluster s') (r_dead s ++ r_dead s'))
  end.

Fixpoint rs_run (D : Deployment) (tr : list rs_event) (s : Restartable) : option Restartable :=
  match tr with
  | [] => Some s
  | ev :: tr => s ← rs_exec D ev s; rs_run D tr s
  end.

Definition rs_init (D : Deployment) : Restartable := mkRestartable (init D) [].

(** ** Repair *)

(** The leader's first entries reach a fresh node. *)
Lemma fresh_round n cfg f p :
  pair_ok n f -> n_nextIndex n !! p = Some 1 -> n_log f = n_log (NewNode cfg) -> n_commitIndex f = 0 ->
  0 <= n_commitIndex n ->
  exists n' f', sync_round p (n, f) = (n', f') /\ n_log n' = n_log n /\ n_state n' = Leader /\
    Log.entries (n_log f') = Log.entries (n_log n) /\ n_commitIndex f' = n_commitIndex n /\
    n_currentTerm f' = n_currentTerm n /\ n_state f' = Follower.
Proof.
  intros Hok Hni Hlog Hc Hcn. pose proof Hok as [].
  pose proof (Log.wf_length _ pr_wf) as Hpos. assert (1 <= 1 <= len (Log.entries (n_log n))) as Hr by (unfold len; lia).
  pose proof (round_request n f p 1 Hok Hni Hr) as Hreq. simpl in Hreq. rewrite Hlog in *. simpl in pr_wf_f.
  unfold sync_round. rewrite Hreq. set (req := mkAppendEntriesRequest _ _ _ _ _ _).
  assert (Log.contiguous 1 (areq_Entries req)) as Hcon.
  { apply (segment_contiguous (Log.entries (n_log n)) 0 _ pr_wf). apply (round_segment n 1 Hr). }
  pose proof (HandleAppendEntries_outcome f req ltac:(simpl; lia) Hcon) as Hspec. rewrite Hlog in Hspec.
  specialize (Hspec ltac:(simpl; lia)). destruct (HandleAppendEntries f req) as [f' r].
  destruct Hspec as [_ (HT & Hst & _ & Happ)]; [done|]. unfold prev_check in Happ. rewrite bool_decide_true in Happ by (simpl; lia).
  unfold appended in Happ. rewrite Hlog, Hc in Happ. cbn [areq_Entries areq_PrevLogIndex areq_LeaderCommit areq_Term req] in *.
  assert (Log.reconcile (Log.entries (n_log (NewNode cfg))) (Z.to_nat (1 - 1)) (drop (Z.to_nat 1) (Log.entries (n_log n))) 0 =
    (Log.entries (n_log n), Ok tt)) as Hrec.
  { unfold Log.reconcile. simpl. f_equal. destruct (Log.entries (n_log n)) as [|e l] eqn:He; [simpl in Hpos; lia|].
    simpl. rewrite drop_0. destruct pr_wf as [H0 _]. by injection H0 as ->. }
  rewrite Hrec in Happ. destruct Happ as (Hl & -> & Hcf).
  destruct (response_accepted n p (drop (Z.to_nat 1) (Log.entries (n_log n))) 0 pr_leader pr_commit) as (Hl' & Hs' & _).
  eexists _, f'. split; [reflexivity|]. cbn [areq_Term areq_Entries] in *. split_and!; try done.
  rewrite Hcf. unfold Log.LastIndex in pr_commit. case_bool_decide; lia.
Qed.

Section repair.
Context (D : Deployment) {WD : WellDeployed D}.

(** C12: (a restarted follower) whatever the length of the log, a peer that
    has restarted empty holds the leader's log and commit index after at most
    two exchanges of AppendEntries: one that is refused and sends the leader
    back to the first entry, and one with the whole log. *)
Theorem restarted_follower_repaired c i p n ni cfg :
  reachable D c -> c_nodes c !! i = Some n -> n_state n = Leader -> p ∈ n_peers n -> n_nextIndex n !! p = Some ni ->
  exists k n' f', (1 <= k <= 2)%nat /\ sync_rounds k p (n, NewNode cfg) = (n', f') /\
    n_state n' = Leader /\ n_log n' = n_log n /\ Log.entries (n_log f') = Log.entries (n_log n) /\
    n_commitIndex f' = n_commitIndex n /\ n_currentTerm f' = n_currentTerm n /\ n_state f' = Follower.
Proof.
  intros (k & h & _ & HI)%(reachable_inv D) Hi Hs Hp Hni.
  pose proof (inv_nodes _ _ _ _ HI _ _ Hi) as Hn. pose proof (no_commit _ _ _ _ _ _ _ Hn).
  pose proof (no_term _ _ _ _ _ _ _ Hn). pose proof (no_log _ _ _ _ _ _ _ Hn) as Hlog.
  destruct (proj2 (no_leader _ _ _ _ _ _ _ Hn Hs) p Hp) as (ni' & mi & Hni' & _ & []).
  assert (ni' = ni) as -> by congruence.
  assert (forall f, n_log f = n_log (NewNode cfg) -> n_currentTerm f <= n_currentTerm n -> pair_ok n f) as Hpair.
  { intros f Hf HT. split; try done; [apply Hlog|rewrite Hf; apply Log.wf_NewLog| |unfold Log.LastIndex; lia|].
    - rewrite Hf. intros [|x] e e'; simpl; [|done]. intros _ He' _. apply agree_upto_intro. intros m Hm.
      assert (m = 0%nat) as -> by lia. simpl. by rewrite (proj1 (lok_wf _ _ _ Hlog)).
    - rewrite Hf. intros [|x] e e' _; simpl; [|done]. intros [= <-]. rewrite (proj1 (lok_wf _ _ _ Hlog)). by intros [= <-]. }
  assert (pair_ok n (NewNode cfg)) as Hok by (apply Hpair; simpl; [done|lia]).
  destruct (decide (ni = 1)) as [->|Hne].
  - destruct (fresh_round n cfg (NewNode cfg) p) as (n' & f' & Hround & ? & ? & ? & ? & ? & ?); try done; [lia|].
    exists 1%nat, n', f'. by split_and!; [lia|lia|..].
  - destruct (round_refusal n (NewNode cfg) ni Hok po_next 1) as (_ & f1 & Hrun & Hl1 & Hc1 & HT1).
    { unfold prev_check. rewrite bool_decide_false by lia. simpl.
      assert (exists m, Z.to_nat (ni - 1) = S m) as [m ->] by (exists (pred (Z.to_nat (ni - 1))); lia). done. }
    set (n1 := set_nextIndex (<[p := 1]> (n_nextIndex n)) n).
    assert (sync_round p (n, NewNode cfg) = (n1, f1)) as Hround.
    { unfold sync_round. rewrite (round_request n (NewNode cfg) p ni Hok Hni po_next), Hrun. cbn [areq_Term areq_Entries].
      rewrite response_refused; [done|done|simpl; lia|lia]. }
    assert (pair_ok n1 f1) as Hok1 by (destruct (Hpair f1 Hl1 ltac:(lia)); by split).
    destruct (fresh_round n1 cfg f1 p) as (n' & f' & Hround2 & ? & ? & ? & ? & ? & ?); try done;
      [apply lookup_insert_eq|simpl; lia|].
    exists 2%nat, n', f'. split_and!; try done; [lia|]. change (sync_round p (sync_round p (n, NewNode cfg)) = (n', f')). by rewrite Hround.
Qed.
End repair.

(** ** What a restart breaks *)

Module RestartRuns.
Open Scope string_scope.

Definition events (tr : list event) : list rs_event := map RsEvent tr.

Definition node_after (D : Deployment) (tr : list rs_event) (i : string) : option Node :=
  s ← rs_run D tr (rs_init D); c_nodes (r_cluster s) !! i.

(** node2 votes for node1, restarts, and votes for node3 in the same term. *)
Definition second_vote : list rs_event :=
  (events elect ++ [RsRestart "node2"] ++
   events [EvTimeout "node3"; EvDeliver 4; EvDeliver 5; EvVoteFail "node3" "replica1:9001"; EvElectionEnd "node3"])%list.

(** (two leaders) one restart is enough for two leaders of one term among
    three replicas: the vote was only in memory. *)
Theorem restart_two_leaders :
  exists n1 n3, node_after trio second_vote "node1" = Some n1 /\ node_after trio second_vote "node3" = Some n3 /\
    n_state n1 = Leader /\ n_state n3 = Leader /\ n_currentTerm n1 = n_currentTerm n3.
Proof. eexists _, _. split_and!; vm_compute; reflexivity. Qed.

(** node1 commits a stroke that node2 holds; node2 restarts and elects node3,
    which commits another. *)
Definition forgotten : list rs_event :=
  (events (elect ++ [EvStroke "node1" stroke1; EvSend "node1" "replica2:9002"; EvDeliver 3; EvDeliver 4]) ++
   [RsRestart "node2"] ++
   events [EvTimeout "node3"; EvDeliver 6; EvDeliver 7; EvVoteFail "node3" "replica1:9001"; EvElectionEnd "node3";
           EvStroke "node3" stroke2; EvSend "node3" "replica2:9002"; EvDeliver 8; EvDeliver 9])%list.

(** (a committed stroke is lost) among three replicas, one restart of a
    follower can replace a stroke that was committed, and that the browsers
    have been shown, by another. *)
Theorem restart_loses_committed :
  exists n1 n3, node_after trio forgotten "node1" = Some n1 /\ node_after trio forgotten "node3" = Some n3 /\
    committed_prefix n1 = [zeroEntry; mkLogEntry 1 1 stroke1] /\ committed_prefix n3 = [zeroEntry; mkLogEntry 1 1 stroke2].
Proof. eexists _, _. split_and!; vm_compute; reflexivity. Qed.

(** The four replicas of docker-compose.yml: node1 is elected with the votes
    of node2 and node3, which restart one after the other. *)
Definition four : list rs_event :=
  (events [EvTimeout "node1"; EvDeliver 0; EvDeliver 3; EvDeliver 1; EvDeliver 4; EvVoteFail "node1" "replica4:9004";
           EvElectionEnd "node1"; EvStroke "node1" stroke1; EvSend "node1" "replica2:9002"; EvSend "node1" "replica3:9003";
           EvDeliver 5; EvDeliver 6; EvDeliver 7; EvDeliver 8] ++
   [RsRestart "node2"; RsRestart "node3"] ++
   events [EvTimeout "node4"; EvDeliver 10; EvDeliver 11; EvDeliver 12; EvDeliver 13; EvVoteFail "node4" "replica1:9001";
           EvElectionEnd "node4"])%list.

(** (two restarts among four) in the deployment of docker-compose.yml two
    restarts have the same effect: the committed stroke is not in the log of
    the next leader. *)
Theorem restarts_lose_committed :
  exists n1 n4, node_after compose four "node1" = Some n1 /\ node_after compose four "node4" = Some n4 /\
    committed_prefix n1 = [zeroEntry; mkLogEntry 1 1 stroke1] /\ n_state n4 = Leader /\
    Log.entries (n_log n4) = [zeroEntry].
Proof. eexists _, _. split_and!; vm_compute; reflexivity. Qed.

Lemma restarted_follower_repaired_witness :
  exists k n' f', (1 <= k <= 2)%nat /\
    sync_rounds k "replica3:9003" (replica (after CatchUpWitness.tr) "node2", NewNode (mkConfig "node3" ["replica1:9001"; "replica2:9002"] "gateway:8080")) = (n', f') /\
    Log.entries (n_log f') = [zeroEntry; mkLogEntry 1 1 stroke1].
Proof.
  edestruct (restarted_follower_repaired trio (after CatchUpWitness.tr) "node2" "replica3:9003"
               (replica (after CatchUpWitness.tr) "node2") 2
               (mkConfig "node3" ["replica1:9001"; "replica2:9002"] "gateway:8080")) as (k & n' & f' & Hk & H1 & _ & _ & H2 & _).
  - exists CatchUpWitness.tr, []. split; [by vm_compute|split; [vm_compute; reflexivity|reflexivity]].
  - vm_compute. reflexivity.
  - vm_compute. reflexivity.
  - apply (list_elem_of_lookup_2 _ 1). vm_compute. reflexivity.
  - vm_compute. reflexivity.
  - exists k, n', f'. split; [exact Hk|]. split; [exact H1|]. rewrite H2. vm_compute. reflexivity.
Defined.
End RestartRuns.
