(* ===== verification/Loops.v ===== *)
(** * Loops: the goroutines of a replica

    [Start] launches the election timer and the commit applier; an election
    that is won launches a heartbeat loop, a replication loop per peer and a
    first round of heartbeats, and every round launches a sender per peer.
    Cluster lets a leader send at any moment; here are the goroutines that do
    the sending, with the selects they wait in.  An event names the goroutine
    it advances by its position. *)

From Stdlib Require Import ZArith Lia.
From stdpp Require Import base list strings gmap option.
From S2P Require Import Prelude Types RaftLog Node Election Replication Handlers.
Open Scope list_scope.
Open Scope Z_scope.

(** ** State *)

(** [GElection] is the election with the goroutines of its peers: at the stop
    [startElection] returns while they run on, and they may still step the
    replica down, so the whole ends when the last of them has.  [GCall] is
    about to call [sendAppendEntries], [GAwait] waits for its
    reply; [back] is the term of the replication loop that made the call, if
    it was one. *)
Inductive goroutine : Type :=
| GTimer
| GElection (term votes : int) (pending : list string)
| GApplier
| GHeartbeat
| GReplication (peer : string) (term : int)
| GBeat
| GCall (peer : string) (back : option int)
| GAwait (peer : string) (req : AppendEntriesRequest) (back : option int).

(** [lp_stop]: the context is done or [stopCh] is closed. *)
Record Loops : Type := mkLoops {
  lp_node : Node;
  lp_gs : list goroutine;
  lp_stop : bool;
}.

(** [Node.Start]. *)
Definition Start (n : Node) : Loops := mkLoops n [GTimer; GApplier] false.

Inductive loop_event : Type :=
| LpStop
| LpReturn (k : nat)
| LpReset (k : nat)
| LpFire (k : nat)
| LpVote (k : nat) (peer : string) (outcome : option VoteResponse)
| LpTally (k : nat)
| LpApply (k : nat)
| LpTick (k : nat)
| LpWake (k : nat)
| LpBeat (k : nat)
| LpSend (k : nat)
| LpReply (k : nat) (outcome : option AppendEntriesResponse)
| LpVoteRequest (req : VoteRequest)
| LpAppendRequest (req : AppendEntriesRequest)
| LpStroke (s : StrokeEvent).

(** Goroutine [k] becomes [now] and launches [new]. *)
Definition become (k : nat) (now new : list goroutine) (gs : list goroutine) : list goroutine :=
  take k gs ++ now ++ drop (S k) gs ++ new.

Definition step (k : nat) (now new : list goroutine) (n : Node) (l : Loops) : Loops :=
  mkLoops n (become k now new (lp_gs l)) (lp_stop l).

(** Where a caller of [sendAppendEntries] continues. *)
Definition return_to (peer : string) (back : option int) : list goroutine :=
  match back with Some T => [GReplication peer T] | None => [] end.

Fixpoint drop_peer (p : string) (l : list string) : list string :=
  match l with
  | [] => []
  | q :: l => if bool_decide (p = q) then l else q :: drop_peer p l
  end.

(** The loops that a won election starts. *)
Definition launched (n : Node) (term : int) : list goroutine :=
  GHeartbeat :: map (fun p => GReplication p term) (n_peers n) ++ [GBeat].

Definition lp_exec (ev : loop_event) (l : Loops) : option Loops :=
  let n := lp_node l in
  match ev with
  | LpStop => Some (mkLoops n (lp_gs l) true)
  | LpReturn k =>
      if lp_stop l then
        match lp_gs l !! k with
        | Some GTimer | Some (GElection _ _ []) | Some GApplier | Some GHeartbeat | Some (GReplication _ _) => Some (step k [] [] n l)
        | _ => None
        end
      else None
  | LpReset k =>
      match lp_gs l !! k, n_resetElectionCh n with
      | Some GTimer, _ :: _ => Some (step k [GTimer] [] (fst (runElectionTimer n ResetReceived)) l)
      | _, _ => None
      end
  | LpFire k =>
      match lp_gs l !! k with
      | Some GTimer =>
          match runElectionTimer n TimerFired with
          | (n, TimerElection) =>
              let '(n, req) := startElection_begin n in
              Some (step k [GElection (vreq_Term req) 1 (n_peers n)] [] n l)
          | (n, _) => Some (step k [GTimer] [] n l)
          end
      | _ => None
      end
  | LpVote k p outcome =>
      match lp_gs l !! k with
      | Some (GElection T votes pending) =>
          if bool_decide (p ∈ pending) then
            let '(n, votes) := requestVoteFromPeer n votes T outcome in
            Some (step k [GElection T votes (drop_peer p pending)] [] n l)
          else None
      | _ => None
      end
  | LpTally k =>
      match lp_gs l !! k with
      | Some (GElection T votes []) =>
          match startElection_finish n T votes with
          | (n, true) => Some (step k [GTimer] (launched n T) n l)
          | (n, false) => Some (step k [GTimer] [] n l)
          end
      | _ => None
      end
  | LpApply k =>
      match lp_gs l !! k with
      | Some GApplier => Some (step k [GApplier] [] (applyCommitted n) l)
      | _ => None
      end
  | LpTick k =>
      match lp_gs l !! k with
      | Some GHeartbeat =>
          match runHeartbeatLoop n with
          | Some peers => Some (step k [GHeartbeat] (map (fun p => GCall p None) peers) n l)
          | None => Some (step k [] [] n l)
          end
      | _ => None
      end
  | LpWake k =>
      match lp_gs l !! k, n_newEntryCh n with
      | Some (GReplication p T), _ :: _ =>
          match runReplicationLoop n T with
          | (n, true) => Some (step k [GCall p (Some T)] [] n l)
          | (n, false) => Some (step k [] [] n l)
          end
      | _, _ => None
      end
  | LpBeat k =>
      match lp_gs l !! k with
      | Some GBeat => Some (step k [] (map (fun p => GCall p None) (sendHeartbeats n)) n l)
      | _ => None
      end
  | LpSend k =>
      match lp_gs l !! k with
      | Some (GCall p back) =>
          match sendAppendEntries_request n p with
          | Some req => Some (step k [GAwait p req back] [] n l)
          | None => Some (step k (return_to p back) [] n l)
          end
      | _ => None
      end
  | LpReply k outcome =>
      match lp_gs l !! k with
      | Some (GAwait p req back) =>
          Some (step k (return_to p back) []
                  (sendAppendEntries_response n p (areq_Term req) (areq_Entries req) outcome) l)
      | _ => None
      end
  | LpVoteRequest req => Some (mkLoops (fst (HandleVoteRequest n req)) (lp_gs l) (lp_stop l))
  | LpAppendRequest req => Some (mkLoops (fst (HandleAppendEntries n req)) (lp_gs l) (lp_stop l))
  | LpStroke s => Some (mkLoops (fst (HandleStroke n s)) (lp_gs l) (lp_stop l))
  end.

Fixpoint lp_run (tr : list loop_event) (l : Loops) : option Loops :=
  match tr with
  | [] => Some l
  | ev :: tr => l ← lp_exec ev l; lp_run tr l
  end.

(** ** What the handlers do to a role *)

(** A replica only keeps its role in its term; any other change makes it a
    follower. *)
Record settles (n n' : Node) : Prop := {
  se_peers : n_peers n' = n_peers n;
  se_term : n_currentTerm n <= n_currentTerm n';
  se_role : n_state n' <> Follower -> n_state n' = n_state n /\ n_currentTerm n' = n_currentTerm n;
}.

#[export] Instance settles_refl : Reflexive settles.
Proof. by split. Qed.
#[export] Instance settles_trans : Transitive settles.
Proof.
  intros a b c [P1 T1 R1] [P2 T2 R2]. split; [congruence|lia|]. intros Hs.
  destruct (R2 Hs) as [E2 F2]. destruct R1 as [E1 F1]; [congruence|]. split; congruence.
Qed.
#[export] Instance settles_preorder : PreOrder settles.
Proof. split; apply _. Qed.

Create HintDb loops.

Lemma settles_same n n' :
  n_peers n' = n_peers n -> n_currentTerm n' = n_currentTerm n -> n_state n' = n_state n -> settles n n'.
Proof. intros ? HT ?. split; [done|lia|done]. Qed.

Lemma settles_follower n n' :
  n_peers n' = n_peers n -> n_currentTerm n <= n_currentTerm n' -> n_state n' = Follower -> settles n n'.
Proof. intros ? ? Hs. split; [done|done|]. by rewrite Hs. Qed.

#[export] Hint Resolve settles_same settles_follower : loops.

Lemma stepDown_settles n T : settles n (fst (stepDown n T)).
Proof. unfold stepDown. case_bool_decide; [|done]. apply settles_follower; simpl; [done|lia|done]. Qed.

Lemma HandleVoteRequest_settles n req : settles n (fst (HandleVoteRequest n req)).
Proof.
  unfold HandleVoteRequest. pose proof (stepDown_settles n (vreq_Term req)) as Hs.
  set (n1 := fst (stepDown n (vreq_Term req))) in *.
  assert (vreq_Term req <= n_currentTerm n1) as HT.
  { unfold n1, stepDown. case_bool_decide; simpl; lia. }
  clearbody n1. case_bool_decide; [done|]. destruct (_ && _); [|done].
  etrans; [exact Hs|]. apply settles_same; [done|simpl; lia|done].
Qed.

Lemma requestVoteFromPeer_settles n v T o : settles n (fst (requestVoteFromPeer n v T o)).
Proof.
  unfold requestVoteFromPeer. destruct o as [r|]; [|done]. case_bool_decide.
  - apply settles_follower; simpl; [done|lia|done].
  - case_bool_decide; [done|]. by destruct (vresp_VoteGranted r).
Qed.

Lemma advanceCommitIndex_same n :
  n_peers (advanceCommitIndex n) = n_peers n /\ n_currentTerm (advanceCommitIndex n) = n_currentTerm n /\
  n_state (advanceCommitIndex n) = n_state n.
Proof.
  unfold advanceCommitIndex. generalize (Z.to_nat (Log.LastIndex (n_log n) - n_commitIndex n)) (n_commitIndex n + 1).
  intros fuel. revert n. induction fuel as [|fuel IH]; intros n i; simpl; [done|]. case_bool_decide; [|done].
  destruct (IH (advance_at n i) (i + 1)) as (-> & -> & ->). unfold advance_at. by repeat case_bool_decide.
Qed.

Lemma response_settles n p T es o : settles n (sendAppendEntries_response n p T es o).
Proof.
  unfold sendAppendEntries_response. destruct o as [r|]; [|done].
  pose proof (stepDown_settles n (aresp_Term r)) as Hs. destruct (stepDown n (aresp_Term r)) as [n1 down]. simpl in Hs.
  destruct down; [done|]. etrans; [exact Hs|]. clear Hs.
  case_bool_decide; [done|]. destruct (aresp_Success r).
  - set (n2 := if bool_decide (0 < len es) then _ else n1).
    destruct (advanceCommitIndex_same n2) as (H1 & H2 & H3).
    assert (settles n1 n2) as Hs by (unfold n2; case_bool_decide; by apply settles_same).
    etrans; [exact Hs|]. by apply settles_same.
  - repeat case_bool_decide; by apply settles_same.
Qed.

Lemma append_and_commit_same n req :
  n_peers (fst (append_and_commit n req)) = n_peers n /\ n_currentTerm (fst (append_and_commit n req)) = n_currentTerm n /\
  n_state (fst (append_and_commit n req)) = n_state n.
Proof.
  unfold append_and_commit. case_bool_decide.
  - destruct (Log.AppendEntries _ _ _) as [lg [|]]; simpl; [|done]. by repeat case_bool_decide.
  - by repeat case_bool_decide.
Qed.

Lemma HandleAppendEntries_settles n req : settles n (fst (HandleAppendEntries n req)).
Proof.
  unfold HandleAppendEntries. pose proof (stepDown_settles n (areq_Term req)) as Hs.
  set (n1 := fst (stepDown n (areq_Term req))) in *. clearbody n1. etrans; [exact Hs|]. clear Hs.
  case_bool_decide as HT; [done|]. destruct (accept_leader_fields n1 req) as (T2 & S2 & _ & _ & _).
  assert (n_peers (accept_leader n1 req) = n_peers n1) as P2.
  { unfold accept_leader. simpl. by repeat (case_bool_decide; simpl). }
  set (n2 := accept_leader n1 req) in *. clearbody n2.
  assert (settles n1 n2) as H2 by (apply settles_follower; [done|lia|done]).
  destruct (append_and_commit_same n2 req) as (P3 & T3 & S3).
  assert (settles n1 (fst (append_and_commit n2 req))) as H3.
  { apply settles_follower; [congruence|lia|congruence]. }
  case_bool_decide; [|done]. destruct (Log.GetEntry _ _) as [e [|]]; simpl; [|done]. by case_bool_decide.
Qed.

Lemma HandleStroke_settles n s : settles n (fst (HandleStroke n s)).
Proof. unfold HandleStroke. case_bool_decide; [done|]. by apply settles_same. Qed.

Lemma applyCommitted_same n :
  n_peers (applyCommitted n) = n_peers n /\ n_currentTerm (applyCommitted n) = n_currentTerm n /\
  n_state (applyCommitted n) = n_state n.
Proof.
  assert (forall fuel i c m, n_peers (apply_loop fuel i c m) = n_peers m /\
    n_currentTerm (apply_loop fuel i c m) = n_currentTerm m /\ n_state (apply_loop fuel i c m) = n_state m) as Hl.
  { induction fuel as [|fuel IH]; intros i c m; simpl; [done|]. repeat (case_bool_decide || case_match); try done.
    destruct (IH (i + 1) c (set_lastApplied i (send_commit m l))) as (-> & -> & ->).
    unfold send_commit. by repeat case_match. }
  unfold applyCommitted. apply Hl.
Qed.

Lemma applyCommitted_settles n : settles n (applyCommitted n).
Proof. by apply settles_same; apply applyCommitted_same. Qed.

(** ** The goroutines of a role *)

(** The replication loop a goroutine is, if it is one. *)
Definition loop_of (g : goroutine) : option (string * int) :=
  match g with
  | GReplication p T | GCall p (Some T) | GAwait p _ (Some T) => Some (p, T)
  | _ => None
  end.

Definition replicas (gs : list goroutine) : list (string * int) := omap loop_of gs.

Definition is_timer (g : goroutine) : bool := match g with GTimer | GElection _ _ _ => true | _ => false end.
Definition is_applier (g : goroutine) : bool := match g with GApplier => true | _ => false end.

Definition count (f : goroutine -> bool) (gs : list goroutine) : nat := length (List.filter f gs).

Record loops_ok (l : Loops) : Prop := {
  lo_peers : NoDup (n_peers (lp_node l));
  lo_timer : count is_timer (lp_gs l) = 1%nat;
  lo_applier : count is_applier (lp_gs l) = 1%nat;
  lo_once : NoDup (replicas (lp_gs l));
  lo_terms : forall p T, (p, T) ∈ replicas (lp_gs l) -> T <= n_currentTerm (lp_node l);
  lo_candidate : n_state (lp_node l) = Candidate ->
    forall p T, (p, T) ∈ replicas (lp_gs l) -> T < n_currentTerm (lp_node l);
  lo_leader : n_state (lp_node l) = Leader -> GHeartbeat ∈ lp_gs l /\
    forall p, p ∈ n_peers (lp_node l) -> (p, n_currentTerm (lp_node l)) ∈ replicas (lp_gs l);
}.

Lemma become_split k now new gs g :
  gs !! k = Some g -> exists l1 l2, gs = l1 ++ g :: l2 /\ become k now new gs = l1 ++ now ++ l2 ++ new.
Proof.
  intros Hk. exists (take k gs), (drop (S k) gs). split; [by rewrite take_drop_middle|done].
Qed.

Lemma count_app f l1 l2 : count f (l1 ++ l2) = (count f l1 + count f l2)%nat.
Proof. unfold count. by rewrite List.filter_app, length_app. Qed.

Lemma count_cons f g l : count f (g :: l) = ((if f g then 1 else 0) + count f l)%nat.
Proof. unfold count. simpl. by destruct (f g). Qed.

Lemma replicas_app l1 l2 : replicas (l1 ++ l2) = replicas l1 ++ replicas l2.
Proof. apply omap_app. Qed.

(** What a replica's change of role leaves of the invariant. *)
Lemma settles_ok n' l : loops_ok l -> settles (lp_node l) n' -> loops_ok (mkLoops n' (lp_gs l) (lp_stop l)).
Proof.
  intros [] [HP HT HR]. split; simpl; try done.
  - by rewrite HP.
  - intros p T Hin. specialize (lo_terms0 p T Hin). lia.
  - intros Hs p T Hin. destruct HR as [E1 E2]; [by rewrite Hs|]. rewrite E2. eapply lo_candidate0; [congruence|done].
  - intros Hs. destruct HR as [E1 E2]; [by rewrite Hs|]. rewrite E2, HP. apply lo_leader0. congruence.
Qed.

(** A step that launches no loop, and ends one only when its replica does not
    lead in the loop's term. *)
Lemma step_ok k now new l g :
  loops_ok l -> lp_gs l !! k = Some g ->
  count is_timer (now ++ new) = (if is_timer g then 1 else 0)%nat ->
  count is_applier (now ++ new) = (if is_applier g then 1 else 0)%nat ->
  replicas new = [] ->
  (replicas now = replicas [g] \/
   (replicas now = [] /\ forall p, n_state (lp_node l) = Leader -> loop_of g <> Some (p, n_currentTerm (lp_node l)))) ->
  (n_state (lp_node l) = Leader -> g = GHeartbeat -> GHeartbeat ∈ now) ->
  loops_ok (step k now new (lp_node l) l).
Proof.
  intros [] Hk Ht Ha Hnew Hrep Hbeat. destruct (become_split k now new _ _ Hk) as (l1 & l2 & Hgs & Hb).
  rewrite Hgs in *. rewrite !count_app, !count_cons in *.
  assert (replicas (become k now new (l1 ++ g :: l2)) = replicas l1 ++ replicas now ++ replicas l2) as Hr.
  { by rewrite Hb, !replicas_app, Hnew, app_nil_r. }
  assert (replicas (l1 ++ g :: l2) = replicas l1 ++ replicas [g] ++ replicas l2) as Hr0.
  { change (g :: l2) with ([g] ++ l2). by rewrite !replicas_app. }
  assert (forall x, x ∈ replicas (become k now new (l1 ++ g :: l2)) -> x ∈ replicas (l1 ++ g :: l2)) as Hsub.
  { intros x. rewrite Hr, Hr0. destruct Hrep as [->|[-> _]]; [done|]. rewrite !elem_of_app. simpl.
    rewrite elem_of_nil. tauto. }
  split; unfold step; simpl; try done.
  - rewrite Hgs, Hb, !count_app. lia.
  - rewrite Hgs, Hb, !count_app. lia.
  - rewrite Hgs, Hr. rewrite Hr0 in lo_once0. destruct Hrep as [->|[-> _]]; [done|].
    eapply sublist_NoDup; [exact lo_once0|]. apply sublist_app; [done|]. by apply sublist_inserts_l.
  - rewrite Hgs. intros p T Hin. by eapply lo_terms0, Hsub.
  - rewrite Hgs. intros Hs p T Hin. by eapply lo_candidate0, Hsub.
  - rewrite Hgs. intros Hs. destruct (lo_leader0 Hs) as [Hh Hall]. split.
    + rewrite Hb. rewrite !elem_of_app, elem_of_cons in *. destruct Hh as [?|[<-|?]]; [tauto| |tauto].
      right. left. by apply Hbeat.
    + intros p Hp. specialize (Hall p Hp). rewrite Hr0 in Hall. rewrite Hr.
      destruct Hrep as [->|[_ Hend]]; [done|]. rewrite !elem_of_app in *. destruct Hall as [?|[Hg|?]]; [tauto| |tauto].
      exfalso. apply (Hend p Hs). unfold replicas in Hg. apply list_elem_of_omap in Hg as (g' & Hg'%list_elem_of_singleton & ?).
      by subst.
Qed.

Lemma calls_none ps : replicas (map (fun p => GCall p None) ps) = [] /\
  count is_timer (map (fun p => GCall p None) ps) = 0%nat /\ count is_applier (map (fun p => GCall p None) ps) = 0%nat.
Proof. induction ps as [|p ps (H1 & H2 & H3)]; [done|]. simpl. by rewrite !count_cons. Qed.

(** The loops that the launch of a leader adds. *)
Lemma launched_facts n T :
  replicas (launched n T) = map (fun p => (p, T)) (n_peers n) /\
  count is_timer (launched n T) = 0%nat /\ count is_applier (launched n T) = 0%nat.
Proof.
  unfold launched. rewrite !count_cons, !count_app. simpl. rewrite replicas_app, app_nil_r.
  induction (n_peers n) as [|p ps (H1 & H2 & H3)]; [done|]. simpl. rewrite !count_cons. simpl.
  split_and!; [by f_equal|done|done].
Qed.

(** A replica that has moved to a later term, to stand for election. *)
Lemma candidate_ok n' l :
  loops_ok l -> n_peers n' = n_peers (lp_node l) -> n_currentTerm (lp_node l) < n_currentTerm n' -> n_state n' = Candidate ->
  loops_ok (mkLoops n' (lp_gs l) (lp_stop l)).
Proof.
  intros [] HP HT Hs. split; simpl; try done.
  - by rewrite HP.
  - intros p T Hin. specialize (lo_terms0 p T Hin). lia.
  - intros _ p T Hin. specialize (lo_terms0 p T Hin). lia.
  - by rewrite Hs.
Qed.

(** A candidate that has won: its loops are new. *)
Lemma launch_ok k v T pend l :
  loops_ok l -> lp_gs l !! k = Some (GElection T v pend) -> n_state (lp_node l) = Candidate ->
  n_currentTerm (lp_node l) = T -> loops_ok (step k [GTimer] (launched (lp_node l) T) (becomeLeader (lp_node l)) l).
Proof.
  intros [] Hk Hs HT. destruct (become_split k [GTimer] (launched (lp_node l) T) _ _ Hk) as (l1 & l2 & Hgs & Hb).
  destruct (launched_facts (lp_node l) T) as (Hr & Ht & Ha).
  pose proof (init_indexes_fields (Log.LastIndex (n_log (lp_node l))) (n_peers (lp_node l))
    (set_leaderID (n_id (lp_node l)) (set_state Leader (lp_node l)))) as (_ & Fp & Ft & _ & _ & Fs & _).
  simpl in Fp, Ft, Fs.
  assert (replicas (become k [GTimer] (launched (lp_node l) T) (lp_gs l)) = replicas (lp_gs l) ++ map (fun p => (p, T)) (n_peers (lp_node l))) as Hrep.
  { rewrite Hb, Hgs, !replicas_app, Hr. change (GElection T v pend :: l2) with ([GElection T v pend] ++ l2).
    rewrite replicas_app. simpl. by rewrite app_assoc. }
  rewrite Hgs in Hb. rewrite Hgs, count_app, count_cons in lo_timer0, lo_applier0. simpl in lo_timer0, lo_applier0.
  split; unfold step, becomeLeader; simpl; rewrite ?Fp, ?Ft, ?Fs, ?Hrep; try done.
  - rewrite Hgs, Hb, !count_app, Ht. change (count is_timer [GTimer]) with 1%nat. lia.
  - rewrite Hgs, Hb, !count_app, Ha. change (count is_applier [GTimer]) with 0%nat. lia.
  - apply list.NoDup_app. split_and!; [done| |by apply NoDup_fmap_2; [intros ?? [=]|]].
    intros [p U] Hin (q & [= -> ->] & _)%list_elem_of_fmap. specialize (lo_candidate0 Hs q T Hin). lia.
  - intros p U [Hin|(q & [= -> ->] & _)%list_elem_of_fmap]%elem_of_app; [by eapply lo_terms0|lia].
  - intros _. split.
    + rewrite Hgs, Hb. unfold launched. rewrite !elem_of_app. right. right. right. by left.
    + intros p Hp. rewrite HT. apply elem_of_app. right. by apply (list_elem_of_fmap_2 (fun p => (p, T))).
Qed.

Lemma launched_leader n T : launched (becomeLeader n) T = launched n T.
Proof.
  pose proof (init_indexes_fields (Log.LastIndex (n_log n)) (n_peers n) (set_leaderID (n_id n) (set_state Leader n)))
    as (_ & Hp & _). unfold launched, becomeLeader. simpl in *. by rewrite Hp.
Qed.

(** ** Terms stay in an [int] *)

Definition event_term (ev : loop_event) : int :=
  match ev with
  | LpVote _ _ (Some r) => vresp_Term r
  | LpReply _ (Some r) => aresp_Term r
  | LpVoteRequest r => vreq_Term r
  | LpAppendRequest r => areq_Term r
  | _ => 0
  end.

Lemma stepDown_bound n T B : n_currentTerm n <= B -> T <= B -> n_currentTerm (fst (stepDown n T)) <= B.
Proof. unfold stepDown. by case_bool_decide. Qed.

Lemma response_bound n p T es o B :
  n_currentTerm n <= B -> match o with Some r => aresp_Term r <= B | None => True end ->
  n_currentTerm (sendAppendEntries_response n p T es o) <= B.
Proof.
  intros Hn Ho. unfold sendAppendEntries_response. destruct o as [r|]; [|done].
  pose proof (stepDown_bound n (aresp_Term r) B Hn Ho) as Hs. destruct (stepDown n (aresp_Term r)) as [n1 down]. simpl in Hs.
  destruct down; [done|]. case_bool_decide; [done|]. destruct (aresp_Success r).
  - destruct (advanceCommitIndex_same (if bool_decide (0 < len es)
      then set_matchIndex (<[p:=last_index_of es]> (n_matchIndex n1)) (set_nextIndex (<[p:=last_index_of es + 1]> (n_nextIndex n1)) n1)
      else n1)) as (_ & -> & _). by case_bool_decide.
  - by repeat case_bool_decide.
Qed.

Lemma HandleAppendEntries_bound n req B :
  n_currentTerm n <= B -> areq_Term req <= B -> n_currentTerm (fst (HandleAppendEntries n req)) <= B.
Proof.
  intros Hn Hr. unfold HandleAppendEntries. pose proof (stepDown_bound n (areq_Term req) B Hn Hr) as Hs.
  set (n1 := fst (stepDown n (areq_Term req))) in *. clearbody n1.
  case_bool_decide; [done|]. destruct (accept_leader_fields n1 req) as (T2 & _).
  set (n2 := accept_leader n1 req) in *. clearbody n2. destruct (append_and_commit_same n2 req) as (_ & T3 & _).
  case_bool_decide; [|by rewrite T3, T2]. destruct (Log.GetEntry _ _) as [e [|]]; simpl; [|by rewrite T2].
  case_bool_decide; simpl; [by rewrite T2|by rewrite T3, T2].
Qed.

Lemma requestVoteFromPeer_bound n v T o B :
  n_currentTerm n <= B -> match o with Some r => vresp_Term r <= B | None => True end ->
  n_currentTerm (fst (requestVoteFromPeer n v T o)) <= B.
Proof.
  unfold requestVoteFromPeer. destruct o as [r|]; [|done]. intros ??.
  repeat case_bool_decide; simpl; try done. by destruct (vresp_VoteGranted r).
Qed.

(** ** Every event keeps the invariant *)

(** A step of goroutine [g], whose replica settles, to [g'] of the same kind. *)
Lemma step_keep k g g' new n' l :
  loops_ok l -> settles (lp_node l) n' -> lp_gs l !! k = Some g ->
  is_timer g' = is_timer g -> is_applier g' = is_applier g -> loop_of g' = loop_of g -> (g = GHeartbeat -> g' = GHeartbeat) ->
  count is_timer new = 0%nat -> count is_applier new = 0%nat -> replicas new = [] ->
  loops_ok (step k [g'] new n' l).
Proof.
  intros Hok Hse Hk Ht Ha Hl Hh Hnt Hna Hnr.
  apply (step_ok k [g'] new (mkLoops n' (lp_gs l) (lp_stop l)) g); simpl; try done.
  - by apply settles_ok.
  - by rewrite count_cons, Ht, Hnt, Nat.add_0_r.
  - by rewrite count_cons, Ha, Hna, Nat.add_0_r.
  - left. unfold replicas. simpl. by rewrite Hl.
  - intros _ Hg. rewrite (Hh Hg). by left.
Qed.

(** A goroutine that is none of the replica's loops ends. *)
Lemma step_end k g new n' l :
  loops_ok l -> settles (lp_node l) n' -> lp_gs l !! k = Some g -> is_timer g = false -> is_applier g = false ->
  (forall p, n_state n' = Leader -> loop_of g <> Some (p, n_currentTerm n')) -> (n_state n' = Leader -> g <> GHeartbeat) ->
  count is_timer new = 0%nat -> count is_applier new = 0%nat -> replicas new = [] ->
  loops_ok (step k [] new n' l).
Proof.
  intros Hok Hse Hk Ht Ha Hl Hh Hnt Hna Hnr.
  apply (step_ok k [] new (mkLoops n' (lp_gs l) (lp_stop l)) g); simpl; try done.
  - by apply settles_ok.
  - by rewrite Ht, Hnt.
  - by rewrite Ha, Hna.
  - by right.
  - intros Hs Hg. by destruct (Hh Hs).
Qed.

Lemma return_keep k p back n' g l :
  loops_ok l -> settles (lp_node l) n' -> lp_gs l !! k = Some g ->
  is_timer g = false -> is_applier g = false -> g <> GHeartbeat -> loop_of g = (fun T => (p, T)) <$> back ->
  loops_ok (step k (return_to p back) [] n' l).
Proof.
  intros Hok Hse Hk Ht Ha Hh Hl. destruct back as [T|]; simpl in *.
  - by apply (step_keep k g).
  - eapply step_end; try done. intros p' _. by rewrite Hl.
Qed.

Lemma lp_exec_ok ev l l' :
  loops_ok l -> lp_stop l = false -> 0 <= n_currentTerm (lp_node l) < MaxInt64 -> lp_exec ev l = Some l' ->
  lp_stop l' = true \/ loops_ok l'.
Proof.
  intros Hok Hst HT He. unfold lp_exec in He. destruct ev as [|k|k|k|k p o|k|k|k|k|k|k|k o|req|req|s].
  all: try (destruct (lp_gs l !! k) as [g|] eqn:Hk; [|try done; try (by rewrite Hst in He)]).
  - injection He as <-. by left.
  - by rewrite Hst in He.
  - destruct g; try done. destruct (n_resetElectionCh (lp_node l)) eqn:Hc; [done|]. injection He as <-. right.
    by apply (step_keep k GTimer).
  - destruct g; try done. unfold runElectionTimer in He. case_bool_decide as Hs.
    + injection He as <-. right. by apply (step_keep k GTimer).
    + destruct (startElection_begin_spec (lp_node l) HT) as (n1 & Hb & Hs1 & HT1 & Hp1). rewrite Hb in He.
      injection He as <-. right.
      apply (step_keep k GTimer _ [] n1 (mkLoops n1 (lp_gs l) (lp_stop l))); try done.
      apply candidate_ok; simpl; try done. lia.
  - destruct g; try done. case_bool_decide; [|done].
    pose proof (requestVoteFromPeer_settles (lp_node l) votes term o) as Hse.
    destruct (requestVoteFromPeer _ _ _ _) as [n1 v1]. injection He as <-. right.
    by apply (step_keep k (GElection term votes pending)).
  - destruct g as [|T v pend| | | | | |]; try done. destruct pend; [|done].
    unfold startElection_finish in He. case_bool_decide as Hc.
    + injection He as <-. right. by apply (step_keep k (GElection T v [])).
    + case_bool_decide; injection He as <-; right.
      * rewrite launched_leader. eapply launch_ok; try done; [destruct (decide (n_state (lp_node l) = Candidate)); [done|by destruct Hc; left]|].
        destruct (decide (n_currentTerm (lp_node l) = T)); [done|by destruct Hc; right].
      * by apply (step_keep k (GElection T v [])).
  - destruct g; try done. injection He as <-. right. apply (step_keep k GApplier); try done. apply applyCommitted_settles.
  - destruct g; try done. unfold runHeartbeatLoop in He. destruct (calls_none (sendHeartbeats (lp_node l))) as (? & ? & ?).
    case_bool_decide; injection He as <-; right; [by apply (step_keep k GHeartbeat)|by eapply step_end].
  - destruct g as [| | | |p T| | |]; try done. destruct (n_newEntryCh (lp_node l)); [done|]. unfold runReplicationLoop in He.
    assert (settles (lp_node l) (set_newEntryCh (tl (n_newEntryCh (lp_node l))) (lp_node l))) as Hse by by apply settles_same.
    destruct (_ && _) eqn:Hc; injection He as <-; right; [by apply (step_keep k (GReplication p T))|].
    eapply step_end; try done. intros p' Hs [= _ HTT]. simpl in *.
    by rewrite !bool_decide_true in Hc.
  - destruct g; try done. injection He as <-. right. destruct (calls_none (sendHeartbeats (lp_node l))) as (? & ? & ?).
    by eapply step_end.
  - destruct g as [| | | | | |p back|]; try done.
    destruct (sendAppendEntries_request _ _) as [req|]; injection He as <-; right.
    + apply (step_keep k (GCall p back)); try done.
    + by eapply return_keep.
  - destruct g as [| | | | | | |p req back]; try done. injection He as <-. right.
    eapply return_keep; try done. apply response_settles.
  - injection He as <-. right. apply settles_ok; [done|]. apply HandleVoteRequest_settles.
  - injection He as <-. right. apply settles_ok; [done|]. apply HandleAppendEntries_settles.
  - injection He as <-. right. apply settles_ok; [done|]. apply HandleStroke_settles.
Qed.

Lemma lp_exec_term ev l l' B :
  0 <= n_currentTerm (lp_node l) <= B -> event_term ev <= B -> B < MaxInt64 -> lp_exec ev l = Some l' ->
  0 <= n_currentTerm (lp_node l') <= B + 1.
Proof.
  intros HT Hev HB He.
  assert (forall n', settles (lp_node l) n' -> n_currentTerm n' <= B -> 0 <= n_currentTerm n' <= B + 1) as Hup.
  { intros n' [_ Hle _] ?. lia. }
  unfold lp_exec in He. destruct ev as [|k|k|k|k p o|k|k|k|k|k|k|k o|req|req|s]; simpl in Hev.
  all: try (destruct (lp_gs l !! k) as [g|] eqn:Hk; [|by repeat case_match]).
  - injection He as <-. simpl. lia.
  - repeat case_match; simplify_eq; simpl; lia.
  - repeat case_match; simplify_eq; simpl; lia.
  - destruct g; try done. unfold runElectionTimer in He. case_bool_decide; [injection He as <-; simpl; lia|].
    destruct (startElection_begin_spec (lp_node l)) as (n1 & Hb & _ & HT1 & _); [lia|]. rewrite Hb in He.
    injection He as <-. simpl. lia.
  - destruct g; try done. case_bool_decide; [|done].
    pose proof (requestVoteFromPeer_settles (lp_node l) votes term o) as Hse.
    pose proof (requestVoteFromPeer_bound (lp_node l) votes term o B) as Hb.
    destruct (requestVoteFromPeer _ _ _ _) as [n1 v1]. injection He as <-. simpl in *. apply Hup; [done|].
    apply Hb; [lia|by destruct o].
  - destruct g as [|T v pend| | | | | |]; try done. destruct pend; [|done].
    unfold startElection_finish in He. repeat case_bool_decide; injection He as <-; simpl; try lia.
    pose proof (init_indexes_fields (Log.LastIndex (n_log (lp_node l))) (n_peers (lp_node l))
      (set_leaderID (n_id (lp_node l)) (set_state Leader (lp_node l)))) as (_ & _ & Ht & _).
    unfold becomeLeader. simpl in *. rewrite Ht. lia.
  - destruct g; try done. injection He as <-. simpl.
    assert (n_currentTerm (applyCommitted (lp_node l)) = n_currentTerm (lp_node l)) as ->; [|lia].
    apply applyCommitted_same.
  - destruct g; try done. case_match; injection He as <-; simpl; lia.
  - destruct g; try done. destruct (n_newEntryCh _); [done|]. unfold runReplicationLoop in He.
    destruct (_ && _); injection He as <-; simpl; lia.
  - destruct g; try done. injection He as <-. simpl. lia.
  - destruct g; try done. case_match; injection He as <-; simpl; lia.
  - destruct g as [| | | | | | |p req back]; try done. injection He as <-. simpl. apply Hup; [apply response_settles|].
    apply response_bound; [lia|by destruct o].
  - injection He as <-. simpl. apply Hup; [apply HandleVoteRequest_settles|].
    pose proof (HandleVoteRequest_outcome (lp_node l) req) as (_ & _ & -> & _). lia.
  - injection He as <-. simpl. apply Hup; [apply HandleAppendEntries_settles|]. apply HandleAppendEntries_bound; lia.
  - injection He as <-. simpl. unfold HandleStroke. case_bool_decide; simpl; lia.
Qed.

(** Whether the loops have been told to stop only changes once. *)
Lemma lp_exec_stop ev l l' : lp_exec ev l = Some l' -> lp_stop l' = false -> lp_stop l = false.
Proof.
  intros He. assert (lp_stop l' = lp_stop l \/ lp_stop l' = true) as [->| ->]; [|done|done].
  unfold lp_exec in He. repeat case_match; simplify_eq; simpl; auto.
Qed.

Lemma lp_run_stop tr : forall l l', lp_run tr l = Some l' -> lp_stop l' = false -> lp_stop l = false.
Proof.
  induction tr as [|ev tr IH]; simpl; intros l l'; [by intros [= ->]|].
  intros (l1 & He & Hr)%bind_Some Hs. eapply lp_exec_stop; [exact He|]. by eapply IH.
Qed.

Lemma lp_run_ok tr : forall l l' B,
  loops_ok l -> 0 <= n_currentTerm (lp_node l) <= B -> Forall (fun ev => event_term ev <= B) tr ->
  B + Z.of_nat (length tr) <= MaxInt64 -> lp_run tr l = Some l' -> lp_stop l' = false -> loops_ok l'.
Proof.
  induction tr as [|ev tr IH]; simpl; intros l l' B Hok HT Hev HB; [by intros [= <-]|].
  intros (l1 & He & Hr)%bind_Some Hs. apply list.Forall_cons in Hev as [Hev Htr].
  pose proof (lp_run_stop tr _ _ Hr Hs) as Hs1. pose proof (lp_exec_stop _ _ _ He Hs1) as Hs0.
  destruct (lp_exec_ok ev l l1 Hok Hs0) as [?|Hok1]; [lia|done|congruence|].
  eapply (IH l1 l' (B + 1)); try done.
  - eapply lp_exec_term; [exact HT|done|lia|done].
  - eapply list.Forall_impl; [exact Htr|]. simpl. lia.
  - lia.
Qed.

Lemma Start_ok n : n_state n = Follower -> NoDup (n_peers n) -> loops_ok (Start n).
Proof.
  intros Hs Hnd. split; simpl; try done; try (by constructor); try (by rewrite Hs); by intros ? ? ?%elem_of_nil.
Qed.

(** C13: (a leader's goroutines) until it is told to stop, a replica always has
    one election timer and one commit applier, and while it leads in a term it
    has a heartbeat loop and, for every peer, exactly one replication loop of
    that term; no replica has two loops for one peer and term. *)
Theorem leader_has_loops cfg tr l B :
  NoDup (cfg_PeerAddrs cfg) -> 0 <= B -> Forall (fun ev => event_term ev <= B) tr -> B + Z.of_nat (length tr) <= MaxInt64 ->
  lp_run tr (Start (NewNode cfg)) = Some l -> lp_stop l = false ->
  count is_timer (lp_gs l) = 1%nat /\ count is_applier (lp_gs l) = 1%nat /\ NoDup (replicas (lp_gs l)) /\
  (n_state (lp_node l) = Leader -> GHeartbeat ∈ lp_gs l /\
    forall p, p ∈ n_peers (lp_node l) -> (p, n_currentTerm (lp_node l)) ∈ replicas (lp_gs l)).
Proof.
  intros Hnd HB0 Hev HB Hr Hs.
  assert (loops_ok l) as Hok; [|split_and!; apply Hok].
  apply (lp_run_ok tr (Start (NewNode cfg)) l B); [by apply Start_ok| |done..]. simpl. lia.
Qed.

(** ** The work of a tick *)

Section work.
Context (P : nat).

(** What a goroutine can still do without a tick, a signal or a message. *)
Definition work (g : goroutine) : nat :=
  match g with
  | GTimer | GApplier | GHeartbeat | GReplication _ _ => 1
  | GElection _ _ pending => length pending + (4 + 3 * P)
  | GBeat => 1 + 2 * P
  | GCall _ back => match back with Some _ => 3 | None => 2 end
  | GAwait _ _ back => match back with Some _ => 2 | None => 1 end
  end.

Definition total (gs : list goroutine) : nat := sum_list_with work gs.

(** The events that come from a clock, another goroutine's signal or the
    network. *)
Definition is_external (ev : loop_event) : bool :=
  match ev with
  | LpReturn _ | LpVote _ _ _ | LpTally _ | LpBeat _ | LpSend _ | LpReply _ _ => false
  | _ => true
  end.

Lemma total_become k now new gs g :
  gs !! k = Some g -> (total (become k now new gs) + work g = total gs + total now + total new)%nat.
Proof.
  intros Hk. destruct (become_split k now new gs g Hk) as (l1 & l2 & -> & ->). unfold total.
  rewrite !sum_list_with_app. simpl. lia.
Qed.

Lemma total_calls ps : total (map (fun p => GCall p None) ps) = (2 * length ps)%nat.
Proof. induction ps as [|p ps IH]; simpl; [done|]. unfold total in *. simpl. lia. Qed.

Lemma total_launched n T : total (launched n T) = (2 + length (n_peers n) + 2 * P)%nat.
Proof.
  unfold launched, total. simpl. rewrite sum_list_with_app. simpl.
  induction (n_peers n) as [|p ps IH]; simpl in *; lia.
Qed.

Lemma drop_peer_length p l : p ∈ l -> S (length (drop_peer p l)) = length l.
Proof.
  induction l as [|q l IH]; [by intros ?%elem_of_nil|]. intros Hp. simpl. case_bool_decide; [done|]. simpl.
  apply elem_of_cons in Hp as [?|Hp]; [done|]. by rewrite IH.
Qed.

(** The peers of a replica do not change. *)
Lemma lp_exec_peers ev l l' : lp_exec ev l = Some l' -> n_peers (lp_node l') = n_peers (lp_node l).
Proof.
  intros He. unfold lp_exec in He. destruct ev as [|k|k|k|k p o|k|k|k|k|k|k|k o|req|req|s].
  all: try (destruct (lp_gs l !! k) as [g|] eqn:Hk; [|by repeat case_match]).
  - by simplify_eq.
  - by repeat case_match; simplify_eq.
  - by repeat case_match; simplify_eq.
  - destruct g; try done. unfold runElectionTimer in He. by case_bool_decide; injection He as <-.
  - destruct g; try done. case_bool_decide; [|done].
    pose proof (requestVoteFromPeer_settles (lp_node l) votes term o) as [Hp _ _].
    destruct (requestVoteFromPeer _ _ _ _) as [n1 v1]. by injection He as <-.
  - destruct g as [|T v pend| | | | | |]; try done. destruct pend; [|done].
    unfold startElection_finish in He. repeat case_bool_decide; injection He as <-; try done.
    by destruct (init_indexes_fields (Log.LastIndex (n_log (lp_node l))) (n_peers (lp_node l))
      (set_leaderID (n_id (lp_node l)) (set_state Leader (lp_node l)))) as (_ & Hp & _).
  - destruct g; try done. injection He as <-. apply applyCommitted_same.
  - destruct g; try done. by case_match; injection He as <-.
  - destruct g; try done. destruct (n_newEntryCh _); [done|]. unfold runReplicationLoop in He.
    by destruct (_ && _); injection He as <-.
  - destruct g; try done. by injection He as <-.
  - destruct g; try done. by case_match; injection He as <-.
  - destruct g; try done. injection He as <-. apply response_settles.
  - injection He as <-. apply HandleVoteRequest_settles.
  - injection He as <-. apply HandleAppendEntries_settles.
  - injection He as <-. apply HandleStroke_settles.
Qed.

Lemma length_sendHeartbeats n : (length (sendHeartbeats n) <= length (n_peers n))%nat.
Proof. unfold sendHeartbeats. case_bool_decide; simpl; lia. Qed.

Lemma length_return_to p back : total (return_to p back) = match back with Some _ => 1%nat | None => 0%nat end.
Proof. by destruct back. Qed.

(** An event that is not external uses up work; an external one adds a
    bounded amount. *)
Lemma lp_exec_work ev l l' :
  length (n_peers (lp_node l)) = P -> lp_exec ev l = Some l' ->
  if is_external ev then (total (lp_gs l') <= total (lp_gs l) + (3 + 4 * P))%nat
  else (total (lp_gs l') < total (lp_gs l))%nat.
Proof.
  intros HP He. unfold lp_exec in He.
  assert (forall k now new g, lp_gs l !! k = Some g ->
    (total (become k now new (lp_gs l)) + work g = total (lp_gs l) + total now + total new)%nat) as Htot.
  { intros. by apply total_become. }
  pose proof (length_sendHeartbeats (lp_node l)) as Hsh.
  destruct ev as [|k|k|k|k p o|k|k|k|k|k|k|k o|req|req|s]; simpl is_external; cbn iota.
  all: try (destruct (lp_gs l !! k) as [g|] eqn:Hk; [|by repeat case_match]).
  - injection He as <-. simpl. lia.
  - destruct (lp_stop l); [|done]. destruct g as [|T v [|]| | | | | |]; simplify_eq; simpl; specialize (Htot k [] [] _ Hk); simpl in *; lia.
  - destruct g; try done. destruct (n_resetElectionCh _); [done|]. injection He as <-. simpl.
    specialize (Htot k [GTimer] [] _ Hk). simpl in *. lia.
  - destruct g; try done. unfold runElectionTimer in He. case_bool_decide; injection He as <-; simpl.
    + specialize (Htot k [GTimer] [] _ Hk). simpl in *. lia.
    + specialize (Htot k [GElection (wrap64 (n_currentTerm (lp_node l) + 1)) 1 (n_peers (lp_node l))] [] _ Hk).
      simpl in *. lia.
  - destruct g as [|T v pend| | | | | |]; try done. case_bool_decide as Hp; [|done].
    destruct (requestVoteFromPeer _ _ _ _) as [n1 v1]. injection He as <-. simpl. apply drop_peer_length in Hp.
    specialize (Htot k [GElection T v1 (drop_peer p pend)] [] _ Hk). simpl in *. lia.
  - destruct g as [|T v pend| | | | | |]; try done. destruct pend; [|done].
    unfold startElection_finish in He. repeat case_bool_decide; injection He as <-; simpl; rewrite ?launched_leader.
    + specialize (Htot k [GTimer] [] _ Hk). simpl in *. lia.
    + specialize (Htot k [GTimer] (launched (lp_node l) T) _ Hk). rewrite total_launched, HP in Htot. simpl in *. lia.
    + specialize (Htot k [GTimer] [] _ Hk). simpl in *. lia.
  - destruct g; try done. injection He as <-. simpl. specialize (Htot k [GApplier] [] _ Hk). simpl in *. lia.
  - destruct g; try done. unfold runHeartbeatLoop in He. case_bool_decide; injection He as <-; simpl.
    + specialize (Htot k [GHeartbeat] (map (fun p => GCall p None) (sendHeartbeats (lp_node l))) _ Hk).
      rewrite total_calls in Htot. simpl in *. lia.
    + specialize (Htot k [] [] _ Hk). simpl in *. lia.
  - destruct g as [| | | |p T| | |]; try done. destruct (n_newEntryCh _); [done|]. unfold runReplicationLoop in He.
    destruct (_ && _); injection He as <-; simpl.
    + specialize (Htot k [GCall p (Some T)] [] _ Hk). simpl in *. lia.
    + specialize (Htot k [] [] _ Hk). simpl in *. lia.
  - destruct g; try done. injection He as <-. simpl.
    specialize (Htot k [] (map (fun p => GCall p None) (sendHeartbeats (lp_node l))) _ Hk).
    rewrite total_calls in Htot. simpl in *. lia.
  - destruct g as [| | | | | |p back|]; try done.
    destruct (sendAppendEntries_request _ _) as [req|]; injection He as <-; simpl.
    + specialize (Htot k [GAwait p req back] [] _ Hk). simpl in *. destruct back; lia.
    + specialize (Htot k (return_to p back) [] _ Hk). rewrite length_return_to in Htot. simpl in *. destruct back; lia.
  - destruct g as [| | | | | | |p req back]; try done. injection He as <-. simpl.
    specialize (Htot k (return_to p back) [] _ Hk). rewrite length_return_to in Htot. simpl in *. destruct back; lia.
  - injection He as <-. simpl. lia.
  - injection He as <-. simpl. lia.
  - injection He as <-. simpl. lia.
Qed.
End work.

Definition externals (tr : list loop_event) : nat := length (List.filter is_external tr).

(** C28: (bounded work) whatever the interleaving, the goroutines of a replica
    take a bounded number of steps of their own per tick, signal or message:
    every run is at most as long as the work it starts with and a constant,
    linear in the number of peers, for each external event. *)
Theorem work_bounded tr : forall l l',
  let P := length (n_peers (lp_node l)) in
  lp_run tr l = Some l' -> (length tr + total P (lp_gs l') <= total P (lp_gs l) + externals tr * (4 + 4 * P))%nat.
Proof.
  induction tr as [|ev tr IH]; simpl; intros l l'; [intros [= ->]; lia|].
  intros (l1 & He & Hr)%bind_Some. pose proof (lp_exec_peers ev l l1 He) as Hp.
  pose proof (lp_exec_work (length (n_peers (lp_node l))) ev l l1 eq_refl He) as Hw.
  specialize (IH l1 l' Hr). rewrite Hp in IH. unfold externals in *. simpl. destruct (is_external ev); simpl; lia.
Qed.

(** The goroutine's way out once it is told to stop. *)
Definition way_out (g : goroutine) : loop_event :=
  match g with
  | GElection _ _ (p :: _) => LpVote 0 p None
  | GTimer | GElection _ _ [] | GApplier | GHeartbeat | GReplication _ _ => LpReturn 0
  | GBeat => LpBeat 0
  | GCall _ _ => LpSend 0
  | GAwait _ _ _ => LpReply 0 None
  end.

Lemma way_out_step l g gs :
  lp_stop l = true -> lp_gs l = g :: gs -> exists l', lp_exec (way_out g) l = Some l' /\ lp_stop l' = true /\
    is_external (way_out g) = false.
Proof.
  intros Hs Hg. destruct g as [|T v [|p ps]| | | | | |]; simpl; rewrite Hg; simpl; rewrite ?Hs; try (eexists; split_and!; done).
  - rewrite bool_decide_true by (by left). eexists. split_and!; done.
  - destruct (sendAppendEntries_request _ _); eexists; split_and!; done.
Qed.

(** (stopping) once a replica is told to stop, all its goroutines can end
    with no further tick, signal or message: calls in progress fail, loops
    return, and no more steps are needed than the work that was left. *)
Theorem stop_drains l :
  lp_stop l = true -> exists tr l', lp_run tr l = Some l' /\ lp_gs l' = [] /\ externals tr = 0%nat /\
    (length tr <= total (length (n_peers (lp_node l))) (lp_gs l))%nat.
Proof.
  remember (total (length (n_peers (lp_node l))) (lp_gs l)) as w eqn:Hw. revert l Hw.
  induction (Nat.lt_wf_0 w) as [w _ IH]. intros l -> Hs. destruct (lp_gs l) as [|g gs] eqn:Hg.
  { exists [], l. by split_and!. }
  destruct (way_out_step l g gs Hs Hg) as (l1 & He & Hs1 & Hx). pose proof (lp_exec_peers _ l l1 He) as Hp.
  pose proof (lp_exec_work (length (n_peers (lp_node l))) _ l l1 eq_refl He) as Hw. rewrite Hx, Hg in Hw.
  destruct (IH (total (length (n_peers (lp_node l1))) (lp_gs l1)) ltac:(rewrite Hp; lia) l1 eq_refl Hs1) as (tr & l2 & Hr & Hnil & Hext & Hlen).
  exists (way_out g :: tr), l2. split_and!; [by simpl; rewrite He|done| |].
  - unfold externals in *. simpl. by rewrite Hx.
  - rewrite Hp in Hlen. eapply Nat.le_trans; [|exact Hw]. by apply (proj1 (Nat.succ_le_mono _ _)).
Qed.

Module LoopsRuns.
Open Scope string_scope.

Definition pair : Config := mkConfig "node1" ["replica2:9002"] "gateway:8080".

(** An election that [replica2] decides. *)
Definition win (T : int) : list loop_event :=
  [LpFire 0; LpVote 0 "replica2:9002" (Some (mkVoteResponse T true)); LpTally 0].

Definition after (tr : list loop_event) : Loops := default (Start (NewNode pair)) (lp_run tr (Start (NewNode pair))).

(** Elected in term 1, deposed by a candidate of term 2, elected in term 3. *)
Definition reelected : list loop_event :=
  (win 1 ++ [LpVoteRequest (mkVoteRequest 2 "node2" 0 0)] ++ win 3)%list.

Definition is_heartbeat (g : goroutine) : bool := match g with GHeartbeat => true | _ => false end.

(** (two heartbeat loops) the heartbeat loop checks that its replica
    leads, not in which term: a replica deposed and elected again between two
    ticks runs two of them, and stays so. *)
Theorem double_heartbeat :
  lp_run reelected (Start (NewNode pair)) = Some (after reelected) /\
  n_state (lp_node (after reelected)) = Leader /\ n_currentTerm (lp_node (after reelected)) = 3 /\
  count is_heartbeat (lp_gs (after reelected)) = 2%nat /\
  replicas (lp_gs (after reelected)) = [("replica2:9002", 1); ("replica2:9002", 3)].
Proof. split_and!; vm_compute; reflexivity. Qed.

Lemma leader_has_loops_witness :
  count is_timer (lp_gs (after reelected)) = 1%nat /\ GHeartbeat ∈ lp_gs (after reelected).
Proof.
  destruct (leader_has_loops pair reelected (after reelected) 3) as (Ht & _ & _ & Hl).
  - apply NoDup_singleton.
  - lia.
  - repeat (constructor; [vm_compute; discriminate|]). constructor.
  - vm_compute. discriminate.
  - vm_compute. reflexivity.
  - vm_compute. reflexivity.
  - split; [exact Ht|]. apply Hl. vm_compute. reflexivity.
Defined.

Lemma work_bounded_witness :
  (length reelected + total 1 (lp_gs (after reelected)) <= total 1 [GTimer; GApplier] + externals reelected * 8)%nat.
Proof. apply (work_bounded reelected (Start (NewNode pair)) (after reelected)). vm_compute. reflexivity. Defined.

Lemma stop_drains_witness :
  exists tr l', lp_run tr (after (reelected ++ [LpStop])%list) = Some l' /\ lp_gs l' = [] /\ (length tr <= 20)%nat.
Proof.
  destruct (stop_drains (after (reelected ++ [LpStop])%list)) as (tr & l' & Hr & Hnil & _ & Hlen); [vm_compute; reflexivity|].
  exists tr, l'. split_and!; [exact Hr|exact Hnil|]. etransitivity; [exact Hlen|]. apply (bool_decide_unpack _). vm_compute. exact I.
Defined.
End LoopsRuns.
