(* ===== verification/Goroutines.v ===== *)
(** * Goroutines: a cluster of replicas with their loops

    Cluster lets a leader send at any moment, and has no signals.  Here every
    replica is its goroutines (Loops), and a message is sent and answered by
    the goroutine that waits for it.  The two are related by what a protocol
    step can see: nodes are [alike] when they differ in their signal channels
    only.  Every run of the goroutines is a run of Cluster, so the theorems on
    runs hold of them. *)

From Stdlib Require Import ZArith Lia.
From stdpp Require Import base list strings gmap option.
From S2P Require Import Prelude Types RaftLog Node Election Replication Handlers Cluster.
From S2P Require Import History Invariant Frame Safety Scenario Agreement Loops.
Open Scope list_scope.
Open Scope Z_scope.

(** ** Nodes up to their signal channels *)

Definition with_signals (reset new : list unit) (n : Node) : Node :=
  set_newEntryCh new (set_resetElectionCh reset n).

Definition alike (n m : Node) : Prop := exists reset new, m = with_signals reset new n.

#[export] Instance alike_refl : Reflexive alike.
Proof. intros n. exists (n_resetElectionCh n), (n_newEntryCh n). by destruct n. Qed.
#[export] Instance alike_sym : Symmetric alike.
Proof. intros n m (a & b & ->). exists (n_resetElectionCh n), (n_newEntryCh n). by destruct n. Qed.
#[export] Instance alike_trans : Transitive alike.
Proof. intros n m q (a & b & ->) (a' & b' & ->). by exists a', b'. Qed.
#[export] Instance alike_equiv : Equivalence alike.
Proof. split; apply _. Qed.

(** Two results with alike nodes and the same answer. *)
Definition alike_with {A} (x y : Node * A) : Prop := alike (fst x) (fst y) /\ snd x = snd y.

Create HintDb alike.

Lemma alike_signals a b n m : alike n m -> alike n (with_signals a b m).
Proof. intros H. etrans; [exact H|]. by exists a, b. Qed.

Lemma becomeFollower_alike n m T l : alike n m -> alike (becomeFollower n T l) (becomeFollower m T l).
Proof. intros (a & b & ->). by exists a, b. Qed.

Lemma stepDown_alike n m T : alike n m -> alike_with (stepDown n T) (stepDown m T).
Proof. intros (a & b & ->). unfold stepDown, alike_with. simpl. case_bool_decide; split; try done; by exists a, b. Qed.

Lemma resetElectionTimer_alike n m : alike n m -> alike (resetElectionTimer n) (resetElectionTimer m).
Proof. intros (a & b & ->). by eexists _, b. Qed.

Lemma HandleVoteRequest_alike n m req : alike n m -> alike_with (HandleVoteRequest n req) (HandleVoteRequest m req).
Proof.
  intros Ha. unfold HandleVoteRequest. destruct (stepDown_alike n m (vreq_Term req) Ha) as [Hs _].
  assert (n_currentTerm n = n_currentTerm m) as HT by (by destruct Ha as (? & ? & ->)). rewrite HT.
  set (n1 := fst (stepDown n (vreq_Term req))) in *. set (m1 := fst (stepDown m (vreq_Term req))) in *.
  clearbody n1 m1. clear HT Ha n. destruct Hs as (a & b & ->). simpl. case_bool_decide; [split; [by exists a, b|done]|].
  destruct (_ && _); (split; [|done]); [by eexists _, b|by exists a, b].
Qed.

Lemma startElection_begin_alike n m : alike n m -> alike_with (startElection_begin n) (startElection_begin m).
Proof. intros (a & b & ->). split; [by exists a, b|done]. Qed.

Lemma requestVoteFromPeer_alike n m v T o : alike n m ->
  alike_with (requestVoteFromPeer n v T o) (requestVoteFromPeer m v T o).
Proof.
  intros (a & b & ->). unfold requestVoteFromPeer, alike_with. destruct o as [r|]; simpl; [|split; [by exists a, b|done]].
  repeat case_bool_decide; [split; [by exists a, b|done]..|]. destruct (vresp_VoteGranted r); (split; [by exists a, b|done]).
Qed.

Lemma init_indexes_alike x ps : forall n m, alike n m -> alike (init_indexes x ps n) (init_indexes x ps m).
Proof.
  induction ps as [|p ps IH]; intros n m Ha; [done|]. unfold init_indexes in *. simpl. apply IH.
  destruct Ha as (a & b & ->). by exists a, b.
Qed.

Lemma startElection_finish_alike n m T v : alike n m ->
  alike_with (startElection_finish n T v) (startElection_finish m T v).
Proof.
  intros (a & b & ->). unfold startElection_finish, alike_with. simpl. repeat case_bool_decide; simpl; (split; [|done]);
    try (by exists a, b). apply init_indexes_alike. by exists a, b.
Qed.

Lemma HandleStroke_alike n m s : alike n m -> alike_with (HandleStroke n s) (HandleStroke m s).
Proof.
  intros (a & b & ->). unfold HandleStroke, alike_with. simpl. case_bool_decide; simpl; (split; [|done]); [by exists a, b|].
  by eexists a, _.
Qed.

Lemma sendAppendEntries_request_alike n m p : alike n m -> sendAppendEntries_request n p = sendAppendEntries_request m p.
Proof. by intros (a & b & ->). Qed.

Lemma advance_alike fuel : forall i n m, alike n m -> alike (advance_loop fuel i n) (advance_loop fuel i m).
Proof.
  induction fuel as [|fuel IH]; intros i n m Ha; simpl; [done|]. pose proof Ha as (a & b & ->). simpl.
  case_bool_decide; [|done]. apply IH. unfold advance_at. simpl. repeat case_bool_decide; by exists a, b.
Qed.

Lemma response_alike n m p T es o : alike n m ->
  alike (sendAppendEntries_response n p T es o) (sendAppendEntries_response m p T es o).
Proof.
  intros Ha. unfold sendAppendEntries_response. destruct o as [r|]; [|done].
  destruct (stepDown_alike n m (aresp_Term r) Ha) as [Hs Hd].
  destruct (stepDown n _) as [n1 d], (stepDown m _) as [m1 d']. simpl in Hs, Hd. subst d'.
  destruct d; [done|]. destruct Hs as (a & b & ->). simpl. case_bool_decide; [by exists a, b|].
  destruct (aresp_Success r); [|repeat case_bool_decide; by exists a, b].
  case_bool_decide; unfold advanceCommitIndex; simpl; apply advance_alike; by exists a, b.
Qed.

Lemma accept_leader_alike n m req : alike n m -> alike (accept_leader n req) (accept_leader m req).
Proof.
  intros (a & b & ->). unfold accept_leader. simpl. repeat (case_bool_decide; simpl); try done; by eexists _, b.
Qed.

Lemma append_and_commit_alike n m req : alike n m -> alike_with (append_and_commit n req) (append_and_commit m req).
Proof.
  intros (a & b & ->). unfold append_and_commit, alike_with. simpl.
  destruct (if bool_decide _ then _ else _) as [l [|]]; simpl; [|split; [by exists a, b|done]].
  repeat (case_bool_decide; simpl); (split; [by exists a, b|done]).
Qed.

Lemma HandleAppendEntries_alike n m req : alike n m -> alike_with (HandleAppendEntries n req) (HandleAppendEntries m req).
Proof.
  intros Ha. unfold HandleAppendEntries. destruct (stepDown_alike n m (areq_Term req) Ha) as [Hs _].
  assert (n_currentTerm n = n_currentTerm m) as -> by (by destruct Ha as (? & ? & ->)).
  set (n1 := fst (stepDown n _)) in *. set (m1 := fst (stepDown m (areq_Term req))) in *. clearbody n1 m1. clear Ha.
  assert (n_currentTerm n1 = n_currentTerm m1) as -> by (by destruct Hs as (? & ? & ->)).
  case_bool_decide; [by split|]. pose proof (accept_leader_alike _ _ req Hs) as Hl.
  set (n2 := accept_leader n1 req) in *. set (m2 := accept_leader m1 req) in *. clearbody n2 m2. clear Hs.
  pose proof (append_and_commit_alike _ _ req Hl) as Hc.
  assert (n_log n2 = n_log m2) as -> by (by destruct Hl as (? & ? & ->)).
  case_bool_decide; [|done]. destruct (Log.GetEntry _ _) as [e [|]]; simpl; [|by split].
  case_bool_decide; [by split|done].
Qed.

Lemma apply_alike fuel : forall i c n m, alike n m -> alike (apply_loop fuel i c n) (apply_loop fuel i c m).
Proof.
  induction fuel as [|fuel IH]; intros i c n m Ha; simpl; [done|]. case_bool_decide; [|done].
  pose proof Ha as (a & b & ->). simpl. destruct (Log.GetEntry _ _) as [e [|]]; [|done]. apply IH.
  unfold send_commit. simpl. destruct (offer _ _ _) as [ch [|]]; by exists a, b.
Qed.

Lemma applyCommitted_alike n m : alike n m -> alike (applyCommitted n) (applyCommitted m).
Proof. intros (a & b & ->). unfold applyCommitted. simpl. apply apply_alike. by exists a, b. Qed.

#[export] Hint Resolve HandleVoteRequest_alike HandleAppendEntries_alike startElection_begin_alike requestVoteFromPeer_alike
  startElection_finish_alike HandleStroke_alike response_alike applyCommitted_alike : alike.

(** ** Replicas with their goroutines, and the messages between them *)

Record Replicas : Type := mkReplicas {
  gr_loops : gmap string Loops;
  gr_net : list message;
}.

Definition gr_init (D : Deployment) : Replicas := mkReplicas ((fun cfg => Start (NewNode cfg)) <$> d_cfgs D) [].

(** [g] is a goroutine's position, [k] a message's. *)
Inductive gr_event : Type :=
| GrLocal (i : string) (ev : loop_event)  (* a step of a goroutine, a failed call, a stroke, the stop *)
| GrHandle (k : nat)                      (* a request reaches its peer *)
| GrVote (g k : nat)                      (* a vote reaches the election that asked for it *)
| GrReply (g k : nat)                     (* a response reaches the goroutine that waits for it *)
| GrConsume (i : string).                 (* the notifier takes an entry *)

Definition is_local (ev : loop_event) : bool :=
  match ev with LpVote _ _ (Some _) | LpReply _ (Some _) | LpVoteRequest _ | LpAppendRequest _ => false | _ => true end.

(** The requests that a step sends. *)
Definition sends (i : string) (ev : loop_event) (l : Loops) : list message :=
  let n := lp_node l in
  match ev with
  | LpFire _ =>
      match runElectionTimer n TimerFired with
      | (n, TimerElection) => map (fun p => MVoteReq i p (snd (startElection_begin n))) (n_peers n)
      | _ => []
      end
  | LpSend k =>
      match lp_gs l !! k with
      | Some (GCall p _) => match sendAppendEntries_request n p with Some req => [MAppendReq i p req] | None => [] end
      | _ => []
      end
  | _ => []
  end.

(** Replica [i] takes a step and sends [ms]. *)
Definition advance (s : Replicas) (i : string) (ev : loop_event) (ms : Loops -> list message) : option Replicas :=
  l ← gr_loops s !! i;
  l' ← lp_exec ev l;
  Some (mkReplicas (<[i := l']> (gr_loops s)) (gr_net s ++ ms l)).

Definition gr_exec (D : Deployment) (ev : gr_event) (s : Replicas) : option Replicas :=
  match ev with
  | GrLocal i ev => if is_local ev then advance s i ev (sends i ev) else None
  | GrHandle k =>
      m ← gr_net s !! k;
      match m with
      | MVoteReq src p req =>
          advance s (d_host D p) (LpVoteRequest req) (fun l => [MVoteResp src p req (snd (HandleVoteRequest (lp_node l) req))])
      | MAppendReq src p req =>
          advance s (d_host D p) (LpAppendRequest req) (fun l =>
            match snd (HandleAppendEntries (lp_node l) req) with Ok resp => [MAppendResp src p req resp] | Panicked _ => [] end)
      | _ => None
      end
  | GrVote g k =>
      m ← gr_net s !! k;
      match m with
      | MVoteResp src p req resp =>
          l ← gr_loops s !! src;
          match lp_gs l !! g with
          | Some (GElection T _ _) =>
              if bool_decide (T = vreq_Term req) then advance s src (LpVote g p (Some resp)) (fun _ => []) else None
          | _ => None
          end
      | _ => None
      end
  | GrReply g k =>
      m ← gr_net s !! k;
      match m with
      | MAppendResp src p req resp =>
          l ← gr_loops s !! src;
          match lp_gs l !! g with
          | Some (GAwait p' req' _) =>
              if bool_decide (p' = p /\ req' = req) then advance s src (LpReply g (Some resp)) (fun _ => []) else None
          | _ => None
          end
      | _ => None
      end
  | GrConsume i =>
      l ← gr_loops s !! i;
      match n_commitCh (lp_node l) with
      | [] => None
      | _ :: ch =>
          Some (mkReplicas (<[i := mkLoops (set_commitCh ch (lp_node l)) (lp_gs l) (lp_stop l)]> (gr_loops s)) (gr_net s))
      end
  end.

Fixpoint gr_run (D : Deployment) (tr : list gr_event) (s : Replicas) : option Replicas :=
  match tr with
  | [] => Some s
  | ev :: tr => s ← gr_exec D ev s; gr_run D tr s
  end.

(** ** The simulation *)

Definition timers (gs : list goroutine) : list goroutine := List.filter is_timer gs.

(** The goroutine of the election timer and the election of Cluster. *)
Definition timer_ok (gs : list goroutine) (er : option ElectionRun) : Prop :=
  match timers gs with
  | [] => True
  | [GTimer] => er = None
  | [GElection T v ps] => er = Some (mkElectionRun T v ps)
  | _ => False
  end.

(** The peer a goroutine sends to. *)
Definition peer_of (g : goroutine) : option string :=
  match g with GReplication p _ | GCall p _ | GAwait p _ _ => Some p | _ => None end.

Definition calls_ok (l : Loops) : Prop :=
  forall g p, g ∈ lp_gs l -> peer_of g = Some p -> p ∈ n_peers (lp_node l).

Record matches (s : Replicas) (c : Cluster) : Prop := {
  mt_net : gr_net s = c_net c;
  mt_dom : forall i, is_Some (gr_loops s !! i) <-> is_Some (c_nodes c !! i);
  mt_node : forall i l m, gr_loops s !! i = Some l -> c_nodes c !! i = Some m -> alike (lp_node l) m;
  mt_timer : forall i l, gr_loops s !! i = Some l -> timer_ok (lp_gs l) (c_elections c !! i);
  mt_calls : forall i l, gr_loops s !! i = Some l -> calls_ok l;
}.

Lemma timers_app l1 l2 : timers (l1 ++ l2) = timers l1 ++ timers l2.
Proof. apply List.filter_app. Qed.

Lemma become_timers k now new gs g er :
  gs !! k = Some g -> timers new = [] -> timer_ok gs er ->
  if is_timer g then timers gs = [g] /\ timers (become k now new gs) = timers now
  else timers now = [] -> timers (become k now new gs) = timers gs.
Proof.
  intros Hk Hn Ht. destruct (become_split k now new gs g Hk) as (l1 & l2 & Hgs & ->). rewrite Hgs in *.
  unfold timer_ok in Ht. change (g :: l2) with ([g] ++ l2) in *. rewrite !timers_app, Hn, app_nil_r in *.
  destruct (is_timer g) eqn:Hg.
  - assert (timers [g] = [g]) as Hs by (unfold timers; simpl; by rewrite Hg). rewrite Hs in *.
    destruct (timers l1) as [|x [|]]; simpl in *; [destruct (timers l2) as [|y l]; [by rewrite app_nil_r|by destruct g]| |];
      by destruct x.
  - intros ->. assert (timers [g] = []) as -> by (unfold timers; simpl; by rewrite Hg). done.
Qed.

Lemma calls_timers ps : timers (map (fun p => GCall p None) ps) = [].
Proof. by induction ps. Qed.

Lemma launched_timers n T : timers (launched n T) = [].
Proof. unfold launched. simpl. change (timers (map (fun p => GReplication p T) (n_peers n) ++ [GBeat]) = []). rewrite timers_app. simpl. rewrite app_nil_r. by induction (n_peers n). Qed.

Lemma return_timers p back : timers (return_to p back) = [].
Proof. by destruct back. Qed.

Lemma become_elem k now new gs g : g ∈ become k now new gs -> g ∈ gs \/ g ∈ now ++ new.
Proof.
  unfold become. rewrite !elem_of_app. intros [H|[?|[H|?]]]; [|tauto| |tauto].
  - left. eapply elem_of_sublist; [exact H|apply sublist_take].
  - left. eapply elem_of_sublist; [exact H|apply sublist_drop].
Qed.

Lemma step_calls l k g now new n :
  calls_ok l -> lp_gs l !! k = Some g ->
  (forall x q, x ∈ now ++ new -> peer_of x = Some q -> peer_of g = Some q \/ q ∈ n_peers (lp_node l)) ->
  n_peers n = n_peers (lp_node l) -> calls_ok (step k now new n l).
Proof.
  intros Hok Hk Hnew Hn x q Hx Hq. simpl in *. rewrite Hn.
  apply become_elem in Hx as [Hx|Hx]; [by eapply Hok|].
  destruct (Hnew x q Hx Hq); [|done]. eapply Hok; [by eapply list_elem_of_lookup_2|done].
Qed.

Lemma keep_calls l n b : calls_ok l -> n_peers n = n_peers (lp_node l) -> calls_ok (mkLoops n (lp_gs l) b).
Proof. intros Hok Hn x q Hx Hq. simpl in *. rewrite Hn. by eapply Hok. Qed.

Lemma calls_peers ps x q : x ∈ map (fun p => GCall p None) ps -> peer_of x = Some q -> q ∈ ps.
Proof. intros (p & -> & ?)%list_elem_of_fmap. simpl. by intros [= <-]. Qed.

Lemma return_peers p back x q : x ∈ return_to p back -> peer_of x = Some q -> Some p = Some q.
Proof. destruct back as [T|]; simpl; [intros ->%list_elem_of_singleton; done|by intros ?%elem_of_nil]. Qed.

(** Every goroutine sends to peers of its replica. *)
Lemma exec_calls ev l l' : calls_ok l -> lp_exec ev l = Some l' -> calls_ok l'.
Proof.
  intros Hok He. pose proof (lp_exec_peers ev l l' He) as Hp.
  unfold lp_exec in He. destruct ev as [|k|k|k|k p o|k|k|k|k|k|k|k o|req|req|s].
  all: try (destruct (lp_gs l !! k) as [g|] eqn:Hk; [|by repeat case_match]).
  - simplify_eq. by apply keep_calls.
  - destruct (lp_stop l); [|done]. assert (calls_ok (step k [] [] (lp_node l) l)).
    { eapply step_calls; [done|done| |done]. by intros x q ?%elem_of_nil. }
    by destruct g as [|T v [|]| | | | | |]; simplify_eq.
  - destruct g, (n_resetElectionCh (lp_node l)); simplify_eq. eapply step_calls; [done|done| |done].
    by intros x q ->%list_elem_of_singleton.
  - destruct g; try done. destruct (runElectionTimer _ _) as [n1 a] eqn:Hrun. unfold runElectionTimer in Hrun.
    case_bool_decide; simplify_eq/=; (eapply step_calls; [done|done| |done]); by intros x q ->%list_elem_of_singleton.
  - destruct g; try done. case_bool_decide; [|done]. destruct (requestVoteFromPeer _ _ _ _) as [n1 v1]. simplify_eq.
    eapply step_calls; [done|done| |done]. by intros x q ->%list_elem_of_singleton.
  - destruct g as [|T v [|]| | | | | |]; try done. destruct (startElection_finish _ _ _) as [n1 [|]]; simplify_eq.
    + eapply step_calls; [done|done| |done]. unfold launched. intros x q.
      simpl. rewrite !elem_of_cons, elem_of_app, list_elem_of_singleton. intros [->|[->|[(p & -> & ?)%list_elem_of_fmap| ->]]]; try done.
      simpl. intros [= <-]. right. by rewrite <- Hp.
    + eapply step_calls; [done|done| |done]. by intros x q ->%list_elem_of_singleton.
  - destruct g; simplify_eq. eapply step_calls; [done|done| |done]. by intros x q ->%list_elem_of_singleton.
  - destruct g; try done. unfold runHeartbeatLoop in He. case_bool_decide; simplify_eq; (eapply step_calls; [done|done| |done]).
    + intros x q Hx Hq. right. apply elem_of_app in Hx as [->%list_elem_of_singleton|Hx]; [done|].
      pose proof (calls_peers _ _ _ Hx Hq) as Hin. unfold sendHeartbeats in Hin. by rewrite bool_decide_false in Hin by tauto.
    + by intros x q ?%elem_of_nil.
  - destruct g; try done. destruct (n_newEntryCh _); [done|]. destruct (runReplicationLoop _ _) as [n1 [|]]; simplify_eq;
      (eapply step_calls; [done|done| |done]); [|by intros x q ?%elem_of_nil].
    intros x q ->%list_elem_of_singleton. simpl. by left.
  - destruct g; simplify_eq. eapply step_calls; [done|done| |done]. intros x q Hx Hq. right.
    simpl in Hx. pose proof (calls_peers _ _ _ Hx Hq) as Hin. unfold sendHeartbeats in Hin. case_bool_decide; [by apply elem_of_nil in Hin|done].
  - destruct g as [| | | | | |p back|]; try done. destruct (sendAppendEntries_request _ p); simplify_eq; (eapply step_calls; [done|done| |done]).
    + intros x q ->%list_elem_of_singleton. simpl. by left.
    + intros x q Hx Hq. rewrite app_nil_r in Hx. left. by eapply return_peers.
  - destruct g as [| | | | | | |p req back]; simplify_eq. eapply step_calls; [done|done| |done].
    intros x q Hx Hq. rewrite app_nil_r in Hx. left. by eapply return_peers.
  - simplify_eq. by apply keep_calls.
  - simplify_eq. by apply keep_calls.
  - simplify_eq. by apply keep_calls.
Qed.

Section simulation.
Context (D : Deployment).

(** What Cluster does for one step of the goroutines: nothing, or one event. *)
Definition simulated (c : Cluster) (s' : Replicas) : Prop :=
  exists tr c', (length tr <= 1)%nat /\ run D tr c = Some c' /\ matches s' c'.

Lemma timer_keep k g now new gs er :
  gs !! k = Some g -> is_timer g = false -> timers now = [] -> timers new = [] -> timer_ok gs er ->
  timer_ok (become k now new gs) er.
Proof.
  intros Hk Hg Hn Hw Ht. pose proof (become_timers k now new gs g er Hk Hw Ht) as H. rewrite Hg in H.
  unfold timer_ok in *. by rewrite (H Hn).
Qed.

Lemma timer_now k g now new gs er :
  gs !! k = Some g -> is_timer g = true -> timers new = [] -> timer_ok gs er ->
  timers gs = [g] /\ timers (become k now new gs) = timers now.
Proof. intros Hk Hg Hw Ht. pose proof (become_timers k now new gs g er Hk Hw Ht) as H. by rewrite Hg in H. Qed.

Lemma matches_node s c i l : matches s c -> gr_loops s !! i = Some l ->
  exists m, c_nodes c !! i = Some m /\ alike (lp_node l) m.
Proof.
  intros Hm Hl. destruct (proj1 (mt_dom _ _ Hm i)) as [m Hi]; [by exists l|]. exists m. split; [done|]. by eapply mt_node.
Qed.

Lemma matches_step s c c' i l l' ms m' :
  matches s c -> gr_loops s !! i = Some l -> c_nodes c' = <[i := m']> (c_nodes c) ->
  (forall j, j <> i -> c_elections c' !! j = c_elections c !! j) -> c_net c' = c_net c ++ ms ->
  alike (lp_node l') m' -> timer_ok (lp_gs l') (c_elections c' !! i) -> calls_ok l' ->
  matches (mkReplicas (<[i := l']> (gr_loops s)) (gr_net s ++ ms)) c'.
Proof.
  intros Hm Hl Hn He Hnet Ha Ht Hc. pose proof Hm as [M1 M2 M3 M4 M5]. split; simpl.
  - by rewrite Hnet, M1.
  - intros j. rewrite Hn, !lookup_insert_is_Some, M2. done.
  - intros j x y. rewrite Hn. intros [[<- <-]|[Hj Hx]]%lookup_insert_Some.
    + by rewrite lookup_insert_eq; intros [= <-].
    + rewrite lookup_insert_ne by done. by apply M3.
  - intros j x [[<- <-]|[Hj Hx]]%lookup_insert_Some; [done|]. rewrite He by done. by apply M4.
  - intros j x [[<- <-]|[Hj Hx]]%lookup_insert_Some; [done|]. by eapply M5.
Qed.

(** A step that Cluster does not see. *)
Lemma unseen s c i l l' :
  matches s c -> gr_loops s !! i = Some l -> alike (lp_node l) (lp_node l') ->
  timer_ok (lp_gs l') (c_elections c !! i) -> calls_ok l' ->
  simulated c (mkReplicas (<[i := l']> (gr_loops s)) (gr_net s ++ [])).
Proof.
  intros Hm Hl Ha Ht Hc. destruct (matches_node s c i l Hm Hl) as (m & Hi & Hal). exists [], c. split_and!; [simpl; lia|done|].
  apply (matches_step s c c i l l' [] m); try done; [by rewrite insert_id|by rewrite app_nil_r|].
  etrans; [symmetry; exact Ha|exact Hal].
Qed.

(** A step that is one event of Cluster at the replica. *)
Lemma seen s c c' i l l' ev ms m' :
  matches s c -> gr_loops s !! i = Some l -> exec D ev c = Some c' -> c_nodes c' = <[i := m']> (c_nodes c) ->
  (forall j, j <> i -> c_elections c' !! j = c_elections c !! j) -> c_net c' = c_net c ++ ms ->
  alike (lp_node l') m' -> timer_ok (lp_gs l') (c_elections c' !! i) -> calls_ok l' ->
  simulated c (mkReplicas (<[i := l']> (gr_loops s)) (gr_net s ++ ms)).
Proof.
  intros Hm Hl He ??????. exists [ev], c'. split_and!; [simpl; lia|cbn [run]; by rewrite He|]. by eapply matches_step.
Qed.

(** An election of Cluster is the goroutine's. *)
Lemma election_of s c i l k T v ps :
  matches s c -> gr_loops s !! i = Some l -> lp_gs l !! k = Some (GElection T v ps) ->
  c_elections c !! i = Some (mkElectionRun T v ps).
Proof.
  intros Hm Hl Hk. pose proof (mt_timer _ _ Hm i l Hl) as Ht.
  destruct (timer_now k (GElection T v ps) [] [] _ _ Hk eq_refl eq_refl Ht) as [H _]. unfold timer_ok in Ht. by rewrite H in Ht.
Qed.

Lemma fire_simulated s c i l l' k :
  matches s c -> gr_loops s !! i = Some l -> lp_exec (LpFire k) l = Some l' ->
  simulated c (mkReplicas (<[i := l']> (gr_loops s)) (gr_net s ++ sends i (LpFire k) l)).
Proof.
  intros Hm Hl He. pose proof (exec_calls _ _ _ (mt_calls _ _ Hm i l Hl) He) as Hc.
  pose proof (mt_timer _ _ Hm i l Hl) as Ht. destruct (matches_node s c i l Hm Hl) as (m & Hi & Ha).
  cbn [lp_exec] in He. cbn [sends]. destruct (lp_gs l !! k) as [g|] eqn:Hk; [|done]. destruct g; try done.
  destruct (timer_now k GTimer [GTimer] [] _ _ Hk eq_refl eq_refl Ht) as [Hts Hb].
  assert (c_elections c !! i = None) as Her by (unfold timer_ok in Ht; by rewrite Hts in Ht).
  unfold runElectionTimer in *. assert (n_state (lp_node l) = n_state m /\ n_peers (lp_node l) = n_peers m) as [Hst Hpe] by (by destruct Ha as (? & ? & ->)).
  rewrite Hst in *. case_bool_decide as Hs; simplify_eq/=.
  - eapply unseen; try done. unfold timer_ok, step. simpl. by rewrite Hb.
  - destruct (startElection_begin_alike _ _ Ha) as [Ha' Hreq].
    destruct (timer_now k GTimer [GElection (wrap64 (n_currentTerm (lp_node l) + 1)) 1 (n_peers (lp_node l))] [] _ _ Hk eq_refl eq_refl Ht) as [_ Hb'].
    refine (seen s c _ i l _ (EvTimeout i) _ _ Hm Hl _ _ _ _ _ _ Hc).
    + unfold exec. rewrite Hi. cbn [mbind option_bind]. rewrite Her. unfold runElectionTimer. rewrite bool_decide_false by done.
      unfold startElection_begin. reflexivity.
    + reflexivity.
    + simpl. intros j Hj. by rewrite lookup_partial_alter_ne.
    + change (c_net c ++ map (fun p => MVoteReq i p (snd (startElection_begin m))) (n_peers m) =
        c_net c ++ map (fun p => MVoteReq i p (snd (startElection_begin (lp_node l)))) (n_peers (lp_node l))).
      by rewrite Hpe, Hreq.
    + exact Ha'.
    + unfold timer_ok, step. simpl. rewrite lookup_partial_alter_eq. rewrite Hb'. simpl. by destruct Ha as (? & ? & ->).
Qed.

Lemma vote_simulated s c i l l' k p o ev :
  matches s c -> gr_loops s !! i = Some l -> lp_exec (LpVote k p o) l = Some l' ->
  (forall m T v ps, c_nodes c !! i = Some m -> c_elections c !! i = Some (mkElectionRun T v ps) -> p ∈ ps ->
     lp_gs l !! k = Some (GElection T v ps) ->
     exec D ev c = Some (set_election (put c i (fst (requestVoteFromPeer m v T o))) i
                           (Some (mkElectionRun T (snd (requestVoteFromPeer m v T o)) (remove_one p ps))))) ->
  simulated c (mkReplicas (<[i := l']> (gr_loops s)) (gr_net s ++ [])).
Proof.
  intros Hm Hl He Hev. pose proof (exec_calls _ _ _ (mt_calls _ _ Hm i l Hl) He) as Hc.
  pose proof (mt_timer _ _ Hm i l Hl) as Ht. destruct (matches_node s c i l Hm Hl) as (m & Hi & Ha).
  cbn [lp_exec] in He. destruct (lp_gs l !! k) as [g|] eqn:Hk; [|done]. destruct g as [|T v ps| | | | | |]; try done.
  case_bool_decide as Hp; [|done]. pose proof (election_of s c i l k T v ps Hm Hl Hk) as Her.
  destruct (requestVoteFromPeer_alike _ _ v T o Ha) as [Ha' Hv].
  destruct (requestVoteFromPeer (lp_node l) v T o) as [n1 v1]. simplify_eq. simpl in Ha', Hv. subst v1.
  destruct (timer_now k (GElection T v ps) [GElection T (snd (requestVoteFromPeer m v T o)) (drop_peer p ps)] [] _ _ Hk eq_refl eq_refl Ht) as [_ Hb].
  refine (seen s c _ i l _ ev _ _ Hm Hl (Hev m T v ps Hi Her Hp eq_refl) _ _ _ _ _ Hc).
  - reflexivity.
  - simpl. intros j Hj. by rewrite lookup_partial_alter_ne.
  - simpl. by rewrite app_nil_r.
  - exact Ha'.
  - unfold timer_ok, step. simpl. rewrite lookup_partial_alter_eq, Hb. simpl. done.
Qed.

Lemma tally_simulated s c i l l' k :
  matches s c -> gr_loops s !! i = Some l -> lp_exec (LpTally k) l = Some l' ->
  simulated c (mkReplicas (<[i := l']> (gr_loops s)) (gr_net s ++ [])).
Proof.
  intros Hm Hl He. pose proof (exec_calls _ _ _ (mt_calls _ _ Hm i l Hl) He) as Hc.
  pose proof (mt_timer _ _ Hm i l Hl) as Ht. destruct (matches_node s c i l Hm Hl) as (m & Hi & Ha).
  cbn [lp_exec] in He. destruct (lp_gs l !! k) as [g|] eqn:Hk; [|done]. destruct g as [|T v [|]| | | | | |]; try done.
  pose proof (election_of s c i l k T v [] Hm Hl Hk) as Her. destruct (startElection_finish_alike _ _ T v Ha) as [Ha' Hw].
  assert (exec D (EvElectionEnd i) c = Some (set_election (put c i (fst (startElection_finish m T v))) i None)) as Hex.
  { unfold exec. rewrite Hi. cbn [mbind option_bind]. rewrite Her. cbn [mbind option_bind er_pending er_term er_votes]. rewrite bool_decide_true by done.
    by destruct (startElection_finish m T v). }
  destruct (startElection_finish (lp_node l) T v) as [n1 b]. simpl in Ha', Hw. clear Hw.
  assert (exists new, timers new = [] /\ l' = step k [GTimer] new n1 l) as (new & Hnew & ->).
  { destruct b; injection He as <-; [exists (launched n1 T); split; [apply launched_timers|done]|by exists []]. }
  destruct (timer_now k (GElection T v []) [GTimer] new _ _ Hk eq_refl Hnew Ht) as [_ Hb].
  refine (seen s c _ i l _ (EvElectionEnd i) _ _ Hm Hl Hex _ _ _ _ _ Hc).
  - reflexivity.
  - simpl. intros j Hj. by rewrite lookup_partial_alter_ne.
  - simpl. by rewrite app_nil_r.
  - exact Ha'.
  - unfold timer_ok, step. simpl. rewrite lookup_partial_alter_eq, Hb. done.
Qed.

(** A step that changes the node as a handler of Cluster does, and no timer. *)
Lemma node_simulated s c i l l' ev ms m m' :
  matches s c -> gr_loops s !! i = Some l -> c_nodes c !! i = Some m ->
  exec D ev c = Some (post (put c i m') ms) -> alike (lp_node l') m' ->
  timer_ok (lp_gs l') (c_elections c !! i) -> calls_ok l' ->
  simulated c (mkReplicas (<[i := l']> (gr_loops s)) (gr_net s ++ ms)).
Proof. intros Hm Hl Hi He Ha Ht Hc. by refine (seen s c _ i l _ ev ms m' Hm Hl He _ _ _ Ha Ht Hc). Qed.

Lemma post_nil c : post c [] = c.
Proof. destruct c. unfold post. simpl. by rewrite app_nil_r. Qed.

Lemma put_same c i m : c_nodes c !! i = Some m -> put c i m = c.
Proof. intros Hi. destruct c. unfold put. simpl in *. by rewrite insert_id. Qed.

Lemma send_simulated s c i l l' k :
  matches s c -> gr_loops s !! i = Some l -> lp_exec (LpSend k) l = Some l' ->
  simulated c (mkReplicas (<[i := l']> (gr_loops s)) (gr_net s ++ sends i (LpSend k) l)).
Proof.
  intros Hm Hl He. pose proof (exec_calls _ _ _ (mt_calls _ _ Hm i l Hl) He) as Hc.
  pose proof (mt_timer _ _ Hm i l Hl) as Ht. destruct (matches_node s c i l Hm Hl) as (m & Hi & Ha).
  cbn [lp_exec] in He. cbn [sends]. destruct (lp_gs l !! k) as [g|] eqn:Hk; [|done]. destruct g as [| | | | | |p back|]; try done.
  pose proof (mt_calls _ _ Hm i l Hl _ p (list_elem_of_lookup_2 _ _ _ Hk) eq_refl) as Hp.
  pose proof (sendAppendEntries_request_alike _ _ p Ha) as Hreq.
  destruct (sendAppendEntries_request (lp_node l) p) as [req|] eqn:Hr; injection He as <-.
  - apply (node_simulated s c i l _ (EvSend i p) _ m m); try done.
    + unfold exec. rewrite Hi. cbn [mbind option_bind]. rewrite bool_decide_true.
      * by rewrite <- Hreq, (put_same c i m Hi).
      * unfold sendHeartbeats. destruct Ha as (a & b & ->). simpl in *. unfold sendAppendEntries_request in Hr.
        case_bool_decide; [done|]. exact Hp.
    + by eapply timer_keep.
  - eapply unseen; try done. eapply timer_keep; try done; apply return_timers.
Qed.

Lemma reply_simulated s c i l l' k p req back resp x :
  matches s c -> gr_loops s !! i = Some l -> lp_gs l !! k = Some (GAwait p req back) ->
  c_net c !! x = Some (MAppendResp i p req resp) -> lp_exec (LpReply k (Some resp)) l = Some l' ->
  simulated c (mkReplicas (<[i := l']> (gr_loops s)) (gr_net s ++ [])).
Proof.
  intros Hm Hl Hk Hx He. pose proof (exec_calls _ _ _ (mt_calls _ _ Hm i l Hl) He) as Hc.
  pose proof (mt_timer _ _ Hm i l Hl) as Ht. destruct (matches_node s c i l Hm Hl) as (m & Hi & Ha).
  cbn [lp_exec] in He. rewrite Hk in He. injection He as <-.
  apply (node_simulated s c i l _ (EvDeliver x) [] m (sendAppendEntries_response m p (areq_Term req) (areq_Entries req) (Some resp)));
    try done.
  - unfold exec. rewrite Hx. cbn [mbind option_bind deliver]. rewrite Hi. cbn [mbind option_bind]. by rewrite post_nil.
  - exact (response_alike _ _ p (areq_Term req) (areq_Entries req) (Some resp) Ha).
  - eapply timer_keep; try done. apply return_timers.
Qed.

Lemma local_simulated s c i ev l l' :
  matches s c -> gr_loops s !! i = Some l -> lp_exec ev l = Some l' -> is_local ev = true ->
  simulated c (mkReplicas (<[i := l']> (gr_loops s)) (gr_net s ++ sends i ev l)).
Proof.
  intros Hm Hl He Hloc.
  pose proof (exec_calls _ _ _ (mt_calls _ _ Hm i l Hl) He) as Hc. pose proof (mt_timer _ _ Hm i l Hl) as Ht.
  destruct (matches_node s c i l Hm Hl) as (m & Hi & Ha).
  destruct ev as [|k|k|k|k p o|k|k|k|k|k|k|k o|req|req|x]; try done; cbn [sends];
    [| | |by apply (fire_simulated s c i l l' k)|..|by apply (send_simulated s c i l l' k)| |].
  all: try (cbn [lp_exec] in He; destruct (lp_gs l !! k) as [g|] eqn:Hk; [|by repeat case_match]).
  - injection He as <-. by eapply unseen.
  - destruct (lp_stop l); [|done]. assert (l' = step k [] [] (lp_node l) l) as -> by (by destruct g as [|T v [|]| | | | | |]; simplify_eq).
    eapply unseen; try done. unfold timer_ok, step. simpl. pose proof (become_timers k [] [] _ g _ Hk eq_refl Ht) as Hb.
    destruct (is_timer g); [destruct Hb as [_ ->]|rewrite Hb by done]; done.
  - destruct g, (n_resetElectionCh (lp_node l)) as [|[] rest] eqn:Hch; try done. injection He as <-.
    eapply unseen; try done; [by exists rest, (n_newEntryCh (lp_node l)); simpl; rewrite Hch; destruct (lp_node l)|].
    destruct (timer_now k GTimer [GTimer] [] _ _ Hk eq_refl eq_refl Ht) as [Hts Hb].
    unfold timer_ok, step in *. rewrite Hts in Ht. simpl. by rewrite Hb.
  - destruct o; [done|]. eapply (vote_simulated s c i l l' k p None (EvVoteFail i p)); try done;
      [cbn [lp_exec]; by rewrite Hk|]. intros m' T v ps Hi' Her Hp _. unfold exec. rewrite Hi', Her.
    cbn [mbind option_bind er_pending er_term er_votes]. rewrite bool_decide_true by done.
    by destruct (requestVoteFromPeer m' v T None).
  - eapply (tally_simulated s c i l l' k); try done. cbn [lp_exec]. by rewrite Hk.
  - destruct g; try done. injection He as <-.
    apply (node_simulated s c i l _ (EvApply i) [] m (applyCommitted m)); try done.
    + unfold exec. rewrite Hi. cbn [mbind option_bind]. by rewrite post_nil.
    + by apply applyCommitted_alike.
    + by eapply timer_keep.
  - destruct g; try done. destruct (runHeartbeatLoop (lp_node l)) as [ps|]; injection He as <-; (eapply unseen; try done);
      eapply timer_keep; try done. apply calls_timers.
  - destruct g as [| | | |p T| | |]; try done. destruct (n_newEntryCh (lp_node l)) as [|[] rest] eqn:Hch; [done|].
    destruct (runReplicationLoop (lp_node l) T) as [n1 b] eqn:Hrun. unfold runReplicationLoop in Hrun.
    assert (alike (lp_node l) n1) as Ha1.
    { injection Hrun as <- _. exists (n_resetElectionCh (lp_node l)), rest. rewrite Hch. by destruct (lp_node l). }
    destruct b; injection He as <-; (eapply unseen; try done); by eapply timer_keep.
  - destruct g; try done. injection He as <-. eapply unseen; try done. eapply timer_keep; try done. apply calls_timers.
  - destruct o; [done|]. destruct g as [| | | | | | |p req back]; try done. injection He as <-. eapply unseen; try done.
    eapply timer_keep; try done. apply return_timers.
  - injection He as <-. apply (node_simulated s c i l _ (EvStroke i x) [] m (fst (HandleStroke m x))); try done.
    + unfold exec. rewrite Hi. cbn [mbind option_bind]. by rewrite post_nil.
    + by apply HandleStroke_alike.
Qed.

(** A request is handled: the timers are untouched. *)
Lemma handle_simulated s c i l l' ev m m' ms :
  matches s c -> gr_loops s !! i = Some l -> c_nodes c !! i = Some m ->
  (exists q, lp_exec q l = Some l') -> lp_gs l' = lp_gs l ->
  exec D ev c = Some (post (put c i m') ms) -> alike (lp_node l') m' ->
  simulated c (mkReplicas (<[i := l']> (gr_loops s)) (gr_net s ++ ms)).
Proof.
  intros Hm Hl Hi [q Hq] Hg He Ha. apply (node_simulated s c i l l' ev ms m m'); try done.
  - rewrite Hg. by apply (mt_timer _ _ Hm).
  - by apply (exec_calls q l l'); [apply (mt_calls _ _ Hm i)|].
Qed.

Lemma advance_inv s i ev ms s' :
  advance s i ev ms = Some s' -> exists l l', gr_loops s !! i = Some l /\ lp_exec ev l = Some l' /\
    s' = mkReplicas (<[i := l']> (gr_loops s)) (gr_net s ++ ms l).
Proof. intros (l & Hl & (l' & He & [= <-])%bind_Some)%bind_Some. by exists l, l'. Qed.

Lemma gr_exec_simulated ev s s' c : gr_exec D ev s = Some s' -> matches s c -> simulated c s'.
Proof.
  intros He Hm. pose proof (mt_net _ _ Hm) as Hnet. destruct ev as [i ev|k|g k|g k|i]; cbn [gr_exec] in He.
  - destruct (is_local ev) eqn:Hloc; [|done]. apply advance_inv in He as (l & l' & Hl & He & ->). by apply local_simulated.
  - apply bind_Some in He as (x & Hx & He). rewrite Hnet in Hx.
    destruct x as [src p req| |src p req|]; try done; apply advance_inv in He as (l & l' & Hl & He & ->);
      destruct (matches_node s c _ l Hm Hl) as (m & Hi & Ha).
    + destruct (HandleVoteRequest_alike _ _ req Ha) as [Ha' Hr].
      apply (handle_simulated s c (d_host D p) l l' (EvDeliver k) m (fst (HandleVoteRequest m req))); try done;
        [by eexists| | |]; injection He as <-; try done.
      unfold exec. rewrite Hx. cbn [mbind option_bind deliver]. rewrite Hi. cbn [mbind option_bind]. rewrite Hr.
      by destruct (HandleVoteRequest m req).
    + destruct (HandleAppendEntries_alike _ _ req Ha) as [Ha' Hr].
      apply (handle_simulated s c (d_host D p) l l' (EvDeliver k) m (fst (HandleAppendEntries m req))); try done;
        [by eexists| | |]; injection He as <-; try done.
      unfold exec. rewrite Hx. cbn [mbind option_bind deliver]. rewrite Hi. cbn [mbind option_bind]. rewrite Hr.
      destruct (HandleAppendEntries m req) as [n' [resp|e]]; [done|]. cbn [fst snd]. by rewrite post_nil.
  - apply bind_Some in He as (x & Hx & He). rewrite Hnet in Hx. destruct x as [|i p req resp| |]; try done.
    apply bind_Some in He as (l0 & Hl0 & He). destruct (lp_gs l0 !! g) as [[|T v0 ps0| | | | | |]|] eqn:Hg; try done.
    case_bool_decide as HT; [|done]. apply advance_inv in He as (l & l' & Hl & He & ->). assert (l0 = l) as -> by congruence.
    eapply (vote_simulated s c i l l' g p (Some resp) (EvDeliver k)); try done.
    intros m T1 v ps Hi Her Hp Hk. rewrite Hg in Hk. simplify_eq. unfold exec. rewrite Hx. cbn [mbind option_bind deliver].
    rewrite Hi, Her. cbn [mbind option_bind er_term er_votes er_pending]. rewrite bool_decide_true by done.
    by destruct (requestVoteFromPeer m v (vreq_Term req) (Some resp)).
  - apply bind_Some in He as (x & Hx & He). rewrite Hnet in Hx. destruct x as [| | |i p req resp]; try done.
    apply bind_Some in He as (l0 & Hl0 & He). destruct (lp_gs l0 !! g) as [[| | | | | | |p' req' back]|] eqn:Hg; try done.
    case_bool_decide as HT; [|done]. destruct HT as [-> ->]. apply advance_inv in He as (l & l' & Hl & He & ->). assert (l0 = l) as -> by congruence.
    by eapply (reply_simulated s c i l l' g p req back resp k).
  - apply bind_Some in He as (l & Hl & He). destruct (matches_node s c i l Hm Hl) as (m & Hi & Ha).
    destruct (n_commitCh (lp_node l)) as [|e ch] eqn:Hch; [done|]. injection He as <-.
    rewrite <- (app_nil_r (gr_net s)) at 1. apply (node_simulated s c i l _ (EvConsume i) [] m (set_commitCh ch m)); try done.
    + unfold exec. rewrite Hi. cbn [mbind option_bind]. assert (n_commitCh m = e :: ch) as -> by (by destruct Ha as (? & ? & ->)).
      by rewrite post_nil.
    + destruct Ha as (a & b & ->). by exists a, b.
    + apply (mt_timer _ _ Hm i l Hl).
    + apply (mt_calls _ _ Hm i l Hl).
Qed.

Lemma init_matches : matches (gr_init D) (init D).
Proof.
  split; simpl; try done.
  - intros i. rewrite !lookup_fmap, !fmap_is_Some. done.
  - intros i l m. rewrite !lookup_fmap. destruct (d_cfgs D !! i); simpl; [|done]. by intros [= <-] [= <-].
  - intros i l. rewrite lookup_fmap. destruct (d_cfgs D !! i); simpl; [|done]. by intros [= <-].
  - intros i l. rewrite lookup_fmap. destruct (d_cfgs D !! i); simpl; [|done]. intros [= <-] g p. simpl.
    rewrite !elem_of_cons, elem_of_nil. by intros [->|[->|[]]].
Qed.

Lemma gr_run_simulated tr : forall s s' c,
  gr_run D tr s = Some s' -> matches s c ->
  exists ctr c', (length ctr <= length tr)%nat /\ run D ctr c = Some c' /\ matches s' c'.
Proof.
  induction tr as [|ev tr IH]; simpl; intros s s' c; [intros [= <-] Hm; by exists [], c|].
  intros (s1 & He & Hr)%bind_Some Hm. destruct (gr_exec_simulated ev s s1 c He Hm) as (t1 & c1 & Hl1 & Hr1 & Hm1).
  destruct (IH s1 s' c1 Hr Hm1) as (t2 & c2 & Hl2 & Hr2 & Hm2). exists (t1 ++ t2), c2.
  split_and!; [rewrite length_app; lia|by rewrite run_app, Hr1|done].
Qed.

(** C5: (goroutines refine the cluster) every run of the replicas' goroutines -
    timers, votes, heartbeat and replication loops, senders waiting for their
    replies, signals, the stop - is a run of Cluster of at most as many
    events, with the same messages and the same replicas up to their signal
    channels: all the theorems on runs hold of it. *)
Theorem goroutines_refine tr s :
  gr_run D tr (gr_init D) = Some s ->
  exists ctr c, (length ctr <= length tr)%nat /\ run D ctr (init D) = Some c /\ gr_net s = c_net c /\
    (forall i, is_Some (gr_loops s !! i) <-> is_Some (c_nodes c !! i)) /\
    forall i l m, gr_loops s !! i = Some l -> c_nodes c !! i = Some m -> alike (lp_node l) m.
Proof.
  intros Hr. destruct (gr_run_simulated tr _ _ _ Hr init_matches) as (ctr & c & Hl & Hc & []). by exists ctr, c.
Qed.

(** (one leader, with goroutines) two replicas that lead in one term are the
    same replica: the safety of Cluster, carried over. *)
Theorem one_leader `{!WellDeployed D} tr s i j l l' :
  Z.of_nat (length tr) <= MaxInt64 -> gr_run D tr (gr_init D) = Some s ->
  gr_loops s !! i = Some l -> gr_loops s !! j = Some l' ->
  n_state (lp_node l) = Leader -> n_state (lp_node l') = Leader ->
  n_currentTerm (lp_node l) = n_currentTerm (lp_node l') -> i = j.
Proof.
  intros Hs Hr Hi Hj Hli Hlj HT. destruct (gr_run_simulated tr _ _ _ Hr init_matches) as (ctr & c & Hl & Hc & Hm).
  destruct (reach_one D ctr c) as (k & h & HI); [unfold short; lia|done|].
  destruct (matches_node s c i l Hm Hi) as (m & Hmi & (a & b & ->)).
  destruct (matches_node s c j l' Hm Hj) as (m' & Hmj & (a' & b' & ->)).
  destruct (leader_record D k c h i _ HI Hmi Hli) as (L & HL & <- & _).
  destruct (leader_record D k c h j _ HI Hmj Hlj) as (L' & HL' & <- & _). simpl in *. congruence.
Qed.
End simulation.

Module GoroutineRuns.
Open Scope string_scope.

(** node1's timer fires, node2 grants its vote, node3's call fails; node1 is
    elected and its first heartbeats reach node2, which answers. *)
Definition campaign : list gr_event :=
  [GrLocal "node1" (LpFire 0); GrHandle 0; GrVote 0 2; GrLocal "node1" (LpVote 0 "replica3:9003" None);
   GrLocal "node1" (LpTally 0); GrLocal "node1" (LpBeat 5); GrLocal "node1" (LpSend 5); GrHandle 3;
   GrReply 5 4; GrLocal "node2" (LpReset 0); GrLocal "node1" (LpStroke stroke1); GrLocal "node1" (LpWake 3);
   GrLocal "node1" (LpSend 3); GrHandle 5; GrReply 3 6]%nat.

Definition final : Replicas := default (gr_init trio) (gr_run trio campaign (gr_init trio)).

Lemma goroutines_refine_witness :
  n_commitIndex <$> (lp_node <$> gr_loops final !! "node1") = Some 1 /\
  exists ctr c, (length ctr <= 15)%nat /\ run trio ctr (init trio) = Some c /\ gr_net final = c_net c.
Proof.
  split; [vm_compute; reflexivity|].
  destruct (goroutines_refine trio campaign final) as (ctr & c & Hl & Hr & Hn & _); [vm_compute; reflexivity|].
  exists ctr, c. split; [exact Hl|]. split; [exact Hr|exact Hn].
Defined.
End GoroutineRuns.
