(* ===== verification/ApplyLoop.v ===== *)
(** * ApplyLoop: the applier and the notifier as two goroutines

    [applyCommitted] holds [n.mu] only to read its bounds and to write
    lastApplied: between any two of its steps the notifier may receive from
    the channel and the protocol may move the node.  [apply_step] is one step
    of the goroutine; [apply_sys] interleaves it with the others.  The
    entries sent are still a window of the committed log ([apply_inv]), but
    the step that drops the oldest notification can block for ever. *)

From Stdlib Require Import ZArith Lia.
From stdpp Require Import base list strings gmap option relations.
From S2P Require Import Prelude Types RaftLog Node Election Replication Cluster.
From S2P Require Import History Invariant Frame Safety Monotone Applier.
Open Scope list_scope.
Open Scope Z_scope.

(** Where the goroutine is.  [i] and [c] are its locals [i] and
    [commitIndex]; [e] is [entry]. *)
Inductive apply_pc : Type :=
| PcTick                                       (* waiting for the ticker *)
| PcLoop (i c : int)                           (* at the loop condition *)
| PcSelect (i c : int) (e : LogEntry)          (* at the select *)
| PcDrop (i c : int) (e : LogEntry)            (* at [<-n.commitCh] *)
| PcRetry (i c : int) (e : LogEntry)           (* at the second send *)
| PcApplied (i c : int).                       (* before [n.lastApplied = i] *)

(** One step of [applyCommitted]; [None] when it blocks. *)
Definition apply_step (s : Node * apply_pc) : option (Node * apply_pc) :=
  let '(n, pc) := s in
  match pc with
  | PcTick => Some (n, PcLoop (n_lastApplied n + 1) (n_commitIndex n))
  | PcLoop i c =>
      if bool_decide (i <= c) then
        let '(entry, ok) := Log.GetEntry (n_log n) i in
        if ok : bool then Some (n, PcSelect i c entry) else Some (n, PcTick)
      else Some (n, PcTick)
  | PcSelect i c e =>
      let '(ch, sent) := offer commitCap (n_commitCh n) e in
      if sent : bool then Some (set_commitCh ch n, PcApplied i c) else Some (n, PcDrop i c e)
  | PcDrop i c e =>
      match n_commitCh n with
      | [] => None
      | _ :: ch => Some (set_commitCh ch n, PcRetry i c e)
      end
  | PcRetry i c e =>
      let '(ch, sent) := offer commitCap (n_commitCh n) e in
      if sent : bool then Some (set_commitCh ch n, PcApplied i c) else None
  | PcApplied i c => Some (set_lastApplied i n, PcLoop (i + 1) c)
  end.

(** The goroutine, the notifier and the protocol, interleaved. *)
Inductive apply_sys : Node * apply_pc -> Node * apply_pc -> Prop :=
| sys_apply s s' : apply_step s = Some s' -> apply_sys s s'
| sys_receive n pc e ch : n_commitCh n = e :: ch -> apply_sys (n, pc) (set_commitCh ch n, pc)
| sys_protocol n n' pc : keeps n n' -> apply_sys (n, pc) (n', pc).

(** ** What the channel holds *)

(** The index of the last entry sent. *)
Definition sent_upto (n : Node) (pc : apply_pc) : Z :=
  match pc with PcApplied i _ => i | _ => n_lastApplied n end.

(** Where the goroutine may be, given the node. *)
Definition pc_ok (n : Node) (pc : apply_pc) : Prop :=
  match pc with
  | PcTick => True
  | PcLoop i c => i = n_lastApplied n + 1 /\ c <= n_commitIndex n
  | PcSelect i c e | PcDrop i c e | PcRetry i c e =>
      i = n_lastApplied n + 1 /\ i <= c <= n_commitIndex n /\ Log.entries (n_log n) !! Z.to_nat i = Some e
  | PcApplied i c => i = n_lastApplied n + 1 /\ i <= c <= n_commitIndex n
  end.

Record apply_inv (s : Node * apply_pc) : Prop := {
  ai_in : commit_in (fst s);
  ai_applied : applied_in (fst s);
  ai_cap : (length (n_commitCh (fst s)) <= commitCap)%nat;
  ai_window : n_commitCh (fst s) `suffix_of`
                entries_between (Log.entries (n_log (fst s))) 0 (sent_upto (fst s) (snd s));
  ai_pc : pc_ok (fst s) (snd s);
}.

Lemma suffix_tail {A} (x : A) l k : x :: l `suffix_of` k -> l `suffix_of` k.
Proof. intros [p ->]. exists (p ++ [x]). by rewrite <- app_assoc. Qed.

(** Sending the next entry keeps the channel a window. *)
Lemma window_send n e ch :
  commit_in n -> applied_in n -> n_lastApplied n + 1 <= n_commitIndex n ->
  Log.entries (n_log n) !! Z.to_nat (n_lastApplied n + 1) = Some e ->
  ch `suffix_of` entries_between (Log.entries (n_log n)) 0 (n_lastApplied n) ->
  ch ++ [e] `suffix_of` entries_between (Log.entries (n_log n)) 0 (n_lastApplied n + 1).
Proof.
  intros [? ?] [? ?] ? He Hch.
  rewrite (entries_between_app _ 0 (n_lastApplied n) (n_lastApplied n + 1)) by lia.
  rewrite (entries_between_cons _ (n_lastApplied n) _ e) by (lia || done).
  rewrite entries_between_nil. by apply suffix_app.
Qed.

Lemma apply_step_inv s s' : apply_inv s -> apply_step s = Some s' -> apply_inv s'.
Proof.
  destruct s as [n pc]. intros [Hin Ha Hcap Hw Hpc] Hs. simpl in *.
  destruct pc as [|i c|i c e|i c e|i c e|i c]; simpl in Hs.
  - simplify_eq. by split.
  - destruct Hpc as [-> Hc]. case_bool_decide; [|by simplify_eq; split].
    destruct (Log.GetEntry _ _) as [e [|]] eqn:Hg; [|by simplify_eq; split].
    simplify_eq. apply Log.GetEntry_Some in Hg as [_ He]. by split.
  - destruct Hpc as (-> & Hc & He). unfold offer in Hs. case_bool_decide; simplify_eq; [|by split].
    split; simpl; try done; [rewrite length_app; simpl; lia|]. apply window_send; try done; lia.
  - destruct (n_commitCh n) as [|x ch] eqn:Hch; simplify_eq.
    split; simpl; try done; [simpl in Hcap; lia|]. by eapply suffix_tail.
  - destruct Hpc as (-> & Hc & He). unfold offer in Hs. case_bool_decide; simplify_eq.
    split; simpl; try done; [rewrite length_app; simpl; lia|]. apply window_send; try done; lia.
  - destruct Hpc as (-> & Hc). simplify_eq. unfold applied_in in *. split; simpl; try done; unfold applied_in; simpl; lia.
Qed.

Lemma protocol_inv n n' pc : keeps n n' -> apply_inv (n, pc) -> apply_inv (n', pc).
Proof.
  intros Hk [Hin Ha Hcap Hw Hpc]. simpl in *. pose proof Hk as [].
  assert (pc_ok n' pc) as Hpc'.
  { destruct pc; simpl in *; rewrite ?kp_applied; try done; intuition; try lia.
    all: rewrite <- (agree_upto_lookup _ (Z.to_nat i) _ _ kp_log); [done|lia]. }
  unfold applied_in in *. split; simpl; rewrite ?kp_ch; [by auto|unfold applied_in; lia|done| |done].
  assert (sent_upto n' pc = sent_upto n pc) as -> by (destruct pc; simpl; congruence).
  erewrite <- (entries_between_agree (Log.entries (n_log n))); [done|].
  eapply agree_upto_le; [done|]. destruct pc; simpl in *; lia.
Qed.

Lemma apply_sys_inv s s' : apply_sys s s' -> apply_inv s -> apply_inv s'.
Proof.
  intros [s1 s2 Hs|n pc e ch Hch|n n' pc Hk] Hi; [by eapply apply_step_inv| |by eapply protocol_inv].
  destruct Hi as [Hin Ha Hcap Hw Hpc]. simpl in *. rewrite Hch in *.
  split; simpl; try done; [simpl in Hcap; lia|]. destruct pc; by eapply suffix_tail.
Qed.

(** C36: (interleaved delivery) however the applier, the notifier and the
    protocol interleave, the entry at the head of the commit channel is a
    committed entry of the log, and the channel never holds more than its
    capacity, nor an entry past what was sent. *)
Theorem apply_sys_window s s' e ch :
  apply_inv s -> rtc apply_sys s s' -> n_commitCh (fst s') = e :: ch ->
  e ∈ committed_prefix (fst s') /\ (length (e :: ch) <= commitCap)%nat /\
  e :: ch `suffix_of` entries_between (Log.entries (n_log (fst s'))) 0 (sent_upto (fst s') (snd s')).
Proof.
  intros Hi Hr Hch. assert (apply_inv s') as [Hin Ha Hcap Hw Hpc].
  { clear Hch. induction Hr as [|s1 s2 s3 Hs _ IH]; [done|]. apply IH. by eapply apply_sys_inv. }
  rewrite Hch in *. split_and!; [|done|done].
  destruct Hw as [p Hp]. assert (e ∈ entries_between (Log.entries (n_log (fst s'))) 0 (sent_upto (fst s') (snd s'))) as He.
  { rewrite Hp. apply elem_of_app. right. by constructor. }
  apply list_elem_of_lookup in He as [x Hx]. apply entries_between_lookup in Hx as [Hx Hlt].
  apply (list_elem_of_lookup_2 _ (S x)). unfold committed_prefix. rewrite lookup_take_lt; [done|].
  destruct Ha as [_ Ha]. destruct s' as [n pc]. destruct pc; simpl in *; lia.
Qed.

(** ** Blocking *)

(** The applier is blocked and every event leaves it so. *)
Definition stuck (s : Node * apply_pc) : Prop := exists i c e, snd s = PcDrop i c e /\ n_commitCh (fst s) = [].

(** (the applier can block for ever) once the notifier has drained the
    channel between the failed send and the drop, the applier waits on a
    channel only it fills: no event of the notifier or of the protocol wakes
    it, and no further entry is ever delivered. *)
Theorem applier_stuck_forever s s' :
  stuck s -> rtc apply_sys s s' -> stuck s' /\ apply_step s' = None /\ n_lastApplied (fst s') = n_lastApplied (fst s).
Proof.
  intros Hs Hr. induction Hr as [s|s1 s2 s3 Hstep _ IH].
  - split_and!; [done| |done]. destruct Hs as (i & c & e & Hpc & Hch). destruct s as [n pc]. simpl in *. subst. simpl. by rewrite Hch.
  - assert (stuck s2 /\ n_lastApplied (fst s2) = n_lastApplied (fst s1)) as [Hs2 Hl].
    { destruct Hs as (i & c & e & Hpc & Hch). destruct Hstep as [[n pc] s2 Ha|n pc x ch Hx|n n' pc []]; simpl in *.
      - subst pc. simpl in Ha. by rewrite Hch in Ha.
      - congruence.
      - split; [|done]. exists i, c, e. simpl. split; [done|congruence]. }
    destruct (IH Hs2) as (? & ? & ?). split_and!; [done..|congruence].
Qed.

(** A schedule: [true] runs the applier, [false] the notifier. *)
Fixpoint apply_exec (sched : list bool) (s : Node * apply_pc) : option (Node * apply_pc) :=
  match sched with
  | [] => Some s
  | true :: sched => s' ← apply_step s; apply_exec sched s'
  | false :: sched =>
      match n_commitCh (fst s) with
      | [] => None
      | _ :: ch => apply_exec sched (set_commitCh ch (fst s), snd s)
      end
  end.

Lemma apply_exec_rtc sched : forall s s', apply_exec sched s = Some s' -> rtc apply_sys s s'.
Proof.
  induction sched as [|[|] sched IH]; intros s s' Hr; simpl in Hr.
  - by simplify_eq.
  - apply bind_Some in Hr as (s1 & Hs & Hr). eapply rtc_l; [by constructor|by apply IH].
  - destruct s as [n pc]. simpl in Hr. destruct (n_commitCh n) as [|e ch] eqn:Hch; [done|].
    eapply rtc_l; [by eapply sys_receive|by apply IH].
Qed.

(** A follower that learns of 257 committed entries at once. *)
Definition backlog_entry (i : nat) : LogEntry := mkLogEntry (Z.of_nat i) (if bool_decide (i = 0%nat) then 0 else 1) zeroStroke.
Definition backlog : Node :=
  set_commitIndex 257 (set_log (Log.mk (map backlog_entry (seq 0 258)))
    (NewNode (mkConfig "node2" ["replica1:9001"] "gateway:8080")%string)).

(** 256 entries are sent, the 257th finds the channel full; the notifier then
    takes all 256 before the applier drops the oldest. *)
Definition drain_schedule : list bool :=
  true :: concat (replicate 256 [true; true; true]) ++ [true; true] ++ replicate 256 false.

(** the blocked state is reached: a backlog of 257 committed entries and a
    notifier that is fast at the wrong moment are enough. *)
Theorem applier_can_get_stuck :
  exists s', rtc apply_sys (backlog, PcTick) s' /\ stuck s' /\ n_lastApplied (fst s') = 256 /\ n_commitIndex (fst s') = 257.
Proof.
  destruct (apply_exec drain_schedule (backlog, PcTick)) as [s'|] eqn:Hr; [|by vm_compute in Hr].
  exists s'. split; [by eapply apply_exec_rtc|].
  assert (option_map (fun s => (n_commitCh (fst s), n_lastApplied (fst s), n_commitIndex (fst s),
            match snd s with PcDrop i c _ => Some (i, c) | _ => None end))
            (apply_exec drain_schedule (backlog, PcTick)) = Some ([], 256, 257, Some (257, 257))) as Hv
    by (vm_compute; reflexivity).
  rewrite Hr in Hv. clear Hr. destruct s' as [n pc]. cbn [option_map fst snd] in *.
  injection Hv as Hch Hl Hc Hpc. destruct pc as [| | |i c e| |]; try done.
  split_and!; [|done|done]. exists i, c, e. by split.
Qed.

Module ApplyLoopWitness.
Lemma apply_sys_window_witness :
  exists s', apply_exec [true; true; true] (backlog, PcTick) = Some s' /\
    n_commitCh (fst s') = [backlog_entry 1] /\ backlog_entry 1 ∈ committed_prefix (fst s').
Proof.
  destruct (apply_exec [true; true; true] (backlog, PcTick)) as [s'|] eqn:Hr; [|by vm_compute in Hr].
  exists s'. assert (n_commitCh (fst s') = [backlog_entry 1]) as Hch.
  { assert (option_map (fun s => n_commitCh (fst s)) (apply_exec [true; true; true] (backlog, PcTick)) = Some [backlog_entry 1]) as Hv
      by (vm_compute; reflexivity). rewrite Hr in Hv. by injection Hv. }
  split_and!; [done|done|]. apply (apply_sys_window (backlog, PcTick) s' (backlog_entry 1) []); [|by eapply apply_exec_rtc|done].
  split.
  - split; vm_compute; [discriminate|reflexivity].
  - split; vm_compute; discriminate.
  - apply Nat.le_0_l.
  - apply suffix_nil.
  - exact I.
Defined.

Definition blocked : Node * apply_pc := (backlog, PcDrop 257 257 (backlog_entry 257)).

Lemma applier_stuck_forever_witness : stuck blocked /\ apply_step blocked = None.
Proof.
  assert (stuck blocked) as Hs by (eexists _, _, _; split; reflexivity).
  split; [exact Hs|]. apply (applier_stuck_forever blocked blocked Hs). reflexivity.
Defined.
End ApplyLoopWitness.
