(* ===== verification/Notifier.v ===== *)
(** * Notifier: commit notifications to the gateway

    [runCommitNotifier] of [replica/cmd/main.go]: a goroutine per replica
    takes an entry from the commit channel, then asks whether the replica
    leads at that moment, and posts a notification only if it does.  The two
    steps are separate events: anything may happen between them. *)

From Stdlib Require Import ZArith Lia Sorted.
From stdpp Require Import base list strings gmap option.
From S2P Require Import Prelude Types RaftLog Node Election Replication Cluster.
From S2P Require Import History Invariant Frame Safety Monotone Applier Scenario Agreement.
Open Scope list_scope.
Open Scope Z_scope.

Definition notification_of (entry : LogEntry) : CommitNotification :=
  mkCommitNotification (le_Stroke entry) (le_Index entry) (le_Term entry).

(** What the loop body posts for an entry, on the node as it finds it. *)
Definition runCommitNotifier_body (node : Node) (entry : LogEntry) : option CommitNotification :=
  if negb (IsLeader node) then None else Some (notification_of entry).

(** The cluster, the entry each notifier has in hand, and what was posted, by
    whom, in order. *)
Record System : Type := mkSystem {
  s_cluster : Cluster;
  s_hand : gmap string LogEntry;
  s_posted : list (string * CommitNotification);
}.

Inductive sys_event : Type :=
| SysEvent (ev : event)          (* any event but a receive *)
| SysReceive (i : string)        (* [entry, ok := <-node.CommitCh()] *)
| SysNotify (i : string).        (* the rest of the loop body *)

Definition is_consume (ev : event) : bool := match ev with EvConsume _ => true | _ => false end.

Definition sys_exec (D : Deployment) (ev : sys_event) (s : System) : option System :=
  match ev with
  | SysEvent ev =>
      if is_consume ev then None
      else c ← exec D ev (s_cluster s); Some (mkSystem c (s_hand s) (s_posted s))
  | SysReceive i =>
      match s_hand s !! i, taken i (EvConsume i) (s_cluster s) with
      | None, [e] =>
          c ← exec D (EvConsume i) (s_cluster s); Some (mkSystem c (<[i := e]> (s_hand s)) (s_posted s))
      | _, _ => None
      end
  | SysNotify i =>
      n ← c_nodes (s_cluster s) !! i;
      e ← s_hand s !! i;
      Some (mkSystem (s_cluster s) (delete i (s_hand s))
              (s_posted s ++ match runCommitNotifier_body n e with Some ntf => [(i, ntf)] | None => [] end))
  end.

Fixpoint sys_run (D : Deployment) (tr : list sys_event) (s : System) : option System :=
  match tr with
  | [] => Some s
  | ev :: tr => s' ← sys_exec D ev s; sys_run D tr s'
  end.

Definition sys_init (D : Deployment) : System := mkSystem (init D) ∅ [].

(** The cluster's part of a trace. *)
Definition project (ev : sys_event) : list event :=
  match ev with
  | SysEvent ev => [ev]
  | SysReceive i => [EvConsume i]
  | SysNotify _ => []
  end.

Definition cluster_trace (tr : list sys_event) : list event := tr ≫= project.

Section notifier.
Context (D : Deployment) {WD : WellDeployed D}.

Lemma consumed_app i tr1 tr2 c c1 :
  run D tr1 c = Some c1 -> consumed D i (tr1 ++ tr2) c = consumed D i tr1 c ++ consumed D i tr2 c1.
Proof.
  revert c. induction tr1 as [|ev tr1 IH]; intros c Hr; simpl in *; [by simplify_eq|].
  apply bind_Some in Hr as (c' & He & Hr). rewrite He, <- app_assoc. f_equal. by apply IH.
Qed.

Lemma consumed_single i ev c c' : exec D ev c = Some c' -> consumed D i [ev] c = taken i ev c.
Proof. intros He. simpl. rewrite He. by rewrite app_nil_r. Qed.

(** Whatever a notifier holds or has posted, it has taken from its channel. *)
Record sys_ok (tr : list event) (s : System) : Prop := {
  so_run : run D tr (init D) = Some (s_cluster s);
  so_hand : forall i e, s_hand s !! i = Some e -> e ∈ consumed D i tr (init D);
  so_posted : forall i a, (i, a) ∈ s_posted s ->
    exists e, e ∈ consumed D i tr (init D) /\ a = notification_of e;
}.

Lemma sys_ok_step tr s c ev :
  sys_ok tr s -> exec D ev (s_cluster s) = Some c ->
  sys_ok (tr ++ [ev]) (mkSystem c (s_hand s) (s_posted s)).
Proof.
  intros [Hr Hh Hp] He. assert (forall i e, e ∈ consumed D i tr (init D) -> e ∈ consumed D i (tr ++ [ev]) (init D)) as Hsub.
  { intros i e ?. rewrite (consumed_app _ _ _ _ _ Hr). apply elem_of_app. by left. }
  split; simpl.
  - rewrite run_app, Hr. simpl. by rewrite He.
  - intros i e ?%Hh. by apply Hsub.
  - intros i a (e & ? & ->)%Hp. exists e. split; [by apply Hsub|done].
Qed.

Lemma sys_exec_ok tr s s' ev :
  sys_ok tr s -> sys_exec D ev s = Some s' -> sys_ok (tr ++ project ev) s'.
Proof.
  intros Hok He. destruct ev as [ev|i|i]; simpl in He.
  - destruct (is_consume ev); [done|]. apply bind_Some in He as (c & He & [= <-]). by apply sys_ok_step.
  - destruct (s_hand s !! i) eqn:Hh; [done|].
    destruct (taken i (EvConsume i) (s_cluster s)) as [|e [|]] eqn:Ht; unfold taken in Ht; rewrite Ht in He; try done.
    apply bind_Some in He as (c & He & [= <-]).
    destruct (sys_ok_step tr s c (EvConsume i) Hok He) as [Hr' Hh' Hp']. split; simpl in *; [done| |done].
    intros j x [[<- <-]|[_ ?]]%lookup_insert_Some; [|by apply Hh'].
    rewrite (consumed_app _ _ _ _ _ (so_run _ _ Hok)). apply elem_of_app. right.
    rewrite (consumed_single i (EvConsume i) _ c He). unfold taken. rewrite Ht. by constructor.
  - apply bind_Some in He as (n & Hn & (e & Hh & [= <-])%bind_Some). simpl. rewrite app_nil_r.
    destruct Hok as [Hr Hhand Hp]. split; simpl; [done| |].
    + intros j x [_ ?]%lookup_delete_Some. by apply Hhand.
    + intros j a [?|Hin]%elem_of_app; [by apply Hp|].
      unfold runCommitNotifier_body in Hin. destruct (IsLeader n); simpl in Hin; [|by apply elem_of_nil in Hin].
      apply list_elem_of_singleton in Hin. simplify_eq. exists e. split; [by apply Hhand|done].
Qed.

Lemma sys_run_ok tr : forall tr0 s s',
  sys_ok tr0 s -> sys_run D tr s = Some s' -> sys_ok (tr0 ++ cluster_trace tr) s'.
Proof.
  induction tr as [|ev tr IH]; intros tr0 s s' Hok Hr; simpl in *.
  - simplify_eq. unfold cluster_trace. simpl. by rewrite app_nil_r.
  - apply bind_Some in Hr as (s1 & He & Hr). unfold cluster_trace. simpl. rewrite app_assoc.
    eapply IH; [|done]. by eapply sys_exec_ok.
Qed.

(** (only committed strokes are announced) every notification any replica
    posts, at any moment of a run, is that of an entry the replica knows to be
    committed, and two notifications of one index are equal, whoever posted
    them. *)
Theorem notifications_committed tr s i j a b :
  short (cluster_trace tr) -> sys_run D tr (sys_init D) = Some s ->
  (i, a) ∈ s_posted s -> (j, b) ∈ s_posted s ->
  (exists n e, c_nodes (s_cluster s) !! i = Some n /\
     committed_prefix n !! Z.to_nat (cn_Index a) = Some e /\ a = notification_of e) /\
  (cn_Index a = cn_Index b -> a = b).
Proof.
  intros Hs Hr Ha Hb. destruct (sys_run_ok tr [] (sys_init D) s) as [Hrun _ Hp]; [|done|].
  { split; simpl; [done|by intros ? ? ?%lookup_empty_Some|by intros ? ? ?%elem_of_nil]. }
  simpl in *. set (ctr := cluster_trace tr) in *.
  apply Hp in Ha as (e & He & ->). apply Hp in Hb as (e' & He' & ->).
  destruct (consumed_committed D _ _ _ _ Hs Hrun He) as (n & Hn & _ & Hpre).
  destruct (consumed_committed D _ _ _ _ Hs Hrun He') as (n' & Hn' & _ & Hpre').
  destruct (reach_one D ctr _ Hs Hrun) as (k & h & HI). split.
  - exists n, e. by split_and!.
  - simpl. intros Hidx. f_equal.
    eapply (committed_prefix_agree D _ _ _ i j n n' (Z.to_nat (le_Index e))); try done. by rewrite Hidx.
Qed.

(** *** The order of one replica's announcements *)

Definition posted_by (i : string) (l : list (string * CommitNotification)) : list CommitNotification :=
  omap (fun x => if bool_decide (fst x = i) then Some (snd x) else None) l.

(** What a replica has posted, and what its notifier holds, is a selection of
    what it has taken, in order. *)
Definition ordered (tr : list event) (s : System) : Prop :=
  forall i, posted_by i (s_posted s) ++ option_list (notification_of <$> s_hand s !! i)
              `sublist_of` map notification_of (consumed D i tr (init D)).

Lemma ordered_init : ordered [] (sys_init D).
Proof. intros i. simpl. by rewrite lookup_empty. Qed.

Lemma ordered_exec tr s s' ev :
  run D tr (init D) = Some (s_cluster s) -> ordered tr s -> sys_exec D ev s = Some s' -> ordered (tr ++ project ev) s'.
Proof.
  intros Hr Ho He i. specialize (Ho i). destruct ev as [ev|j|j]; simpl in He.
  - destruct (is_consume ev); [done|]. apply bind_Some in He as (c & _ & [= <-]). simpl.
    rewrite (consumed_app _ _ _ _ _ Hr), map_app. by apply sublist_inserts_r.
  - destruct (s_hand s !! j) eqn:Hh; [done|].
    destruct (taken j (EvConsume j) (s_cluster s)) as [|e [|]] eqn:Ht; unfold taken in Ht; rewrite Ht in He; try done.
    apply bind_Some in He as (c & He & [= <-]). simpl.
    rewrite (consumed_app _ _ _ _ _ Hr), (consumed_single i (EvConsume j) _ c He), map_app.
    destruct (decide (i = j)) as [->|Hij].
    + rewrite lookup_insert_eq. unfold taken. rewrite Ht. rewrite Hh, app_nil_r in Ho. simpl. by apply sublist_app.
    + rewrite lookup_insert_ne by done. by apply sublist_inserts_r.
  - apply bind_Some in He as (n & _ & (e & Hh & [= <-])%bind_Some). simpl. rewrite app_nil_r.
    unfold posted_by in *. rewrite omap_app. destruct (decide (i = j)) as [->|Hij].
    + rewrite lookup_delete_eq, app_nil_r. rewrite Hh in Ho. simpl in Ho. etrans; [|exact Ho]. apply sublist_app; [done|].
      destruct (runCommitNotifier_body n e) as [a|] eqn:Hp; simpl; [|apply sublist_nil_l].
      unfold runCommitNotifier_body in Hp. destruct (IsLeader n); [|done]. injection Hp as <-. by rewrite bool_decide_true.
    + rewrite lookup_delete_ne by done. destruct (runCommitNotifier_body n e); simpl; [|by rewrite app_nil_r].
      rewrite bool_decide_false by done. by rewrite app_nil_r.
Qed.

Lemma ordered_run tr : forall tr0 s s',
  sys_ok tr0 s -> ordered tr0 s -> sys_run D tr s = Some s' -> ordered (tr0 ++ cluster_trace tr) s'.
Proof.
  induction tr as [|ev tr IH]; intros tr0 s s' Hok Ho Hr; simpl in *.
  - simplify_eq. unfold cluster_trace. simpl. by rewrite app_nil_r.
  - apply bind_Some in Hr as (s1 & He & Hr). unfold cluster_trace. simpl. rewrite app_assoc.
    eapply IH; [by eapply sys_exec_ok| |done]. eapply ordered_exec; [apply Hok|done|done].
Qed.

Lemma StronglySorted_sublist {A} (R : A -> A -> Prop) (l k : list A) :
  l `sublist_of` k -> StronglySorted R k -> StronglySorted R l.
Proof.
  induction 1 as [|x l k Hs IH|x l k Hs IH]; intros Hk; [done| |]; apply StronglySorted_inv in Hk as [Hk Hx].
  - constructor; [by apply IH|]. rewrite list.Forall_forall in Hx. apply list.Forall_forall. intros y Hy.
    apply Hx. by eapply elem_of_sublist.
  - by apply IH.
Qed.

(** C16: (announcements in order) over a whole run, through any changes of
    leader, the notifications one replica posts are in strictly increasing
    index order: it never announces an entry twice, nor an earlier one after
    a later one; and each is that of the committed entry of its index. *)
Theorem announced_in_order tr s i :
  short (cluster_trace tr) -> sys_run D tr (sys_init D) = Some s -> i ∈ members D ->
  StronglySorted (fun a b => cn_Index a < cn_Index b) (posted_by i (s_posted s)) /\
  exists n, c_nodes (s_cluster s) !! i = Some n /\
    forall a, a ∈ posted_by i (s_posted s) ->
      exists e, committed_prefix n !! Z.to_nat (cn_Index a) = Some e /\ a = notification_of e.
Proof.
  intros Hs Hr Hi. assert (sys_ok [] (sys_init D)) as Hok0.
  { split; simpl; [done|by intros ? ? ?%lookup_empty_Some|by intros ? ? ?%elem_of_nil]. }
  destruct (sys_run_ok tr [] _ _ Hok0 Hr) as [Hrun _ _]. pose proof (ordered_run tr [] _ _ Hok0 ordered_init Hr i) as Ho.
  simpl in Hrun, Ho. set (ctr := cluster_trace tr) in *.
  assert (exists n0, c_nodes (init D) !! i = Some n0) as [n0 Hn0].
  { apply elem_of_dom. rewrite (inv_dom _ _ _ _ (Inv_init D)). done. }
  destruct (consumed_spec D ctr 0 hist0 (init D) (s_cluster s) i n0) as (n & Hn & _ & _ & _ & Hsort & Hall);
    [apply (Inv_init D)|unfold short in *; lia|done|done|by eapply init_window|].
  assert (posted_by i (s_posted s) `sublist_of` map notification_of (consumed D i ctr (init D))) as Hsub.
  { etrans; [|exact Ho]. by apply sublist_inserts_r. }
  split.
  - eapply StronglySorted_sublist; [exact Hsub|]. clear -Hsort. induction Hsort as [|e l Hl IH Hx]; simpl; constructor; [done|].
    apply list.Forall_fmap. eapply list.Forall_impl; [exact Hx|]. done.
  - exists n. split; [done|]. intros a Ha. pose proof (elem_of_sublist _ _ _ Ha Hsub) as Ha'.
    apply list_elem_of_fmap in Ha' as (e & -> & He). exists e. split; [|done]. by apply Hall.
Qed.
End notifier.

(** ** Two runs *)

Module NotifierRuns.
Open Scope string_scope.

Definition cluster_events (tr : list event) : list sys_event := map SysEvent tr.

(** The stroke is committed and announced by node1; then node2 is elected
    while its own notifier has not yet taken the entry. *)
Definition failover : list sys_event :=
  (cluster_events (elect ++ replicate) ++ [SysReceive "node1"; SysNotify "node1"] ++
   cluster_events reelect ++ [SysReceive "node2"; SysNotify "node2"])%list.

(** node2's notifier takes the entry while node2 is a follower; then node1
    stops and node2 is elected. *)
Definition handover : list sys_event :=
  (cluster_events (elect ++ replicate) ++ [SysReceive "node2"; SysNotify "node2"] ++ cluster_events reelect)%list.

Definition stroke1_committed : CommitNotification := mkCommitNotification stroke1 1 1.

(** (announced twice) a change of leader can make two replicas announce
    the same committed stroke. *)
Theorem duplicate_announcement :
  exists s, sys_run trio failover (sys_init trio) = Some s /\
    s_posted s = [("node1", stroke1_committed); ("node2", stroke1_committed)].
Proof.
  destruct (sys_run trio failover (sys_init trio)) as [s|] eqn:Hr; [|by vm_compute in Hr].
  exists s. split; [done|].
  assert (s_posted <$> sys_run trio failover (sys_init trio) =
    Some [("node1", stroke1_committed); ("node2", stroke1_committed)]) as Hv by (vm_compute; reflexivity).
  rewrite Hr in Hv. by injection Hv.
Qed.

(** (never announced) a change of leader can leave a committed stroke
    unannounced: the new leader took it from its channel while it was a
    follower, so nothing it does later posts it. *)
Theorem missed_announcement :
  exists s n, sys_run trio handover (sys_init trio) = Some s /\ c_nodes (s_cluster s) !! "node2" = Some n /\
    n_state n = Leader /\ committed_prefix n !! 1%nat = Some (mkLogEntry 1 1 stroke1) /\
    s_posted s = [] /\ s_hand s = ∅ /\ n_commitCh n = [] /\ n_lastApplied n = n_commitIndex n.
Proof.
  destruct (sys_run trio handover (sys_init trio)) as [s|] eqn:Hr; [|by vm_compute in Hr].
  assert ((fun s => (s_posted s, map_to_list (s_hand s),
      (fun n => (n_state n, committed_prefix n !! 1%nat, n_commitCh n, n_lastApplied n, n_commitIndex n))
        <$> c_nodes (s_cluster s) !! "node2")) <$> sys_run trio handover (sys_init trio) =
    Some ([], [], Some (Leader, Some (mkLogEntry 1 1 stroke1), [], 1, 1))) as Hv by (vm_compute; reflexivity).
  rewrite Hr in Hv. cbn [fmap option_fmap option_map] in Hv. injection Hv as Hp Hh Hn.
  destruct (c_nodes (s_cluster s) !! "node2") as [n|] eqn:Hn2; [|done]. injection Hn as H1 H2 H3 H4 H5.
  exists s, n. split; [reflexivity|]. clear Hr.
  split_and!; [exact Hn2|exact H1|exact H2|exact Hp|by apply map_to_list_empty_iff|exact H3|by rewrite H4, H5].
Qed.

Lemma notifications_committed_witness :
  exists s, sys_run trio failover (sys_init trio) = Some s /\ s_posted s <> [] /\
    exists n e, c_nodes (s_cluster s) !! "node2" = Some n /\
      committed_prefix n !! 1%nat = Some e /\ stroke1_committed = notification_of e.
Proof.
  destruct (sys_run trio failover (sys_init trio)) as [s|] eqn:Hr; [|by vm_compute in Hr].
  assert (s_posted s = [("node1", stroke1_committed); ("node2", stroke1_committed)]) as Hp.
  { assert (s_posted <$> sys_run trio failover (sys_init trio) =
      Some [("node1", stroke1_committed); ("node2", stroke1_committed)]) as Hv by (vm_compute; reflexivity).
    rewrite Hr in Hv. by injection Hv. }
  exists s. split_and!; [done|by rewrite Hp|].
  apply (notifications_committed trio failover s "node2" "node1" stroke1_committed stroke1_committed);
    [by vm_compute|done| |]; rewrite Hp; repeat constructor.
Defined.

Lemma announced_in_order_witness :
  exists s, sys_run trio failover (sys_init trio) = Some s /\ posted_by "node2" (s_posted s) = [stroke1_committed] /\
    exists n e, c_nodes (s_cluster s) !! "node2" = Some n /\ committed_prefix n !! 1%nat = Some e /\
      stroke1_committed = notification_of e.
Proof.
  destruct (sys_run trio failover (sys_init trio)) as [s|] eqn:Hr; [|by vm_compute in Hr].
  assert (posted_by "node2" (s_posted s) = [stroke1_committed]) as Hp.
  { assert ((fun s => posted_by "node2" (s_posted s)) <$> sys_run trio failover (sys_init trio) =
      Some [stroke1_committed]) as Hv by (vm_compute; reflexivity).
    rewrite Hr in Hv. by injection Hv. }
  exists s. split_and!; [done|done|].
  destruct (announced_in_order trio failover s "node2") as (_ & n & Hn & Hall).
  { by vm_compute. }
  { exact Hr. }
  { unfold members. apply elem_of_dom. eexists. vm_compute. reflexivity. }
  destruct (Hall stroke1_committed) as (e & He & Ha); [rewrite Hp; by constructor|]. exists n, e. split; [exact Hn|]. split; [exact He|exact Ha].
Defined.
End NotifierRuns.
