(* ===== verification/Strconv.v ===== *)
(** * Strconv: the decimal integers of URLs and metrics

    What the code uses of Go's [strconv] and of [%d]: [Itoa] prints an [int],
    [Atoi] reads one back, rejecting anything that is not an optional sign
    followed by digits, or that does not fit. *)

From Stdlib Require Import ZArith Lia Ascii String.
From stdpp Require Import base list strings option.
From S2P Require Import Prelude Addrs.
Open Scope list_scope.
Open Scope Z_scope.

Definition digit (d : Z) : ascii := ascii_of_nat (48 + Z.to_nat d).

Definition digit_value (c : ascii) : option Z :=
  let n := Z.of_nat (nat_of_ascii c) in
  if bool_decide (48 <= n <= 57) then Some (n - 48) else None.

(** [fuel] digits at most; 19 are enough for an [int]. *)
Fixpoint digits (fuel : nat) (z : Z) : bytes :=
  match fuel with
  | O => []
  | S fuel => if bool_decide (z < 10) then [digit z] else digits fuel (z / 10) ++ [digit (z mod 10)]
  end.

Definition minus : ascii := "045".
Definition plus : ascii := "043".

Definition Itoa (z : int) : bytes :=
  if bool_decide (z < 0) then minus :: digits 20 (- z) else digits 20 z.

Definition read_digit (acc : option Z) (c : ascii) : option Z :=
  a ← acc; d ← digit_value c; Some (a * 10 + d).

Definition read_digits (s : bytes) : option Z :=
  if bool_decide (s = []) then None else foldl read_digit (Some 0) s.

Definition in_int (z : Z) : option int :=
  if bool_decide (MinInt64 <= z <= MaxInt64) then Some z else None.

Definition Atoi (s : bytes) : option int :=
  match s with
  | [] => None
  | c :: r =>
      if bool_decide (c = minus) then z ← read_digits r; in_int (- z)
      else if bool_decide (c = plus) then z ← read_digits r; in_int z
      else z ← read_digits s; in_int z
  end.

(** ** Lemmas *)

Lemma digit_value_digit d : 0 <= d < 10 -> digit_value (digit d) = Some d.
Proof.
  intros Hd. unfold digit_value, digit. rewrite nat_ascii_embedding by lia.
  rewrite bool_decide_true by lia. f_equal. lia.
Qed.

Lemma read_digit_digit a d : 0 <= d < 10 -> read_digit (Some a) (digit d) = Some (a * 10 + d).
Proof. intros Hd. unfold read_digit. cbn [mbind option_bind]. by rewrite digit_value_digit. Qed.

Lemma digit_not_sign d : 0 <= d < 10 -> digit d <> minus /\ digit d <> plus.
Proof.
  intros Hd. pose proof (digit_value_digit d Hd) as Hv. split; intros Heq; rewrite Heq in Hv; by vm_compute in Hv.
Qed.

Lemma digits_spec fuel z :
  0 <= z < 10 ^ Z.of_nat fuel -> (0 < fuel)%nat ->
  foldl read_digit (Some 0) (digits fuel z) = Some z /\
  exists d r, digits fuel z = digit d :: r /\ 0 <= d < 10.
Proof.
  revert z. induction fuel as [|fuel IH]; intros z Hz Hf; [lia|]. cbn [digits]. case_bool_decide.
  - split; [|exists z, []; split; [done|lia]]. cbn [foldl]. by rewrite read_digit_digit by lia.
  - pose proof (Z.div_mod z 10 ltac:(lia)) as Hdm. pose proof (Z.mod_pos_bound z 10 ltac:(lia)).
    rewrite Nat2Z.inj_succ, Z.pow_succ_r in Hz by lia.
    assert (0 <= z / 10 < 10 ^ Z.of_nat fuel) as Hq.
    { split; [apply Z.div_pos; lia|]. apply Z.div_lt_upper_bound; lia. }
    assert (0 < fuel)%nat.
    { destruct fuel; [|lia]. simpl in Hq. assert (1 <= z / 10); [|lia]. apply Z.div_le_lower_bound; lia. }
    destruct (IH _ Hq ltac:(done)) as [Hr (d & r & Hd & ?)]. split.
    + rewrite foldl_app, Hr. cbn [foldl]. rewrite read_digit_digit by lia. f_equal. lia.
    + exists d, (r ++ [digit (z mod 10)]). by rewrite Hd.
Qed.

Lemma Atoi_Itoa_int z : MinInt64 <= z <= MaxInt64 -> Atoi (Itoa z) = Some z.
Proof.
  intros Hz. unfold Itoa.
  assert (forall y, 0 <= y <= 9223372036854775808 -> 0 <= y < 10 ^ Z.of_nat 20) as Hb by (intros y ?; simpl; lia).
  unfold MinInt64, MaxInt64 in Hz. case_bool_decide as Hneg.
  - destruct (digits_spec 20 (- z) (Hb (- z) ltac:(lia)) ltac:(lia)) as [Hr (d & r & Hd & _)].
    cbn [Atoi]. rewrite bool_decide_true by done. unfold read_digits. rewrite Hd in *.
    rewrite bool_decide_false by done. rewrite Hr. simpl. unfold in_int, MinInt64, MaxInt64.
    rewrite bool_decide_true by lia. f_equal. lia.
  - destruct (digits_spec 20 z (Hb z ltac:(lia)) ltac:(lia)) as [Hr (d & r & Hd & Hdr)].
    destruct (digit_not_sign d Hdr) as [Hm Hp]. rewrite Hd in *. cbn [Atoi].
    rewrite !bool_decide_false by done. unfold read_digits. rewrite bool_decide_false by done. rewrite Hr. simpl.
    unfold in_int, MinInt64, MaxInt64. by rewrite bool_decide_true by lia.
Qed.

(** (decimal round trip) every [int] printed with [%d] is read back by
    [Atoi]; what [Atoi] accepts is always an [int]. *)
Theorem Atoi_Itoa :
  (forall z, MinInt64 <= z <= MaxInt64 -> Atoi (Itoa z) = Some z) /\
  (forall s z, Atoi s = Some z -> MinInt64 <= z <= MaxInt64).
Proof.
  split; [apply Atoi_Itoa_int|].
  assert (forall z y, in_int z = Some y -> MinInt64 <= y <= MaxInt64) as Hin.
  { unfold in_int. intros z y. case_bool_decide; [by intros [= <-]|done]. }
  intros [|c r] z; simpl; [done|].
  repeat case_bool_decide; intros (y & _ & ?)%bind_Some; by eapply Hin.
Qed.
