(* ===== verification/Hub.v ===== *)
(** * Hub: the WebSocket hub of [gateway/internal/gateway/hub.go]

    The hub's loop, the goroutines of each client and the handlers that feed
    them.  A client is named by a number (the [*Client] pointer); its [send]
    channel lives in a store shared by the hub, its two pumps and the
    handlers, because the hub closes it while others may still send on it.
    Every goroutine blocked on the unbuffered [register] or [unregister]
    channel is listed; the hub's [select] takes any of them.  A send on a
    closed channel panics and ends the process ([Some (Panicked _)]). *)

From Stdlib Require Import ZArith Lia.
From stdpp Require Import base list gmap option.
From S2P Require Import Prelude.
Open Scope list_scope.

Section hub.
Context {M : Type}.

(** ** State *)

Record Hub : Type := mkHub {
  h_clients : gset nat;
  h_broadcast : list M;
}.

Definition broadcastCap : nat := 256.
Definition sendCap : nat := 256.

Definition NewHub : Hub := mkHub ∅ [].

Local Abbreviation store := (gmap nat (chan M)) (only parsing).

Record Gateway : Type := mkGateway {
  g_hub : Hub;
  g_send : store;
  g_registering : list nat;
  g_unregistering : list nat;
}.

Definition gateway_init : Gateway := mkGateway NewHub ∅ [] [].

(** ** The hub's operations *)

(** [Broadcast]: [false] when the message was dropped. *)
Definition Broadcast (h : Hub) (data : M) : Hub * bool :=
  let '(buf, sent) := offer broadcastCap (h_broadcast h) data in (mkHub (h_clients h) buf, sent).

Definition ClientCount (h : Hub) : nat := size (h_clients h).

(** The cases of [Run]'s select. *)
Definition run_register (h : Hub) (client : nat) : Hub :=
  mkHub ({[client]} ∪ h_clients h) (h_broadcast h).

Definition run_unregister (h : Hub) (st : store) (client : nat) : result (Hub * store) :=
  if bool_decide (client ∈ h_clients h) then
    match st !! client with
    | None => Ok (mkHub (h_clients h ∖ {[client]}) (h_broadcast h), st)
    | Some ch =>
        match close_chan ch with
        | Ok ch' => Ok (mkHub (h_clients h ∖ {[client]}) (h_broadcast h), <[client := ch']> st)
        | Panicked p => Panicked p
        end
    end
  else Ok (h, st).

(** One iteration of the loop over the clients: the store, and the clients a
    goroutine is started for to unregister them. *)
Definition fanout_one (message : M) (acc : result (store * list nat)) (client : nat)
    : result (store * list nat) :=
  match acc with
  | Panicked p => Panicked p
  | Ok (st, slow) =>
      match st !! client with
      | None => Ok (st, slow)
      | Some ch =>
          match try_send ch message with
          | Panicked p => Panicked p
          | Ok (ch', true) => Ok (<[client := ch']> st, slow)
          | Ok (_, false) => Ok (st, slow ++ [client])
          end
      end
  end.

(** The loop, in some order of the map's keys. *)
Definition fanout (message : M) (st : store) (order : list nat) : result (store * list nat) :=
  foldl (fanout_one message) (Ok (st, [])) order.

(** ** Events *)

Inductive gw_event : Type :=
| GwConnect (client : nat)          (* [HandleWS], up to the send on [register] *)
| GwRegister (client : nat)
| GwReadEnd (client : nat)          (* [readPump] returns *)
| GwUnregister (client : nat)
| GwPublish (message : M)           (* [HandleCommit] *)
| GwFanout
| GwSend (client : nat) (message : M)  (* [sendError], [replayHistory] *)
| GwWrite (client : nat).           (* [writePump] receives a message *)

(** One receive of [writePump], in its select or while it drains the channel
    into the frame it has begun: one message for the connection.  Pumps has
    the frames, and what a failed write loses. *)
Definition write_message (ch : chan M) : option (M * chan M) :=
  match recv ch with
  | Some (Some message, ch') => Some (message, ch')
  | _ => None
  end.

Fixpoint remove_first (x : nat) (l : list nat) : list nat :=
  match l with
  | [] => []
  | y :: l => if bool_decide (x = y) then l else y :: remove_first x l
  end.

Definition gw_exec (ev : gw_event) (g : Gateway) : option (result Gateway) :=
  match ev with
  | GwConnect c =>
      if bool_decide (c ∈ dom (g_send g)) then None
      else Some (Ok (mkGateway (g_hub g) (<[c := make_chan M sendCap]> (g_send g))
                       (g_registering g ++ [c]) (g_unregistering g)))
  | GwRegister c =>
      if bool_decide (c ∈ g_registering g) then
        Some (Ok (mkGateway (run_register (g_hub g) c) (g_send g)
                    (remove_first c (g_registering g)) (g_unregistering g)))
      else None
  | GwReadEnd c =>
      if bool_decide (c ∈ dom (g_send g) /\ c ∉ g_registering g) then
        Some (Ok (mkGateway (g_hub g) (g_send g) (g_registering g) (g_unregistering g ++ [c])))
      else None
  | GwUnregister c =>
      if bool_decide (c ∈ g_unregistering g) then
        match run_unregister (g_hub g) (g_send g) c with
        | Ok (h, st) => Some (Ok (mkGateway h st (g_registering g) (remove_first c (g_unregistering g))))
        | Panicked p => Some (Panicked p)
        end
      else None
  | GwPublish m =>
      Some (Ok (mkGateway (fst (Broadcast (g_hub g) m)) (g_send g) (g_registering g) (g_unregistering g)))
  | GwFanout =>
      match h_broadcast (g_hub g) with
      | [] => None
      | m :: rest =>
          match fanout m (g_send g) (elements (h_clients (g_hub g))) with
          | Ok (st, slow) =>
              Some (Ok (mkGateway (mkHub (h_clients (g_hub g)) rest) st (g_registering g) (g_unregistering g ++ slow)))
          | Panicked p => Some (Panicked p)
          end
      end
  | GwSend c m =>
      if bool_decide (c ∉ g_registering g) then
        match g_send g !! c with
        | None => None
        | Some ch =>
            match try_send ch m with
            | Ok (ch', _) => Some (Ok (mkGateway (g_hub g) (<[c := ch']> (g_send g)) (g_registering g) (g_unregistering g)))
            | Panicked p => Some (Panicked p)
            end
        end
      else None
  | GwWrite c =>
      if bool_decide (c ∉ g_registering g) then
        match g_send g !! c with
        | None => None
        | Some ch =>
            match write_message ch with
            | Some (_, ch') => Some (Ok (mkGateway (g_hub g) (<[c := ch']> (g_send g)) (g_registering g) (g_unregistering g)))
            | None => None
            end
        end
      else None
  end.

(** A run of the gateway that does not panic. *)
Fixpoint gw_run (tr : list gw_event) (g : Gateway) : option Gateway :=
  match tr with
  | [] => Some g
  | ev :: tr => match gw_exec ev g with Some (Ok g') => gw_run tr g' | _ => None end
  end.

(** ** The invariant *)

Definition open_at (st : store) (c : nat) : Prop := exists ch, st !! c = Some ch /\ ch_closed ch = false.

Record gw_ok (g : Gateway) : Prop := {
  go_clients : forall c, c ∈ h_clients (g_hub g) -> open_at (g_send g) c /\ c ∉ g_registering g;
  go_registering : forall c, c ∈ g_registering g -> open_at (g_send g) c;
  go_nodup : NoDup (g_registering g);
  go_unregistering : forall c, c ∈ g_unregistering g -> c ∈ dom (g_send g) /\ c ∉ g_registering g;
  go_chans : forall c ch, g_send g !! c = Some ch -> chan_ok ch /\ ch_cap ch = sendCap;
  go_broadcast : length (h_broadcast (g_hub g)) <= broadcastCap;
}.

(** What the loop over the clients does to a client of the order: the message
    is queued if there is room, and the client is listed as slow if not. *)
Definition queued (m : M) (ch : chan M) : chan M :=
  if bool_decide (length (ch_buf ch) < ch_cap ch) then Chan (ch_buf ch ++ [m]) (ch_cap ch) (ch_closed ch) else ch.

Definition is_slow (st : store) (c : nat) : Prop :=
  match st !! c with Some ch => ch_cap ch <= length (ch_buf ch) | None => False end.

#[global] Instance is_slow_dec st c : Decision (is_slow st c).
Proof. unfold is_slow. destruct (st !! c); apply _. Defined.

Lemma fanout_from m order : forall st slow,
  NoDup order -> (forall c, c ∈ order -> open_at st c) ->
  exists st', foldl (fanout_one m) (Ok (st, slow)) order = Ok (st', slow ++ filter (is_slow st) order) /\
    (forall c, c ∈ order -> st' !! c = queued m <$> st !! c) /\
    (forall c, c ∉ order -> st' !! c = st !! c).
Proof.
  induction order as [|c order IH]; intros st slow Hnd Hopen; simpl.
  { exists st. rewrite app_nil_r. split_and!; [done| |done]. by intros c ?%elem_of_nil. }
  apply list.NoDup_cons in Hnd as [Hc Hnd].
  destruct (Hopen c) as (ch & Hch & Hcl); [by constructor|].
  rewrite Hch. unfold try_send. rewrite Hcl. unfold offer. rewrite filter_cons.
  case_bool_decide as Hroom.
  - destruct (IH (<[c := Chan (ch_buf ch ++ [m]) (ch_cap ch) false]> st) slow Hnd) as (st' & Hr & Hin & Hout).
    { intros d Hd. destruct (Hopen d) as (chd & ? & ?); [by constructor|].
      assert (d <> c) by (intros ->; done). exists chd. by rewrite lookup_insert_ne. }
    exists st'. rewrite Hr, decide_False by (unfold is_slow; rewrite Hch; lia). split_and!.
    + do 3 f_equal. apply filter_ext_elem. intros d Hd. unfold is_slow.
      by rewrite lookup_insert_ne by (intros ->; done).
    + intros d [->|Hd]%elem_of_cons.
      * rewrite Hout, lookup_insert_eq, Hch by done. simpl. unfold queued. by rewrite bool_decide_true, Hcl by done.
      * rewrite Hin by done. by rewrite lookup_insert_ne by (intros ->; done).
    + intros d [Hdc Hd]%not_elem_of_cons. rewrite Hout by done. by rewrite lookup_insert_ne.
  - destruct (IH st (slow ++ [c]) Hnd) as (st' & Hr & Hin & Hout).
    { intros d Hd. apply Hopen. by constructor. }
    exists st'. rewrite Hr, decide_True by (unfold is_slow; rewrite Hch; lia). split_and!.
    + by rewrite <- app_assoc.
    + intros d [->|Hd]%elem_of_cons; [|by apply Hin].
      rewrite Hout, Hch by done. simpl. unfold queued. by rewrite bool_decide_false by done.
    + intros d [Hdc Hd]%not_elem_of_cons. by apply Hout.
Qed.

(** ** Preservation *)

Lemma remove_first_elem x y l : NoDup l -> y ∈ remove_first x l <-> y ∈ l /\ y <> x.
Proof.
  induction l as [|z l IH]; intros Hnd; simpl.
  - split; [by intros ?%elem_of_nil|by intros [?%elem_of_nil _]].
  - apply list.NoDup_cons in Hnd as [Hz Hnd]. case_bool_decide as Hx.
    + subst. rewrite elem_of_cons. split; [intros Hy; split; [by right|by intros ->]|by intros [[->|?] ?]].
    + rewrite !elem_of_cons, (IH Hnd). split; [intros [->|[? ?]]; auto|intros [[->|?] ?]; auto].
Qed.

Lemma remove_first_sub x y l : y ∈ remove_first x l -> y ∈ l.
Proof.
  induction l as [|z l IH]; simpl; [done|]. case_bool_decide; [by constructor|].
  intros [->|?]%elem_of_cons; [by constructor|constructor; auto].
Qed.

Lemma remove_first_NoDup x l : NoDup l -> NoDup (remove_first x l).
Proof.
  induction l as [|z l IH]; simpl; intros Hnd; [done|]. apply list.NoDup_cons in Hnd as [Hz Hnd].
  case_bool_decide; [done|]. apply list.NoDup_cons. split; [|by apply IH]. by intros ?%remove_first_sub.
Qed.

Lemma gateway_init_ok : gw_ok gateway_init.
Proof.
  split; simpl; try (by intros c ?%elem_of_nil); [by intros c ?%elem_of_empty|constructor| |unfold broadcastCap; lia].
  by intros c ch ?%lookup_empty_Some.
Qed.

(** A change of one open channel that leaves it open and within its capacity. *)
Lemma open_at_insert st c ch d : ch_closed ch = false -> open_at st d -> open_at (<[c := ch]> st) d.
Proof.
  intros Hc (chd & Hd & ?). destruct (decide (c = d)) as [->|].
  - exists ch. by rewrite lookup_insert_eq.
  - exists chd. by rewrite lookup_insert_ne.
Qed.

Lemma chans_insert (st : store) c ch :
  (forall d chd, st !! d = Some chd -> chan_ok chd /\ ch_cap chd = sendCap) ->
  chan_ok ch -> ch_cap ch = sendCap ->
  forall d chd, <[c := ch]> st !! d = Some chd -> chan_ok chd /\ ch_cap chd = sendCap.
Proof. intros H ?? d chd [[<- <-]|[_ ?]]%lookup_insert_Some; [done|by eapply H]. Qed.

Lemma try_send_fields (ch ch' : chan M) m b :
  try_send ch m = Ok (ch', b) -> ch_closed ch' = false /\ ch_closed ch = false /\ ch_cap ch' = ch_cap ch.
Proof. unfold try_send, offer. destruct ch as [buf cap [|]]; [done|]. simpl. case_bool_decide; by intros [= <- <-]. Qed.

Lemma write_message_fields (ch ch' : chan M) m :
  write_message ch = Some (m, ch') ->
  ch_buf ch = m :: ch_buf ch' /\ ch_cap ch' = ch_cap ch /\ ch_closed ch' = ch_closed ch.
Proof.
  unfold write_message, recv. destruct ch as [[|x buf] cap cl]; simpl; [by destruct cl|]. by intros [= <- <-].
Qed.

Lemma fanout_ok g m rest st slow order :
  gw_ok g -> h_broadcast (g_hub g) = m :: rest -> order ≡ₚ elements (h_clients (g_hub g)) ->
  fanout m (g_send g) order = Ok (st, slow) ->
  (forall c, c ∈ h_clients (g_hub g) -> st !! c = queued m <$> g_send g !! c) /\
  (forall c, c ∉ h_clients (g_hub g) -> st !! c = g_send g !! c) /\
  slow = filter (is_slow (g_send g)) order.
Proof.
  intros Hok Hb Hperm Hf. unfold fanout in Hf.
  destruct (fanout_from m order (g_send g) []) as (st' & Hr & Hin & Hout).
  - rewrite Hperm. apply NoDup_elements.
  - intros c Hc. rewrite Hperm in Hc. by apply (go_clients _ Hok), elem_of_elements.
  - rewrite Hr in Hf. simplify_eq/=. split_and!; [| |done]; intros c Hc; [apply Hin|apply Hout];
      rewrite Hperm, elem_of_elements; done.
Qed.

Lemma fanout_total g m rest order :
  gw_ok g -> h_broadcast (g_hub g) = m :: rest -> order ≡ₚ elements (h_clients (g_hub g)) ->
  exists st slow, fanout m (g_send g) order = Ok (st, slow).
Proof.
  intros Hok Hb Hperm. destruct (fanout_from m order (g_send g) []) as (st' & Hr & _).
  - rewrite Hperm. apply NoDup_elements.
  - intros c Hc. rewrite Hperm in Hc. by apply (go_clients _ Hok), elem_of_elements.
  - by eexists _, _.
Qed.

Lemma queued_fields m (ch : chan M) :
  chan_ok ch -> chan_ok (queued m ch) /\ ch_cap (queued m ch) = ch_cap ch /\ ch_closed (queued m ch) = ch_closed ch.
Proof.
  unfold queued, chan_ok. intros. case_bool_decide; simpl; [|done]. rewrite length_app. simpl. split_and!; [lia|done..].
Qed.

Lemma gw_fanout_ok g m rest st slow :
  gw_ok g -> h_broadcast (g_hub g) = m :: rest ->
  fanout m (g_send g) (elements (h_clients (g_hub g))) = Ok (st, slow) ->
  gw_ok (mkGateway (mkHub (h_clients (g_hub g)) rest) st (g_registering g) (g_unregistering g ++ slow)).
Proof.
  intros Hok Hb Hf. destruct (fanout_ok g m rest st slow _ Hok Hb (reflexivity _) Hf) as (Hin & Hout & ->).
  pose proof Hok as [Hc Hr Hnd Hu Hch Hbc].
  assert (forall c, st !! c = g_send g !! c \/ (c ∈ h_clients (g_hub g) /\ st !! c = queued m <$> g_send g !! c)) as Hcase.
  { intros c. destruct (decide (c ∈ h_clients (g_hub g))); [right; auto|left; auto]. }
  assert (forall c, open_at (g_send g) c -> open_at st c) as Hopen.
  { intros c (ch & Hch' & Hcl). destruct (Hcase c) as [Hq|[_ Hq]]; [exists ch; by rewrite Hq|].
    exists (queued m ch). rewrite Hq, Hch'. split; [done|].
    destruct (queued_fields m ch) as (_ & _ & ->); [by eapply Hch|done]. }
  split; simpl.
  - intros c Hcl. destruct (Hc c Hcl). split; [by apply Hopen|done].
  - intros c ?. by apply Hopen, Hr.
  - done.
  - assert (forall c, c ∈ dom (g_send g) -> c ∈ dom st) as Hdom.
    { intros c [ch Hx]%elem_of_dom. apply elem_of_dom. destruct (Hcase c) as [->|[_ ->]]; rewrite Hx; by eexists. }
    intros c [Hcu|[_ Hcs]%list_elem_of_filter]%elem_of_app.
    + destruct (Hu c Hcu). split; [by apply Hdom|done].
    + apply elem_of_elements in Hcs. destruct (Hc c Hcs) as [(ch & Hx & _) ?].
      split; [|done]. apply Hdom, elem_of_dom. by exists ch.
  - intros c ch Hx. destruct (Hcase c) as [Heq|[_ Heq]]; rewrite Heq in Hx; [by eapply Hch|].
    apply fmap_Some in Hx as (ch0 & Hx0 & ->). destruct (Hch _ _ Hx0) as [Hok0 Hcap].
    destruct (queued_fields m ch0 Hok0) as (? & -> & _). done.
  - rewrite Hb in Hbc. simpl in Hbc. lia.
Qed.

Lemma gw_unregister_ok g c h st :
  gw_ok g -> c ∈ g_unregistering g -> run_unregister (g_hub g) (g_send g) c = Ok (h, st) ->
  gw_ok (mkGateway h st (g_registering g) (remove_first c (g_unregistering g))).
Proof.
  intros Hok Hcu Hrun. pose proof Hok as [Hc Hr Hnd Hu Hch Hbc]. unfold run_unregister in Hrun.
  assert (forall d, d ∈ remove_first c (g_unregistering g) -> d ∈ dom (g_send g) /\ d ∉ g_registering g) as Hu'
    by (intros d ?%remove_first_sub; by apply Hu).
  case_bool_decide as Hcl; [|simplify_eq; by split].
  destruct (Hc c Hcl) as [(ch & Hx & Hopen) Hnr]. rewrite Hx in Hrun. unfold close_chan in Hrun.
  rewrite Hopen in Hrun. simplify_eq. split; simpl.
  - intros d [Hd Hne%not_elem_of_singleton]%elem_of_difference. destruct (Hc d Hd) as [(chd & ? & ?) ?].
    split; [|done]. exists chd. by rewrite lookup_insert_ne.
  - intros d Hd. destruct (Hr d Hd) as (chd & ? & ?). exists chd. rewrite lookup_insert_ne; [done|]. by intros ->.
  - done.
  - intros d Hd. destruct (Hu' d Hd). split; [|done]. rewrite dom_insert. apply elem_of_union. by right.
  - destruct (Hch _ _ Hx) as [? ?]. by apply chans_insert.
  - done.
Qed.

Lemma gw_update_ok g c ch ch' :
  gw_ok g -> g_send g !! c = Some ch -> ch_closed ch' = ch_closed ch -> chan_ok ch' -> ch_cap ch' = ch_cap ch ->
  gw_ok (mkGateway (g_hub g) (<[c := ch']> (g_send g)) (g_registering g) (g_unregistering g)).
Proof.
  intros [Hc Hr Hnd Hu Hch Hbc] Hx Hcl Hok Hcap. destruct (Hch _ _ Hx) as [_ Hcap'].
  assert (forall d, open_at (g_send g) d -> open_at (<[c := ch']> (g_send g)) d) as Hopen.
  { intros d (chd & Hd & ?). destruct (decide (c = d)) as [->|].
    - exists ch'. rewrite lookup_insert_eq. split; [done|]. congruence.
    - exists chd. by rewrite lookup_insert_ne. }
  split; simpl; try done.
  - intros d Hd. destruct (Hc d Hd). auto.
  - auto.
  - intros d Hd. destruct (Hu d Hd). split; [|done]. rewrite dom_insert. apply elem_of_union. by right.
  - apply chans_insert; [done..|congruence].
Qed.

Lemma gw_connect_ok g c :
  gw_ok g -> c ∉ dom (g_send g) ->
  gw_ok (mkGateway (g_hub g) (<[c := make_chan M sendCap]> (g_send g)) (g_registering g ++ [c]) (g_unregistering g)).
Proof.
  intros [Hc Hr Hnd Hu Hch Hbc] Hfresh. assert (g_send g !! c = None) as Hnone by (by apply not_elem_of_dom).
  assert (forall d, open_at (g_send g) d -> d <> c) as Hne by (intros d (? & ? & _) ->; congruence).
  split; simpl.
  - intros d Hd. destruct (Hc d Hd) as [Ho Hd']. split; [by apply open_at_insert|].
    rewrite elem_of_app, list_elem_of_singleton. intros [?| ->]; [done|]. by apply (Hne c).
  - intros d [Hd| ->%list_elem_of_singleton]%elem_of_app; [apply open_at_insert; auto|].
    exists (make_chan M sendCap). by rewrite lookup_insert_eq.
  - apply list.NoDup_app. split_and!; [done| |apply NoDup_singleton].
    intros d Hd ->%list_elem_of_singleton. by apply (Hne c); auto.
  - intros d Hd. destruct (Hu d Hd) as [Hdom ?]. rewrite dom_insert, elem_of_app, list_elem_of_singleton.
    split; [set_solver|]. intros [?| ->]; [done|]. done.
  - apply chans_insert; [done|unfold chan_ok; simpl; lia|done].
  - done.
Qed.

Lemma gw_register_ok g c :
  gw_ok g -> c ∈ g_registering g ->
  gw_ok (mkGateway (run_register (g_hub g) c) (g_send g) (remove_first c (g_registering g)) (g_unregistering g)).
Proof.
  intros [Hc Hr Hnd Hu Hch Hbc] Hreg. split; simpl; try done.
  - intros d [->%elem_of_singleton|Hd]%elem_of_union.
    + split; [auto|]. rewrite remove_first_elem by done. tauto.
    + destruct (Hc d Hd). split; [done|]. by intros ?%remove_first_sub.
  - intros d ?%remove_first_sub. auto.
  - by apply remove_first_NoDup.
  - intros d Hd. destruct (Hu d Hd). split; [done|]. by intros ?%remove_first_sub.
Qed.

Lemma gw_exec_ok ev g r :
  gw_ok g -> gw_exec ev g = Some r ->
  (exists g', r = Ok g' /\ gw_ok g') \/ (exists c m, ev = GwSend c m /\ r = Panicked SendOnClosedChannel).
Proof.
  intros Hok He. pose proof Hok as [Hc Hr Hnd Hu Hch Hbc].
  destruct ev as [c|c|c|c|m| |c m|c]; simpl in He.
  - case_bool_decide as Hfresh; simplify_eq. left. eexists. split; [done|]. by apply gw_connect_ok.
  - case_bool_decide as Hreg; simplify_eq. left. eexists. split; [done|]. by apply gw_register_ok.
  - case_bool_decide as Hx; simplify_eq. left. eexists. split; [done|]. split; simpl; try done.
    intros d [?| ->%list_elem_of_singleton]%elem_of_app; [auto|done].
  - case_bool_decide as Hx; [|done]. destruct (run_unregister _ _ _) as [[h st]|p] eqn:Hrun; simplify_eq.
    + left. eexists. split; [done|]. by eapply gw_unregister_ok.
    + exfalso. unfold run_unregister in Hrun. case_bool_decide as Hcl; [|done].
      destruct (Hc c Hcl) as [(ch & Hx' & Hopen) _]. rewrite Hx' in Hrun. unfold close_chan in Hrun. by rewrite Hopen in Hrun.
  - simplify_eq. left. eexists. split; [done|]. unfold Broadcast, offer. case_bool_decide; simpl; [|by split].
    split; simpl; try done. rewrite length_app. simpl. lia.
  - destruct (h_broadcast (g_hub g)) as [|m rest] eqn:Hb; [done|].
    destruct (fanout_total g m rest (elements (h_clients (g_hub g))) Hok Hb (reflexivity _)) as (st & slow & Hf).
    rewrite Hf in He. simplify_eq. left. eexists. split; [done|]. by eapply gw_fanout_ok.
  - case_bool_decide as Hreg; [|done]. destruct (g_send g !! c) as [ch|] eqn:Hx; [|done].
    destruct (try_send ch m) as [[ch' b]|p] eqn:Hs; simplify_eq.
    + left. eexists. split; [done|]. destruct (try_send_fields _ _ _ _ Hs) as (? & ? & ?).
      eapply gw_update_ok; [done|done|congruence| |done]. eapply try_send_ok; [by eapply Hch|done].
    + right. exists c, m. split; [done|]. unfold try_send, offer in Hs.
      destruct (ch_closed ch); [by simplify_eq|]. by case_bool_decide.
  - case_bool_decide as Hreg; [|done]. destruct (g_send g !! c) as [ch|] eqn:Hx; [|done].
    destruct (write_message ch) as [[m ch']|] eqn:Hw; [|done]. simplify_eq. left. eexists. split; [done|].
    destruct (write_message_fields _ _ _ Hw) as (Hbuf & Hcap & ?). destruct (go_chans _ Hok _ _ Hx) as [Hlen _].
    eapply gw_update_ok; [done|done|done| |done]. unfold chan_ok in *. rewrite Hbuf in Hlen. simpl in Hlen. lia.
Qed.

Lemma gw_run_ok tr g g' : gw_ok g -> gw_run tr g = Some g' -> gw_ok g'.
Proof.
  revert g. induction tr as [|ev tr IH]; intros g Hok Hr; simpl in Hr; [by simplify_eq|].
  destruct (gw_exec ev g) as [[g1|p]|] eqn:He; try done.
  destruct (gw_exec_ok ev g _ Hok He) as [(g2 & [= <-] & ?)|(c & m & _ & [=])]. by eapply IH.
Qed.

(** ** What a client is sent *)

(** Gather what each event of a run contributes. *)
Fixpoint gather {B} (f : gw_event -> Gateway -> list B) (tr : list gw_event) (g : Gateway) : list B :=
  match tr with
  | [] => []
  | ev :: tr => f ev g ++ match gw_exec ev g with Some (Ok g') => gather f tr g' | _ => [] end
  end.

Definition has_room (st : store) (c : nat) : bool :=
  match st !! c with Some ch => bool_decide (length (ch_buf ch) < ch_cap ch) | None => false end.

(** The messages the broadcast channel took. *)
Definition published (ev : gw_event) (g : Gateway) : list M :=
  match ev with
  | GwPublish m => if snd (Broadcast (g_hub g) m) then [m] else []
  | _ => []
  end.

(** The broadcasts that reached the client's channel. *)
Definition fanned (c : nat) (ev : gw_event) (g : Gateway) : list M :=
  match ev, h_broadcast (g_hub g) with
  | GwFanout, m :: _ => if bool_decide (c ∈ h_clients (g_hub g)) && has_room (g_send g) c then [m] else []
  | _, _ => []
  end.

(** All the messages that reached it, direct ones included. *)
Definition sent_to (c : nat) (ev : gw_event) (g : Gateway) : list M :=
  match ev with
  | GwFanout => fanned c ev g
  | GwSend d m => if bool_decide (d = c) && has_room (g_send g) c then [m] else []
  | _ => []
  end.

(** The messages written to the connection. *)
Definition written (c : nat) (ev : gw_event) (g : Gateway) : list M :=
  match ev with
  | GwWrite d =>
      if bool_decide (d = c) then
        match g_send g !! c with Some ch => from_option (fun x => [fst x]) [] (write_message ch) | None => [] end
      else []
  | _ => []
  end.

Definition buffered (g : Gateway) (c : nat) : list M := from_option ch_buf [] (g_send g !! c).

Lemma buffered_insert g c d ch hub reg unreg :
  buffered (mkGateway hub (<[d := ch]> (g_send g)) reg unreg) c =
    if bool_decide (d = c) then ch_buf ch else buffered g c.
Proof.
  unfold buffered. simpl. case_bool_decide as Hd; [subst; by rewrite lookup_insert_eq|by rewrite lookup_insert_ne].
Qed.

Lemma try_send_buf (ch ch' : chan M) m b :
  try_send ch m = Ok (ch', b) ->
  ch_buf ch' = ch_buf ch ++ (if bool_decide (length (ch_buf ch) < ch_cap ch) then [m] else []).
Proof.
  unfold try_send, offer. destruct (ch_closed ch); [done|]. case_bool_decide; intros [= <- <-]; simpl; [done|by rewrite app_nil_r].
Qed.

(** One event: what the client's channel loses is written, what it gains is sent. *)
Lemma fifo_step ev g g' c :
  gw_ok g -> gw_exec ev g = Some (Ok g') ->
  written c ev g ++ buffered g' c = buffered g c ++ sent_to c ev g.
Proof.
  intros Hok He. destruct ev as [d|d|d|d|m| |d m|d]; simpl in *.
  - case_bool_decide as Hfresh; simplify_eq. rewrite buffered_insert, app_nil_r. case_bool_decide; [|done].
    subst. unfold buffered. by rewrite (not_elem_of_dom_1 _ _ Hfresh).
  - case_bool_decide; simplify_eq. by rewrite app_nil_r.
  - case_bool_decide; simplify_eq. by rewrite app_nil_r.
  - case_bool_decide; [|done]. unfold run_unregister in He. rewrite app_nil_r.
    case_bool_decide; [|by simplify_eq]. destruct (g_send g !! d) as [ch|] eqn:Hd; [|by simplify_eq].
    unfold close_chan in He. destruct (ch_closed ch); [done|]. simplify_eq. rewrite buffered_insert.
    case_bool_decide; [subst|done]. unfold buffered. by rewrite Hd.
  - simplify_eq. by rewrite app_nil_r.
  - destruct (h_broadcast (g_hub g)) as [|m rest] eqn:Hb; [done|].
    destruct (fanout m (g_send g) _) as [[st slow]|] eqn:Hf; simplify_eq.
    destruct (fanout_ok g m rest st slow _ Hok Hb (reflexivity _) Hf) as (Hin & Hout & _).
    unfold buffered, has_room. simpl. case_bool_decide as Hc; simpl; [|by rewrite Hout, app_nil_r].
    rewrite Hin by done. destruct (go_clients _ Hok c Hc) as [(ch & -> & _) _]. simpl. unfold queued.
    case_bool_decide; simpl; [done|by rewrite app_nil_r].
  - case_bool_decide; [|done]. destruct (g_send g !! d) as [ch|] eqn:Hd; [|done].
    destruct (try_send ch m) as [[ch' b]|] eqn:Hs; simplify_eq. rewrite buffered_insert.
    case_bool_decide; [subst|by rewrite app_nil_r]. rewrite (try_send_buf _ _ _ _ Hs). unfold buffered, has_room.
    rewrite Hd. done.
  - case_bool_decide; [|done]. destruct (g_send g !! d) as [ch|] eqn:Hd; [|done].
    destruct (write_message ch) as [[m ch']|] eqn:Hw; simplify_eq. rewrite buffered_insert, app_nil_r.
    case_bool_decide; [subst|done]. destruct (write_message_fields _ _ _ Hw) as (Hbuf & _).
    rewrite Hd, Hw. unfold buffered. rewrite Hd. simpl. by rewrite Hbuf.
Qed.

Lemma fifo_run tr c : forall g g',
  gw_ok g -> gw_run tr g = Some g' ->
  gather (written c) tr g ++ buffered g' c = buffered g c ++ gather (sent_to c) tr g.
Proof.
  induction tr as [|ev tr IH]; intros g g' Hok Hr; simpl in *; [simplify_eq; by rewrite app_nil_r|].
  destruct (gw_exec ev g) as [[g1|p]|] eqn:He; try done.
  destruct (gw_exec_ok ev g _ Hok He) as [(g2 & [= <-] & Hok1)|(d & m & _ & [=])].
  rewrite <- app_assoc, (IH _ _ Hok1 Hr), !app_assoc. f_equal. by apply fifo_step.
Qed.

Lemma fanned_run tr c : forall g g',
  gw_run tr g = Some g' ->
  gather (fanned c) tr g ++ h_broadcast (g_hub g') `sublist_of` h_broadcast (g_hub g) ++ gather published tr g.
Proof.
  induction tr as [|ev tr IH]; intros g g' Hr; simpl in *; [simplify_eq; by rewrite app_nil_r|].
  destruct (gw_exec ev g) as [[g1|p]|] eqn:He; try done. specialize (IH _ _ Hr).
  assert (fanned c ev g ++ h_broadcast (g_hub g1) `sublist_of` h_broadcast (g_hub g) ++ published ev g) as Hstep.
  { destruct ev as [d|d|d|d|m| |d m|d]; simpl in He |- *; rewrite ?app_nil_r.
    - case_bool_decide; by simplify_eq.
    - case_bool_decide; by simplify_eq.
    - case_bool_decide; by simplify_eq.
    - case_bool_decide; [|done]. unfold run_unregister, close_chan in He.
      repeat (case_bool_decide || case_match); by simplify_eq.
    - simplify_eq. simpl. unfold Broadcast, offer. case_bool_decide; simpl; by rewrite ?app_nil_r.
    - destruct (h_broadcast (g_hub g)) as [|m rest]; [done|].
      destruct (fanout m (g_send g) _) as [[st slow]|]; simplify_eq. simpl.
      destruct (_ && _); simpl; [done|by constructor].
    - case_bool_decide; [|done]. destruct (g_send g !! d) as [ch|]; [|done].
      destruct (try_send ch m) as [[ch' b]|]; by simplify_eq.
    - case_bool_decide; [|done]. destruct (g_send g !! d) as [ch|]; [|done].
      destruct (write_message ch) as [[m ch']|]; by simplify_eq. }
  rewrite <- app_assoc. etrans; [apply sublist_app; [reflexivity|exact IH]|].
  rewrite !app_assoc. by apply sublist_app.
Qed.

(** ** Properties *)

(** C35: (the hub never panics) in every reachable gateway state, whatever the
    hub or a pump does next, no channel is closed twice and no broadcast is
    sent on a closed channel; every channel stays within its capacity. *)
Theorem hub_never_panics tr g ev r :
  gw_run tr gateway_init = Some g -> gw_exec ev g = Some r -> (forall c m, ev <> GwSend c m) ->
  exists g', r = Ok g' /\ length (h_broadcast (g_hub g')) <= broadcastCap /\
    forall c ch, g_send g' !! c = Some ch -> length (ch_buf ch) <= sendCap.
Proof.
  intros Hr He Hne. pose proof (gw_run_ok _ _ _ gateway_init_ok Hr) as Hok.
  destruct (gw_exec_ok ev g r Hok He) as [(g' & -> & Hok')|(c & m & -> & _)]; [|by destruct (Hne c m)].
  exists g'. split_and!; [done|apply Hok'|]. intros c ch Hch. destruct (go_chans _ Hok' _ _ Hch) as [Hc Hcap].
  unfold chan_ok in Hc. by rewrite Hcap in Hc.
Qed.

(** C34: (fan-out) one broadcast reaches every registered client whose channel
    has room, at the end of what it is already owed, and only those; the rest
    are scheduled to be unregistered, and all other channels are untouched.
    The result does not depend on the order in which Go ranges over the map. *)
Theorem fanout_spec tr g m rest order c ch :
  gw_run tr gateway_init = Some g -> h_broadcast (g_hub g) = m :: rest ->
  order ≡ₚ elements (h_clients (g_hub g)) -> g_send g !! c = Some ch ->
  exists st slow, fanout m (g_send g) order = Ok (st, slow) /\
    (c ∈ slow <-> c ∈ h_clients (g_hub g) /\ length (ch_buf ch) = sendCap) /\
    ch_buf <$> st !! c = Some (ch_buf ch ++
      if bool_decide (c ∈ h_clients (g_hub g) /\ length (ch_buf ch) < sendCap) then [m] else []).
Proof.
  intros Hr Hb Hperm Hch. pose proof (gw_run_ok _ _ _ gateway_init_ok Hr) as Hok.
  destruct (fanout_total g m rest order Hok Hb Hperm) as (st & slow & Hf).
  destruct (fanout_ok g m rest st slow order Hok Hb Hperm Hf) as (Hin & Hout & ->).
  destruct (go_chans _ Hok _ _ Hch) as [Hcok Hcap]. unfold chan_ok in Hcok.
  eexists _, _. split_and!; [done| |].
  - rewrite list_elem_of_filter, Hperm, elem_of_elements. unfold is_slow. rewrite Hch, Hcap in *. split; intros [? ?]; split; try done; lia.
  - destruct (decide (c ∈ h_clients (g_hub g))) as [Hc|Hc].
    + rewrite Hin, Hch by done. simpl. unfold queued. rewrite Hcap.
      repeat case_bool_decide; simpl; try tauto; by rewrite app_nil_r.
    + rewrite Hout, Hch by done. rewrite bool_decide_false by tauto. simpl. by rewrite app_nil_r.
Qed.

(** C31: (first in, first out) what has been written to a client, followed by
    what its channel holds, is exactly what was sent to it, in order: nothing
    is lost, repeated or reordered between the hub and the connection; and
    the broadcasts among it are in the order they were published. *)
Theorem client_fifo tr g c :
  gw_run tr gateway_init = Some g ->
  gather (written c) tr gateway_init ++ buffered g c = gather (sent_to c) tr gateway_init /\
  gather (fanned c) tr gateway_init `sublist_of` gather published tr gateway_init.
Proof.
  intros Hr. split.
  - apply (fifo_run tr c _ _ gateway_init_ok Hr).
  - pose proof (fanned_run tr c _ _ Hr) as Hs. simpl in Hs. etrans; [|exact Hs]. by apply sublist_inserts_r.
Qed.

(** (a message to a closed client) sending an error or the history to a
    client whose channel the hub has closed panics, and nothing stops the hub
    from closing it first: the connection ends, the hub unregisters the
    client, and the goroutine replaying the history sends. *)
Theorem send_after_close (m : M) :
  exists g, gw_run [GwConnect 0; GwRegister 0; GwReadEnd 0; GwUnregister 0] gateway_init = Some g /\
    gw_exec (GwSend 0 m) g = Some (Panicked SendOnClosedChannel).
Proof. eexists. split; vm_compute; reflexivity. Qed.

End hub.

Module HubWitness.
(** Two clients, one of them gone before the broadcast. *)
Definition tr : list (@gw_event nat) :=
  [GwConnect 1; GwRegister 1; GwConnect 2; GwRegister 2; GwPublish 7; GwPublish 8; GwReadEnd 2; GwUnregister 2;
   GwFanout; GwSend 1 9].

Definition final : @Gateway nat := default gateway_init (gw_run tr gateway_init).

Lemma hub_never_panics_witness : exists g',
  gw_exec GwFanout final = Some (Ok g') /\ buffered g' 1 = [7; 9; 8].
Proof.
  destruct (gw_exec GwFanout final) as [r|] eqn:He; [|by vm_compute in He].
  destruct (hub_never_panics tr final GwFanout r) as (g' & -> & _); [by vm_compute|done|done|].
  exists g'. split; [done|].
  assert (from_option (fun r => match r with Ok g => buffered g 1 | _ => [] end) [] (gw_exec GwFanout final) = [7; 9; 8]) as Hv
    by (vm_compute; reflexivity). by rewrite He in Hv.
Defined.

Lemma fanout_spec_witness : exists st slow,
  fanout 8 (g_send final) [1] = Ok (st, slow) /\ ch_buf <$> st !! 1 = Some [7; 9; 8].
Proof.
  destruct (fanout_spec tr final 8 [] [1] 1 (Chan [7; 9] 256 false)) as (st & slow & Hf & _ & Hc);
    [by vm_compute|by vm_compute|by vm_compute|by vm_compute|].
  exists st, slow. split; [exact Hf|]. rewrite Hc. by vm_compute.
Defined.

Lemma client_fifo_witness :
  gather (written 1) (tr ++ [GwWrite 1; GwWrite 1]) gateway_init = [7; 9] /\
  gather (fanned 1) (tr ++ [GwWrite 1; GwWrite 1]) gateway_init `sublist_of` [7; 8].
Proof.
  split; [by vm_compute|].
  apply (client_fifo (tr ++ [GwWrite 1; GwWrite 1]) (default gateway_init (gw_run (tr ++ [GwWrite 1; GwWrite 1]) gateway_init)) 1).
  by vm_compute.
Defined.
End HubWitness.
