(* ===== verification/Pumps.v ===== *)
(** * Pumps: one WebSocket connection, step by step

    [HandleWS] starts [readPump] and [writePump] on a connection.  Hub has
    of [writePump] what it receives; here are its frames and pings, the return
    paths of both pumps, and the hub's side of the same client, in any
    interleaving.  The connection is gorilla/websocket's: a write can fail at
    any moment, and what reaches a closed connection fails; a message already
    in the reader's buffer, and the start of a frame, need no connection.  The
    second part is about time: the read deadline and the pings that keep it
    from passing. *)

From Stdlib Require Import ZArith Lia.
From stdpp Require Import base list option.
From S2P Require Import Prelude Hub.
Open Scope list_scope.

Section session.
Context {M : Type}.

(** ** State *)

(** [RdUnregister] is blocked on the send to [unregister], [RdClose] is about
    to close the connection. *)
Inductive reader : Type :=
| RdRead
| RdUnregister
| RdClose
| RdDone.

(** [WrLen] has received a message and not yet read [len(client.send)];
    [WrDrain n parts] has [n] receives left; [WrReturn] is about to close the
    connection.  A part is [None] if it is the zero value that a closed
    channel yields. *)
Inductive writer : Type :=
| WrSelect
| WrLen (message : M)
| WrDrain (n : nat) (parts : list (option M))
| WrReturn
| WrDone.

Inductive output : Type :=
| OutText (parts : list (option M))
| OutPing
| OutClose.

(** [s_slow]: goroutines of the hub that wait to unregister the client. *)
Record Session : Type := mkSession {
  s_reader : reader;
  s_writer : writer;
  s_send : chan M;
  s_registered : bool;
  s_slow : nat;
  s_open : bool;
  s_out : list output;
}.

(** [HandleWS], once the hub has received the client. *)
Definition HandleWS : Session := mkSession RdRead WrSelect (make_chan M sendCap) true 0 true [].

Definition with_reader (r : reader) (s : Session) : Session :=
  mkSession r (s_writer s) (s_send s) (s_registered s) (s_slow s) (s_open s) (s_out s).
Definition with_writer (w : writer) (s : Session) : Session :=
  mkSession (s_reader s) w (s_send s) (s_registered s) (s_slow s) (s_open s) (s_out s).
Definition with_send (ch : chan M) (s : Session) : Session :=
  mkSession (s_reader s) (s_writer s) ch (s_registered s) (s_slow s) (s_open s) (s_out s).
Definition with_slow (n : nat) (s : Session) : Session :=
  mkSession (s_reader s) (s_writer s) (s_send s) (s_registered s) n (s_open s) (s_out s).
Definition conn_Close (s : Session) : Session :=
  mkSession (s_reader s) (s_writer s) (s_send s) (s_registered s) (s_slow s) false (s_out s).

(** A write on the connection; [ok] is the network's part of its success. *)
Definition conn_write (ok : bool) (o : output) (s : Session) : Session * bool :=
  if ok && s_open s then
    (mkSession (s_reader s) (s_writer s) (s_send s) (s_registered s) (s_slow s) (s_open s) (s_out s ++ [o]), true)
  else (s, false).

(** The hub receives the client from [unregister]. *)
Definition unregister (s : Session) : result Session :=
  if s_registered s then
    match close_chan (s_send s) with
    | Ok ch => Ok (mkSession (s_reader s) (s_writer s) ch false (s_slow s) (s_open s) (s_out s))
    | Panicked p => Panicked p
    end
  else Ok s.

(** A send of [sendError] or of [replayHistory]. *)
Definition direct_send (m : M) (s : Session) : result Session :=
  match try_send (s_send s) m with
  | Ok (ch, _) => Ok (with_send ch s)
  | Panicked p => Panicked p
  end.

(** ** Steps *)

Inductive sn_event : Type :=
| SnMessage (reply : option M)   (* [readPump] handles a message; [reply] is the error it sends, if any *)
| SnReadFails
| SnUnregister                   (* the hub takes the reader's client *)
| SnReaderClose
| SnBroadcast (m : M)
| SnSlow                         (* the hub takes the client from a slow client's goroutine *)
| SnReplay (m : M)
| SnRecv (ok : bool)             (* [ok]: [NextWriter], or the close message, succeeds *)
| SnLen
| SnDrain
| SnFlush (ok : bool)
| SnPing (ok : bool)
| SnWriterClose.

Definition sn_exec (ev : sn_event) (s : Session) : option (result Session) :=
  match ev with
  | SnMessage reply =>
      match s_reader s with
      | RdRead => Some (match reply with Some m => direct_send m s | None => Ok s end)
      | _ => None
      end
  | SnReadFails => match s_reader s with RdRead => Some (Ok (with_reader RdUnregister s)) | _ => None end
  | SnUnregister =>
      match s_reader s with
      | RdUnregister =>
          Some (match unregister s with Ok s => Ok (with_reader RdClose s) | Panicked p => Panicked p end)
      | _ => None
      end
  | SnReaderClose => match s_reader s with RdClose => Some (Ok (conn_Close (with_reader RdDone s))) | _ => None end
  | SnBroadcast m =>
      if s_registered s then
        Some (match try_send (s_send s) m with
              | Ok (ch, true) => Ok (with_send ch s)
              | Ok (_, false) => Ok (with_slow (S (s_slow s)) s)
              | Panicked p => Panicked p
              end)
      else None
  | SnSlow =>
      match s_slow s with
      | S n => Some (match unregister s with Ok s => Ok (with_slow n s) | Panicked p => Panicked p end)
      | O => None
      end
  | SnReplay m => Some (direct_send m s)
  | SnRecv ok =>
      match s_writer s, recv (s_send s) with
      | WrSelect, Some (Some m, ch) =>
          let s := with_send ch s in
          Some (Ok (with_writer (if ok : bool then WrLen m else WrReturn) s))
      | WrSelect, Some (None, _) => Some (Ok (with_writer WrReturn (fst (conn_write ok OutClose s))))
      | _, _ => None
      end
  | SnLen =>
      match s_writer s with
      | WrLen m => Some (Ok (with_writer (WrDrain (length (ch_buf (s_send s))) [Some m]) s))
      | _ => None
      end
  | SnDrain =>
      match s_writer s, recv (s_send s) with
      | WrDrain (S n) parts, Some (x, ch) => Some (Ok (with_writer (WrDrain n (parts ++ [x])) (with_send ch s)))
      | _, _ => None
      end
  | SnFlush ok =>
      match s_writer s with
      | WrDrain O parts =>
          let '(s, written) := conn_write ok (OutText parts) s in
          Some (Ok (with_writer (if written then WrSelect else WrReturn) s))
      | _ => None
      end
  | SnPing ok =>
      match s_writer s with
      | WrSelect =>
          let '(s, written) := conn_write ok OutPing s in
          Some (Ok (with_writer (if written then WrSelect else WrReturn) s))
      | _ => None
      end
  | SnWriterClose => match s_writer s with WrReturn => Some (Ok (conn_Close (with_writer WrDone s))) | _ => None end
  end.

Fixpoint sn_run (tr : list sn_event) (s : Session) : option Session :=
  match tr with
  | [] => Some s
  | ev :: tr => match sn_exec ev s with Some (Ok s') => sn_run tr s' | _ => None end
  end.

(** ** What the connection is told *)

(** The messages of the complete frames, and of the frame being written. *)
Definition texts (out : list output) : list (option M) :=
  concat (map (fun o => match o with OutText parts => parts | _ => [] end) out).
Definition in_hand (w : writer) : list (option M) :=
  match w with WrLen m => [Some m] | WrDrain _ parts => parts | _ => [] end.
Definition running (w : writer) : bool := match w with WrReturn | WrDone => false | _ => true end.

(** The messages that an event puts on the channel. *)
Definition taken (ev : sn_event) (s : Session) : list M :=
  let put m := if bool_decide (length (ch_buf (s_send s)) < ch_cap (s_send s)) then [m] else [] in
  match ev with
  | SnMessage (Some m) | SnBroadcast m | SnReplay m => put m
  | _ => []
  end.

Fixpoint all_taken (tr : list sn_event) (s : Session) : list M :=
  match tr with
  | [] => []
  | ev :: tr => taken ev s ++ match sn_exec ev s with Some (Ok s') => all_taken tr s' | _ => [] end
  end.

(** ** The invariant *)

Definition whole (parts : list (option M)) : Prop := parts <> [] /\ Forall is_Some parts.

Record sn_ok (s : Session) : Prop := {
  so_closed : ch_closed (s_send s) = negb (s_registered s);
  so_reader : s_reader s = RdClose \/ s_reader s = RdDone -> s_registered s = false;
  so_conn : s_open s = false <-> s_reader s = RdDone \/ s_writer s = WrDone;
  so_drain : forall n parts, s_writer s = WrDrain n parts -> n <= length (ch_buf (s_send s)) /\ whole parts;
  so_frames : forall parts, OutText parts ∈ s_out s -> whole parts;
}.

Lemma HandleWS_ok : sn_ok HandleWS.
Proof.
  split; simpl; try done; [by intros [|]|by split; [|intros [|]]|by intros parts ?%elem_of_nil].
Qed.

(** A send changes the buffer alone, and leaves the channel open. *)
Lemma put_ok s m ch b :
  sn_ok s -> try_send (s_send s) m = Ok (ch, b) -> sn_ok (with_send ch s) /\ ch_closed (s_send s) = false /\
    ch_buf ch = ch_buf (s_send s) ++ (if bool_decide (length (ch_buf (s_send s)) < ch_cap (s_send s)) then [m] else []).
Proof.
  intros [] Hs. pose proof (try_send_buf _ _ _ _ Hs) as Hb. destruct (try_send_fields _ _ _ _ Hs) as (H1 & H2 & _).
  split_and!; [|done|done]. split; simpl; try done; [congruence|].
  intros n parts Hw. destruct (so_drain0 n parts Hw). rewrite Hb, length_app. split; [lia|done].
Qed.

Lemma recv_inv (ch ch' : chan M) x :
  recv ch = Some (x, ch') -> ch_cap ch' = ch_cap ch /\ ch_closed ch' = ch_closed ch /\
    match x with
    | Some m => ch_buf ch = m :: ch_buf ch'
    | None => ch_buf ch = [] /\ ch' = ch /\ ch_closed ch = true
    end.
Proof. destruct ch as [[|y buf] cap [|]]; simpl; intros [= <- <-]; done. Qed.

Lemma unregister_ok s :
  sn_ok s -> exists s', unregister s = Ok s' /\ sn_ok s' /\ s_registered s' = false /\ s_reader s' = s_reader s /\
    s_writer s' = s_writer s /\ s_open s' = s_open s /\ s_out s' = s_out s /\ s_slow s' = s_slow s /\
    ch_buf (s_send s') = ch_buf (s_send s).
Proof.
  intros []. unfold unregister, close_chan. destruct (s_registered s) eqn:Hr.
  - rewrite so_closed0. simpl. eexists. split; [done|]. split_and!; try done.
  - exists s. split_and!; try done. split; try done. congruence.
Qed.

Lemma conn_write_inv ok o s s' b :
  conn_write ok o s = (s', b) ->
  s' = mkSession (s_reader s) (s_writer s) (s_send s) (s_registered s) (s_slow s) (s_open s) (s_out s ++ (if b then [o] else [])) /\
  (b = true -> s_open s = true).
Proof.
  unfold conn_write. destruct (ok && s_open s) eqn:E; intros [= <- <-]; [|by destruct s; simpl; rewrite app_nil_r].
  by apply andb_true_iff in E as [_ E].
Qed.

Lemma whole_snoc parts m : whole parts -> whole (parts ++ [Some m]).
Proof. intros [? ?]. split; [by destruct parts|]. apply Forall_app. split; [done|]. by repeat constructor. Qed.

(** What writing, or failing to write, a frame leaves. *)
Lemma wrote_ok w s o b :
  sn_ok s -> s_writer s <> WrDone -> w = WrSelect \/ w = WrReturn -> (forall parts, o = OutText parts -> whole parts) ->
  sn_ok (with_writer w (mkSession (s_reader s) (s_writer s) (s_send s) (s_registered s) (s_slow s) (s_open s)
           (s_out s ++ (if b : bool then [o] else [])))).
Proof.
  intros [] Hw Hnew Ho. split; simpl; try done.
  - rewrite so_conn0. split; (intros [?|Hd]; [by left|]); [done|by destruct Hnew; subst].
  - intros n parts ->. by destruct Hnew.
  - intros parts [?|Hin]%elem_of_app; [auto|]. destruct b; [|by apply elem_of_nil in Hin].
    apply list_elem_of_singleton in Hin. by apply Ho.
Qed.

Lemma sn_exec_ok ev s s' : sn_ok s -> sn_exec ev s = Some (Ok s') -> sn_ok s'.
Proof.
  intros Hok He. pose proof Hok as [Hc Hr Ho Hd Hf]. destruct ev; simpl in He.
  - destruct (s_reader s) eqn:Hrd; try done. destruct reply as [m|]; [|by simplify_eq]. unfold direct_send in He.
    destruct (try_send _ _) as [[ch b]|] eqn:Ht; simplify_eq. by apply (put_ok s m ch b).
  - destruct (s_reader s) eqn:Hrd; simplify_eq. split; simpl; try done; [by intros [|]|].
    rewrite Ho. split; (intros [?|?]; [done|by right]).
  - destruct (s_reader s) eqn:Hrd; try done. destruct (unregister_ok s Hok) as (s1 & Hu & [] & Hreg & ? & Hw & Hop & ? & ? & ?).
    rewrite Hu in He. simplify_eq. split; simpl; try done. rewrite so_conn0. rewrite Hw. split; (intros [?|?]; [congruence|by right]).
  - destruct (s_reader s) eqn:Hrd; simplify_eq. split; simpl; try done; [intros _; auto|]. split; [by left|done].
  - destruct (s_registered s) eqn:Hreg; [|done].
    destruct (try_send _ _) as [[ch [|]]|] eqn:Ht; simplify_eq; [by apply (put_ok s m ch true)|]. by split; simpl; rewrite ?Hreg.
  - destruct (s_slow s); [done|]. destruct (unregister_ok s Hok) as (s1 & Hu & [] & _). rewrite Hu in He. by simplify_eq.
  - unfold direct_send in He. destruct (try_send _ _) as [[ch b]|] eqn:Ht; simplify_eq. by apply (put_ok s m ch b).
  - destruct (s_writer s) eqn:Hw; try done. destruct (recv _) as [[[m|] ch]|] eqn:Hrv; simplify_eq.
    + destruct (recv_inv _ _ _ Hrv) as (? & ? & Hb). split; simpl; try done; [congruence| |].
      * rewrite Ho. split; (intros [?|Hx]; [by left|]); [done|by destruct ok].
      * intros n parts Hx. by destruct ok.
    + destruct (conn_write ok OutClose s) as [s1 b] eqn:E. destruct (conn_write_inv _ _ _ _ _ E) as [-> _].
      apply wrote_ok; [done|by rewrite Hw|by right|done].
  - destruct (s_writer s) eqn:Hw; simplify_eq. split; simpl; try done.
    + rewrite Ho. split; (intros [?|?]; [by left|done]).
    + intros n parts [= <- <-]. split; [done|]. split; [done|by repeat constructor].
  - destruct (s_writer s) as [| |[|n] parts| |] eqn:Hw; try done. destruct (Hd _ _ eq_refl) as [Hn Hp].
    destruct (recv _) as [[x ch]|] eqn:Hrv; simplify_eq. destruct (recv_inv _ _ _ Hrv) as (? & ? & Hb).
    destruct x as [m|]; [|by destruct Hb as [Hb _]; rewrite Hb in Hn; simpl in Hn; lia].
    rewrite Hb in Hn. simpl in Hn. split; simpl; try done; [congruence| |].
    + rewrite Ho. split; (intros [?|?]; [by left|done]).
    + intros ? ? [= <- <-]. split; [lia|by apply whole_snoc].
  - destruct (s_writer s) as [| |[|n] parts| |] eqn:Hw; try done. destruct (conn_write ok _ s) as [s1 b] eqn:E. simplify_eq.
    destruct (conn_write_inv _ _ _ _ _ E) as [-> _]. apply wrote_ok; [done|by rewrite Hw|by destruct b; auto|].
    intros ? [= <-]. by apply (Hd 0 parts).
  - destruct (s_writer s) eqn:Hw; try done. destruct (conn_write ok _ s) as [s1 b] eqn:E. simplify_eq.
    destruct (conn_write_inv _ _ _ _ _ E) as [-> _]. apply wrote_ok; [done|by rewrite Hw|by destruct b; auto|done].
  - destruct (s_writer s) eqn:Hw; simplify_eq. split; simpl; try done. split; [by right|done].
Qed.

Lemma sn_run_ok tr : forall s s', sn_ok s -> sn_run tr s = Some s' -> sn_ok s'.
Proof.
  induction tr as [|ev tr IH]; simpl; intros s s' Hok; [by intros [= <-]|].
  destruct (sn_exec ev s) as [[s1|]|] eqn:He; try done. apply IH. by eapply sn_exec_ok.
Qed.

(** ** Delivery *)

(** What was put on the channel is in the frames, in the writer's hand, lost
    to a failed write, or still queued.  Nothing is lost while the writer
    runs, nor when it has said goodbye. *)
Record ledger (sent : list M) (s : Session) : Prop := {
  lg_lost : exists lost, map Some sent = texts (s_out s) ++ in_hand (s_writer s) ++ lost ++ map Some (ch_buf (s_send s)) /\
    (running (s_writer s) = true \/ OutClose ∈ s_out s -> lost = []);
  lg_close : OutClose ∈ s_out s -> running (s_writer s) = false /\ ch_buf (s_send s) = [] /\ ch_closed (s_send s) = true /\
    exists l, s_out s = l ++ [OutClose];
}.

Lemma texts_snoc out o : texts (out ++ [o]) = texts out ++ match o with OutText parts => parts | _ => [] end.
Proof. unfold texts. rewrite map_app, concat_app. simpl. by rewrite app_nil_r. Qed.

(** Events that leave connection, writer and buffer alone. *)
Lemma ledger_same sent s s' :
  ledger sent s -> s_out s' = s_out s -> s_writer s' = s_writer s -> ch_buf (s_send s') = ch_buf (s_send s) ->
  (ch_closed (s_send s) = true -> ch_closed (s_send s') = true) -> ledger (sent ++ []) s'.
Proof.
  intros [Hl Hcl] Eo Ew Eb Ec. rewrite app_nil_r. split; [by rewrite Eo, Ew, Eb|]. rewrite Eo, Ew, Eb.
  intros Hin. destruct (Hcl Hin) as (? & ? & ? & ?). split_and!; auto.
Qed.

Lemma ledger_put sent s m ch b :
  sn_ok s -> ledger sent s -> try_send (s_send s) m = Ok (ch, b) ->
  ledger (sent ++ (if bool_decide (length (ch_buf (s_send s)) < ch_cap (s_send s)) then [m] else [])) (with_send ch s).
Proof.
  intros Hok [(lost & Hs & Hn) Hcl] Ht. destruct (put_ok _ _ _ _ Hok Ht) as (_ & Hopen & Hb). split; simpl.
  - exists lost. split; [|done]. rewrite map_app, Hs, Hb, map_app. by rewrite <- !app_assoc.
  - intros Hin. destruct (Hcl Hin) as (_ & _ & Hc & _). congruence.
Qed.

(** A write whose frame, or nothing, is added to the output. *)
Lemma ledger_write sent s w o b :
  ledger sent s -> running (s_writer s) = true -> o <> OutClose -> running w = true \/ (running w = false /\ b = false) ->
  in_hand w = [] -> (b = true -> in_hand (s_writer s) = match o with OutText parts => parts | _ => [] end) ->
  (b = false -> running w = false) ->
  ledger (sent ++ []) (with_writer w (mkSession (s_reader s) (s_writer s) (s_send s) (s_registered s) (s_slow s) (s_open s)
           (s_out s ++ (if b : bool then [o] else [])))).
Proof.
  intros [(lost & Hs & Hn) Hcl] Hrun Ho Hw Hin Hb Hbf. rewrite app_nil_r. rewrite Hn in Hs by auto.
  assert (OutClose ∉ s_out s) as Hno by (intros Hx; destruct (Hcl Hx); congruence).
  assert (OutClose ∉ s_out s ++ (if b then [o] else [])) as Hno'.
  { intros [?|Hx]%elem_of_app; [done|]. destruct b; [|by apply elem_of_nil in Hx].
    apply list_elem_of_singleton in Hx. by subst. }
  split; simpl; [|done]. rewrite Hin. destruct b.
  - exists []. rewrite texts_snoc, <- Hb, Hs by done. split; [by rewrite <- !app_assoc|done].
  - exists (in_hand (s_writer s)). rewrite app_nil_r. split; [done|]. intros [?|?]; [by rewrite Hbf in *|done].
Qed.

Lemma ledger_recv sent s x ch ok :
  sn_ok s -> ledger sent s -> s_writer s = WrSelect -> recv (s_send s) = Some (Some x, ch) ->
  ledger (sent ++ []) (with_writer (if ok : bool then WrLen x else WrReturn) (with_send ch s)).
Proof.
  intros Hok [(lost & Hs & Hn) Hcl] Hw Hrv. rewrite app_nil_r. destruct (recv_inv _ _ _ Hrv) as (_ & _ & Hb).
  rewrite Hw, Hb in Hs. rewrite Hn in Hs by (rewrite Hw; by left). simpl in Hs.
  assert (OutClose ∉ s_out s) as Hno by (intros Hx; destruct (Hcl Hx) as [Hr _]; by rewrite Hw in Hr).
  split; simpl; [|done]. destruct ok; [by exists []|].
  exists [Some x]. split; [done|]. by intros [?|?].
Qed.

Lemma ledger_step ev sent s s' :
  sn_ok s -> ledger sent s -> sn_exec ev s = Some (Ok s') -> ledger (sent ++ taken ev s) s'.
Proof.
  intros Hok Hlg He. pose proof Hok as [Hc Hr Ho Hd Hf]. destruct ev; simpl in He; cbn [taken].
  - destruct (s_reader s); try done. destruct reply as [m|]; [|by simplify_eq; eapply ledger_same].
    unfold direct_send in He. destruct (try_send _ _) as [[ch b]|] eqn:Ht; simplify_eq. by eapply ledger_put.
  - destruct (s_reader s); simplify_eq. by eapply ledger_same.
  - destruct (s_reader s); try done. destruct (unregister_ok s Hok) as (s1 & Hu & [] & Hreg & ? & ? & ? & ? & ? & ?).
    rewrite Hu in He. simplify_eq. eapply ledger_same; simpl; try done. intros _. by rewrite so_closed0, Hreg.
  - destruct (s_reader s); simplify_eq. by eapply ledger_same.
  - destruct (s_registered s); [|done]. destruct (try_send _ _) as [[ch [|]]|] eqn:Ht; simplify_eq; [by eapply ledger_put|].
    unfold try_send, offer in Ht. destruct (ch_closed _); [done|]. case_bool_decide; simplify_eq. by eapply ledger_same.
  - destruct (s_slow s); [done|]. destruct (unregister_ok s Hok) as (s1 & Hu & [] & Hreg & ? & ? & ? & ? & ? & ?).
    rewrite Hu in He. simplify_eq. eapply ledger_same; simpl; try done. intros _. by rewrite so_closed0, Hreg.
  - unfold direct_send in He. destruct (try_send _ _) as [[ch b]|] eqn:Ht; simplify_eq. by eapply ledger_put.
  - destruct (s_writer s) eqn:Hw; try done. destruct (recv _) as [[[m|] ch]|] eqn:Hrv; simplify_eq; [by apply ledger_recv|].
    destruct (recv_inv _ _ _ Hrv) as (_ & _ & Hb & _ & Hcd). destruct Hlg as [(lost & Hs & Hn) Hcl].
    rewrite app_nil_r. rewrite Hw in *. rewrite Hn, Hb in Hs by auto. simpl in Hs.
    destruct (conn_write ok OutClose s) as [s1 b] eqn:E. destruct (conn_write_inv _ _ _ _ _ E) as [-> _]. split; simpl.
    + exists []. rewrite Hb. split; [|done]. destruct b; rewrite ?texts_snoc, Hs; simpl; by rewrite ?app_nil_r.
    + intros [Hx|Hx]%elem_of_app; [by destruct (Hcl Hx)|]. destruct b; [|by apply elem_of_nil in Hx].
      split_and!; try done. by eexists.
  - destruct (s_writer s) eqn:Hw; simplify_eq. destruct Hlg as [(lost & Hs & Hn) Hcl]. rewrite app_nil_r. rewrite Hw in *.
    split; simpl; [by exists lost|]. intros Hx. by destruct (Hcl Hx).
  - destruct (s_writer s) as [| |[|n] parts| |] eqn:Hw; try done. destruct (recv _) as [[x ch]|] eqn:Hrv; simplify_eq.
    destruct (recv_inv _ _ _ Hrv) as (_ & _ & Hb). destruct (Hd _ _ eq_refl) as [Hn _].
    destruct x as [m|]; [|by destruct Hb as [Hb _]; rewrite Hb in Hn; simpl in Hn; lia].
    destruct Hlg as [(lost & Hs & Hlost) Hcl]. rewrite app_nil_r. rewrite Hw in *. rewrite Hlost, Hb in Hs by auto.
    split; simpl; [exists []|by intros Hx; destruct (Hcl Hx)]. split; [|done]. rewrite Hs. simpl. by rewrite <- !app_assoc.
  - destruct (s_writer s) as [| |[|n] parts| |] eqn:Hw; try done. destruct (conn_write ok _ s) as [s1 b] eqn:E. simplify_eq.
    destruct (conn_write_inv _ _ _ _ _ E) as [-> _]. apply ledger_write; try done; try (by rewrite Hw); by destruct b; auto.
  - destruct (s_writer s) eqn:Hw; try done. destruct (conn_write ok _ s) as [s1 b] eqn:E. simplify_eq.
    destruct (conn_write_inv _ _ _ _ _ E) as [-> _]. apply ledger_write; try done; try (by rewrite Hw); by destruct b; auto.
  - destruct (s_writer s) eqn:Hw; simplify_eq. destruct Hlg as [(lost & Hs & Hn) Hcl]. rewrite app_nil_r. rewrite Hw in *.
    split; simpl; [exists lost; split; [done|]|]; intuition.
Qed.

Lemma ledger_run tr : forall sent s s',
  sn_ok s -> ledger sent s -> sn_run tr s = Some s' -> ledger (sent ++ all_taken tr s) s'.
Proof.
  induction tr as [|ev tr IH]; simpl; intros sent s s' Hok Hlg; [intros [= <-]; by rewrite app_nil_r|].
  destruct (sn_exec ev s) as [[s1|]|] eqn:He; try done. intros Hr. rewrite app_assoc.
  apply IH; [by eapply sn_exec_ok|by apply ledger_step|done].
Qed.

Lemma HandleWS_ledger : ledger [] HandleWS.
Proof. split; simpl; [by exists []|by intros ?%elem_of_nil]. Qed.

(** C32: (the write pump) with every interleaving of the pumps, the hub and
    the other senders: each frame holds at least one message and only
    messages; read in order, the frames and what the writer has in hand are
    the messages put on the channel, up to those still queued and, after a
    failed write only, a lost piece between; and a close frame is the last
    thing written, after every message. *)
Theorem pump_delivers tr s :
  sn_run tr HandleWS = Some s ->
  (forall parts, OutText parts ∈ s_out s -> parts <> [] /\ Forall is_Some parts) /\
  (exists lost, map Some (all_taken tr HandleWS) =
      texts (s_out s) ++ in_hand (s_writer s) ++ lost ++ map Some (ch_buf (s_send s)) /\
    (running (s_writer s) = true -> lost = [])) /\
  (OutClose ∈ s_out s -> texts (s_out s) = map Some (all_taken tr HandleWS) /\ exists l, s_out s = l ++ [OutClose]).
Proof.
  intros Hr. pose proof (sn_run_ok _ _ _ HandleWS_ok Hr) as Hok.
  destruct (ledger_run tr [] _ _ HandleWS_ok HandleWS_ledger Hr) as [(lost & Hs & Hn) Hcl]. simpl in Hs. split_and!.
  - apply (so_frames _ Hok).
  - exists lost. split; [done|auto].
  - intros Hx. destruct (Hcl Hx) as (Hrun & Hb & _ & Hl). split; [|done]. rewrite Hs, Hb, Hn by auto.
    destruct (s_writer s); try done; by rewrite app_nil_r.
Qed.

(** ** The end of a connection *)

(** The events that need nothing from outside: no message, broadcast or tick.
    A read fails of itself once the connection is closed. *)
Definition internal (ev : sn_event) (s : Session) : bool :=
  match ev with
  | SnUnregister | SnReaderClose | SnSlow | SnRecv _ | SnLen | SnDrain | SnFlush _ | SnWriterClose => true
  | SnReadFails => negb (s_open s)
  | SnMessage _ | SnBroadcast _ | SnReplay _ | SnPing _ => false
  end.

Fixpoint internal_run (tr : list sn_event) (s : Session) : option Session :=
  match tr with
  | [] => Some s
  | ev :: tr =>
      if internal ev s then match sn_exec ev s with Some (Ok s') => internal_run tr s' | _ => None end else None
  end.

Definition pending (s : Session) : nat :=
  match s_reader s with RdRead => 3 | RdUnregister => 2 | RdClose => 1 | RdDone => 0 end + s_slow s +
  match s_writer s with WrSelect => 2 | WrLen _ => 5 | WrDrain _ _ => 4 | WrReturn => 1 | WrDone => 0 end +
  4 * length (ch_buf (s_send s)).

Lemma internal_decreases ev s s' :
  sn_ok s -> internal ev s = true -> sn_exec ev s = Some (Ok s') -> pending s' < pending s.
Proof.
  intros Hok Hi He. unfold pending. destruct ev; simpl in He, Hi; try done.
  - destruct (s_reader s); simplify_eq. simpl. lia.
  - destruct (s_reader s); try done. destruct (unregister_ok s Hok) as (s1 & Hu & _ & _ & ? & Hw & _ & _ & Hs & Hb).
    rewrite Hu in He. simplify_eq. simpl. rewrite Hw, Hs, Hb. lia.
  - destruct (s_reader s); simplify_eq. simpl. lia.
  - destruct (s_slow s) eqn:Hsl; [done|]. destruct (unregister_ok s Hok) as (s1 & Hu & _ & _ & Hrd & Hw & _ & _ & _ & Hb).
    rewrite Hu in He. simplify_eq. simpl. rewrite Hw, Hrd, Hb. lia.
  - destruct (s_writer s); try done. destruct (recv _) as [[[m|] ch]|] eqn:Hrv; simplify_eq;
      destruct (recv_inv _ _ _ Hrv) as (_ & _ & Hb); simpl.
    + rewrite Hb. simpl. destruct ok; lia.
    + destruct (conn_write _ _ s) as [s1 b] eqn:E. destruct (conn_write_inv _ _ _ _ _ E) as [-> _]. simpl. lia.
  - destruct (s_writer s); simplify_eq. simpl. lia.
  - destruct (s_writer s) as [| |[|n] parts| |] eqn:Hw; try done. destruct (recv _) as [[x ch]|] eqn:Hrv; simplify_eq.
    destruct (recv_inv _ _ _ Hrv) as (_ & _ & Hb). simpl. destruct x as [m|]; [rewrite Hb; simpl; lia|].
    destruct Hb as (Hb & _). exfalso. destruct (so_drain _ Hok _ _ Hw) as [Hn _]. rewrite Hb in Hn. simpl in Hn. lia.
  - destruct (s_writer s) as [| |[|n] parts| |]; try done. destruct (conn_write _ _ s) as [s1 b] eqn:E. simplify_eq.
    destruct (conn_write_inv _ _ _ _ _ E) as [-> _]. simpl. destruct b; lia.
  - destruct (s_writer s); simplify_eq. simpl. lia.
Qed.

Lemma internal_run_bound tr : forall s s',
  sn_ok s -> internal_run tr s = Some s' -> sn_ok s' /\ length tr + pending s' <= pending s.
Proof.
  induction tr as [|ev tr IH]; simpl; intros s s' Hok; [by intros [= <-]|].
  destruct (internal ev s) eqn:Hi; [|done]. destruct (sn_exec ev s) as [[s1|]|] eqn:He; try done. intros Hr.
  pose proof (internal_decreases ev s s1 Hok Hi He). destruct (IH s1 s' (sn_exec_ok _ _ _ Hok He) Hr). split; [done|lia].
Qed.

(** Nothing can happen without a message, a broadcast or a tick. *)
Definition quiet (s : Session) : Prop := forall ev r, internal ev s = true -> sn_exec ev s <> Some r.

(** Both pumps run and all is written; or both have returned, the hub has
    forgotten the client, and channel and connection are closed. *)
Definition alive (s : Session) : Prop :=
  s_reader s = RdRead /\ s_writer s = WrSelect /\ s_registered s = true /\ s_slow s = 0 /\ s_open s = true /\
  ch_buf (s_send s) = [].
Definition gone (s : Session) : Prop :=
  s_reader s = RdDone /\ s_writer s = WrDone /\ s_registered s = false /\ s_slow s = 0 /\ s_open s = false /\
  ch_closed (s_send s) = true.

Lemma quiet_settled s : sn_ok s -> quiet s -> alive s \/ gone s.
Proof.
  intros Hok Hq. pose proof Hok as [Hc Hr Ho Hd _].
  assert (s_slow s = 0) as Hslow.
  { destruct (s_slow s) eqn:E; [done|]. edestruct (Hq SnSlow); [done|]. simpl. by rewrite E. }
  assert (s_writer s = WrSelect \/ s_writer s = WrDone) as Hw.
  { destruct (s_writer s) as [|m|[|n] parts| |] eqn:E; auto; exfalso.
    - eapply (Hq SnLen); [done|]. simpl. by rewrite E.
    - eapply (Hq (SnFlush false)); [done|]. simpl. by rewrite E.
    - destruct (Hd _ _ eq_refl) as [Hn _]. destruct (ch_buf (s_send s)) eqn:Hb; simpl in Hn; [lia|].
      eapply (Hq SnDrain); [done|]. simpl. rewrite E. unfold recv. by rewrite Hb.
    - eapply (Hq SnWriterClose); [done|]. simpl. by rewrite E. }
  assert (s_reader s = RdRead \/ s_reader s = RdDone) as Hrd.
  { destruct (s_reader s) eqn:E; auto; exfalso.
    - eapply (Hq SnUnregister); [done|]. simpl. by rewrite E.
    - eapply (Hq SnReaderClose); [done|]. simpl. by rewrite E. }
  assert (s_writer s = WrSelect -> ch_buf (s_send s) = [] /\ s_registered s = true) as Hsel.
  { intros E. destruct (recv (s_send s)) as [[x ch]|] eqn:Hrv.
    - exfalso. destruct x; eapply (Hq (SnRecv false)); try done; simpl; by rewrite E, Hrv.
    - unfold recv in Hrv. destruct (ch_buf (s_send s)); [|done]. rewrite Hc in Hrv. by destruct (s_registered s). }
  destruct Hrd as [E1|E1], Hw as [E2|E2].
  - left. destruct (Hsel E2). split_and!; try done. destruct (s_open s) eqn:Hop; [done|].
    destruct Ho as [Ho _]. destruct Ho; [done|congruence|congruence].
  - exfalso. assert (s_open s = false) as Hop by (apply Ho; by right). eapply (Hq SnReadFails); [simpl; by rewrite Hop|].
    simpl. by rewrite E1.
  - destruct (Hsel E2). rewrite Hr in * by auto. done.
  - right. rewrite Hr in Hc by auto. split_and!; try done; [by apply Hr; right|apply Ho; by right].
Qed.

(** C33: (a connection settles) from every state of a connection, however its
    goroutines are scheduled, a bounded number of steps without a message, a
    broadcast or a tick leads to one of two ends: the connection is alive and
    everything queued is written, or it is gone - both pumps have returned,
    the hub has dropped the client, its channel and connection are closed.
    No goroutine of a broken connection is left behind. *)
Theorem connection_settles tr tr2 s s2 :
  sn_run tr HandleWS = Some s -> internal_run tr2 s = Some s2 ->
  length tr2 <= 8 + s_slow s + 4 * length (ch_buf (s_send s)) /\ (quiet s2 -> alive s2 \/ gone s2).
Proof.
  intros Hr H2. pose proof (sn_run_ok _ _ _ HandleWS_ok Hr) as Hok.
  destruct (internal_run_bound _ _ _ Hok H2) as [Hok2 Hb]. split; [|by apply quiet_settled].
  unfold pending in Hb. destruct (s_reader s), (s_writer s); lia.
Qed.
End session.

(** ** Time *)

Section keepalive.
Open Scope Z_scope.

(** Durations are nanoseconds. *)
Definition second : Z := 1000000000.
Definition writeWait : Z := 10 * second.
Definition maxMessageSize : Z := 8192.














End keepalive.

Module PumpsWitness.

(** Two broadcasts are written as one frame, the client leaves, the hub drops
    it and the writer says goodbye. *)
Definition visit : list (@sn_event nat) :=
  [SnReplay 1; SnRecv true; SnBroadcast 2; SnLen; SnBroadcast 3; SnDrain; SnFlush true; SnReadFails; SnUnregister;
   SnRecv true; SnLen; SnFlush true; SnRecv true].

Definition after (tr : list (@sn_event nat)) : @Session nat := default HandleWS (sn_run tr HandleWS).

Lemma pump_delivers_witness :
  s_out (after visit) = [OutText [Some 1; Some 2]; OutText [Some 3]; OutClose] /\
  texts (s_out (after visit)) = map Some (all_taken visit HandleWS).
Proof.
  split; [vm_compute; reflexivity|].
  destruct (pump_delivers visit (after visit)) as (_ & _ & H); [vm_compute; reflexivity|].
  apply H. vm_compute. by do 2 right; left.
Defined.

(** The connection breaks under a write; what is left to do is done. *)
Definition leave : list (@sn_event nat) := [SnRecv false; SnWriterClose; SnReadFails; SnUnregister; SnReaderClose].

Lemma connection_settles_witness :
  exists s2, internal_run leave (after [SnBroadcast 1]) = Some s2 /\ length leave <= 12 /\ gone s2.
Proof.
  destruct (internal_run leave (after [SnBroadcast 1])) as [s2|] eqn:E; [|by vm_compute in E].
  exists s2. split; [done|].
  destruct (connection_settles [SnBroadcast 1] leave (after [SnBroadcast 1]) s2) as [Hl Hq];
    [vm_compute; reflexivity|exact E|]. split; [exact Hl|].
  vm_compute in E. injection E as <-. destruct Hq as [Ha|Hg]; [|by destruct Ha|done].
  intros ev r Hi He. destruct ev; try discriminate Hi; try destruct ok; discriminate He.
Defined.

End PumpsWitness.
