(* ===== verification/Http.v ===== *)
(** * Http: requests, responses and JSON bodies

    What the services use of Go's [net/http] and [encoding/json].  A JSON text
    is abstract: the services only ever encode a value or decode a body, so
    [Json] states what they rely on, once per type of the wire. *)

From Stdlib Require Import ZArith Ascii String.
From stdpp Require Import base list strings option.
From S2P Require Import Prelude Types Addrs.
Open Scope Z_scope.

(** [wire] holds of the values that survive the trip: finite numbers, valid
    UTF-8, integers that fit. *)
Class Json (body A : Type) : Type := {
  Marshal : A -> option body;
  Unmarshal : body -> option A;
  wire : A -> Prop;
  unmarshal_marshal : forall a, wire a -> exists b, Marshal a = Some b /\ Unmarshal b = Some a;
}.

(** The values of a [map[string]interface{}] of the services. *)
Inductive scalar : Type :=
| JString (s : string)
| JInt (v : int).

(** A body: JSON, plain text or nothing. *)
Inductive payload (body : Type) : Type :=
| PJson (b : body)
| PText (t : bytes)
| PEmpty.
Arguments PJson {body} _.
Arguments PText {body} _.
Arguments PEmpty {body}.

Record request (body : Type) : Type := mkRequest {
  rq_method : string;
  rq_host : string;
  rq_path : string;
  rq_query : list (string * bytes);
  rq_body : payload body;
}.
Arguments mkRequest {body} _ _ _ _ _.
Arguments rq_method {body} _.
Arguments rq_host {body} _.
Arguments rq_path {body} _.
Arguments rq_query {body} _.
Arguments rq_body {body} _.

Record response (body : Type) : Type := mkResponse {
  rs_status : int;
  rs_body : payload body;
}.
Arguments mkResponse {body} _ _.
Arguments rs_status {body} _.
Arguments rs_body {body} _.

Definition MethodGet : string := "GET".
Definition MethodPost : string := "POST".

Definition StatusOK : int := 200.
Definition StatusAccepted : int := 202.
Definition StatusBadRequest : int := 400.
Definition StatusNotFound : int := 404.
Definition StatusMethodNotAllowed : int := 405.
Definition StatusInternalServerError : int := 500.
Definition StatusServiceUnavailable : int := 503.

(** [http.Error]: the message and a newline, as text. *)
Definition http_Error {body} (msg : string) (code : int) : response body :=
  mkResponse code (PText (list_ascii_of_string msg ++ [newline])).

(** [json.NewDecoder(r.Body).Decode(&v)]. *)
Definition Decode {body} A `{Json body A} (p : payload body) : option A :=
  match p with PJson b => Unmarshal b | _ => None end.

(** [json.NewEncoder(w).Encode(v)]: an error leaves the body empty. *)
Definition Encode {body} {A} `{Json body A} (a : A) : payload body :=
  match Marshal a with Some b => PJson b | None => PEmpty end.

(** [r.URL.Query().Get(key)]: the first value, empty if there is none. *)
Fixpoint query_get (q : list (string * bytes)) (key : string) : bytes :=
  match q with
  | [] => []
  | (k, v) :: q => if bool_decide (k = key) then v else query_get q key
  end.

Lemma Decode_Encode {body A} `{Json body A} (a : A) : wire a -> Decode A (Encode a) = Some a.
Proof.
  intros Hw. destruct (unmarshal_marshal a Hw) as (b & Hb & Hu). unfold Encode. by rewrite Hb.
Qed.

Lemma Marshal_wire {body A} `{Json body A} (a : A) : wire a -> exists b, Marshal a = Some b.
Proof. intros Hw. destruct (unmarshal_marshal a Hw) as (b & ? & _). eauto. Qed.

(** ** A concrete wire

    Bodies as tagged values: an instance of [Json] for every type of the wire,
    used to evaluate the services on concrete requests. *)
Module Tagged.

Inductive value : Type :=
| WVoteRequest (v : VoteRequest)
| WVoteResponse (v : VoteResponse)
| WAppendRequest (v : AppendEntriesRequest)
| WAppendResponse (v : AppendEntriesResponse)
| WStroke (v : StrokeEvent)
| WStatus (v : StatusResponse)
| WCommit (v : CommitNotification)
| WEntries (v : list LogEntry)
| WMap (v : list (string * string))
| WScalars (v : list (string * scalar))
| WMessage (v : WSMessage).

#[export, refine] Instance WVoteRequest_json : Json value (VoteRequest) := {
  Marshal v := Some (WVoteRequest v);
  Unmarshal b := match b with WVoteRequest v => Some v | _ => None end;
  wire _ := True;
  unmarshal_marshal := _;
}.
Proof. intros. eexists. by split. Defined.

#[export, refine] Instance WVoteResponse_json : Json value (VoteResponse) := {
  Marshal v := Some (WVoteResponse v);
  Unmarshal b := match b with WVoteResponse v => Some v | _ => None end;
  wire _ := True;
  unmarshal_marshal := _;
}.
Proof. intros. eexists. by split. Defined.

#[export, refine] Instance WAppendRequest_json : Json value (AppendEntriesRequest) := {
  Marshal v := Some (WAppendRequest v);
  Unmarshal b := match b with WAppendRequest v => Some v | _ => None end;
  wire _ := True;
  unmarshal_marshal := _;
}.
Proof. intros. eexists. by split. Defined.

#[export, refine] Instance WAppendResponse_json : Json value (AppendEntriesResponse) := {
  Marshal v := Some (WAppendResponse v);
  Unmarshal b := match b with WAppendResponse v => Some v | _ => None end;
  wire _ := True;
  unmarshal_marshal := _;
}.
Proof. intros. eexists. by split. Defined.

#[export, refine] Instance WStroke_json : Json value (StrokeEvent) := {
  Marshal v := Some (WStroke v);
  Unmarshal b := match b with WStroke v => Some v | _ => None end;
  wire _ := True;
  unmarshal_marshal := _;
}.
Proof. intros. eexists. by split. Defined.

#[export, refine] Instance WStatus_json : Json value (StatusResponse) := {
  Marshal v := Some (WStatus v);
  Unmarshal b := match b with WStatus v => Some v | _ => None end;
  wire _ := True;
  unmarshal_marshal := _;
}.
Proof. intros. eexists. by split. Defined.

#[export, refine] Instance WCommit_json : Json value (CommitNotification) := {
  Marshal v := Some (WCommit v);
  Unmarshal b := match b with WCommit v => Some v | _ => None end;
  wire _ := True;
  unmarshal_marshal := _;
}.
Proof. intros. eexists. by split. Defined.

#[export, refine] Instance WEntries_json : Json value (list LogEntry) := {
  Marshal v := Some (WEntries v);
  Unmarshal b := match b with WEntries v => Some v | _ => None end;
  wire _ := True;
  unmarshal_marshal := _;
}.
Proof. intros. eexists. by split. Defined.

#[export, refine] Instance WMap_json : Json value (list (string * string)) := {
  Marshal v := Some (WMap v);
  Unmarshal b := match b with WMap v => Some v | _ => None end;
  wire _ := True;
  unmarshal_marshal := _;
}.
Proof. intros. eexists. by split. Defined.

#[export, refine] Instance WScalars_json : Json value (list (string * scalar)) := {
  Marshal v := Some (WScalars v);
  Unmarshal b := match b with WScalars v => Some v | _ => None end;
  wire _ := True;
  unmarshal_marshal := _;
}.
Proof. intros. eexists. by split. Defined.

#[export, refine] Instance WMessage_json : Json value (WSMessage) := {
  Marshal v := Some (WMessage v);
  Unmarshal b := match b with WMessage v => Some v | _ => None end;
  wire _ := True;
  unmarshal_marshal := _;
}.
Proof. intros. eexists. by split. Defined.

End Tagged.
