(* ===== verification/Codec.v ===== *)
(** * Codec: the wire types as JSON

    The struct tags of [types/types.go], as [encoding/json] reads them: one
    codec per type, from a list of its fields.  A JSON text is its tree; a
    number is kept as the literal it is written as, since Go reads the same
    literal into an [int] or a [float64].  The codecs are instances of the
    class [Json] of Http, so every theorem about the services holds of them. *)

From Stdlib Require Import ZArith Lia Ascii String.
From stdpp Require Import base list strings option.
From S2P Require Import Prelude Types Addrs Strconv Http.
Open Scope list_scope.
Open Scope Z_scope.
Set Warnings "-register-all".

(** ** JSON trees *)

Inductive json : Type :=
| JNull
| JBool (b : bool)
| JNum (literal : bytes)
| JStr (s : string)
| JArr (l : list json)
| JObj (members : list (string * json)).

(** ** Strings: Go writes invalid UTF-8 as the replacement character *)

Definition replacement : bytes := map byte_of [239; 191; 189]%nat.

Definition in_range (lo hi : nat) (c : ascii) : bool := bool_decide (lo <= nat_of_ascii c <= hi)%nat.

(** The length of the UTF-8 encoding of one rune at the head of [s], 0 if
    there is none: no overlong forms, no surrogates, nothing past U+10FFFF. *)
Definition rune_length (s : bytes) : nat :=
  let cont := in_range 128 191 in
  match s with
  | [] => 0
  | a :: s1 =>
      if in_range 0 127 a then 1 else
      match s1 with
      | [] => 0
      | b :: s2 =>
          if in_range 194 223 a && cont b then 2 else
          match s2 with
          | [] => 0
          | c :: s3 =>
              if cont c &&
                 ((in_range 224 224 a && in_range 160 191 b) || (in_range 225 236 a && cont b) ||
                  (in_range 237 237 a && in_range 128 159 b) || (in_range 238 239 a && cont b)) then 3 else
              match s3 with
              | [] => 0
              | d :: _ =>
                  if cont c && cont d &&
                     ((in_range 240 240 a && in_range 144 191 b) || (in_range 241 243 a && cont b) ||
                      (in_range 244 244 a && in_range 128 143 b)) then 4 else 0
              end
          end
      end
  end%nat.

Fixpoint to_valid_bytes (fuel : nat) (s : bytes) : bytes :=
  match fuel, s with
  | O, _ | _, [] => []
  | S fuel, _ :: _ =>
      match rune_length s with
      | O => replacement ++ to_valid_bytes fuel (drop 1 s)
      | k => take k s ++ to_valid_bytes fuel (drop k s)
      end
  end.

(** One unit of fuel per byte. *)
Definition to_valid (s : string) : string :=
  let b := list_ascii_of_string s in string_of_list_ascii (to_valid_bytes (length b) b).

Definition valid_string (s : string) : Prop := to_valid s = s.

#[export] Instance valid_string_dec s : Decision (valid_string s).
Proof. unfold valid_string. apply _. Defined.

(** ** Member names: exact, then up to case folding *)

(** The runes that fold to an ASCII letter: its two cases, and the Kelvin
    sign and the long s. *)
Fixpoint fold_bytes (s : bytes) : bytes :=
  match s with
  | [] => []
  | a :: s1 =>
      let tail := fold_bytes s1 in
      if in_range 65 90 a then ascii_of_nat (nat_of_ascii a + 32) :: tail
      else match s1 with
      | b :: s2 =>
          if bool_decide (a = byte_of 197 /\ b = byte_of 191) then byte_of 115 :: fold_bytes s2
          else match s2 with
          | c :: s3 =>
              if bool_decide (a = byte_of 226 /\ b = byte_of 132 /\ c = byte_of 170) then byte_of 107 :: fold_bytes s3
              else a :: tail
          | [] => a :: tail
          end
      | [] => a :: tail
      end
  end.

Definition fold_name (s : string) : bytes := fold_bytes (list_ascii_of_string s).

(** The field a member name selects, by position. *)
Fixpoint position (p : string -> bool) (names : list string) : option nat :=
  match names with
  | [] => None
  | x :: names => if p x then Some O else S <$> position p names
  end.

Definition select (names : list string) (k : string) : option nat :=
  match position (fun x => bool_decide (x = k)) names with
  | Some i => Some i
  | None => position (fun x => bool_decide (fold_name x = fold_name k)) names
  end.

(** ** Schemas *)

Inductive shape : Type :=
| ShBool
| ShInt
| ShFloat
| ShString
| ShSlice (s : shape)
| ShStruct (fields : list (string * bool * shape))
| ShScalar
| ShMap (s : shape).

(** What the model leaves open of a JSON text: the numbers of a [float64] -
    how [strconv] prints one, [None] for a NaN or an infinity, and how it reads
    a literal - and how an empty slice is written, [null] for a nil one, [[]]
    for another, which the model does not tell apart. *)
Class JsonText : Type := {
  FormatFloat : float64 -> option bytes;
  ParseFloat : bytes -> option float64;
  parse_format : forall f l, FormatFloat f = Some l -> ParseFloat l = Some f;
  empty_slice : json;
  empty_slice_ok : empty_slice = JNull \/ empty_slice = JArr [];
}.

(** ** Codecs *)

(** [dec j cur] decodes into a variable that holds [cur].  [ok] holds of the
    values that survive the trip. *)
Record Codec (A : Type) : Type := mkCodec {
  enc : A -> option json;
  dec : json -> A -> option A;
  zero : A;
  ok : A -> Prop;
  shape_of : shape;
}.
Arguments mkCodec {A} _ _ _ _ _.
Arguments enc {A} _ _.
Arguments dec {A} _ _ _.
Arguments zero {A} _.
Arguments ok {A} _ _.
Arguments shape_of {A} _.

Section codec.
Context `{JT : JsonText}.

(** A tree of a shape: what the decoder accepts.  [true] marks a field the
    encoder may leave out. *)
Fixpoint fits (s : shape) (j : json) : bool :=
  match s, j with
  | ShBool, JBool _ => true
  | ShInt, JNum l => bool_decide (is_Some (Atoi l))
  | ShFloat, JNum l => bool_decide (is_Some (ParseFloat l))
  | ShString, JStr _ => true
  | ShSlice s, JArr l => forallb (fits s) l
  | ShSlice _, JNull => true
  | ShStruct fs, JObj ms =>
      let names := map (fun f => fst (fst f)) fs in
      forallb (fun f =>
        (snd (fst f) || existsb (fun m => bool_decide (fst m = fst (fst f))) ms) &&
        forallb (fun m => negb (bool_decide ((select names (fst m)) ≫= (fun i => names !! i) = Some (fst (fst f))))
                          || fits (snd f) (snd m)) ms) fs
  | ShScalar, JStr _ => true
  | ShScalar, JNum l => bool_decide (is_Some (Atoi l))
  | ShMap s, JObj ms => forallb (fun m => fits s (snd m)) ms
  | _, _ => false
  end.

(** ** Laws of a codec *)

Class CodecLaws {A} (c : Codec A) : Prop := {
  dec_enc : forall a, ok c a -> exists j, enc c a = Some j /\ dec c j (zero c) = Some a /\ fits (shape_of c) j = true;
  dec_fits : forall j cur, fits (shape_of c) j = true -> is_Some (dec c j cur);
}.

Definition string_codec : Codec string := mkCodec
  (fun s => Some (JStr (to_valid s)))
  (fun j cur => match j with JStr s => Some s | JNull => Some cur | _ => None end)
  EmptyString valid_string ShString.

Definition bool_codec : Codec bool := mkCodec
  (fun b => Some (JBool b))
  (fun j cur => match j with JBool b => Some b | JNull => Some cur | _ => None end)
  false (fun _ => True) ShBool.

Definition int_codec : Codec int := mkCodec
  (fun z => Some (JNum (Itoa z)))
  (fun j cur => match j with JNum l => Atoi l | JNull => Some cur | _ => None end)
  0 (fun z => MinInt64 <= z <= MaxInt64) ShInt.

Definition float_codec : Codec float64 := mkCodec
  (fun f => JNum <$> FormatFloat f)
  (fun j cur => match j with JNum l => ParseFloat l | JNull => Some cur | _ => None end)
  0 (fun f => is_Some (FormatFloat f)) ShFloat.

(** The elements of an array are decoded into those that the slice has, then
    into zero values. *)
Fixpoint dec_elements {A} (c : Codec A) (js : list json) (cur : list A) : option (list A) :=
  match js with
  | [] => Some []
  | j :: js => a ← dec c j (default (zero c) (head cur)); l ← dec_elements c js (tail cur); Some (a :: l)
  end.

Definition slice_codec {A} (c : Codec A) : Codec (list A) := mkCodec
  (fun l => match l with [] => Some empty_slice | _ => JArr <$> mapM (enc c) l end)
  (fun j cur => match j with JArr l => dec_elements c l cur | JNull => Some [] | _ => None end)
  [] (Forall (ok c)) (ShSlice (shape_of c)).

(** *** Structs *)

(** A field: its JSON name, [omitempty]'s test, its type's codec, and how it
    is read and written. *)
Record field (A : Type) : Type := mkField {
  f_T : Type;
  f_codec : Codec f_T;
  f_laws : CodecLaws f_codec;
  f_name : string;
  f_omit : f_T -> bool;
  f_get : A -> f_T;
  f_set : f_T -> A -> A;
}.
Arguments mkField {A f_T} _ {_} _ _ _ _.
Arguments f_T {A} _.
Arguments f_codec {A} _.
Arguments f_laws {A} _.
Arguments f_name {A} _.
Arguments f_omit {A} _ _.
Arguments f_get {A} _ _.
Arguments f_set {A} _ _ _.

Definition always {T} (_ : T) : bool := false.
Definition omit_empty (s : string) : bool := bool_decide (s = EmptyString).
Definition omit_zero (z : int) : bool := bool_decide (z = 0).

Fixpoint enc_fields {A} (fs : list (field A)) (a : A) : option (list (string * json)) :=
  match fs with
  | [] => Some []
  | f :: fs =>
      if f_omit f (f_get f a) then enc_fields fs a
      else j ← enc (f_codec f) (f_get f a); ms ← enc_fields fs a; Some ((f_name f, j) :: ms)
  end.

(** One member of an object: an unknown name is skipped. *)
Definition dec_member {A} (fs : list (field A)) (m : string * json) (cur : A) : option A :=
  match select (map f_name fs) (fst m) ≫= (fun i => fs !! i) with
  | None => Some cur
  | Some f => v ← dec (f_codec f) (snd m) (f_get f cur); Some (f_set f v cur)
  end.

Fixpoint dec_members {A} (fs : list (field A)) (ms : list (string * json)) (cur : A) : option A :=
  match ms with
  | [] => Some cur
  | m :: ms => cur ← dec_member fs m cur; dec_members fs ms cur
  end.

Definition struct_codec {A} (fs : list (field A)) (z : A) : Codec A := mkCodec
  (fun a => JObj <$> enc_fields fs a)
  (fun j cur => match j with JObj ms => dec_members fs ms cur | JNull => Some cur | _ => None end)
  z (fun a => Forall (fun f => ok (f_codec f) (f_get f a)) fs)
  (ShStruct (map (fun f => (f_name f, f_omit f (zero (f_codec f)), shape_of (f_codec f))) fs)).

(** What decoding the members in the encoder's order leaves. *)
Fixpoint rebuilds {A} (fs : list (field A)) (a cur : A) : Prop :=
  match fs with
  | [] => cur = a
  | f :: fs =>
      if f_omit f (f_get f a) then rebuilds fs a cur
      else f_get f cur = zero (f_codec f) /\ rebuilds fs a (f_set f (f_get f a) cur)
  end.

(** ** Laws *)

#[export] Instance string_laws : CodecLaws string_codec.
Proof.
  split.
  - intros a Ha. eexists. split_and!; [done| |done]. simpl. by rewrite Ha.
  - intros [] cur; simpl; eauto; done.
Qed.

#[export] Instance bool_laws : CodecLaws bool_codec.
Proof. split; [intros; eexists; by split_and!|]. intros [] cur; simpl; eauto; done. Qed.

#[export] Instance int_laws : CodecLaws int_codec.
Proof.
  split.
  - intros z Hz. pose proof (Atoi_Itoa_int z Hz) as Hr. eexists. split_and!; [done|done|].
    cbn [fits shape_of int_codec]. rewrite Hr. by apply bool_decide_eq_true.
  - intros [] cur; simpl; try done. by intros ?%bool_decide_eq_true.
Qed.

#[export] Instance float_laws : CodecLaws float_codec.
Proof.
  split.
  - intros f [l Hl]. pose proof (parse_format _ _ Hl) as Hp. exists (JNum l). simpl. rewrite Hl, Hp.
    split_and!; [done..|]. by apply bool_decide_eq_true.
  - intros [] cur; simpl; try done. by intros ?%bool_decide_eq_true.
Qed.

Lemma slice_elements {A} (c : Codec A) `{!CodecLaws c} l :
  Forall (ok c) l -> exists js, mapM (enc c) l = Some js /\ dec_elements c js [] = Some l /\
    forallb (fits (shape_of c)) js = true.
Proof.
  induction 1 as [|a l Ha _ (js & He & Hd & Hf)]; [by exists []|].
  destruct (dec_enc a Ha) as (j & Hj & Hdj & Hfj). exists (j :: js). simpl. rewrite Hj, He. simpl.
  rewrite Hdj. simpl. rewrite Hd. simpl. by rewrite Hfj.
Qed.

#[export] Instance slice_laws {A} (c : Codec A) `{!CodecLaws c} : CodecLaws (slice_codec c).
Proof.
  split.
  - intros l Hl. destruct (slice_elements c l Hl) as (js & He & Hd & Hf). simpl. destruct l as [|a l].
    + exists empty_slice. by destruct empty_slice_ok as [->| ->].
    + rewrite He. by exists (JArr js).
  - intros [] cur; simpl; try done. intros Hf. revert cur. induction l as [|j l IH]; intros cur; simpl in *; [done|].
    apply andb_true_iff in Hf as [Hj Hl]. destruct (dec_fits j (default (zero c) (head cur)) Hj) as [a ->]. simpl.
    destruct (IH Hl (tail cur)) as [? ->]. by eexists.
Qed.

(** A name list in which every name selects itself. *)
Definition names_ok {A} (fs : list (field A)) : Prop :=
  forall f, f ∈ fs -> select (map f_name fs) (f_name f) ≫= (fun i => fs !! i) = Some f.

Record struct_ok {A} (fs : list (field A)) (z : A) : Prop := {
  sk_names : names_ok fs;
  sk_rebuilds : forall a, rebuilds fs a z;
  sk_omit : forall f v, f ∈ fs -> f_omit f v = true -> f_omit f (zero (f_codec f)) = true;
}.

Lemma names_inj {A} (fs : list (field A)) f g :
  names_ok fs -> f ∈ fs -> g ∈ fs -> f_name f = f_name g -> f = g.
Proof. intros Hok Hf Hg Heq. pose proof (Hok f Hf) as H. rewrite Heq, (Hok g Hg) in H. by injection H. Qed.

(** The members written for some of the fields. *)
Lemma enc_fields_ok {A} (fs : list (field A)) a : names_ok fs -> forall gs cur,
  (forall f, f ∈ gs -> f ∈ fs) -> Forall (fun f => ok (f_codec f) (f_get f a)) gs -> rebuilds gs a cur ->
  exists ms, enc_fields gs a = Some ms /\ dec_members fs ms cur = Some a /\
    (forall m, m ∈ ms -> exists f, f ∈ gs /\ fst m = f_name f /\ fits (shape_of (f_codec f)) (snd m) = true) /\
    (forall f, f ∈ gs -> f_omit f (f_get f a) = true \/ exists m, m ∈ ms /\ fst m = f_name f).
Proof.
  intros Hnames. induction gs as [|f gs IH]; intros cur Hsub Hok Hre.
  { exists []. simpl in *. subst. split_and!; [done|done|by intros ? ?%elem_of_nil|by intros ? ?%elem_of_nil]. }
  apply list.Forall_cons in Hok as [Hf Hok]. simpl in *. destruct (f_omit f (f_get f a)) eqn:Hom.
  - destruct (IH cur) as (ms & He & Hd & Hm & Hp); [intros; apply Hsub; by right|done|done|].
    exists ms. split_and!; [done|done| |].
    + intros m (g & ? & ?)%Hm. exists g. split; [by right|done].
    + intros g [->|Hg]%elem_of_cons; [by left|by apply Hp].
  - destruct Hre as [Hz Hre]. destruct (dec_enc (CodecLaws := f_laws f) _ Hf) as (j & Hj & Hdj & Hfj).
    destruct (IH _ ltac:(intros; apply Hsub; by right) Hok Hre) as (ms & He & Hd & Hm & Hp).
    exists ((f_name f, j) :: ms). rewrite Hj, He. simpl. split_and!; [done| | |].
    + unfold dec_member. simpl. rewrite (Hnames f) by (apply Hsub; by left). rewrite Hz, Hdj. done.
    + intros m [->|(g & ? & ?)%Hm]%elem_of_cons; [exists f|exists g]; (split; [|done]); [by left|by right].
    + intros g [->|Hg]%elem_of_cons; [right; eexists; split; [by left|done]|].
      destruct (Hp g Hg) as [?|(m & ? & ?)]; [by left|]. right. exists m. split; [by right|done].
Qed.

Lemma struct_names {A} (fs : list (field A)) :
  map (fun f : string * bool * shape => fst (fst f))
    (map (fun f => (f_name f, f_omit f (zero (f_codec f)), shape_of (f_codec f))) fs) = map f_name fs.
Proof. by rewrite map_map. Qed.

Lemma select_name {A} (fs : list (field A)) k f :
  select (map f_name fs) k ≫= (fun i => fs !! i) = Some f ->
  select (map f_name fs) k ≫= (fun i => map f_name fs !! i) = Some (f_name f).
Proof. destruct (select _ k) as [i|]; [|done]. simpl. intros Hi. by rewrite list_lookup_fmap, Hi. Qed.

(** The shape of a struct, field by field. *)
Lemma fits_struct {A} (fs : list (field A)) ms :
  fits (ShStruct (map (fun f => (f_name f, f_omit f (zero (f_codec f)), shape_of (f_codec f))) fs)) (JObj ms) = true <->
  forall f, f ∈ fs ->
    (f_omit f (zero (f_codec f)) = true \/ exists m, m ∈ ms /\ fst m = f_name f) /\
    forall m, m ∈ ms -> select (map f_name fs) (fst m) ≫= (fun i => map f_name fs !! i) = Some (f_name f) ->
      fits (shape_of (f_codec f)) (snd m) = true.
Proof.
  cbn [fits]. rewrite struct_names, forallb_forall. setoid_rewrite in_map_iff.
  setoid_rewrite andb_true_iff. setoid_rewrite orb_true_iff. setoid_rewrite existsb_exists.
  setoid_rewrite forallb_forall. setoid_rewrite orb_true_iff. setoid_rewrite negb_true_iff.
  setoid_rewrite bool_decide_eq_true. setoid_rewrite bool_decide_eq_false. setoid_rewrite <- list_elem_of_In.
  split.
  - intros H f Hf. destruct (H _ (ex_intro _ f (conj eq_refl Hf))) as [H1 H2]. split; [exact H1|].
    intros m Hm Hs. by destruct (H2 m Hm).
  - intros H x (f & <- & Hf). destruct (H f Hf) as [H1 H2]. split; [exact H1|]. intros m Hm.
    destruct (decide (select (map f_name fs) (fst m) ≫= (fun i => map f_name fs !! i) = Some (f_name f))); auto.
Qed.

Lemma struct_laws {A} (fs : list (field A)) z : struct_ok fs z -> CodecLaws (struct_codec fs z).
Proof.
  intros [Hnames Hre Hom]. split.
  - intros a Ha. destruct (enc_fields_ok fs a Hnames fs z (fun _ H => H) Ha (Hre a)) as (ms & He & Hd & Hm & Hp).
    exists (JObj ms). split_and!; [simpl; by rewrite He|done|]. apply fits_struct. intros f Hf. split.
    + destruct (Hp f Hf) as [?|?]; [left; by eapply Hom|by right].
    + intros m (g & Hg & Hk & Hfit)%Hm Hsel. rewrite Hk, (select_name fs _ g (Hnames g Hg)) in Hsel.
      injection Hsel as Hsel. by rewrite (names_inj fs f g).
  - intros [] cur Hfit; simpl in Hfit; try done.
    change (fits (ShStruct (map (fun f => (f_name f, f_omit f (zero (f_codec f)), shape_of (f_codec f))) fs)) (JObj members) = true) in Hfit.
    rewrite fits_struct in Hfit. cbn [dec struct_codec].
    assert (forall f m, f ∈ fs -> m ∈ members ->
      select (map f_name fs) (fst m) ≫= (fun i => map f_name fs !! i) = Some (f_name f) ->
      fits (shape_of (f_codec f)) (snd m) = true) as Hfit' by (intros f m Hf; by apply (Hfit f Hf)).
    clear Hfit. revert cur. induction members as [|m ms IH]; intros cur; simpl; [by eexists|].
    assert (is_Some (dec_member fs m cur)) as [cur' Hc].
    { unfold dec_member. destruct (_ ≫= _) as [f|] eqn:Hs; [|by eexists].
      assert (f ∈ fs) as Hf by (destruct (select _ _); [|done]; by eapply list_elem_of_lookup_2).
      destruct (dec_fits (CodecLaws := f_laws f) (snd m) (f_get f cur)) as [v Hv]; [|rewrite Hv; by eexists].
      apply (Hfit' f m Hf); [by left|by apply select_name]. }
    rewrite Hc. simpl. apply IH. intros f m' Hf Hm'. apply Hfit'; [done|by right].
Qed.

(** ** The structs of [types.go] *)

(** The side conditions of a field list, by computation. *)
Ltac solve_struct :=
  apply struct_laws; split;
  [ intros f Hf; repeat (apply elem_of_cons in Hf as [->|Hf]; [reflexivity|]); by apply elem_of_nil in Hf
  | intros a; destruct a; simpl; unfold omit_empty, omit_zero; repeat case_bool_decide; simpl in *; subst; by repeat split
  | intros f v Hf; repeat (apply elem_of_cons in Hf as [->|Hf]; [done|]); by apply elem_of_nil in Hf ].

Definition point_fields : list (field Point) :=
  [ mkField float_codec "x" always pt_X (fun v p => mkPoint v (pt_Y p));
    mkField float_codec "y" always pt_Y (fun v p => mkPoint (pt_X p) v) ].
Definition point_codec : Codec Point := struct_codec point_fields (mkPoint 0 0).
#[export] Instance point_laws : CodecLaws point_codec.
Proof. solve_struct. Qed.

Definition stroke_fields : list (field StrokeEvent) :=
  let upd s id ty tgt pts col w u := mkStrokeEvent (id (se_ID s)) (ty (se_Type s)) (tgt (se_TargetID s))
                                       (pts (se_Points s)) (col (se_Color s)) (w (se_Width s)) (u (se_UserID s)) in
  [ mkField string_codec "id" always se_ID (fun v s => upd s (fun _ => v) id id id id id id);
    mkField string_codec "type" omit_empty se_Type (fun v s => upd s id (fun _ => v) id id id id id);
    mkField string_codec "targetId" omit_empty se_TargetID (fun v s => upd s id id (fun _ => v) id id id id);
    mkField (slice_codec point_codec) "points" always se_Points (fun v s => upd s id id id (fun _ => v) id id id);
    mkField string_codec "color" always se_Color (fun v s => upd s id id id id (fun _ => v) id id);
    mkField float_codec "width" always se_Width (fun v s => upd s id id id id id (fun _ => v) id);
    mkField string_codec "userId" always se_UserID (fun v s => upd s id id id id id id (fun _ => v)) ].
Definition stroke_codec : Codec StrokeEvent := struct_codec stroke_fields zeroStroke.
#[export] Instance stroke_laws : CodecLaws stroke_codec.
Proof. solve_struct. Qed.

Definition entry_fields : list (field LogEntry) :=
  [ mkField int_codec "index" always le_Index (fun v e => mkLogEntry v (le_Term e) (le_Stroke e));
    mkField int_codec "term" always le_Term (fun v e => mkLogEntry (le_Index e) v (le_Stroke e));
    mkField stroke_codec "stroke" always le_Stroke (fun v e => mkLogEntry (le_Index e) (le_Term e) v) ].
Definition entry_codec : Codec LogEntry := struct_codec entry_fields zeroEntry.
#[export] Instance entry_laws : CodecLaws entry_codec.
Proof. solve_struct. Qed.

Definition vote_request_fields : list (field VoteRequest) :=
  [ mkField int_codec "term" always vreq_Term
      (fun v r => mkVoteRequest v (vreq_CandidateID r) (vreq_LastLogIndex r) (vreq_LastLogTerm r));
    mkField string_codec "candidateId" always vreq_CandidateID
      (fun v r => mkVoteRequest (vreq_Term r) v (vreq_LastLogIndex r) (vreq_LastLogTerm r));
    mkField int_codec "lastLogIndex" always vreq_LastLogIndex
      (fun v r => mkVoteRequest (vreq_Term r) (vreq_CandidateID r) v (vreq_LastLogTerm r));
    mkField int_codec "lastLogTerm" always vreq_LastLogTerm
      (fun v r => mkVoteRequest (vreq_Term r) (vreq_CandidateID r) (vreq_LastLogIndex r) v) ].
Definition vote_request_codec : Codec VoteRequest := struct_codec vote_request_fields (mkVoteRequest 0 EmptyString 0 0).
#[export] Instance vote_request_laws : CodecLaws vote_request_codec.
Proof. solve_struct. Qed.

Definition vote_response_fields : list (field VoteResponse) :=
  [ mkField int_codec "term" always vresp_Term (fun v r => mkVoteResponse v (vresp_VoteGranted r));
    mkField bool_codec "voteGranted" always vresp_VoteGranted (fun v r => mkVoteResponse (vresp_Term r) v) ].
Definition vote_response_codec : Codec VoteResponse := struct_codec vote_response_fields (mkVoteResponse 0 false).
#[export] Instance vote_response_laws : CodecLaws vote_response_codec.
Proof. solve_struct. Qed.

Definition append_request_fields : list (field AppendEntriesRequest) :=
  let upd r t l pi pt es c := mkAppendEntriesRequest (t (areq_Term r)) (l (areq_LeaderID r)) (pi (areq_PrevLogIndex r))
                                (pt (areq_PrevLogTerm r)) (es (areq_Entries r)) (c (areq_LeaderCommit r)) in
  [ mkField int_codec "term" always areq_Term (fun v r => upd r (fun _ => v) id id id id id);
    mkField string_codec "leaderId" always areq_LeaderID (fun v r => upd r id (fun _ => v) id id id id);
    mkField int_codec "prevLogIndex" always areq_PrevLogIndex (fun v r => upd r id id (fun _ => v) id id id);
    mkField int_codec "prevLogTerm" always areq_PrevLogTerm (fun v r => upd r id id id (fun _ => v) id id);
    mkField (slice_codec entry_codec) "entries" always areq_Entries (fun v r => upd r id id id id (fun _ => v) id);
    mkField int_codec "leaderCommit" always areq_LeaderCommit (fun v r => upd r id id id id id (fun _ => v)) ].
Definition append_request_codec : Codec AppendEntriesRequest :=
  struct_codec append_request_fields (mkAppendEntriesRequest 0 EmptyString 0 0 [] 0).
#[export] Instance append_request_laws : CodecLaws append_request_codec.
Proof. solve_struct. Qed.

Definition append_response_fields : list (field AppendEntriesResponse) :=
  [ mkField int_codec "term" always aresp_Term
      (fun v r => mkAppendEntriesResponse v (aresp_Success r) (aresp_ConflictIndex r));
    mkField bool_codec "success" always aresp_Success
      (fun v r => mkAppendEntriesResponse (aresp_Term r) v (aresp_ConflictIndex r));
    mkField int_codec "conflictIndex" omit_zero aresp_ConflictIndex
      (fun v r => mkAppendEntriesResponse (aresp_Term r) (aresp_Success r) v) ].
Definition append_response_codec : Codec AppendEntriesResponse :=
  struct_codec append_response_fields (mkAppendEntriesResponse 0 false 0).
#[export] Instance append_response_laws : CodecLaws append_response_codec.
Proof. solve_struct. Qed.

Definition status_fields : list (field StatusResponse) :=
  let upd r n s t l c i := mkStatusResponse (n (st_NodeID r)) (s (st_State r)) (t (st_Term r)) (l (st_LogLength r))
                             (c (st_CommitIndex r)) (i (st_LeaderID r)) in
  [ mkField string_codec "nodeId" always st_NodeID (fun v r => upd r (fun _ => v) id id id id id);
    mkField string_codec "state" always st_State (fun v r => upd r id (fun _ => v) id id id id);
    mkField int_codec "term" always st_Term (fun v r => upd r id id (fun _ => v) id id id);
    mkField int_codec "logLength" always st_LogLength (fun v r => upd r id id id (fun _ => v) id id);
    mkField int_codec "commitIndex" always st_CommitIndex (fun v r => upd r id id id id (fun _ => v) id);
    mkField string_codec "leaderId" always st_LeaderID (fun v r => upd r id id id id id (fun _ => v)) ].
Definition status_codec : Codec StatusResponse :=
  struct_codec status_fields (mkStatusResponse EmptyString EmptyString 0 0 0 EmptyString).
#[export] Instance status_laws : CodecLaws status_codec.
Proof. solve_struct. Qed.

Definition commit_fields : list (field CommitNotification) :=
  [ mkField stroke_codec "stroke" always cn_Stroke (fun v r => mkCommitNotification v (cn_Index r) (cn_Term r));
    mkField int_codec "index" always cn_Index (fun v r => mkCommitNotification (cn_Stroke r) v (cn_Term r));
    mkField int_codec "term" always cn_Term (fun v r => mkCommitNotification (cn_Stroke r) (cn_Index r) v) ].
Definition commit_codec : Codec CommitNotification := struct_codec commit_fields (mkCommitNotification zeroStroke 0 0).
#[export] Instance commit_laws : CodecLaws commit_codec.
Proof. solve_struct. Qed.

(** ** Maps *)

Fixpoint map_put {A} (k : string) (v : A) (m : list (string * A)) : list (string * A) :=
  match m with
  | [] => [(k, v)]
  | (k', v') :: m => if bool_decide (k = k') then (k, v) :: m else (k', v') :: map_put k v m
  end.

(** Go writes the keys in sorted order and reads them in any. *)
Definition map_codec {A} (c : Codec A) : Codec (list (string * A)) := mkCodec
  (fun m => JObj <$> mapM (fun kv => j ← enc c (snd kv); Some (to_valid (fst kv), j)) m)
  (fun j cur => match j with
    | JObj ms => foldl (fun acc m => acc ← acc; v ← dec c (snd m) (zero c); Some (map_put (fst m) v acc)) (Some cur) ms
    | JNull => Some []
    | _ => None
    end)
  [] (fun m => NoDup (map fst m) /\ Forall (fun kv => valid_string (fst kv) /\ ok c (snd kv)) m) (ShMap (shape_of c)).

(** The values of a [map[string]interface{}]. *)
Definition scalar_codec : Codec scalar := mkCodec
  (fun v => match v with JString s => Some (JStr (to_valid s)) | JInt z => Some (JNum (Itoa z)) end)
  (fun j _ => match j with JStr s => Some (JString s) | JNum l => JInt <$> Atoi l | _ => None end)
  (JInt 0) (fun v => match v with JString s => valid_string s | JInt z => MinInt64 <= z <= MaxInt64 end) ShScalar.

#[export] Instance scalar_laws : CodecLaws scalar_codec.
Proof.
  split.
  - intros [s|z] Hv; simpl in Hv.
    + exists (JStr s). simpl. by rewrite Hv.
    + exists (JNum (Itoa z)). pose proof (Atoi_Itoa_int z Hv) as Hr. cbn [enc dec fits shape_of scalar_codec].
      rewrite Hr. split_and!; [done..|]. by apply bool_decide_eq_true.
  - intros [] cur; simpl; try done. intros [z ->]%bool_decide_eq_true. by eexists.
Qed.

Lemma map_put_new {A} k (v : A) m : k ∉ map fst m -> map_put k v m = m ++ [(k, v)].
Proof.
  induction m as [|[k' v'] m IH]; simpl; [done|]. intros [Hk Hm]%not_elem_of_cons.
  rewrite bool_decide_false by done. by rewrite IH.
Qed.

Lemma map_members {A} (c : Codec A) `{!CodecLaws c} m : forall acc,
  NoDup (map fst (acc ++ m)) -> Forall (fun kv => valid_string (fst kv) /\ ok c (snd kv)) m ->
  exists js, mapM (fun kv => j ← enc c (snd kv); Some (to_valid (fst kv), j)) m = Some js /\
    foldl (fun acc m => acc ← acc; v ← dec c (snd m) (zero c); Some (map_put (fst m) v acc)) (Some acc) js = Some (acc ++ m) /\
    forallb (fun m => fits (shape_of c) (snd m)) js = true.
Proof.
  induction m as [|[k v] m IH]; intros acc Hnd Hok; [exists []; by rewrite app_nil_r|].
  apply list.Forall_cons in Hok as [[Hk Hv] Hok]. destruct (dec_enc v Hv) as (j & Hj & Hd & Hf).
  simpl in Hk. destruct (IH (acc ++ [(k, v)])) as (js & He & Hds & Hfs); [by rewrite <- app_assoc|done|].
  exists ((k, j) :: js). simpl. rewrite Hj. simpl. rewrite Hk, He. simpl. split_and!; [done| |by rewrite Hf].
  rewrite Hd. simpl. rewrite map_put_new; [by rewrite Hds, <- app_assoc|].
  rewrite map_app in Hnd. simpl in Hnd. apply list.NoDup_app in Hnd as (_ & Hdis & _). intros Hin.
  apply (Hdis k Hin). by left.
Qed.

#[export] Instance map_laws {A} (c : Codec A) `{!CodecLaws c} : CodecLaws (map_codec c).
Proof.
  split.
  - intros m [Hnd Hok]. destruct (map_members c m [] Hnd Hok) as (js & He & Hd & Hf).
    exists (JObj js). split_and!; [simpl; by rewrite He|done|done].
  - intros [] cur; simpl; try done. revert cur.
    induction members as [|[k j] ms IH]; intros cur; simpl; [by eexists|]. intros [Hj Hms]%andb_true_iff.
    destruct (dec_fits j (zero c) Hj) as [v ->]. simpl. by apply IH.
Qed.

(** ** WebSocket messages

    Go only writes them; the reader is the browser, which looks at [type]
    before [payload] ([handleMessage] of [frontend/app.js]). *)

Definition member (k : string) (ms : list (string * json)) : option json :=
  snd <$> head (filter (fun m => fst m = k) ms).

Definition enc_payload (p : Payload) : option json :=
  match p with
  | PayloadStroke s => enc stroke_codec s
  | PayloadStrings m => enc (map_codec string_codec) m
  end.

Definition enc_message (m : WSMessage) : option json :=
  p ← enc_payload (ws_Payload m); Some (JObj [("type", JStr (to_valid (ws_Type m))); ("payload", p)]%string).

Definition read_message (j : json) : option WSMessage :=
  match j with
  | JObj ms =>
      t ← member "type" ms; p ← member "payload" ms;
      match t with
      | JStr t =>
          mkWSMessage t <$>
            if bool_decide (t = "stroke"%string) then PayloadStroke <$> dec stroke_codec p zeroStroke
            else PayloadStrings <$> dec (map_codec string_codec) p []
      | _ => None
      end
  | _ => None
  end.

Definition ok_message (m : WSMessage) : Prop :=
  valid_string (ws_Type m) /\
  match ws_Payload m with
  | PayloadStroke s => ws_Type m = "stroke"%string /\ ok stroke_codec s
  | PayloadStrings kvs => ws_Type m <> "stroke"%string /\ ok (map_codec string_codec) kvs
  end.

Lemma read_message_members t p :
  read_message (JObj [("type", JStr t); ("payload", p)]%string) =
  mkWSMessage t <$> (if bool_decide (t = "stroke"%string) then PayloadStroke <$> dec stroke_codec p (zero stroke_codec)
                     else PayloadStrings <$> dec (map_codec string_codec) p (zero (map_codec string_codec))).
Proof. reflexivity. Qed.

Lemma read_enc_message m : ok_message m -> exists j, enc_message m = Some j /\ read_message j = Some m.
Proof.
  intros [Ht Hp]. destruct m as [t p]. cbn [ws_Type ws_Payload] in *.
  assert (exists j, enc_payload p = Some j /\
    (if bool_decide (t = "stroke"%string) then PayloadStroke <$> dec stroke_codec j (zero stroke_codec)
     else PayloadStrings <$> dec (map_codec string_codec) j (zero (map_codec string_codec))) = Some p) as (j & Hj & Hd).
  { destruct p as [s|kvs]; destruct Hp as [Hts Hok].
    - destruct (dec_enc s Hok) as (j & Hj & Hd & _). exists j. split; [exact Hj|].
      rewrite bool_decide_true by done. by rewrite Hd.
    - destruct (dec_enc kvs Hok) as (j & Hj & Hd & _). exists j. split; [exact Hj|].
      rewrite bool_decide_false by done. by rewrite Hd. }
  unfold enc_message. cbn [ws_Type ws_Payload]. rewrite Hj. cbn [mbind option_bind]. eexists. split; [done|].
  by rewrite Ht, read_message_members, Hd.
Qed.

(** ** The instances *)

#[refine] Definition codec_json {A} (c : Codec A) `{!CodecLaws c} : Json json A := {|
  Marshal := enc c;
  Unmarshal j := dec c j (zero c);
  wire := ok c;
|}.
Proof. intros a Ha. destruct (dec_enc a Ha) as (j & ? & ? & _). eauto. Defined.

#[export] Instance vote_request_json : Json json VoteRequest := codec_json vote_request_codec.
#[export] Instance vote_response_json : Json json VoteResponse := codec_json vote_response_codec.
#[export] Instance append_request_json : Json json AppendEntriesRequest := codec_json append_request_codec.
#[export] Instance append_response_json : Json json AppendEntriesResponse := codec_json append_response_codec.
#[export] Instance stroke_json : Json json StrokeEvent := codec_json stroke_codec.
#[export] Instance status_json : Json json StatusResponse := codec_json status_codec.
#[export] Instance commit_json : Json json CommitNotification := codec_json commit_codec.
#[export] Instance entries_json : Json json (list LogEntry) := codec_json (slice_codec entry_codec).
#[export] Instance strings_json : Json json (list (string * string)) := codec_json (map_codec string_codec).
#[export] Instance scalars_json : Json json (list (string * scalar)) := codec_json (map_codec scalar_codec).
#[export] Instance message_json : Json json WSMessage := {|
  Marshal := enc_message; Unmarshal := read_message; wire := ok_message; unmarshal_marshal := read_enc_message |}.
End codec.

(** ** A concrete [JsonText]

    Bit patterns in decimal: not Go's [strconv], but a printer and a reader
    that satisfy its law, to evaluate the codecs with. *)
Module Decimal.

Definition format (f : float64) : option bytes :=
  if bool_decide (MinInt64 <= f <= MaxInt64) then Some (Itoa f) else None.

Lemma parse_decimal f l : format f = Some l -> Atoi l = Some f.
Proof. unfold format. case_bool_decide; [|done]. intros [= <-]. by apply Atoi_Itoa_int. Qed.

#[export] Instance decimal_text : JsonText := {|
  FormatFloat := format; ParseFloat := Atoi; parse_format := parse_decimal;
  empty_slice := JNull; empty_slice_ok := or_introl eq_refl |}.
End Decimal.
