(* ===== verification/ReplicaServer.v ===== *)
(** * ReplicaServer: the HTTP layer of a replica

    [replica/internal/server]: a handler per endpoint, on the node behind it,
    and the routing table of [NewServer].  A handler returns the node and the
    response; a panic of the node aborts the connection, with no response. *)

From Stdlib Require Import ZArith Lia Ascii String.
From stdpp Require Import base list strings option gmap.
From S2P Require Import Prelude Types RaftLog Node Election Replication Handlers Addrs Strconv Http.
Open Scope list_scope.
Open Scope Z_scope.

Section server.
Context {body : Type}.
Context `{JVoteReq : Json body VoteRequest} `{JVoteResp : Json body VoteResponse}
        `{JAppReq : Json body AppendEntriesRequest} `{JAppResp : Json body AppendEntriesResponse}
        `{JStroke : Json body StrokeEvent} `{JStatus : Json body StatusResponse}
        `{JEntries : Json body (list LogEntry)} `{JMap : Json body (list (string * string))}.

Local Abbreviation request := (request body) (only parsing).
Local Abbreviation response := (response body) (only parsing).

Definition not_allowed : response := http_Error "method not allowed" StatusMethodNotAllowed.
Definition invalid_body : response := http_Error "invalid request body" StatusBadRequest.

Definition HandleHealth (n : Node) (r : request) : Node * result response :=
  (n, Ok (mkResponse StatusOK (Encode [("status", "ok")%string]))).

(** One line of the metrics: name, node label and value. *)
Definition metric (name : string) (id : string) (v : int) : bytes :=
  list_ascii_of_string name ++ list_ascii_of_string "{node=" ++ ["034"%char] ++ list_ascii_of_string id ++
  ["034"%char] ++ list_ascii_of_string "} " ++ Itoa v ++ [newline].

Definition HandleMetrics (n : Node) (r : request) : Node * result response :=
  let status := Status n in
  (n, Ok (mkResponse StatusOK (PText
     (metric "smolraft_replica_term" (st_NodeID status) (st_Term status) ++
      metric "smolraft_replica_log_length" (st_NodeID status) (st_LogLength status) ++
      metric "smolraft_replica_commit_index" (st_NodeID status) (st_CommitIndex status))))).

Definition HandleStatus (n : Node) (r : request) : Node * result response :=
  (n, Ok (mkResponse StatusOK (Encode (Status n)))).

Definition HandleRequestVote (n : Node) (r : request) : Node * result response :=
  if bool_decide (rq_method r <> MethodPost) then (n, Ok not_allowed)
  else match Decode VoteRequest (rq_body r) with
  | None => (n, Ok invalid_body)
  | Some req =>
      let '(n, resp) := HandleVoteRequest n req in
      (n, Ok (mkResponse StatusOK (Encode resp)))
  end.

(** The part [HandleAppendEntries] and [HandleHeartbeat] share. *)
Definition append_reply (n : Node) (req : AppendEntriesRequest) : Node * result response :=
  match HandleAppendEntries n req with
  | (n, Ok resp) => (n, Ok (mkResponse StatusOK (Encode resp)))
  | (n, Panicked p) => (n, Panicked p)
  end.

Definition ServeAppendEntries (n : Node) (r : request) : Node * result response :=
  if bool_decide (rq_method r <> MethodPost) then (n, Ok not_allowed)
  else match Decode AppendEntriesRequest (rq_body r) with
  | None => (n, Ok invalid_body)
  | Some req => append_reply n req
  end.

(** [req.Entries = nil]. *)
Definition drop_entries (req : AppendEntriesRequest) : AppendEntriesRequest :=
  mkAppendEntriesRequest (areq_Term req) (areq_LeaderID req) (areq_PrevLogIndex req)
    (areq_PrevLogTerm req) [] (areq_LeaderCommit req).

Definition HandleHeartbeat (n : Node) (r : request) : Node * result response :=
  if bool_decide (rq_method r <> MethodPost) then (n, Ok not_allowed)
  else match Decode AppendEntriesRequest (rq_body r) with
  | None => (n, Ok invalid_body)
  | Some req => append_reply n (drop_entries req)
  end.

Definition ServeStroke (n : Node) (r : request) : Node * result response :=
  if bool_decide (rq_method r <> MethodPost) then (n, Ok not_allowed)
  else match Decode StrokeEvent (rq_body r) with
  | None => (n, Ok invalid_body)
  | Some stroke =>
      match HandleStroke n stroke with
      | (n, Some err) =>
          if bool_decide (err = ErrNotLeader) then
            (n, Ok (mkResponse StatusServiceUnavailable
                      (Encode [("error", "not the leader"); ("leaderId", st_LeaderID (Status n))]%string)))
          else (n, Ok (http_Error "internal error" StatusInternalServerError))
      | (n, None) => (n, Ok (mkResponse StatusAccepted (Encode [("status", "accepted")%string])))
      end
  end.

Definition HandleSyncLog (n : Node) (r : request) : Node * result response :=
  let from := default 0 (Atoi (query_get (rq_query r) "from")) in
  (n, Ok (mkResponse StatusOK (Encode (GetSyncLog n from)))).

(** The routes of [NewServer]. *)
Definition ServeHTTP (n : Node) (r : request) : Node * result response :=
  if bool_decide (rq_path r = "/request-vote"%string) then HandleRequestVote n r
  else if bool_decide (rq_path r = "/append-entries"%string) then ServeAppendEntries n r
  else if bool_decide (rq_path r = "/heartbeat"%string) then HandleHeartbeat n r
  else if bool_decide (rq_path r = "/stroke"%string) then ServeStroke n r
  else if bool_decide (rq_path r = "/status"%string) then HandleStatus n r
  else if bool_decide (rq_path r = "/health"%string) then HandleHealth n r
  else if bool_decide (rq_path r = "/metrics"%string) then HandleMetrics n r
  else if bool_decide (rq_path r = "/sync-log"%string) then HandleSyncLog n r
  else (n, Ok (http_Error "404 page not found" StatusNotFound)).

(** ** The node behind the endpoints *)

(** C37: (what an HTTP request can do) a request changes the node only by being
    a POST, with a body that decodes, to an endpoint of the protocol; then it
    does what the node's own handler does, and anything else leaves the node
    as it was and is answered. *)
Theorem ServeHTTP_effect n r :
  let '(n', resp) := ServeHTTP n r in
  (n' = n /\ exists a, resp = Ok a) \/
  (rq_method r = MethodPost /\
    ((exists req, rq_path r = "/request-vote"%string /\ Decode VoteRequest (rq_body r) = Some req /\
        n' = fst (HandleVoteRequest n req)) \/
     (exists req, rq_path r = "/append-entries"%string /\ Decode AppendEntriesRequest (rq_body r) = Some req /\
        n' = fst (HandleAppendEntries n req)) \/
     (exists req, rq_path r = "/heartbeat"%string /\ Decode AppendEntriesRequest (rq_body r) = Some req /\
        n' = fst (HandleAppendEntries n (drop_entries req))) \/
     (exists s, rq_path r = "/stroke"%string /\ Decode StrokeEvent (rq_body r) = Some s /\
        n' = fst (HandleStroke n s)))).
Proof.
  unfold ServeHTTP.
  case_bool_decide as H1.
  { unfold HandleRequestVote. case_bool_decide as Hm; [left; eauto|].
    destruct (Decode VoteRequest (rq_body r)) as [req|] eqn:Hd; [|left; eauto].
    destruct (HandleVoteRequest n req) as [n' resp] eqn:Hh. right. split; [done|]. left.
    exists req. by rewrite Hh. }
  case_bool_decide as H2.
  { unfold ServeAppendEntries. case_bool_decide as Hm; [left; eauto|].
    destruct (Decode AppendEntriesRequest (rq_body r)) as [req|] eqn:Hd; [|left; eauto].
    unfold append_reply. destruct (HandleAppendEntries n req) as [n' [resp|p]] eqn:Hh;
      (right; split; [done|]; right; left; exists req; by rewrite Hh). }
  case_bool_decide as H3.
  { unfold HandleHeartbeat. case_bool_decide as Hm; [left; eauto|].
    destruct (Decode AppendEntriesRequest (rq_body r)) as [req|] eqn:Hd; [|left; eauto].
    unfold append_reply. destruct (HandleAppendEntries n (drop_entries req)) as [n' [resp|p]] eqn:Hh;
      (right; split; [done|]; right; right; left; exists req; by rewrite Hh). }
  case_bool_decide as H4.
  { unfold ServeStroke. case_bool_decide as Hm; [left; eauto|].
    destruct (Decode StrokeEvent (rq_body r)) as [s|] eqn:Hd; [|left; eauto].
    destruct (HandleStroke n s) as [n' [err|]] eqn:Hh; [case_bool_decide|];
      (right; split; [done|]; right; right; right; exists s; by rewrite Hh). }
  repeat case_bool_decide; unfold HandleStatus, HandleHealth, HandleMetrics, HandleSyncLog; left; eauto.
Qed.

(** (strokes over HTTP) a POST of a stroke answers 202 exactly when the
    stroke was appended to the log, and 503 with the leader's name otherwise. *)
Theorem ServeStroke_spec n host q s :
  wire s ->
  let '(n', resp) := ServeHTTP n (mkRequest MethodPost host "/stroke" q (Encode s)) in
  (n_state n = Leader ->
     resp = Ok (mkResponse StatusAccepted (Encode [("status", "accepted")%string])) /\ n' = fst (HandleStroke n s)) /\
  (n_state n <> Leader -> n' = n /\
     resp = Ok (mkResponse StatusServiceUnavailable
                  (Encode [("error", "not the leader"); ("leaderId", n_leaderID n)]%string))).
Proof.
  intros Hw. unfold ServeHTTP, ServeStroke. simpl. rewrite (Decode_Encode s Hw).
  unfold HandleStroke. case_bool_decide as Hs; simpl; split; try done; intros ?; by destruct Hs.
Qed.

End server.

(** (the heartbeat endpoint is not an append) dropping the entries of a
    request but keeping its commit index can commit an entry the leader does
    not have: the follower's own last entry takes the place of the one that
    was dropped.  The full request replaces it. *)
Theorem heartbeat_commits_unverified :
  exists (n : Node) (req : AppendEntriesRequest) (e : LogEntry),
    areq_Entries req = [e] /\ le_Index e = 2 /\ areq_LeaderCommit req = 2 /\
    (let n' := fst (HandleAppendEntries n (drop_entries req)) in
     n_commitIndex n' = 2 /\ Log.entries (n_log n') !! 2%nat <> Some e) /\
    (let n' := fst (HandleAppendEntries n req) in
     n_commitIndex n' = 2 /\ Log.entries (n_log n') !! 2%nat = Some e).
Proof.
  exists HandlersWitness.stale_follower, (mkAppendEntriesRequest 2 "node2" 1 1 [HandlersWitness.e22] 2),
    HandlersWitness.e22.
  split_and!; [reflexivity..| |]; vm_compute; (split; [reflexivity|]); (discriminate || reflexivity).
Qed.

Module ReplicaServerWitness.
Import Tagged HandlersWitness.
Open Scope string_scope.

Lemma ServeStroke_spec_witness :
  snd (ServeHTTP acked_leader (mkRequest MethodPost "replica1:9001" "/stroke" [] (Encode s1))) =
    Ok (mkResponse StatusAccepted (PJson (WMap [("status", "accepted")]))) /\
  snd (ServeHTTP base (mkRequest MethodPost "replica1:9001" "/stroke" [] (Encode s1))) =
    Ok (mkResponse StatusServiceUnavailable (PJson (WMap [("error", "not the leader"); ("leaderId", EmptyString)]))).
Proof.
  pose proof (ServeStroke_spec acked_leader "replica1:9001" [] s1 I) as H1.
  pose proof (ServeStroke_spec base "replica1:9001" [] s1 I) as H2.
  destruct (ServeHTTP acked_leader _) as [n1 r1]. destruct (ServeHTTP base _) as [n2 r2]. split.
  - destruct H1 as [H1 _]. destruct H1 as [H1 _]; [reflexivity|]. exact H1.
  - destruct H2 as [_ H2]. destruct H2 as [_ H2]; [discriminate|]. exact H2.
Defined.
End ReplicaServerWitness.
