(* ===== verification/Wire.v ===== *)
(** * Wire: nothing is lost on the wire

    Cluster hands a message's struct to its receiver.  The program encodes it
    as JSON and decodes it again.  Here: every message a cluster ever sends is
    within what the encoding carries, so the two are the same. *)

From Stdlib Require Import ZArith Lia.
From stdpp Require Import base list strings gmap option.
From S2P Require Import Prelude Types RaftLog Node Election Replication Handlers Cluster.
From S2P Require Import History Invariant Frame FollowerSteps Safety Scenario Monotone Applier Agreement Spec CatchUp.
From S2P Require Import Addrs Strconv Http ReplicaServer Codec.
Open Scope list_scope.
Open Scope Z_scope.

(** ** How large a run's values get *)

(** Bounds that the invariant does not have: after [k] events no log has more
    than [k] entries past the sentinel. *)
Definition sized_areq (k : Z) (r : AppendEntriesRequest) : Prop :=
  areq_PrevLogIndex r + len (areq_Entries r) <= k.

Definition sized_msg (k : Z) (m : message) : Prop :=
  match m with
  | MVoteReq _ _ r => 0 <= vreq_LastLogIndex r <= k /\ 0 <= vreq_LastLogTerm r <= k
  | MVoteResp _ _ _ r => 0 <= vresp_Term r
  | MAppendReq _ _ r => sized_areq k r
  | MAppendResp _ _ q r => sized_areq k q /\ 0 <= aresp_Term r /\ 0 <= aresp_ConflictIndex r
  end.

Record sized (k : Z) (c : Cluster) : Prop := {
  sz_logs : forall i n, c_nodes c !! i = Some n -> len (Log.entries (n_log n)) <= k + 1;
  sz_net : forall m, m ∈ c_net c -> sized_msg k m;
}.

Lemma sized_le k k' c : sized k c -> k <= k' -> sized k' c.
Proof.
  intros [Hl Hn] Hk. split.
  - intros i n Hi. specialize (Hl _ _ Hi). lia.
  - intros m Hm. specialize (Hn _ Hm). destruct m; simpl in *; unfold sized_areq in *; lia.
Qed.

Lemma sized_put k c j n : sized k c -> len (Log.entries (n_log n)) <= k + 1 -> sized k (put c j n).
Proof.
  intros [Hl Hn] Hj. split; [|done]. intros i n' Hi. simpl in Hi.
  apply lookup_insert_Some in Hi as [[_ <-]|[_ ?]]; eauto.
Qed.

Lemma sized_same k c j n n' :
  sized k c -> c_nodes c !! j = Some n -> n_log n' = n_log n -> sized k (put c j n').
Proof. intros HS Hj Hl. apply sized_put; [done|]. rewrite Hl. by eapply sz_logs. Qed.

Lemma sized_post k c ms : sized k c -> (forall m, m ∈ ms -> sized_msg k m) -> sized k (post c ms).
Proof. intros [Hl Hn] Hms. split; [done|]. intros m [?|?]%elem_of_app; auto. Qed.

Lemma sized_election k c i e : sized k c -> sized k (set_election c i e).
Proof. by intros [? ?]. Qed.

Lemma reconcile_length l prev es c :
  (length (fst (Log.reconcile l prev es c)) <= length l `max` (S prev + length es))%nat.
Proof.
  unfold Log.reconcile. destruct (Log.first_conflict _ _) as [x|]; [case_bool_decide|]; simpl;
    rewrite ?length_app, ?length_take, ?length_drop; lia.
Qed.

Section wire.
Context (D : Deployment) {WD : WellDeployed D}.

Lemma HandleAppendEntries_sized k net h er j n src p req L :
  node_ok D k net h er j n -> 0 <= k -> h_lead h !! areq_Term req = Some L -> log_ok h (areq_Term req) (l_log L) ->
  areq_ok D k net h src p req L -> len (Log.entries (n_log n)) <= k + 1 -> sized_areq k req -> 0 <= areq_Term req ->
  let '(n', r) := HandleAppendEntries n req in
  len (Log.entries (n_log n')) <= k + 1 /\
  match r with Ok resp => 0 <= aresp_Term resp /\ 0 <= aresp_ConflictIndex resp | Panicked _ => True end.
Proof.
  intros Hn Hk HL HlL Hreq Hlen Hsz HT. unfold sized_areq in Hsz.
  pose proof (no_term _ _ _ _ _ _ _ Hn) as HTn.
  pose proof (Log.wf_length _ (lok_wf _ _ _ (no_log _ _ _ _ _ _ _ Hn))) as Hne.
  pose proof (HandleAppendEntries_outcome n req (aro_prev _ _ _ _ _ _ _ _ Hreq)) as Hout.
  destruct (HandleAppendEntries n req) as [n' r].
  destruct Hout as [Hstale Hok]; [eapply segment_contiguous; [apply HlL|apply (aro_entries _ _ _ _ _ _ _ _ Hreq)]|done|].
  destruct (decide (areq_Term req < n_currentTerm n)) as [Hlt|Hge].
  { destruct (Hstale Hlt) as [-> ->]. simpl. lia. }
  destruct (Hok ltac:(lia)) as (_ & _ & _ & Hpc). clear Hstale Hok.
  unfold prev_check in Hpc. pose proof (aro_prev _ _ _ _ _ _ _ _ Hreq) as Hprev.
  assert (appended n req n' r -> len (Log.entries (n_log n')) <= k + 1 /\
    match r with Ok resp => 0 <= aresp_Term resp /\ 0 <= aresp_ConflictIndex resp | Panicked _ => True end) as Happ.
  { unfold appended. pose proof (reconcile_length (Log.entries (n_log n)) (Z.to_nat (areq_PrevLogIndex req)) (areq_Entries req) (n_commitIndex n)) as Hrl.
    destruct (Log.reconcile _ _ _ _) as [l' o]. intros [Hl' Hr]. rewrite Hl'. simpl in Hrl. split; [unfold len in *; lia|].
    destruct o as [u|q]; destruct Hr as [-> _]; simpl; lia. }
  case_bool_decide; [by apply Happ|]. destruct (Log.entries (n_log n) !! Z.to_nat (areq_PrevLogIndex req)) as [e|].
  - case_bool_decide; [by apply Happ|]. destruct Hpc as (-> & -> & _). simpl. lia.
  - destruct Hpc as (-> & -> & _). simpl. unfold len in *. lia.
Qed.

Lemma log_end k net h er i n :
  node_ok D k net h er i n -> 0 <= k -> 0 <= Log.LastIndex (n_log n) /\ 0 <= Log.LastTerm (n_log n) <= k.
Proof.
  intros Hn Hk. pose proof (no_log _ _ _ _ _ _ _ Hn) as Hl. pose proof (no_term _ _ _ _ _ _ _ Hn) as HT.
  destruct (Log.last_lookup (n_log n)) as (e & He & -> & ->); [apply Log.wf_length, Hl|].
  pose proof (lok_terms _ _ _ Hl _ _ He). destruct (lok_wf _ _ _ Hl) as [H0 Hwf]. split; [lia|].
  destruct (length (Log.entries (n_log n)) - 1)%nat eqn:Hz.
  - rewrite H0 in He. injection He as <-. simpl. lia.
  - destruct (Hwf _ _ He) as [_ Hpos]. specialize (Hpos ltac:(lia)). lia.
Qed.

Lemma deliver_sized k c c' h m :
  Inv D k c h -> 0 <= k -> sized k c -> m ∈ c_net c -> deliver D c m = Some c' -> sized k c'.
Proof.
  intros HI Hk HS Hm Hd. pose proof (inv_msgs _ _ _ _ HI _ Hm) as Hok. pose proof (sz_net _ _ HS _ Hm) as Hsz.
  destruct m as [src p req|src p req resp|src p req|src p req resp]; unfold deliver in Hd;
    apply bind_Some in Hd as (n & Hn & Hd); pose proof (inv_nodes _ _ _ _ HI _ _ Hn) as Hnode.
  - pose proof (HandleVoteRequest_log n req) as Hlog. pose proof (HandleVoteRequest_outcome n req) as (_ & HT & _).
    destruct (HandleVoteRequest n req) as [n' resp]. injection Hd as <-. apply sized_post; [by eapply sized_same|].
    intros m ->%list_elem_of_singleton. simpl in *. rewrite HT.
    pose proof (no_term _ _ _ _ _ _ _ Hnode). pose proof (vro_term _ _ _ _ _ Hok). case_match; lia.
  - apply bind_Some in Hd as (e & He & Hd).
    pose proof (requestVoteFromPeer_log n (er_votes e) (er_term e) (Some resp)) as Hlog.
    destruct (requestVoteFromPeer _ _ _ _) as [n' v]. case_bool_decide; [|done]. injection Hd as <-.
    apply sized_election. by eapply sized_same.
  - destruct Hok as (L & HL & Hreq). pose proof (ho_lead _ _ _ (inv_hist _ _ _ _ HI) _ _ HL) as [Hpos _ _ _ _ _ _ HlL].
    pose proof (HandleAppendEntries_sized k (c_net c) h _ (d_host D p) n src p req L Hnode) as Hsized.
    destruct (HandleAppendEntries n req) as [n' r]. destruct Hsized as [Hlen Hr]; try done.
    { by eapply sz_logs. } { lia. }
    destruct r as [resp|]; injection Hd as <-; [|by apply sized_put].
    apply sized_post; [by apply sized_put|]. by intros m ->%list_elem_of_singleton.
  - injection Hd as <-. eapply sized_same; [done..|].
    apply (response_log n p (areq_Term req) (areq_Entries req) (Some resp)).
Qed.

Lemma exec_sized k c c' h ev :
  Inv D k c h -> 0 <= k < MaxInt64 -> sized k c -> exec D ev c = Some c' -> sized (k + 1) c'.
Proof.
  intros HI Hk HS He. assert (sized k c' -> sized (k + 1) c') as Hup by (intros; eapply sized_le; [done|lia]).
  destruct ev as [i|x|i p|i|i s|i p|i|i]; unfold exec in He; apply bind_Some in He as (n & Hn & He).
  2: { apply Hup. eapply deliver_sized; try done; [lia|by eapply list_elem_of_lookup_2]. }
  all: pose proof (inv_nodes _ _ _ _ HI _ _ Hn) as Hnode.
  - apply Hup. destruct (c_elections c !! i); [done|]. simpl in He. case_bool_decide; [done|].
    injection He as <-. apply sized_post; [by apply sized_election; eapply sized_same|].
    intros m (p & -> & _)%list_elem_of_fmap. simpl. destruct (log_end _ _ _ _ _ _ Hnode) as [H0 HT]; [lia|].
    split; [|done]. pose proof (sz_logs _ _ HS _ _ Hn). unfold Log.LastIndex, len in *. simpl in *. lia.
  - apply Hup. apply bind_Some in He as (e & Hel & He). case_bool_decide; [|done].
    injection He as <-. apply sized_election. by eapply sized_same.
  - apply Hup. apply bind_Some in He as (e & Hel & He). case_bool_decide; [|done].
    pose proof (startElection_finish_log n (er_term e) (er_votes e)) as Hlog.
    destruct (startElection_finish _ _ _). injection He as <-. apply sized_election. by eapply sized_same.
  - injection He as <-. apply sized_put; [eapply sized_le; [done|lia]|]. pose proof (sz_logs _ _ HS _ _ Hn).
    unfold HandleStroke. case_bool_decide; simpl; rewrite ?len_app; unfold len in *; simpl; lia.
  - apply Hup. case_bool_decide as Hp; [|done]. destruct (sendAppendEntries_request n p) eqn:Hr; simplify_eq; [|done].
    apply sized_post; [done|]. intros m ->%list_elem_of_singleton. simpl. unfold sized_areq.
    unfold sendAppendEntries_request in Hr. case_bool_decide as Hs; [done|]. unfold sendHeartbeats in Hp.
    rewrite bool_decide_false in Hp by congruence.
    destruct (no_leader _ _ _ _ _ _ _ Hnode) as (_ & Hmaps); [done|].
    destruct (Hmaps p Hp) as (ni & mi & Hni & _ & [Hrange _ _]). rewrite Hni in Hr. injection Hr as <-. simpl.
    rewrite Log.GetFrom_drop by lia. pose proof (sz_logs _ _ HS _ _ Hn). unfold len in *. rewrite length_drop. lia.
  - apply Hup. injection He as <-. eapply sized_same; [done..|]. apply apply_log.
  - apply Hup. destruct (n_commitCh n); simplify_eq. by eapply sized_same.
Qed.

Lemma run_sized tr : forall k c c' h,
  Inv D k c h -> 0 <= k -> k + Z.of_nat (length tr) <= MaxInt64 -> sized k c -> run D tr c = Some c' ->
  sized (k + Z.of_nat (length tr)) c'.
Proof.
  induction tr as [|ev tr IH]; intros k c c' h HI Hk0 Hk HS Hr; simpl in *.
  - simplify_eq. by rewrite Z.add_0_r.
  - apply bind_Some in Hr as (c1 & He & Hr).
    destruct (exec_keeps D k c c1 h ev HI ltac:(lia) He) as (h1 & _ & HI1).
    replace (k + Z.of_nat (S (length tr))) with (k + 1 + Z.of_nat (length tr)) by lia.
    apply (IH (k + 1) c1 c' h1); try done; [lia|lia|]. by eapply exec_sized; [| |done|]; [|lia|].
Qed.

Lemma init_sized : sized 0 (init D).
Proof.
  split; simpl; [|by intros ? ?%elem_of_nil].
  intros i n (cfg & <- & _)%lookup_fmap_Some. done.
Qed.

(** ** The messages survive *)

Context `{JT : JsonText}.

(** The sender's encoding exists and the receiver reads the message back. *)
Definition survives {A} `{J : Json json A} (a : A) : Prop := exists j, Marshal a = Some j /\ Unmarshal j = Some a.

Definition payload_survives (m : message) : Prop :=
  match m with
  | MVoteReq _ _ r => survives r
  | MVoteResp _ _ _ r => survives r
  | MAppendReq _ _ r => survives r
  | MAppendResp _ _ _ r => survives r
  end.

(** Strokes with finite numbers and valid text. *)
Definition drawable (s : StrokeEvent) : Prop :=
  Forall valid_string [se_ID s; se_Type s; se_TargetID s; se_Color s; se_UserID s] /\
  is_Some (FormatFloat (se_Width s)) /\
  Forall (fun p => is_Some (FormatFloat (pt_X p)) /\ is_Some (FormatFloat (pt_Y p))) (se_Points s).

Lemma drawable_ok s : drawable s -> ok stroke_codec s.
Proof.
  clear D WD. intros (Hs & Hw & Hp). apply list.Forall_forall. rewrite list.Forall_forall in Hs.
  intros f Hf. repeat (apply elem_of_cons in Hf as [->|Hf]; [simpl|]); try by apply elem_of_nil in Hf.
  4:{ eapply list.Forall_impl; [exact Hp|]. intros p [? ?]. by repeat constructor. }
  5: done.
  all: apply Hs; set_solver.
Qed.

Lemma survives_ok {A} (c : Codec A) `{!CodecLaws c} a : ok c a -> @survives A (codec_json c) a.
Proof. intros Ha. destruct (dec_enc a Ha) as (j & ? & ? & _). by exists j. Qed.

Definition fits_int (z : Z) : Prop := 0 <= z <= MaxInt64.

Lemma fits_int_ok z : fits_int z -> ok int_codec z.
Proof. unfold fits_int. simpl. unfold MinInt64. lia. Qed.

(** A struct's fields, one goal each. *)
Ltac fields :=
  lazymatch goal with |- Forall ?P ?l =>
    let l' := eval hnf in l in change (Forall P l');
    lazymatch l' with
    | [] => apply list.Forall_nil_2
    | _ :: _ => apply list.Forall_cons_2; [cbn [f_codec f_get]|fields]
    end
  end.
Ltac split_fields := hnf; fields.

Lemma entry_ok e :
  fits_int (le_Index e) -> fits_int (le_Term e) -> ok stroke_codec (le_Stroke e) -> ok entry_codec e.
Proof. intros. split_fields; [by apply fits_int_ok|by apply fits_int_ok|done]. Qed.

(** The entries of a request in flight: their place in the leader's log bounds
    their index, the run's strokes are their strokes. *)
Lemma request_entries_ok k net h S src p req L :
  areq_ok D k net h src p req L -> log_ok h (areq_Term req) (l_log L) -> k <= MaxInt64 -> sized_areq k req ->
  Forall (from S) (areq_Entries req) -> Forall (ok stroke_codec) S -> Forall (ok entry_codec) (areq_Entries req).
Proof.
  intros Hreq HL Hk Hsz Hfrom HS. apply list.Forall_lookup. intros x e Hx.
  pose proof (aro_entries _ _ _ _ _ _ _ _ Hreq _ _ Hx) as HeL. destruct (lok_wf _ _ _ HL) as [_ Hwf].
  destruct (Hwf _ _ HeL) as [Hidx Hpos]. specialize (Hpos ltac:(lia)).
  pose proof (lok_terms _ _ _ HL _ _ HeL) as Hle. pose proof (aro_term _ _ _ _ _ _ _ _ Hreq).
  pose proof (aro_prev _ _ _ _ _ _ _ _ Hreq). pose proof (lookup_lt_Some _ _ _ Hx).
  unfold sized_areq, len in Hsz. apply entry_ok.
  - unfold fits_int. lia.
  - unfold fits_int. lia.
  - rewrite list.Forall_lookup in Hfrom. destruct (Hfrom _ _ Hx) as [|Hs]; [lia|].
    rewrite list.Forall_forall in HS. by apply HS.
Qed.

Lemma request_ok k net h S src p req L :
  areq_ok D k net h src p req L -> log_ok h (areq_Term req) (l_log L) -> 0 < areq_Term req -> k <= MaxInt64 ->
  sized_areq k req -> Forall (from S) (areq_Entries req) -> Forall (ok stroke_codec) S -> valid_string src ->
  ok append_request_codec req.
Proof.
  intros Hreq HL Hpos Hk Hsz Hfrom HS Hsrc. pose proof Hreq as []. pose proof (len_nonneg (areq_Entries req)).
  unfold sized_areq in Hsz. split_fields.
  - apply fits_int_ok. unfold fits_int. lia.
  - by rewrite aro_leader.
  - apply fits_int_ok. unfold fits_int. lia.
  - apply fits_int_ok. rewrite aro_prevTerm. unfold Log.term_at, fits_int.
    destruct (lookup_lt_is_Some_2 _ _ aro_prev_lt) as [e He]. rewrite He. simpl.
    pose proof (lok_terms _ _ _ HL _ _ He). destruct (lok_wf _ _ _ HL) as [Hw0 Hwf].
    destruct (Z.to_nat (areq_PrevLogIndex req)) eqn:Hz.
    + rewrite Hw0 in He. injection He as <-. unfold MaxInt64. simpl. lia.
    + destruct (Hwf _ _ He) as [_ Hp]. specialize (Hp ltac:(lia)). lia.
  - by eapply request_entries_ok.
  - apply fits_int_ok. unfold fits_int, len in *. lia.
Qed.

Lemma message_survives k c h S m :
  Inv D k c h -> 0 <= k <= MaxInt64 -> sized k c -> sourced S c -> Forall (ok stroke_codec) S ->
  (forall i, i ∈ members D -> valid_string i) -> m ∈ c_net c -> payload_survives m.
Proof.
  intros HI Hk Hsz HS Hstr Hid Hm. pose proof (inv_msgs _ _ _ _ HI _ Hm) as Hok. pose proof (sz_net _ _ Hsz _ Hm) as Hsm.
  destruct m as [src p req|src p req resp|src p req|src p req resp]; simpl in *.
  - destruct Hok. apply survives_ok. split_fields; try (apply fits_int_ok; unfold fits_int; lia).
    rewrite vro_cand. by apply Hid.
  - destruct Hok as (_ & HT & _). apply survives_ok. split_fields; [apply fits_int_ok; unfold fits_int; lia|done].
  - destruct Hok as (L & HL & Hreq). pose proof (ho_lead _ _ _ (inv_hist _ _ _ _ HI) _ _ HL) as HLok.
    apply survives_ok. eapply request_ok; try done.
    + apply HLok. + apply HLok. + lia. + by eapply src_net.
    + apply Hid. rewrite <- (aro_id _ _ _ _ _ _ _ _ Hreq). apply HLok, HLok.
  - destruct Hok as [_ [HT Hci]]. apply survives_ok. unfold sized_areq in Hsm.
    pose proof (len_nonneg (areq_Entries req)).
    split_fields; [apply fits_int_ok; unfold fits_int; lia|done|apply fits_int_ok; unfold fits_int; lia].
Qed.

(** C11: (nothing is lost on the wire) in every reachable state whose accepted
    strokes have finite coordinates and valid text, every message any replica
    has ever sent has a JSON encoding, and its receiver decodes exactly the
    message: no integer overflows a JSON number, no string is replaced, no
    omitted field changes. *)
Theorem wire_faithful tr c m :
  short tr -> run D tr (init D) = Some c ->
  (forall i, i ∈ members D -> valid_string i) -> Forall drawable (submitted D tr (init D)) ->
  m ∈ c_net c -> payload_survives m.
Proof.
  intros Hs Hr Hid Hdraw Hm. unfold short in Hs.
  destruct (run_keeps D tr 0 _ _ _ (Inv_init D) ltac:(lia) Hr) as (h & _ & HI).
  pose proof (run_sized tr 0 _ _ _ (Inv_init D) ltac:(lia) ltac:(lia) init_sized Hr) as Hsz.
  pose proof (run_sourced D _ _ _ _ (init_sourced D) Hr) as HS. simpl in HS.
  eapply message_survives; try done; [lia|].
  eapply list.Forall_impl; [exact Hdraw|]. apply drawable_ok.
Qed.
End wire.

(** ** Types, and bodies at their boundary *)

Section bodies.
Context `{JT : JsonText}.

(** Every codec writes JSON of its type's shape - the fields' names and types,
    what may be left out - and reads all JSON of that shape, whatever unknown
    members it also has. *)
Lemma codec_typed {A} (c : Codec A) `{!CodecLaws c} :
  (forall a, ok c a -> exists j, enc c a = Some j /\ fits (shape_of c) j = true) /\
  (forall j, fits (shape_of c) j = true -> is_Some (dec c j (zero c))).
Proof.
  split; [|intros j; apply dec_fits].
  intros a Ha. destruct (dec_enc a Ha) as (j & Hj & _ & Hf). eauto.
Qed.

Lemma unknown_members fs (ms : list (string * json)) (cur : StrokeEvent) :
  Forall (fun m => select (map (f_name _) fs) (fst m) = None) ms -> dec_members fs ms cur = Some cur.
Proof.
  induction 1 as [|m ms Hm _ IH]; [done|]. simpl. unfold dec_member. by rewrite Hm.
Qed.

(** (stroke bodies) a leader takes [null], and any object without a
    stroke's fields, for the empty stroke, and appends it to the log; a body
    that is another kind of JSON, or no JSON, is refused and changes nothing. *)
Theorem stroke_bodies n host q :
  n_state n = Leader ->
  let serve b := ServeStroke n (mkRequest MethodPost host "/stroke" q b) in
  (forall j, j = JNull \/ (exists ms, j = JObj ms /\
      Forall (fun m => select (map (f_name _) stroke_fields) (fst m) = None) ms) ->
    serve (PJson j) = (fst (HandleStroke n zeroStroke),
                       Ok (mkResponse StatusAccepted (Encode [("status", "accepted")]%string)))) /\
  (forall b, b <> PJson JNull -> (forall ms, b <> PJson (JObj ms)) -> serve b = (n, Ok invalid_body)).
Proof.
  intros Hs serve.
  assert (forall s, HandleStroke n s = (fst (HandleStroke n s), None)) as Hh.
  { intros s. unfold HandleStroke. by rewrite bool_decide_false by tauto. }
  assert (forall b, serve b = match Decode StrokeEvent b with
    | None => (n, Ok invalid_body)
    | Some s => (fst (HandleStroke n s), Ok (mkResponse StatusAccepted (Encode [("status", "accepted")]%string)))
    end) as Hserve.
  { intros b. unfold serve, ServeStroke. cbn [rq_method rq_body].
    rewrite bool_decide_false by tauto. destruct (Decode StrokeEvent b) as [s|]; [|done]. by rewrite (Hh s). }
  split.
  - intros j Hj. rewrite Hserve. assert (Decode StrokeEvent (PJson j) = Some zeroStroke) as ->; [|done].
    destruct Hj as [->|(ms & -> & Hms)]; [done|]. by apply (unknown_members stroke_fields).
  - intros b Hn Ho. rewrite Hserve. destruct b as [[]| |]; try done. by destruct (Ho members).
Qed.
End bodies.

Module WireWitness.
Import Decimal HandlersWitness.
Open Scope string_scope.

Lemma wire_faithful_witness :
  exists m, c_net (after (elect ++ replicate)) !! 3%nat = Some m /\ payload_survives m.
Proof.
  eexists. split; [vm_compute; reflexivity|].
  apply (wire_faithful trio (elect ++ replicate) (after (elect ++ replicate))).
  - by vm_compute.
  - vm_compute. reflexivity.
  - intros i Hi. assert (i = "node1" \/ i = "node2" \/ i = "node3") as [->|[->| ->]]; [|vm_compute; reflexivity..].
    unfold members, trio in Hi. simpl in Hi. rewrite !dom_insert_L, dom_empty_L in Hi. clear -Hi. set_solver.
  - apply (bool_decide_unpack _). vm_compute. done.
  - apply (list_elem_of_lookup_2 _ 3). vm_compute. reflexivity.
Defined.

(** A client that sends [{"colour": "red"}]. *)
Lemma stroke_bodies_witness :
  snd (ServeStroke acked_leader (mkRequest MethodPost "replica1:9001" "/stroke" [] (PJson (JObj [("colour", JStr "red")])))) =
    Ok (mkResponse StatusAccepted (PJson (JObj [("status", JStr "accepted")]))) /\
  ServeStroke acked_leader (mkRequest MethodPost "replica1:9001" "/stroke" [] (PJson (JArr []))) = (acked_leader, Ok invalid_body).
Proof.
  destruct (stroke_bodies acked_leader "replica1:9001" []) as [H1 H2]; [reflexivity|]. split.
  - rewrite H1; [vm_compute; reflexivity|]. right. eexists. split; [reflexivity|]. repeat constructor.
  - apply H2; discriminate.
Defined.
End WireWitness.
