(* ===== verification/RpcClient.v ===== *)
(** * RpcClient: RPCs over HTTP

    [replica/internal/raft/rpc.go].  [RPCClient] is the interface the protocol
    uses; [HTTPRPCClient] implements it on an HTTP client, whose [Do] - the
    network and the server at its other end - is a parameter on a world [W].
    Against the server of ReplicaServer, a call is the peer's own handler. *)

From Stdlib Require Import ZArith Lia Ascii String.
From stdpp Require Import base list strings option gmap.
From S2P Require Import Prelude Types RaftLog Node Election Replication Handlers Addrs Strconv Http ReplicaServer.
Open Scope list_scope.
Open Scope Z_scope.

(** Why a call failed. *)
Inductive rpc_error : Type :=
| ErrMarshal
| ErrCreate
| ErrSend
| ErrStatus (code : int)
| ErrDecode.

(** A call on a world: the answer and the world after it. *)
Definition call (W A : Type) : Type := W -> (rpc_error + A) * W.

Class RPCClient (W : Type) : Type := {
  RequestVote : string -> VoteRequest -> call W VoteResponse;
  AppendEntries : string -> AppendEntriesRequest -> call W AppendEntriesResponse;
  NotifyCommit : string -> CommitNotification -> call W unit;
  FetchSyncLog : string -> int -> call W (list LogEntry);
}.

Section client.
Context {body W : Type}.
Context `{JVoteReq : Json body VoteRequest} `{JVoteResp : Json body VoteResponse}
        `{JAppReq : Json body AppendEntriesRequest} `{JAppResp : Json body AppendEntriesResponse}
        `{JCommit : Json body CommitNotification} `{JEntries : Json body (list LogEntry)}.

(** [url_ok]: [http.NewRequestWithContext] accepts the URL.  [Do]: the
    client's [Do], [None] for an error. *)
Context (url_ok : string -> bool) (Do : request body -> W -> option (response body) * W).

(** The exchange of [doPost], up to the check of the status. *)
Definition exchange (r : request body) : call W (payload body) :=
  fun w =>
    if negb (url_ok (rq_host r)) then (inl ErrCreate, w)
    else match Do r w with
    | (None, w) => (inl ErrSend, w)
    | (Some resp, w) =>
        if bool_decide (rs_status resp <> StatusOK) then (inl (ErrStatus (rs_status resp)), w)
        else (inr (rs_body resp), w)
    end.

Definition decode_reply {A} `{Json body A} (r : (rpc_error + payload body) * W) : (rpc_error + A) * W :=
  match r with
  | (inl e, w) => (inl e, w)
  | (inr p, w) => match Decode A p with Some a => (inr a, w) | None => (inl ErrDecode, w) end
  end.

(** [doPost] with a [respBody], and with none. *)
Definition doPost {A B} `{Json body A} `{Json body B} (host path : string) (reqBody : A) : call W B :=
  fun w =>
    match Marshal reqBody with
    | None => (inl ErrMarshal, w)
    | Some b => decode_reply (exchange (mkRequest MethodPost host path [] (PJson b)) w)
    end.

Definition doPost_nil {A} `{Json body A} (host path : string) (reqBody : A) : call W unit :=
  fun w =>
    match Marshal reqBody with
    | None => (inl ErrMarshal, w)
    | Some b =>
        match exchange (mkRequest MethodPost host path [] (PJson b)) w with
        | (inl e, w) => (inl e, w)
        | (inr _, w) => (inr tt, w)
        end
    end.

#[global] Instance HTTPRPCClient : RPCClient W := {
  RequestVote addr req := doPost addr "/request-vote" req;
  AppendEntries addr req := doPost addr "/append-entries" req;
  NotifyCommit addr notification := doPost_nil addr "/commit" notification;
  FetchSyncLog addr fromIndex :=
    fun w => decode_reply (exchange (mkRequest MethodGet addr "/sync-log" [("from"%string, Itoa fromIndex)] PEmpty) w);
}.
End client.

(** ** A network that delivers *)

(** The replicas by address. *)
Section delivery.
Context {body : Type}.
Context `{JVoteReq : Json body VoteRequest} `{JVoteResp : Json body VoteResponse}
        `{JAppReq : Json body AppendEntriesRequest} `{JAppResp : Json body AppendEntriesResponse}
        `{JStroke : Json body StrokeEvent} `{JStatus : Json body StatusResponse}
        `{JEntries : Json body (list LogEntry)} `{JMap : Json body (list (string * string))}
        `{JCommit : Json body CommitNotification}.

(** The replicas by address; a request reaches the server of its host, and a
    handler that panics closes the connection. *)
Definition deliver_to (r : request body) (w : gmap string Node) : option (response body) * gmap string Node :=
  match w !! rq_host r with
  | None => (None, w)
  | Some n =>
      match ServeHTTP n r with
      | (n', Ok resp) => (Some resp, <[rq_host r := n']> w)
      | (n', Panicked _) => (None, <[rq_host r := n']> w)
      end
  end.

Definition every_url (_ : string) : bool := true.

#[local] Instance delivering_client : RPCClient (gmap string Node) := HTTPRPCClient every_url deliver_to.

(** C26: (an RPC is the handler) over a network that delivers, RequestVote is the
    peer's HandleVoteRequest, AppendEntries its HandleAppendEntries - a panic
    there is an error here - and FetchSyncLog its GetSyncLog: requests and
    replies cross the wire unchanged. *)
Theorem rpc_is_handler (w : gmap string Node) (addr : string) (n : Node) :
  w !! addr = Some n ->
  (forall req, wire req -> wire (snd (HandleVoteRequest n req)) ->
     RequestVote addr req w =
       (inr (snd (HandleVoteRequest n req)), <[addr := fst (HandleVoteRequest n req)]> w)) /\
  (forall req, wire req -> (forall resp, snd (HandleAppendEntries n req) = Ok resp -> wire resp) ->
     AppendEntries addr req w =
       (match snd (HandleAppendEntries n req) with Ok resp => inr resp | Panicked _ => inl ErrSend end,
        <[addr := fst (HandleAppendEntries n req)]> w)) /\
  (forall from, MinInt64 <= from <= MaxInt64 -> wire (GetSyncLog n from) ->
     FetchSyncLog addr from w = (inr (GetSyncLog n from), w)).
Proof.
  intros Hn. split_and!.
  - intros req Hreq Hresp. simpl. unfold doPost. destruct (unmarshal_marshal req Hreq) as (b & Hb & Hu).
    rewrite Hb. unfold exchange, deliver_to. simpl. rewrite Hn. unfold ServeHTTP. simpl.
    unfold HandleRequestVote. simpl. rewrite Hu. destruct (HandleVoteRequest n req) as [n' resp]. simpl in *.
    by rewrite (Decode_Encode resp Hresp).
  - intros req Hreq Hresp. simpl. unfold doPost. destruct (unmarshal_marshal req Hreq) as (b & Hb & Hu).
    rewrite Hb. unfold exchange, deliver_to. simpl. rewrite Hn. unfold ServeHTTP. simpl.
    unfold ServeAppendEntries. simpl. rewrite Hu. unfold append_reply.
    destruct (HandleAppendEntries n req) as [n' [resp|p]]; simpl in *; [|done].
    by rewrite (Decode_Encode resp (Hresp resp eq_refl)).
  - intros from Hfrom Hresp. simpl. unfold exchange, deliver_to. simpl. rewrite Hn. unfold ServeHTTP. simpl.
    unfold HandleSyncLog. simpl.
    rewrite (Atoi_Itoa_int from Hfrom). simpl. rewrite (Decode_Encode _ Hresp). by rewrite insert_id.
Qed.
End delivery.

Module RpcClientWitness.
Import Tagged HandlersWitness.
Open Scope string_scope.

(** A follower that grants a vote over the wire. *)
Lemma rpc_is_handler_witness :
  fst (RequestVote (RPCClient := delivering_client) "replica2:9002" (mkVoteRequest 1 "node2" 0 0) {["replica2:9002" := base]}) =
    inr (mkVoteResponse 1 true) /\
  fst (FetchSyncLog (RPCClient := delivering_client) "replica2:9002" 1 {["replica2:9002" := stale_follower]}) = inr [e11].
Proof.
  destruct (rpc_is_handler {["replica2:9002" := base]} "replica2:9002" base) as (H1 & _ & _); [reflexivity|].
  destruct (rpc_is_handler {["replica2:9002" := stale_follower]} "replica2:9002" stale_follower) as (_ & _ & H3); [reflexivity|].
  split.
  - rewrite (H1 (mkVoteRequest 1 "node2" 0 0) I I). reflexivity.
  - rewrite (H3 1 ltac:(vm_compute; split; discriminate) I). reflexivity.
Defined.
End RpcClientWitness.
