(* ===== verification/Tracker.v ===== *)
(** * Tracker: leader discovery of [gateway/internal/leader/tracker.go]

    [poll] asks the replicas for their status, one HTTP request after the
    other.  What a request returns may depend on when it is made, so the
    replicas and the network are a world [W] that [fetchStatus] queries and
    changes; the list of the answers seen ([logged]) is how the theorems speak
    of it. *)

From Stdlib Require Import ZArith Lia.
From stdpp Require Import base list strings option.
From S2P Require Import Prelude Types Http.
Open Scope list_scope.
Open Scope Z_scope.

(** Nanoseconds. *)
Definition PollInterval : Z := 2000000000.
Definition PollTimeout : Z := 500000000.

Record Tracker : Type := mkTracker {
  t_leaderAddr : string;
  t_replicaAddrs : list string;
}.

Definition NewTracker (replicaAddrs : list string) : Tracker := mkTracker EmptyString replicaAddrs.

Definition LeaderAddr (t : Tracker) : string := t_leaderAddr t.

Definition setLeader (addr : string) (t : Tracker) : Tracker := mkTracker addr (t_replicaAddrs t).

(** [fetchStatus]: the request, the check of the status, the decoding; [Do]
    is the HTTP client on the world. *)
Definition fetchStatus {body W} `{Json body StatusResponse} (url_ok : string -> bool)
    (Do : request body -> W -> option (response body) * W) (addr : string) (w : W) : option StatusResponse * W :=
  if negb (url_ok addr) then (None, w)
  else match Do (mkRequest MethodGet addr "/status" [] PEmpty) w with
  | (None, w) => (None, w)
  | (Some resp, w) =>
      if bool_decide (rs_status resp <> StatusOK) then (None, w)
      else (Decode StatusResponse (rs_body resp), w)
  end.

Section poll.
Context {W : Type} (fetch : string -> W -> option StatusResponse * W).

(** The inner loop: the replica whose node ID is the one a follower names, if
    it says it leads. *)
Fixpoint find_hinted (leaderID : string) (addrs : list string) (w : W) : option string * W :=
  match addrs with
  | [] => (None, w)
  | rAddr :: addrs =>
      match fetch rAddr w with
      | (None, w) => find_hinted leaderID addrs w
      | (Some rStatus, w) =>
          if bool_decide (st_NodeID rStatus = leaderID) && bool_decide (st_State rStatus = Leader)
          then (Some rAddr, w) else find_hinted leaderID addrs w
      end
  end.

(** The outer loop, over [addrs]; [all] is the whole list. *)
Fixpoint poll_loop (all addrs : list string) (w : W) : option string * W :=
  match addrs with
  | [] => (None, w)
  | addr :: addrs =>
      match fetch addr w with
      | (None, w) => poll_loop all addrs w
      | (Some status, w) =>
          if bool_decide (st_State status = Leader) then (Some addr, w)
          else if bool_decide (st_LeaderID status <> EmptyString) then
            match find_hinted (st_LeaderID status) all w with
            | (Some rAddr, w) => (Some rAddr, w)
            | (None, w) => poll_loop all addrs w
            end
          else poll_loop all addrs w
      end
  end.

Definition poll (t : Tracker) (w : W) : Tracker * W :=
  let '(found, w) := poll_loop (t_replicaAddrs t) (t_replicaAddrs t) w in
  (setLeader (default EmptyString found) t, w).

Definition PollOnce : Tracker -> W -> Tracker * W := poll.

(** [Start]: what its select receives, after a first poll. *)
Inductive tracker_event : Type :=
| TkTick
| TkDone.

Fixpoint track (events : list tracker_event) (t : Tracker) (w : W) : Tracker * W :=
  match events with
  | TkTick :: events => let '(t, w) := PollOnce t w in track events t w
  | TkDone :: _ | [] => (t, w)
  end.

Definition Start (events : list tracker_event) (t : Tracker) (w : W) : Tracker * W :=
  let '(t, w) := PollOnce t w in track events t w.

End poll.

(** The same requests, with a record of the answers. *)
Definition logged {W} (fetch : string -> W -> option StatusResponse * W)
    (addr : string) (s : W * list (string * option StatusResponse)) :
    option StatusResponse * (W * list (string * option StatusResponse)) :=
  let '(r, w) := fetch addr (fst s) in (r, (w, snd s ++ [(addr, r)])).

(** A poll relates the worlds before and after it as its requests do. *)
Section related.
Context {W : Type} (fetch : string -> W -> option StatusResponse * W).
Context (R : W -> W -> Prop) `{!PreOrder R} (Hfetch : forall addr w, R w (snd (fetch addr w))).

Lemma find_hinted_related id addrs w : R w (snd (find_hinted fetch id addrs w)).
Proof.
  revert w. induction addrs as [|a addrs IH]; intros w; simpl; [reflexivity|].
  pose proof (Hfetch a w) as Ha. destruct (fetch a w) as [[st|] w1]; simpl in *; [|by etrans].
  case_match; [done|by etrans].
Qed.

Lemma poll_loop_related all addrs w : R w (snd (poll_loop fetch all addrs w)).
Proof.
  revert w. induction addrs as [|a addrs IH]; intros w; simpl; [reflexivity|].
  pose proof (Hfetch a w) as Ha. destruct (fetch a w) as [[st|] w1]; simpl in *; [|by etrans].
  case_bool_decide; [done|]. case_bool_decide; [|by etrans].
  pose proof (find_hinted_related (st_LeaderID st) all w1) as Hh.
  destruct (find_hinted fetch (st_LeaderID st) all w1) as [[ra|] w2]; simpl in *; [by etrans|].
  etrans; [exact Ha|]. by etrans.
Qed.

Lemma poll_related t w : R w (snd (poll fetch t w)).
Proof.
  unfold poll. pose proof (poll_loop_related (t_replicaAddrs t) (t_replicaAddrs t) w) as Hp.
  by destruct (poll_loop _ _ _ _).
Qed.
End related.

Section properties.
Context {W : Type} (fetch : string -> W -> option StatusResponse * W).

Local Abbreviation log := (list (string * option StatusResponse)) (only parsing).

(** The replica has just said it leads. *)
Definition says_leader (l : log) (addr : string) : Prop :=
  exists status, (addr, Some status) ∈ l /\ st_State status = Leader.

Lemma find_hinted_spec id addrs : forall w l r w' l',
  find_hinted (logged fetch) id addrs (w, l) = (r, (w', l')) ->
  (exists k, l' = l ++ k /\ (length k <= length addrs)%nat) /\
  (forall addr, r = Some addr -> addr ∈ addrs /\ says_leader l' addr).
Proof.
  induction addrs as [|a addrs IH]; intros w l r w' l'; simpl.
  - intros [= <- <- <-]. split; [by exists []; rewrite app_nil_r|done].
  - unfold logged at 1. simpl. destruct (fetch a w) as [[st|] w1].
    + case_match eqn:Hc.
      * intros [= <- <- <-]. apply andb_true_iff in Hc as [_ Hs%bool_decide_eq_true]. split; [exists [(a, Some st)]; split; [done|simpl; lia]|].
        intros addr [= <-]. split; [by constructor|]. exists st. split; [|done]. apply elem_of_app. right. by constructor.
      * intros Hr. destruct (IH _ _ _ _ _ Hr) as [(k & -> & Hk) Hf]. split.
        -- exists ((a, Some st) :: k). rewrite <- app_assoc. simpl. split; [done|lia].
        -- intros addr Ha. destruct (Hf addr Ha). split; [by constructor|done].
    + intros Hr. destruct (IH _ _ _ _ _ Hr) as [(k & -> & Hk) Hf]. split.
      * exists ((a, None) :: k). rewrite <- app_assoc. simpl. split; [done|lia].
      * intros addr Ha. destruct (Hf addr Ha). split; [by constructor|done].
Qed.

Lemma says_leader_app l k addr : says_leader l addr -> says_leader (l ++ k) addr.
Proof. intros (st & ? & ?). exists st. split; [apply elem_of_app; by left|done]. Qed.

Lemma poll_loop_spec all addrs : forall w l r w' l',
  poll_loop (logged fetch) all addrs (w, l) = (r, (w', l')) ->
  (exists k, l' = l ++ k /\ (length k <= length addrs * S (length all))%nat) /\
  (forall addr, r = Some addr -> (addr ∈ addrs \/ addr ∈ all) /\ says_leader l' addr).
Proof.
  induction addrs as [|a addrs IH]; intros w l r w' l'; simpl.
  - intros [= <- <- <-]. split; [by exists []; rewrite app_nil_r|done].
  - unfold logged at 1. simpl. destruct (fetch a w) as [[st|] w1].
    + case_bool_decide as Hs.
      * intros [= <- <- <-]. split; [exists [(a, Some st)]; split; [done|simpl; lia]|].
        intros addr [= <-]. split; [left; by constructor|]. exists st. split; [|done]. apply elem_of_app. right. by constructor.
      * case_bool_decide.
        -- destruct (find_hinted (logged fetch) (st_LeaderID st) all (w1, l ++ [(a, Some st)])) as [[ra|] [w2 l2]] eqn:Hh;
             destruct (find_hinted_spec _ _ _ _ _ _ _ Hh) as [(k & -> & Hk) Hf].
           ++ intros [= <- <- <-]. split.
              ** exists ((a, Some st) :: k). rewrite <- app_assoc. simpl. split; [done|lia].
              ** intros addr [= <-]. destruct (Hf ra eq_refl). split; [by right|done].
           ++ intros Hr. destruct (IH _ _ _ _ _ Hr) as [(j & -> & Hj) Hp]. split.
              ** exists ((a, Some st) :: k ++ j). rewrite <- !app_assoc. simpl. rewrite length_app. split; [done|lia].
              ** intros addr Ha. destruct (Hp addr Ha) as [[?|?] ?]; (split; [|done]); [left; by constructor|by right].
        -- intros Hr. destruct (IH _ _ _ _ _ Hr) as [(j & -> & Hj) Hp]. split.
           ++ exists ((a, Some st) :: j). rewrite <- app_assoc. simpl. split; [done|lia].
           ++ intros addr Ha. destruct (Hp addr Ha) as [[?|?] ?]; (split; [|done]); [left; by constructor|by right].
    + intros Hr. destruct (IH _ _ _ _ _ Hr) as [(j & -> & Hj) Hp]. split.
      * exists ((a, None) :: j). rewrite <- app_assoc. simpl. split; [done|lia].
      * intros addr Ha. destruct (Hp addr Ha) as [[?|?] ?]; (split; [|done]); [left; by constructor|by right].
Qed.

(** (polling) whatever the replicas answer, and however the answers change
    during the poll, it ends after at most n(n+1) requests; the address it
    caches is one of the replicas', and that replica answered that it leads;
    otherwise the cache is cleared. *)
Theorem poll_sound t w t' w' l :
  poll (logged fetch) t (w, []) = (t', (w', l)) ->
  (length l <= length (t_replicaAddrs t) * S (length (t_replicaAddrs t)))%nat /\
  t_replicaAddrs t' = t_replicaAddrs t /\
  (LeaderAddr t' = EmptyString \/ (LeaderAddr t' ∈ t_replicaAddrs t /\ says_leader l (LeaderAddr t'))).
Proof.
  unfold poll. destruct (poll_loop _ _ _ _) as [r [w1 l1]] eqn:Hp. intros [= <- <- <-].
  destruct (poll_loop_spec _ _ _ _ _ _ _ Hp) as [(k & -> & Hk) Hf]. split_and!; [done|done|].
  destruct r as [addr|]; simpl; [right|by left]. destruct (Hf addr eq_refl) as [[?|?] ?]; done.
Qed.
End properties.

(** ** Replicas that do not change during the poll *)

Definition static (answers : string -> option StatusResponse) (addr : string) (w : unit) : option StatusResponse * unit :=
  (answers addr, w).

Definition leads (answers : string -> option StatusResponse) (addr : string) : Prop :=
  exists status, answers addr = Some status /\ st_State status = Leader.

Section static.
Context (answers : string -> option StatusResponse).

Lemma find_hinted_static id addrs :
  forall addr, fst (find_hinted (static answers) id addrs tt) = Some addr -> addr ∈ addrs /\ leads answers addr.
Proof.
  induction addrs as [|a addrs IH]; intros addr; simpl; [done|].
  destruct (answers a) as [st|] eqn:Ha.
  - case_match eqn:Hc; [|intros Hr; destruct (IH addr Hr); split; [by constructor|done]].
    intros [= <-]. apply andb_true_iff in Hc as [_ Hs%bool_decide_eq_true]. split; [by constructor|by exists st].
  - intros Hr. destruct (IH addr Hr). split; [by constructor|done].
Qed.

Lemma poll_loop_static all addrs :
  match fst (poll_loop (static answers) all addrs tt) with
  | Some addr => (addr ∈ addrs \/ addr ∈ all) /\ leads answers addr
  | None => forall addr, addr ∈ addrs -> ¬ leads answers addr
  end.
Proof.
  induction addrs as [|a addrs IH]; simpl; [by intros ? ?%elem_of_nil|].
  assert (¬ leads answers a -> match fst (poll_loop (static answers) all addrs tt) with
    | Some addr => (addr ∈ a :: addrs \/ addr ∈ all) /\ leads answers addr
    | None => forall addr, addr ∈ a :: addrs -> ¬ leads answers addr end) as Hrest.
  { intros Hn. destruct (fst _) as [addr|].
    - destruct IH as [[?|?] ?]; (split; [|done]); [left; by constructor|by right].
    - intros addr [->|?]%elem_of_cons; [done|by apply IH]. }
  destruct (answers a) as [st|] eqn:Ha.
  - case_bool_decide as Hs; [split; [left; by constructor|by exists st]|].
    assert (¬ leads answers a) as Hn by (intros (st' & ? & ?); congruence).
    case_bool_decide; [|by apply Hrest].
    pose proof (find_hinted_static (st_LeaderID st) all) as Hf.
    destruct (find_hinted (static answers) (st_LeaderID st) all tt) as [[ra|] []]; simpl in *; [|by apply Hrest].
    destruct (Hf ra eq_refl). split; [by right|done].
  - apply Hrest. intros (st' & ? & ?). congruence.
Qed.

(** C39: (discovery) when the replicas' answers do not change during the poll,
    it finds a leader exactly when one of them says it leads; in particular,
    when exactly one does, it finds that one. *)
Theorem poll_complete t :
  EmptyString ∉ t_replicaAddrs t ->
  let t' := fst (poll (static answers) t tt) in
  (LeaderAddr t' = EmptyString <-> forall addr, addr ∈ t_replicaAddrs t -> ¬ leads answers addr) /\
  (LeaderAddr t' <> EmptyString -> LeaderAddr t' ∈ t_replicaAddrs t /\ leads answers (LeaderAddr t')) /\
  (forall addr, addr ∈ t_replicaAddrs t -> leads answers addr ->
     (forall other, other ∈ t_replicaAddrs t -> leads answers other -> other = addr) -> LeaderAddr t' = addr).
Proof.
  intros Hne t'. unfold t', poll. pose proof (poll_loop_static (t_replicaAddrs t) (t_replicaAddrs t)) as Hp.
  destruct (poll_loop _ _ _ _) as [[a|] []]; simpl in *.
  - destruct Hp as [Hin Hl]. assert (a ∈ t_replicaAddrs t) as Ha by (by destruct Hin). split_and!.
    + split; [by intros ->|]. intros Hall. by destruct (Hall a).
    + done.
    + intros addr _ _ Huniq. by apply Huniq.
  - split_and!; [split; [by intros _|done]|done|]. intros addr Hin Hl. by destruct (Hp addr Hin).
Qed.
End static.

(** (stale leaders) terms are not compared: of two replicas that both
    believe they lead, the first in the list is cached, even if its term is
    over. *)
Theorem poll_ignores_terms (a b : string) (old new : StatusResponse) (t : Tracker) :
  a <> b -> st_State old = Leader -> st_State new = Leader -> st_Term old < st_Term new ->
  t_replicaAddrs t = [a; b] ->
  LeaderAddr (fst (poll (static (fun addr => if bool_decide (addr = a) then Some old else Some new)) t tt)) = a.
Proof. intros Hab Ho _ _ Hl. unfold poll. rewrite Hl. simpl. by rewrite !bool_decide_true by done. Qed.

(** ** The tracking loop *)

Section tracking.
Context {W : Type} (fetch : string -> W -> option StatusResponse * W).

Lemma find_hinted_in id addrs : forall w a, fst (find_hinted fetch id addrs w) = Some a -> a ∈ addrs.
Proof.
  induction addrs as [|x addrs IH]; simpl; intros w a; [done|]. destruct (fetch x w) as [[st|] w1]; simpl.
  - case_match; [intros [= <-]; by left|intros ?%IH; by right].
  - intros ?%IH. by right.
Qed.

Lemma poll_loop_in all addrs : forall w a, fst (poll_loop fetch all addrs w) = Some a -> a ∈ addrs \/ a ∈ all.
Proof.
  induction addrs as [|x addrs IH]; simpl; intros w a; [done|].
  assert (forall w, fst (poll_loop fetch all addrs w) = Some a -> a ∈ x :: addrs \/ a ∈ all) as Hrest.
  { intros w1 [?|?]%IH; [left; by right|by right]. }
  destruct (fetch x w) as [[st|] w1]; simpl; [|apply Hrest].
  case_bool_decide; [intros [= <-]; left; by left|]. case_bool_decide; [|apply Hrest].
  pose proof (find_hinted_in (st_LeaderID st) all w1) as Hf.
  destruct (find_hinted fetch (st_LeaderID st) all w1) as [[b|] w2]; simpl in *; [|apply Hrest].
  intros [= <-]. right. by apply (Hf b).
Qed.

(** A cache that the next poll's requests can be sent to. *)
Definition known (t : Tracker) : Prop := LeaderAddr t = EmptyString \/ LeaderAddr t ∈ t_replicaAddrs t.

Lemma poll_known t w :
  known (fst (poll fetch t w)) /\ t_replicaAddrs (fst (poll fetch t w)) = t_replicaAddrs t.
Proof.
  unfold poll, known. pose proof (poll_loop_in (t_replicaAddrs t) (t_replicaAddrs t) w) as Hp.
  destruct (poll_loop _ _ _ _) as [[a|] w1]; simpl in *; (split; [|done]); [right|by left].
  by destruct (Hp a).
Qed.

(** (tracking) whatever the replicas answer and however often the ticker
    fires, the tracker only ever names one of its replicas, or none; and
    nothing that comes after the context is done is looked at. *)
Theorem Start_known events rest t w :
  known (fst (Start fetch events t w)) /\ t_replicaAddrs (fst (Start fetch events t w)) = t_replicaAddrs t /\
  Start fetch (events ++ TkDone :: rest) t w = Start fetch events t w.
Proof.
  unfold Start. change (PollOnce fetch) with (poll fetch). destruct (poll_known t w) as [Hk Hr].
  destruct (poll fetch t w) as [t1 w1]. simpl in *. revert t1 w1 Hk Hr.
  induction events as [|[|] events IH]; intros t1 w1 Hk Hr; simpl; [done| |done].
  change (PollOnce fetch) with (poll fetch). destruct (poll_known t1 w1) as [Hk1 Hr1].
  destruct (poll fetch t1 w1) as [t2 w2]. simpl in *. apply IH; [done|congruence].
Qed.
End tracking.

Module TrackerWitness.
Open Scope string_scope.

Definition follower (id leader : string) : StatusResponse := mkStatusResponse id Follower 1 0 0 leader.
Definition leading (id : string) (term : Z) : StatusResponse := mkStatusResponse id Leader term 0 0 id.
Definition answers (addr : string) : option StatusResponse :=
  if bool_decide (addr = "replica1:9001") then Some (follower "node1" "node3")
  else if bool_decide (addr = "replica3:9003") then Some (leading "node3" 1) else None.
Definition tracker : Tracker := NewTracker ["replica1:9001"; "replica2:9002"; "replica3:9003"].

Lemma poll_sound_witness : exists t' l,
  poll (logged (static answers)) tracker (tt, []) = (t', (tt, l)) /\ LeaderAddr t' = "replica3:9003" /\ (length l <= 12)%nat.
Proof.
  destruct (poll (logged (static answers)) tracker (tt, [])) as [t' [[] l]] eqn:Hp.
  exists t', l. destruct (poll_sound (static answers) tracker tt t' tt l Hp) as (Hl & _ & _).
  split; [reflexivity|]. split; [|exact Hl].
  apply (f_equal (fun r => LeaderAddr (fst r))) in Hp. vm_compute in Hp. symmetry. exact Hp.
Defined.

Lemma poll_complete_witness : LeaderAddr (fst (poll (static answers) tracker tt)) = "replica3:9003".
Proof.
  apply (poll_complete answers tracker).
  - apply (bool_decide_unpack _). vm_compute. exact I.
  - apply (list_elem_of_lookup_2 _ 2). reflexivity.
  - exists (leading "node3" 1). split; reflexivity.
  - intros other Hin (st & Hst & Hs). unfold answers in Hst.
    case_bool_decide; [simplify_eq; discriminate|]. case_bool_decide; [done|discriminate].
Defined.

Lemma poll_ignores_terms_witness :
  LeaderAddr (fst (poll (static (fun addr => if bool_decide (addr = "replica1:9001")
    then Some (leading "node1" 1) else Some (leading "node2" 2))) (NewTracker ["replica1:9001"; "replica2:9002"]) tt)) = "replica1:9001".
Proof. apply (poll_ignores_terms "replica1:9001" "replica2:9002"); (reflexivity || discriminate). Defined.
End TrackerWitness.
