(* ===== verification/GatewayHandler.v ===== *)
(** * GatewayHandler: the HTTP and WebSocket handlers of the gateway

    [gateway/internal/gateway/handler.go]: strokes from a client are forwarded
    to the leader, with one retry after a poll; commit notifications are
    broadcast; a new client is sent the committed strokes.  The replicas are
    reached through the HTTP client's [Do] on a world [W], as in RpcClient. *)

From Stdlib Require Import ZArith Lia Ascii String.
From stdpp Require Import base list strings option gmap.
From S2P Require Import Prelude Types RaftLog Node Election Replication Handlers Applier.
From S2P Require Import Addrs Strconv Http ReplicaServer RpcClient Hub Tracker.
Open Scope list_scope.
Open Scope Z_scope.

(** Why a stroke was not submitted. *)
Inductive forward_error : Type :=
| NoKnownLeader
| MarshalStroke
| ForwardToLeader
| LeaderRejected
| LeaderStatus (code : int).

(** ** Forwarding strokes *)

Section forward.
Context {body W : Type}.
Context `{JStroke : Json body StrokeEvent} `{JStatus : Json body StatusResponse}.
Context (url_ok : string -> bool) (Do : request body -> W -> option (response body) * W).

(** [h.client.Post]: an invalid URL is an error like any other. *)
Definition client_Post (host path : string) (b : body) (w : W) : option (response body) * W :=
  if negb (url_ok host) then (None, w) else Do (mkRequest MethodPost host path [] (PJson b)) w.

Definition forwardToLeaderAddr (stroke : StrokeEvent) (leaderAddr : string) (w : W) : option forward_error * W :=
  if bool_decide (leaderAddr = EmptyString) then (Some NoKnownLeader, w)
  else match Marshal stroke with
  | None => (Some MarshalStroke, w)
  | Some data =>
      match client_Post leaderAddr "/stroke" data w with
      | (None, w) => (Some ForwardToLeader, w)
      | (Some resp, w) =>
          if bool_decide (rs_status resp = StatusServiceUnavailable) then (Some LeaderRejected, w)
          else if bool_decide (rs_status resp <> StatusAccepted) then (Some (LeaderStatus (rs_status resp)), w)
          else (None, w)
      end
  end.

Definition forwardToLeader (stroke : StrokeEvent) (t : Tracker) (w : W) : option forward_error * Tracker * W :=
  match forwardToLeaderAddr stroke (LeaderAddr t) w with
  | (None, w) => (None, t, w)
  | (Some _, w) =>
      let '(t, w) := PollOnce (fetchStatus url_ok Do) t w in
      let '(err, w) := forwardToLeaderAddr stroke (LeaderAddr t) w in
      (err, t, w)
  end.
End forward.

(** ** Commit notifications and errors *)

Section messages.
Context {body : Type}.
Context `{JCommit : Json body CommitNotification} `{JMessage : Json body WSMessage} `{JMap : Json body (list (string * string))}.

Definition stroke_message (s : StrokeEvent) : WSMessage := mkWSMessage "stroke" (PayloadStroke s).
Definition error_message (msg : string) : WSMessage :=
  mkWSMessage "error" (PayloadStrings [("message"%string, msg)]).

Definition HandleCommit (h : @Hub body) (r : request body) : @Hub body * response body :=
  if bool_decide (rq_method r <> MethodPost) then (h, http_Error "method not allowed" StatusMethodNotAllowed)
  else match Decode CommitNotification (rq_body r) with
  | None => (h, http_Error "invalid request body" StatusBadRequest)
  | Some notification =>
      match Marshal (stroke_message (cn_Stroke notification)) with
      | None => (h, http_Error "internal error" StatusInternalServerError)
      | Some data => (fst (Broadcast h data), mkResponse StatusOK PEmpty)
      end
  end.

Definition HandleLeader (t : Tracker) : response body :=
  mkResponse StatusOK (Encode [("leader", LeaderAddr t); ("leaderAddr", LeaderAddr t)]%string).

Definition HandleGatewayHealth : response body := mkResponse StatusOK (Encode [("status", "ok")]%string).

Definition HandleGatewayMetrics (h : @Hub body) : response body :=
  mkResponse StatusOK (PText (list_ascii_of_string "smolraft_gateway_connected_clients " ++
    Itoa (Z.of_nat (ClientCount h)) ++ [newline])).

Definition HandleGatewayStatus `{Json body (list (string * scalar))} (t : Tracker) (h : @Hub body) : response body :=
  mkResponse StatusOK (Encode [("leader"%string, JString (LeaderAddr t));
                               ("clients"%string, JInt (Z.of_nat (ClientCount h)))]).

(** The routes of the gateway's [NewServer]; [None]: the connection is
    upgraded to a WebSocket, and the hub's loop has a new client. *)
Definition ServeGateway `{Json body (list (string * scalar))} (t : Tracker) (h : @Hub body) (r : request body) :
    @Hub body * option (response body) :=
  if bool_decide (rq_path r = "/ws"%string) then (h, None)
  else if bool_decide (rq_path r = "/commit"%string) then let '(h, resp) := HandleCommit h r in (h, Some resp)
  else if bool_decide (rq_path r = "/health"%string) then (h, Some HandleGatewayHealth)
  else if bool_decide (rq_path r = "/status"%string) then (h, Some (HandleGatewayStatus t h))
  else if bool_decide (rq_path r = "/leader"%string) then (h, Some (HandleLeader t))
  else if bool_decide (rq_path r = "/metrics"%string) then (h, Some (HandleGatewayMetrics h))
  else (h, Some (http_Error "404 page not found" StatusNotFound)).

(** [sendError], on the client's channel. *)
Definition sendError (ch : chan body) (msg : string) : result (chan body) :=
  match Marshal (error_message msg) with
  | None => Ok ch
  | Some data => match try_send ch data with Ok (ch, _) => Ok ch | Panicked p => Panicked p end
  end.

(** The messages of [replayHistory]'s loop: an entry that does not marshal is
    skipped. *)
Definition replay_messages (entries : list LogEntry) : list body :=
  omap (fun entry => Marshal (stroke_message (le_Stroke entry))) entries.

(** One pass of the loop, with the messages that are left: when the channel is
    full it returns.  Other goroutines send and receive between two passes. *)
Definition replay_step (ch : chan body) (messages : list body) : result (chan body * list body) :=
  match messages with
  | [] => Ok (ch, [])
  | data :: messages =>
      match try_send ch data with
      | Ok (ch, sent) => Ok (ch, if sent : bool then messages else [])
      | Panicked p => Panicked p
      end
  end.
End messages.

Section pumps.
Context {body W : Type}.
Context `{JStroke : Json body StrokeEvent} `{JStatus : Json body StatusResponse}
        `{JEntries : Json body (list LogEntry)} `{JMessage : Json body WSMessage}.
Context (url_ok : string -> bool) (Do : request body -> W -> option (response body) * W).

Definition client_Get (host path : string) (q : list (string * bytes)) (w : W) : option (response body) * W :=
  if negb (url_ok host) then (None, w) else Do (mkRequest MethodGet host path q PEmpty) w.

(** [replayHistory] before its loop: the messages to send, none if it returns
    early.  The status of the response is not checked. *)
Definition replayHistory (t : Tracker) (w : W) : list body * Tracker * W :=
  let '(t, w) := if bool_decide (LeaderAddr t = EmptyString) then PollOnce (fetchStatus url_ok Do) t w else (t, w) in
  if bool_decide (LeaderAddr t = EmptyString) then ([], t, w)
  else match client_Get (LeaderAddr t) "/sync-log" [("from"%string, Itoa 1)] w with
  | (None, w) => ([], t, w)
  | (Some resp, w) =>
      match Decode (list LogEntry) (rs_body resp) with
      | None => ([], t, w)
      | Some entries => (replay_messages entries, t, w)
      end
  end.

(** One message of [readPump]: the client's channel, the tracker, the world. *)
Definition readPump_message (ch : chan body) (t : Tracker) (w : W) (message : body) :
    result (chan body) * Tracker * W :=
  match Unmarshal (A := StrokeEvent) message with
  | None => (sendError ch "invalid stroke data", t, w)
  | Some stroke =>
      match forwardToLeader url_ok Do stroke t w with
      | (None, t, w) => (Ok ch, t, w)
      | (Some _, t, w) => (sendError ch "failed to submit stroke", t, w)
      end
  end.
End pumps.

(** ** Frames *)

(** [writePump]'s frame: the messages, separated by newlines. *)
Definition frame {body} (print : body -> bytes) (messages : list body) : bytes :=
  join_with newline (map print messages).

(** ** Lemmas *)

Section logged.
Context {body W : Type}.
Context `{JStroke : Json body StrokeEvent} `{JStatus : Json body StatusResponse}.
Context (url_ok : string -> bool) (Do : request body -> W -> option (response body) * W).

Local Abbreviation log := (list (request body * option (response body))) (only parsing).

(** The same client, with a record of the requests and their outcomes. *)
Definition logged_do (r : request body) (s : W * log) : option (response body) * (W * log) :=
  let '(o, w) := Do r (fst s) in (o, (w, snd s ++ [(r, o)])).

Definition is_post (e : request body * option (response body)) : Prop := rq_path (fst e) = "/stroke"%string.

#[global] Instance is_post_dec e : Decision (is_post e).
Proof. unfold is_post. apply _. Defined.

(** The requests of a poll are not strokes. *)
Definition same_posts (s s' : W * log) : Prop := filter is_post (snd s) = filter is_post (snd s').

#[global] Instance same_posts_preorder : PreOrder same_posts.
Proof. split; [by intros ?|]. unfold same_posts. intros x y z H1 H2. congruence. Qed.

Lemma fetchStatus_posts addr s : same_posts s (snd (fetchStatus url_ok logged_do addr s)).
Proof.
  unfold fetchStatus, same_posts. destruct (negb (url_ok addr)); [done|].
  unfold logged_do. simpl. destruct (Do _ (fst s)) as [[resp|] w]; simpl; [case_bool_decide; simpl|];
    rewrite filter_app; unfold is_post; rewrite filter_cons, decide_False by done; by rewrite app_nil_r.
Qed.

Lemma forwardToLeaderAddr_posts stroke addr w l err w' l' :
  forwardToLeaderAddr url_ok logged_do stroke addr (w, l) = (err, (w', l')) ->
  exists k, filter is_post l' = filter is_post l ++ k /\ (length k <= 1)%nat /\
    (forall e, e ∈ k -> rq_method (fst e) = MethodPost /\ exists b, Marshal stroke = Some b /\ rq_body (fst e) = PJson b) /\
    (err = None -> exists r resp, k = [(r, Some resp)] /\ rs_status resp = StatusAccepted).
Proof.
  unfold forwardToLeaderAddr. case_bool_decide.
  { intros [= <- <- <-]. exists []. rewrite app_nil_r. split_and!; [done|simpl; lia|by intros e ?%elem_of_nil|done]. }
  destruct (Marshal stroke) as [data|] eqn:Hm.
  2:{ intros [= <- <- <-]. exists []. rewrite app_nil_r. split_and!; [done|simpl; lia|by intros e ?%elem_of_nil|done]. }
  unfold client_Post. destruct (negb (url_ok addr)).
  { intros [= <- <- <-]. exists []. rewrite app_nil_r. split_and!; [done|simpl; lia|by intros e ?%elem_of_nil|done]. }
  unfold logged_do. simpl. set (r := mkRequest _ _ _ _ _). destruct (Do r w) as [o w1]. intros Hr.
  assert (l' = l ++ [(r, o)]) as -> by (destruct o; repeat case_bool_decide; by simplify_eq).
  exists [(r, o)]. rewrite filter_app, filter_cons, decide_True by done. split_and!; [done|simpl; lia| |].
  - intros e ->%list_elem_of_singleton. split; [done|]. by exists data.
  - intros ->. destruct o as [resp|]; [|by simplify_eq]. exists r, resp. split; [done|].
    repeat case_bool_decide; try by simplify_eq.
Qed.
End logged.

(** ** Properties *)

(** (forwarding) for one stroke of a client at most two stroke requests are
    sent, both POSTs of that stroke, whatever the polls in between do; the
    stroke counts as submitted only if the last of them was answered 202. *)
Theorem forward_posts {body W} `{Json body StrokeEvent} `{Json body StatusResponse}
    (url_ok : string -> bool) (Do : request body -> W -> option (response body) * W) stroke t w err t' w' l :
  forwardToLeader url_ok (logged_do Do) stroke t (w, []) = (err, t', (w', l)) ->
  (length (filter is_post l) <= 2)%nat /\
  (forall e, e ∈ filter is_post l ->
     rq_method (fst e) = MethodPost /\ exists b, Marshal stroke = Some b /\ rq_body (fst e) = PJson b) /\
  (err = None -> exists r resp, last (filter is_post l) = Some (r, Some resp) /\ rs_status resp = StatusAccepted).
Proof.
  unfold forwardToLeader.
  destruct (forwardToLeaderAddr url_ok (logged_do Do) stroke (LeaderAddr t) (w, [])) as [[e1|] [w1 l1]] eqn:H1.
  - destruct (forwardToLeaderAddr_posts _ _ _ _ _ _ _ _ _ H1) as (k1 & Hk1 & Hl1 & Ha1 & _). simpl in Hk1.
    pose proof (poll_related (fetchStatus url_ok (logged_do Do)) same_posts (fetchStatus_posts url_ok Do) t (w1, l1)) as Hp.
    change (poll (fetchStatus url_ok (logged_do Do))) with (PollOnce (fetchStatus url_ok (logged_do Do))) in Hp.
    destruct (PollOnce _ t (w1, l1)) as [t2 [w2 l2]]. unfold same_posts in Hp. simpl in Hp.
    destruct (forwardToLeaderAddr url_ok (logged_do Do) stroke (LeaderAddr t2) (w2, l2)) as [e2 [w3 l3]] eqn:H2.
    destruct (forwardToLeaderAddr_posts _ _ _ _ _ _ _ _ _ H2) as (k2 & Hk2 & Hl2 & Ha2 & Hn2).
    intros [= <- <- <- <-]. rewrite Hk2, <- Hp, Hk1. split_and!.
    + rewrite length_app. lia.
    + intros e [?|?]%elem_of_app; auto.
    + intros ->. destruct (Hn2 eq_refl) as (r & resp & -> & ?). exists r, resp. by rewrite last_snoc.
  - destruct (forwardToLeaderAddr_posts _ _ _ _ _ _ _ _ _ H1) as (k1 & Hk1 & Hl1 & Ha1 & Hn1). simpl in Hk1.
    intros [= <- <- <- <-]. rewrite Hk1. split_and!; [lia|done|].
    intros _. destruct (Hn1 eq_refl) as (r & resp & -> & ?). by exists r, resp.
Qed.
