(* ===== verification/Recorder.v ===== *)
(** * Recorder: the request log of the gateway

    [NewServer] of [gateway/internal/gateway/server.go] serves every request
    through a [statusRecorder], which remembers the status for the log line.
    A response writer is an interface, here a class with two instances: the
    writer of [net/http] and the recorder over any writer.  A handler is the
    sequence of calls it makes on its writer. *)

From Stdlib Require Import ZArith Ascii String.
From stdpp Require Import base list strings option gmap.
From S2P Require Import Prelude Types Addrs Strconv Http Hub Tracker GatewayHandler.
Open Scope list_scope.
Open Scope Z_scope.

(** ** Response writers *)

(** [Hijack] is [None] when it fails or the writer is not an [http.Hijacker];
    [Flush] does nothing when it is not an [http.Flusher]. *)
Class ResponseWriter (body W : Type) : Type := {
  WriteHeader : int -> W -> W;
  Write : payload body -> W -> W;
  Hijack : W -> option W;
  Flush : W -> W;
}.

(** *** [net/http]: the first status counts, and a hijacked connection takes
    no more of the response *)

Record conn_writer (body : Type) : Type := mkConnWriter {
  cw_status : option int;
  cw_body : list (payload body);
  cw_hijacker : bool;
  cw_hijacked : bool;
}.
Arguments mkConnWriter {body} _ _ _ _.
Arguments cw_status {body} _.
Arguments cw_body {body} _.
Arguments cw_hijacker {body} _.
Arguments cw_hijacked {body} _.

Definition commit_status {body} (code : int) (w : conn_writer body) : conn_writer body :=
  if cw_hijacked w then w
  else mkConnWriter (Some (default code (cw_status w))) (cw_body w) (cw_hijacker w) (cw_hijacked w).

#[export] Instance net_http {body} : ResponseWriter body (conn_writer body) := {
  WriteHeader := commit_status;
  Write p w :=
    let w := commit_status StatusOK w in
    if cw_hijacked w then w else mkConnWriter (cw_status w) (cw_body w ++ [p]) (cw_hijacker w) (cw_hijacked w);
  Hijack w :=
    if cw_hijacker w && negb (cw_hijacked w) then Some (mkConnWriter (cw_status w) (cw_body w) (cw_hijacker w) true) else None;
  Flush := commit_status StatusOK;
}.

(** *** [statusRecorder] *)

Record statusRecorder (W : Type) : Type := mkRecorder {
  sr_ResponseWriter : W;
  sr_status : int;
}.
Arguments mkRecorder {W} _ _.
Arguments sr_ResponseWriter {W} _.
Arguments sr_status {W} _.

#[export] Instance recorder {body W} `{ResponseWriter body W} : ResponseWriter body (statusRecorder W) := {
  WriteHeader code s := mkRecorder (WriteHeader code (sr_ResponseWriter s)) code;
  Write p s := mkRecorder (Write p (sr_ResponseWriter s)) (sr_status s);
  Hijack s := (fun w => mkRecorder w (sr_status s)) <$> Hijack (sr_ResponseWriter s);
  Flush s := mkRecorder (Flush (sr_ResponseWriter s)) (sr_status s);
}.

(** ** Handlers *)

Inductive op (body : Type) : Type :=
| OpWriteHeader (code : int)
| OpWrite (p : payload body)
| OpHijack
| OpFlush.
Arguments OpWriteHeader {body} _.
Arguments OpWrite {body} _.
Arguments OpHijack {body}.
Arguments OpFlush {body}.

Section serve.
Context {body W : Type} `{ResponseWriter body W}.

Definition serve_op (w : W) (o : op body) : W :=
  match o with
  | OpWriteHeader code => WriteHeader code w
  | OpWrite p => Write p w
  | OpHijack => default w (Hijack w)
  | OpFlush => Flush w
  end.

Definition serve (ops : list (op body)) (w : W) : W := foldl serve_op w ops.
End serve.

(** [loggedHandler]: the writer at the end, and the status of the log line. *)
Definition loggedHandler {body W} `{ResponseWriter body W} (ops : list (op body)) (w : W) : W * int :=
  let s := serve ops (mkRecorder w StatusOK) in (sr_ResponseWriter s, sr_status s).

(** The calls of the gateway's handlers for a response: [http.Error] writes a
    header and a text, a success a body alone, or a header alone. *)
Definition handler_ops {body} (r : option (response body)) : list (op body) :=
  match r with
  | None => [OpHijack]
  | Some r =>
      match rs_body r with
      | PEmpty => [OpWriteHeader (rs_status r)]
      | p => if bool_decide (rs_status r = StatusOK) then [OpWrite p] else [OpWriteHeader (rs_status r); OpWrite p]
      end
  end.

(** What the client gets when the handler returns; [None]: the connection is
    not HTTP's any more. *)
Definition finished {body} (w : conn_writer body) : option (int * list (payload body)) :=
  if cw_hijacked w then None else Some (default StatusOK (cw_status w), cw_body w).

Definition fresh {body} : conn_writer body := mkConnWriter None [] true false.

(** ** Properties *)

Lemma serve_recorded {body W} `{ResponseWriter body W} (ops : list (op body)) : forall w code,
  sr_ResponseWriter (serve ops (mkRecorder w code)) = serve ops w.
Proof.
  induction ops as [|o ops IH]; intros w code; [done|]. unfold serve in *. simpl.
  destruct o; simpl; try apply IH. destruct (Hijack w); apply IH.
Qed.

(** (transparent) a handler behind the recorder does to the client's writer
    exactly what it does without it, whatever calls it makes, hijacking and
    flushing included. *)
Theorem logging_transparent {body W} `{ResponseWriter body W} (ops : list (op body)) w :
  fst (loggedHandler ops w) = serve ops w.
Proof. apply serve_recorded. Qed.

(** (the request log) for every request to the gateway the client gets
    the handler's response and the log line has its status, except that a
    WebSocket upgrade is logged as 200. *)
Theorem request_log {body} `{JCommit : Json body CommitNotification} `{JMessage : Json body WSMessage}
    `{JMap : Json body (list (string * string))} `{JScalars : Json body (list (string * scalar))}
    (t : Tracker) (h : @Hub body) (r : request body) :
  let '(w, logged) := loggedHandler (handler_ops (snd (ServeGateway t h r))) fresh in
  match snd (ServeGateway t h r) with
  | Some resp => finished w = Some (rs_status resp, match rs_body resp with PEmpty => [] | p => [p] end) /\ logged = rs_status resp
  | None => finished w = None /\ logged = StatusOK
  end.
Proof.
  destruct (snd (ServeGateway t h r)) as [[code p]|]; [|done]. unfold handler_ops. simpl.
  destruct p; simpl; try done; by (case_bool_decide; subst).
Qed.

(** (a second header) the recorder keeps the last status, [net/http] the
    first: a handler that writes two would be logged with a status its client
    never saw.  No handler of the gateway does. *)
Theorem second_header_misreported {body} :
  loggedHandler [OpWriteHeader StatusBadRequest; OpWriteHeader StatusOK] (@fresh body) =
    (mkConnWriter (Some StatusBadRequest) [] true false, StatusOK).
Proof. reflexivity. Qed.
