(* ===== verification/Delivery.v ===== *)
(** * Delivery: the gateway against the replicas

    The handlers of GatewayHandler on the network of RpcClient: what a
    forwarded stroke does to the replicas, when it is reported as submitted,
    and what is fetched for a new client (Replay has how it is sent). *)

From Stdlib Require Import ZArith Lia Ascii String.
From stdpp Require Import base list strings option gmap.
From S2P Require Import Prelude Types RaftLog Node Election Replication Handlers Applier.
From S2P Require Import Addrs Strconv Http ReplicaServer RpcClient Hub Tracker GatewayHandler.
Open Scope list_scope.
Open Scope Z_scope.

(** ** Polls of replicas that do not change *)

Section constant.
Context {W : Type} (fetch : string -> W -> option StatusResponse * W).
Context (w : W) (answers : string -> option StatusResponse) (Hfetch : forall addr, fetch addr w = (answers addr, w)).

Lemma find_hinted_constant id addrs :
  find_hinted fetch id addrs w = (fst (find_hinted (static answers) id addrs tt), w).
Proof.
  induction addrs as [|a addrs IH]; simpl; [done|]. rewrite Hfetch.
  destruct (answers a); [case_match|]; done.
Qed.

Lemma poll_loop_constant all addrs :
  poll_loop fetch all addrs w = (fst (poll_loop (static answers) all addrs tt), w).
Proof.
  induction addrs as [|a addrs IH]; simpl; [done|]. rewrite Hfetch. destruct (answers a) as [st|]; [|done].
  case_bool_decide; [done|]. case_bool_decide; [|done]. rewrite find_hinted_constant.
  by destruct (find_hinted (static answers) (st_LeaderID st) all tt) as [[ra|] []].
Qed.

Lemma PollOnce_constant t :
  PollOnce fetch t w =
    (setLeader (default EmptyString (fst (poll_loop (static answers) (t_replicaAddrs t) (t_replicaAddrs t) tt))) t, w).
Proof. unfold PollOnce, poll. by rewrite poll_loop_constant. Qed.
End constant.

(** ** The replicas behind the network *)

Section delivery.
Context {body : Type}.
Context `{JVoteReq : Json body VoteRequest} `{JVoteResp : Json body VoteResponse}
        `{JAppReq : Json body AppendEntriesRequest} `{JAppResp : Json body AppendEntriesResponse}
        `{JStroke : Json body StrokeEvent} `{JStatus : Json body StatusResponse}
        `{JEntries : Json body (list LogEntry)} `{JMap : Json body (list (string * string))}
        `{JMessage : Json body WSMessage}.

Local Abbreviation cluster := (gmap string Node) (only parsing).

(** What a replica answers to a status request. *)
Definition status_of (w : cluster) (addr : string) : option StatusResponse :=
  n ← w !! addr; Decode StatusResponse (body := body) (Encode (Status n)).

Lemma fetchStatus_delivered (w : cluster) addr :
  fetchStatus every_url deliver_to addr w = (status_of w addr, w).
Proof.
  unfold fetchStatus, status_of, deliver_to. simpl. destruct (w !! addr) as [n|] eqn:Hn; [|done].
  unfold ServeHTTP. simpl. by rewrite insert_id.
Qed.

Lemma forward_delivered stroke addr (w : cluster) :
  wire stroke -> addr <> EmptyString ->
  forwardToLeaderAddr every_url deliver_to stroke addr w =
    match w !! addr with
    | None => (Some ForwardToLeader, w)
    | Some n => if bool_decide (n_state n = Leader) then (None, <[addr := fst (HandleStroke n stroke)]> w)
                else (Some LeaderRejected, w)
    end.
Proof.
  intros Hw Hne. unfold forwardToLeaderAddr. rewrite bool_decide_false by done.
  destruct (unmarshal_marshal stroke Hw) as (b & Hb & Hu). rewrite Hb.
  unfold client_Post, deliver_to. simpl. destruct (w !! addr) as [n|] eqn:Hn; [|done].
  unfold ServeHTTP, ServeStroke. simpl. rewrite Hu. unfold HandleStroke.
  destruct (decide (n_state n = Leader)) as [Hs|Hs].
  - rewrite (bool_decide_false (_ <> _)) by tauto. by rewrite (bool_decide_true (_ = _)).
  - rewrite (bool_decide_true (_ <> _)) by done. rewrite (bool_decide_false (_ = Leader)) by done.
    simpl. by rewrite insert_id.
Qed.

Lemma forward_delivered_cases stroke addr (w : cluster) err w' :
  wire stroke -> forwardToLeaderAddr every_url deliver_to stroke addr w = (err, w') ->
  (err = None -> exists n, w !! addr = Some n /\ n_state n = Leader /\
                           w' = <[addr := fst (HandleStroke n stroke)]> w) /\
  (err <> None -> w' = w).
Proof.
  intros Hw. destruct (decide (addr = EmptyString)) as [->|Hne].
  { unfold forwardToLeaderAddr. rewrite bool_decide_true by done. by intros [= <- <-]. }
  rewrite forward_delivered by done. destruct (w !! addr) as [n|] eqn:Hn; [|by intros [= <- <-]].
  case_bool_decide; intros [= <- <-]; [|done]. split; [|done]. intros _. by exists n.
Qed.

(** C25: (a stroke is submitted once) over a network that delivers, a forwarded
    stroke is reported as submitted exactly when one leader appended it, once,
    and nothing else changed; a stroke reported as failed changed nothing; and
    it is never reported as failed while a replica of the tracker's list leads
    whose status survives the wire - also when the gateway knows no leader:
    it then polls and tries again, where the architecture notes say that the
    forward fails fast. *)
Theorem forward_exactly_once stroke t (w w' : cluster) err t' :
  wire stroke -> forwardToLeader every_url deliver_to stroke t w = (err, t', w') ->
  (err = None -> exists addr n, w !! addr = Some n /\ n_state n = Leader /\
                                w' = <[addr := fst (HandleStroke n stroke)]> w) /\
  (err <> None -> w' = w) /\
  (EmptyString ∉ t_replicaAddrs t ->
   (exists addr n, addr ∈ t_replicaAddrs t /\ w !! addr = Some n /\ n_state n = Leader /\ wire (Status n)) ->
   (forall addr n, w !! addr = Some n -> wire (Status n)) -> err = None).
Proof.
  intros Hw. unfold forwardToLeader.
  destruct (forwardToLeaderAddr _ _ stroke (LeaderAddr t) w) as [[e1|] w1] eqn:H1;
    destruct (forward_delivered_cases _ _ _ _ _ Hw H1) as [Hok Hfail].
  - rewrite (Hfail ltac:(done)). clear Hok Hfail H1.
    rewrite (PollOnce_constant _ w (status_of w) (fetchStatus_delivered w)).
    destruct (forwardToLeaderAddr _ _ stroke _ w) as [e2 w2] eqn:H2.
    destruct (forward_delivered_cases _ _ _ _ _ Hw H2) as [Hok Hfail]. intros [= <- <- <-]. split_and!; [|done|].
    { intros He. destruct (Hok He) as (n & ? & ? & ?). eauto. }
    intros Hne (addr & n & Hin & Hn & Hs & Hws) Hwire. simpl in H2.
    pose proof (poll_loop_static (status_of w) (t_replicaAddrs t) (t_replicaAddrs t)) as Hp.
    destruct (fst (poll_loop _ _ _ _)) as [found|].
    + destruct Hp as [Hf (st & Hst & Hlead)]. assert (found <> EmptyString) by (intros ->; tauto).
      simpl in H2. rewrite forward_delivered in H2 by done. unfold status_of in Hst.
      destruct (w !! found) as [m|] eqn:Hm; [|done]. simpl in Hst.
      rewrite Decode_Encode in Hst by eauto. injection Hst as <-. simpl in Hlead.
      rewrite bool_decide_true in H2 by done. by injection H2.
    + destruct (Hp addr Hin). exists (Status n). split; [|done]. unfold status_of. rewrite Hn. simpl.
      by apply Decode_Encode.
  - intros [= <- <- <-]. split_and!; [|done|done]. intros _. destruct (Hok eq_refl) as (n & ? & ? & ?). eauto.
Qed.

(** What [replayHistory] fetches: the stroke messages of the entries that the
    leader it knows has committed, oldest first and without the sentinel. *)
Lemma replayHistory_delivered t (w : cluster) n :
  LeaderAddr t <> EmptyString -> w !! LeaderAddr t = Some n ->
  Log.indexed (Log.entries (n_log n)) -> 0 <= n_commitIndex n -> wire (GetSyncLog n 1) ->
  replayHistory every_url deliver_to t w = (replay_messages (drop 1 (committed_prefix n)), t, w).
Proof.
  intros Hne Hn Hidx Hc Hw. unfold replayHistory.
  rewrite (bool_decide_false (LeaderAddr t = EmptyString)) by done. rewrite bool_decide_false by done.
  unfold client_Get, deliver_to. simpl. rewrite Hn. unfold ServeHTTP. simpl. unfold HandleSyncLog. simpl.
  change (Atoi _) with (Some 1). simpl.
  rewrite Decode_Encode by done. rewrite insert_id by done.
  rewrite GetSyncLog_committed by done. by rewrite (bool_decide_false (1 < 0)) by lia.
Qed.
End delivery.

(** (frames) the messages of a frame of the write pump are what a client reads
    by splitting it at newlines, as the browser does, in order. *)
Theorem write_frame_roundtrip {body} (print : body -> bytes) (ms : list body) :
  (forall m, newline ∉ print m) -> ms <> [] -> split_on newline (frame print ms) = map print ms.
Proof.
  intros Hp Hne. unfold frame. rewrite split_on_join; [done|by destruct ms|].
  apply list.Forall_forall. intros x (y & -> & _)%list_elem_of_fmap. apply Hp.
Qed.

(** ** Runs and witnesses *)

Module DeliveryRuns.
Import Tagged HandlersWitness.
Open Scope string_scope.

Local Abbreviation cluster := (gmap string Node) (only parsing).

(** Two replicas, the second of which leads, and a gateway that knows no leader yet. *)
Definition pair : cluster := {["replica1:9001" := base; "replica2:9002" := acked_leader]}.
Definition tracker : Tracker := NewTracker ["replica1:9001"; "replica2:9002"].

(** Every request is delivered, but the reply to the first stroke is lost. *)
Definition lossy (r : request value) (s : cluster * bool) : option (response value) * (cluster * bool) :=
  let '(resp, w) := deliver_to r (fst s) in
  if bool_decide (rq_path r = "/stroke") && snd s then (None, (w, false)) else (resp, (w, snd s)).

Lemma forward_exactly_once_witness :
  let '(err, t', w') := forwardToLeader every_url deliver_to s1 tracker pair in
  err = None /\ LeaderAddr t' = "replica2:9002" /\
  exists addr n, pair !! addr = Some n /\ n_state n = Leader /\ w' = <[addr := fst (HandleStroke n s1)]> pair.
Proof.
  pose proof (fun err t' w' H => forward_exactly_once (body := value) s1 tracker pair w' err t' I H) as H.
  destruct (forwardToLeader every_url deliver_to s1 tracker pair) as [[err t'] w'] eqn:Hr.
  destruct (H _ _ _ eq_refl) as [Hok _]. clear H.
  apply (f_equal (fun r => (fst (fst r), LeaderAddr (snd (fst r))))) in Hr. vm_compute in Hr.
  injection Hr as He Ht. subst err. split; [reflexivity|]. split; [symmetry; exact Ht|exact (Hok eq_refl)].
Defined.

Lemma forward_posts_witness :
  let '(err, _, (_, l)) := forwardToLeader every_url (logged_do deliver_to) s1 tracker (pair, []) in
  (length (filter is_post l) <= 2)%nat /\ err = None.
Proof.
  pose proof (fun err t' w' l H => forward_posts (body := value) every_url deliver_to s1 tracker pair err t' w' l H) as H.
  destruct (forwardToLeader every_url (logged_do deliver_to) s1 tracker (pair, [])) as [[err t'] [w' l]] eqn:Hr.
  destruct (H _ _ _ _ eq_refl) as [Hl _]. split; [exact Hl|].
  apply (f_equal (fun r => fst (fst r))) in Hr. vm_compute in Hr. symmetry. exact Hr.
Defined.

(** The two messages of a frame; a message prints as two bytes. *)
Lemma write_frame_roundtrip_witness :
  split_on newline (frame (fun b : bool => ["a"%char; if b then "t"%char else "f"%char]) [true; false]) =
    [["a"; "t"]; ["a"; "f"]]%char.
Proof.
  apply (write_frame_roundtrip (fun b : bool => ["a"%char; if b then "t"%char else "f"%char]) [true; false]).
  - intros [] Hin; apply list_elem_of_In in Hin; simpl in Hin; intuition discriminate.
  - discriminate.
Defined.

(** (a lost reply doubles a stroke) when the leader's reply to a forwarded
    stroke is lost, the retry submits the stroke a second time: the client
    sees one success and the leader's log holds the stroke twice. *)
Theorem forward_can_duplicate :
  let '(err, _, (w', _)) := forwardToLeader every_url lossy s1 (setLeader "replica2:9002" tracker) (pair, true) in
  err = None /\
  option_map (fun n => map le_Stroke (drop (length (Log.entries (n_log acked_leader))) (Log.entries (n_log n))))
    (w' !! "replica2:9002") = Some [s1; s1].
Proof. vm_compute. split; reflexivity. Qed.
End DeliveryRuns.
