(* ===== verification/Replay.v ===== *)
(** * Replay: the history that a new client is sent

    The third goroutine of [HandleWS]: [replayHistory] fetches the committed
    entries (Delivery) and sends their messages one by one, between the steps
    of the two pumps, of the hub and of the other senders of the connection
    (Pumps), in any interleaving. *)

From Stdlib Require Import ZArith Lia.
From stdpp Require Import base list strings option gmap.
From S2P Require Import Prelude Types RaftLog Node Election Replication Handlers Applier.
From S2P Require Import Addrs Strconv Http ReplicaServer RpcClient Hub Pumps Tracker GatewayHandler Delivery.
Open Scope list_scope.

Section replay.
Context {M : Type}.

(** ** Steps *)

(** The connection, what the loop has still to send, and what it has sent. *)
Record Replay : Type := mkReplay {
  ry_session : @Session M;
  ry_todo : list M;
  ry_sent : list M;
}.

Inductive ry_event : Type :=
| RyStep (ev : @sn_event M)   (* the pumps, the hub, [sendError] *)
| RySend.                     (* a pass of [replayHistory]'s loop *)

Definition ry_exec (ev : ry_event) (r : Replay) : option (result Replay) :=
  match ev with
  | RyStep (SnReplay _) => None
  | RyStep ev =>
      match sn_exec ev (ry_session r) with
      | Some (Ok s) => Some (Ok (mkReplay s (ry_todo r) (ry_sent r)))
      | Some (Panicked p) => Some (Panicked p)
      | None => None
      end
  | RySend =>
      match ry_todo r with
      | [] => None
      | m :: _ =>
          let ch := s_send (ry_session r) in
          match replay_step ch (ry_todo r) with
          | Ok (ch', todo) =>
              Some (Ok (mkReplay (with_send ch' (ry_session r)) todo
                          (ry_sent r ++ if bool_decide (length (ch_buf ch) < ch_cap ch)%nat then [m] else [])))
          | Panicked p => Some (Panicked p)
          end
      end
  end.

Fixpoint ry_run (tr : list ry_event) (r : Replay) : option Replay :=
  match tr with
  | [] => Some r
  | ev :: tr => match ry_exec ev r with Some (Ok r') => ry_run tr r' | _ => None end
  end.

(** ** As a run of the connection *)

Definition ry_project (ev : ry_event) (r : Replay) : option (@sn_event M) :=
  match ev with RyStep ev => Some ev | RySend => SnReplay <$> head (ry_todo r) end.

Lemma ry_exec_session ev r r' :
  ry_exec ev r = Some (Ok r') -> exists sev, ry_project ev r = Some sev /\
    sn_exec sev (ry_session r) = Some (Ok (ry_session r')) /\
    exists l, ry_sent r' = ry_sent r ++ l /\ l `sublist_of` taken sev (ry_session r).
Proof.
  destruct ev as [ev|]; simpl.
  - intros He. exists ev. split; [done|].
    assert (match sn_exec ev (ry_session r) with
            | Some (Ok s) => Some (Ok (mkReplay s (ry_todo r) (ry_sent r)))
            | Some (Panicked p) => Some (Panicked p) | None => None end = Some (Ok r')) as He' by (by destruct ev).
    destruct (sn_exec ev _) as [[s|]|]; simplify_eq. split; [done|].
    exists []. split; [by rewrite app_nil_r|apply sublist_nil_l].
  - destruct (ry_todo r) as [|m ms]; [done|]. unfold replay_step. destruct (try_send _ m) as [[ch b]|] eqn:Ht; intros [= <-].
    exists (SnReplay m). split; [done|]. simpl. unfold direct_send. rewrite Ht. split; [done|]. by eexists.
Qed.

Lemma ry_run_session tr : forall r r',
  ry_run tr r = Some r' -> exists str, sn_run str (ry_session r) = Some (ry_session r') /\
    exists l, ry_sent r' = ry_sent r ++ l /\ l `sublist_of` all_taken str (ry_session r).
Proof.
  induction tr as [|ev tr IH]; simpl; intros r r'.
  { intros [= <-]. exists []. split; [done|]. exists []. by rewrite app_nil_r. }
  destruct (ry_exec ev r) as [[r1|]|] eqn:He; try done. intros Hr.
  destruct (ry_exec_session _ _ _ He) as (sev & _ & Hs & l1 & Hl1 & Hsub1).
  destruct (IH _ _ Hr) as (str & Hstr & l2 & Hl2 & Hsub2). exists (sev :: str). simpl. rewrite Hs. split; [done|].
  exists (l1 ++ l2). rewrite Hl2, Hl1, app_assoc. split; [done|]. by apply sublist_app.
Qed.

(** ** How far the loop gets *)

(** No step changes a channel's capacity. *)
Lemma direct_send_cap m (s s' : @Session M) :
  direct_send m s = Ok s' -> ch_cap (s_send s') = ch_cap (s_send s).
Proof. unfold direct_send. destruct (try_send _ _) as [[ch b]|] eqn:Ht; intros [= <-]. by apply (try_send_fields _ _ _ _ Ht). Qed.

Lemma unregister_cap (s s' : @Session M) : unregister s = Ok s' -> ch_cap (s_send s') = ch_cap (s_send s).
Proof.
  unfold unregister, close_chan. destruct (s_registered s); [|by intros [= <-]].
  destruct (ch_closed _); [done|]. by intros [= <-].
Qed.

Lemma sn_exec_cap ev (s s' : @Session M) : sn_exec ev s = Some (Ok s') -> ch_cap (s_send s') = ch_cap (s_send s).
Proof.
  intros He. destruct ev; simpl in He.
  - destruct (s_reader s); try done. destruct reply; simplify_eq; [by eapply direct_send_cap|done].
  - destruct (s_reader s); by simplify_eq.
  - destruct (s_reader s); try done. destruct (unregister s) eqn:Hu; simplify_eq. by apply unregister_cap in Hu.
  - destruct (s_reader s); by simplify_eq.
  - destruct (s_registered s); [|done]. destruct (try_send _ _) as [[ch [|]]|] eqn:Ht; simplify_eq; [|done].
    by apply (try_send_fields _ _ _ _ Ht).
  - destruct (s_slow s); [done|]. destruct (unregister s) eqn:Hu; simplify_eq. by apply unregister_cap in Hu.
  - simplify_eq. by eapply direct_send_cap.
  - destruct (s_writer s); try done. destruct (recv _) as [[[m|] ch]|] eqn:Hrv; simplify_eq.
    + by destruct (recv_inv _ _ _ Hrv).
    + destruct (conn_write ok OutClose s) as [s1 b] eqn:E. by destruct (conn_write_inv _ _ _ _ _ E) as [-> _].
  - destruct (s_writer s); by simplify_eq.
  - destruct (s_writer s) as [| |[|n] parts| |]; try done. destruct (recv _) as [[x ch]|] eqn:Hrv; simplify_eq.
    by destruct (recv_inv _ _ _ Hrv).
  - destruct (s_writer s) as [| |[|n] parts| |]; try done. destruct (conn_write ok _ s) as [s1 b] eqn:E. simplify_eq.
    by destruct (conn_write_inv _ _ _ _ _ E) as [-> _].
  - destruct (s_writer s); try done. destruct (conn_write ok _ s) as [s1 b] eqn:E. simplify_eq.
    by destruct (conn_write_inv _ _ _ _ _ E) as [-> _].
  - destruct (s_writer s); by simplify_eq.
Qed.

Lemma sn_run_cap tr : forall (s s' : @Session M), sn_run tr s = Some s' -> ch_cap (s_send s') = ch_cap (s_send s).
Proof.
  induction tr as [|ev tr IH]; simpl; intros s s'; [by intros [= <-]|].
  destruct (sn_exec ev s) as [[s1|]|] eqn:He; try done. intros Hr. rewrite (IH _ _ Hr). by eapply sn_exec_cap.
Qed.

(** The channel has no room. *)
Definition full (s : @Session M) : Prop := (ch_cap (s_send s) <= length (ch_buf (s_send s)))%nat.

(** A step keeps what is sent and what is left together, unless the loop gives
    up before a full channel. *)
Lemma ry_exec_progress ev r r' :
  ry_exec ev r = Some (Ok r') ->
  ry_sent r' ++ ry_todo r' = ry_sent r ++ ry_todo r \/
  (ev = RySend /\ ry_todo r' = [] /\ ry_sent r' = ry_sent r /\ full (ry_session r)).
Proof.
  destruct ev as [ev|]; simpl.
  - destruct ev; try done; destruct (sn_exec _ _) as [[s|]|]; intros [= <-]; by left.
  - destruct (ry_todo r) as [|m ms]; [done|]. unfold replay_step. destruct (try_send _ m) as [[ch b]|] eqn:Ht; intros [= <-].
    unfold try_send, offer in Ht. destruct (ch_closed _); [done|].
    case_bool_decide as Hroom; simplify_eq; simpl; [left; by rewrite <- app_assoc|right].
    rewrite app_nil_r. unfold full. split_and!; [done|done|done|lia].
Qed.

Lemma ry_run_done tr : forall r r', ry_todo r = [] -> ry_run tr r = Some r' -> ry_todo r' = [] /\ ry_sent r' = ry_sent r.
Proof.
  induction tr as [|ev tr IH]; simpl; intros r r' Hd; [by intros [= <-]|].
  destruct (ry_exec ev r) as [[r1|]|] eqn:He; try done. intros Hr.
  assert (ry_todo r1 = [] /\ ry_sent r1 = ry_sent r) as [H1 <-]; [|by apply IH].
  destruct ev as [ev|]; simpl in He; [|by rewrite Hd in He].
  destruct ev; try done; destruct (sn_exec _ _) as [[s|]|]; by simplify_eq.
Qed.

(** [r] gave up in the trace [tr] from [r0]: the channel was full. *)
Definition gave_up (tr : list ry_event) (r0 r : Replay) : Prop :=
  exists tr1 tr2 r1, tr = tr1 ++ RySend :: tr2 /\ ry_run tr1 r0 = Some r1 /\ full (ry_session r1) /\
    ry_sent r = ry_sent r1 /\ ry_sent r1 ++ ry_todo r1 = ry_sent r0 ++ ry_todo r0.

Lemma ry_run_progress tr : forall r r',
  ry_run tr r = Some r' ->
  ry_sent r' ++ ry_todo r' = ry_sent r ++ ry_todo r \/ (ry_todo r' = [] /\ gave_up tr r r').
Proof.
  induction tr as [|ev tr IH]; simpl; intros r r'; [intros [= <-]; by left|].
  destruct (ry_exec ev r) as [[r1|]|] eqn:He; try done. intros Hr.
  destruct (ry_exec_progress _ _ _ He) as [Hk|(-> & Hd & Hs & Hf)].
  - destruct (IH _ _ Hr) as [Hk'|(Hd & tr1 & tr2 & r2 & -> & H1 & Hf & Hs & Hk')]; [left; congruence|].
    right. split; [done|]. exists (ev :: tr1), tr2, r2. simpl. rewrite He. split_and!; [done..|congruence].
  - destruct (ry_run_done _ _ _ Hd Hr) as [Hd' Hs']. right. split; [done|].
    exists [], tr, r. split_and!; [done|done|done|congruence|done].
Qed.
End replay.

(** ** The property *)

Section committed.
Context {body : Type}.
Context `{JVoteReq : Json body VoteRequest} `{JVoteResp : Json body VoteResponse}
        `{JAppReq : Json body AppendEntriesRequest} `{JAppResp : Json body AppendEntriesResponse}
        `{JStroke : Json body StrokeEvent} `{JStatus : Json body StatusResponse}
        `{JEntries : Json body (list LogEntry)} `{JMap : Json body (list (string * string))}
        `{JMessage : Json body WSMessage}.
Open Scope Z_scope.

(** C38: (what a new client is sent) over a network that delivers, a new client
    is sent the stroke messages of the entries its gateway's leader has
    committed, oldest first and without the sentinel.  With every interleaving
    of the replay, the pumps, the hub and the other senders: what was sent so
    far is the beginning of that list; the loop ends when all was sent, or
    gives up for good before a channel that is full, 256 messages; until then
    each pass succeeds while the hub knows the client; and what was sent is,
    in this order, in the frames written and what is still queued, but for
    what a failed write has lost. *)
Theorem replay_committed t (w : gmap string Node) n tr0 s0 tr r :
  LeaderAddr t <> EmptyString -> w !! LeaderAddr t = Some n ->
  Log.indexed (Log.entries (n_log n)) -> 0 <= n_commitIndex n -> wire (GetSyncLog n 1) ->
  sn_run tr0 HandleWS = Some s0 ->
  let messages := fst (fst (replayHistory every_url deliver_to t w)) in
  let start := mkReplay s0 messages [] in
  ry_run tr start = Some r ->
  messages = replay_messages (drop 1 (committed_prefix n)) /\
  ry_sent r `prefix_of` messages /\
  (ry_todo r = [] -> ry_sent r = messages \/
     exists tr1 tr2 r1, tr = tr1 ++ RySend :: tr2 /\ ry_run tr1 start = Some r1 /\ ry_sent r = ry_sent r1 /\
       (sendCap <= length (ch_buf (s_send (ry_session r1))))%nat) /\
  (ry_todo r <> [] -> s_registered (ry_session r) = true ->
     exists r', ry_exec RySend r = Some (Ok r') /\ (length (ry_todo r') < length (ry_todo r))%nat) /\
  (exists lost, map Some (ry_sent r) `sublist_of`
       texts (s_out (ry_session r)) ++ in_hand (s_writer (ry_session r)) ++ lost ++
       map Some (ch_buf (s_send (ry_session r))) /\
     (running (s_writer (ry_session r)) = true -> lost = [])).
Proof.
  intros Hne Hn Hidx Hc Hw Hr0 messages start Hr.
  assert (messages = replay_messages (drop 1 (committed_prefix n))) as Hm.
  { unfold messages. by rewrite (replayHistory_delivered t w n). }
  destruct (ry_run_session _ _ _ Hr) as (str & Hstr & l & Hl & Hsub). simpl in Hstr, Hl, Hsub. subst l.
  pose proof (sn_run_ok _ _ _ HandleWS_ok Hr0) as Hok0.
  pose proof (ry_run_progress _ _ _ Hr) as Hp. simpl in Hp. split_and!.
  - exact Hm.
  - destruct Hp as [Hk|(_ & tr1 & tr2 & r1 & _ & _ & _ & Hs & Hk)]; simpl in *; rewrite <- Hk; [|rewrite Hs]; by eexists.
  - intros Hd. destruct Hp as [Hk|(_ & tr1 & tr2 & r1 & Htr & H1 & Hf & Hs & _)]; [left; by rewrite <- Hk, Hd, app_nil_r|right].
    exists tr1, tr2, r1. split_and!; [done..|]. destruct (ry_run_session _ _ _ H1) as (str1 & Hstr1 & _).
    unfold full in Hf. rewrite (sn_run_cap _ _ _ Hstr1) in Hf. simpl in Hf. by rewrite (sn_run_cap _ _ _ Hr0) in Hf.
  - intros Hd Hreg. pose proof (so_closed _ (sn_run_ok _ _ _ Hok0 Hstr)) as Hopen. rewrite Hreg in Hopen. simpl.
    destruct (ry_todo r) as [|m ms]; [done|]. unfold replay_step, try_send, offer. rewrite Hopen.
    case_bool_decide; (eexists; split; [done|simpl; lia]).
  - pose proof (ledger_run _ _ _ _ HandleWS_ok HandleWS_ledger Hr0) as Hlg0.
    destruct (ledger_run _ _ _ _ Hok0 Hlg0 Hstr) as [(lost & Hs & Hn') _]. exists lost. split; [|auto].
    rewrite <- Hs. apply (fmap_sublist Some). etrans; [exact Hsub|]. by apply sublist_inserts_l.
Qed.
End committed.

Module ReplayRuns.
Import Tagged HandlersWitness.
Open Scope string_scope.

(** A replica with one committed stroke and one that is not. *)
Definition cluster : gmap string Node := {["replica1:9001" := stale_follower]}.
Definition tracker : Tracker := setLeader "replica1:9001" (NewTracker ["replica1:9001"]).

Definition connected : Replay := mkReplay HandleWS (fst (fst (replayHistory every_url deliver_to tracker cluster))) [].

(** A stroke of the client fails before the replay; the pump is between its
    receive and its drain when the replayed stroke is sent. *)
Definition visit : list (@ry_event value) :=
  [RyStep (SnMessage (Some (WMessage (error_message "failed to submit stroke")))); RyStep (SnRecv true); RySend; RyStep SnLen; RyStep SnDrain;
   RyStep (SnFlush true)].

Lemma replay_committed_witness :
  exists r, ry_run visit connected = Some r /\ ry_sent r = [WMessage (stroke_message s1)] /\
    ry_sent r `prefix_of` replay_messages (drop 1 (committed_prefix stale_follower)) /\
    s_out (ry_session r) = [OutText [Some (WMessage (error_message "failed to submit stroke")); Some (WMessage (stroke_message s1))]].
Proof.
  destruct (ry_run visit connected) as [r|] eqn:Hr; [|by vm_compute in Hr]. exists r.
  assert (ry_sent r = [WMessage (stroke_message s1)] /\
    s_out (ry_session r) = [OutText [Some (WMessage (error_message "failed to submit stroke")); Some (WMessage (stroke_message s1))]]) as [Hs Ho].
  { pose proof Hr as Hv. vm_compute in Hv. injection Hv as <-. split; reflexivity. }
  split; [reflexivity|]. split; [exact Hs|]. split; [|exact Ho].
  destruct (replay_committed (body := value) tracker cluster stale_follower [] HandleWS visit r) as (Hm & Hp & _).
  - discriminate.
  - reflexivity.
  - intros [|[|[|i]]] e; vm_compute; by intros [= <-].
  - vm_compute. discriminate.
  - exact I.
  - reflexivity.
  - exact Hr.
  - rewrite <- Hm. exact Hp.
Defined.
End ReplayRuns.
