(* ===== verification/Board.v ===== *)
(** * Board: the whole system, from a stroke to the browsers

    The cluster with its notifiers (Notifier), the gateway with its hub (Hub)
    and the handlers between them (GatewayHandler), as one system: replicas
    accept strokes and agree on them, notifiers post commits, [HandleCommit]
    hands them to the hub, the hub and the pumps write them to the browsers,
    and each new browser is sent the committed strokes of some replica.  A
    posted notification may arrive late, more than once or never. *)

From Stdlib Require Import ZArith Lia.
From stdpp Require Import base list strings gmap option.
From S2P Require Import Prelude Types RaftLog Node Election Replication Handlers Cluster.
From S2P Require Import History Invariant Frame Safety Monotone Applier Scenario Agreement Spec Notifier.
From S2P Require Import Addrs Http Codec Wire Hub Tracker GatewayHandler.
Open Scope list_scope.
Open Scope Z_scope.

Section board.
Context {body : Type}.
Context `{JCommit : Json body CommitNotification} `{JMessage : Json body WSMessage}
        `{JEntries : Json body (list LogEntry)}.
Context (D : Deployment) {WD : WellDeployed D}.

(** The cluster and its notifiers; the gateway; for every client the messages
    its [replayHistory] has still to send; and, for the statements, the logs
    that were read for a replay and the messages written to the browsers. *)
Record Board : Type := mkBoard {
  b_sys : System;
  b_gw : @Gateway body;
  b_replay : gmap nat (list body);
  b_fetched : list (string * list LogEntry);
  b_written : list (nat * body);
}.

Definition board_init : Board := mkBoard (sys_init D) gateway_init ∅ [] [].

Inductive board_event : Type :=
| BoSystem (ev : sys_event)
| BoNotify (k : nat)                (* [HandleCommit] receives the [k]th notification posted *)
| BoGateway (ev : @gw_event body)   (* the hub, the pumps, connections *)
| BoError (c : nat) (msg : string)  (* [sendError] *)
| BoFetch (c : nat) (i : string)    (* [replayHistory]: the answer of replica [i] *)
| BoReplay (c : nat).               (* [replayHistory]: one pass of its loop *)

(** The hub's own events; messages enter the gateway by the others. *)
Definition is_internal (ev : @gw_event body) : bool :=
  match ev with GwPublish _ | GwSend _ _ => false | _ => true end.

Definition set_hub (h : @Hub body) (g : @Gateway body) : @Gateway body :=
  mkGateway h (g_send g) (g_registering g) (g_unregistering g).

(** One event; [None] when it is not enabled, or panics. *)
Definition board_exec (ev : board_event) (b : Board) : option Board :=
  match ev with
  | BoSystem ev =>
      s ← sys_exec D ev (b_sys b);
      Some (mkBoard s (b_gw b) (b_replay b) (b_fetched b) (b_written b))
  | BoNotify k =>
      '(_, a) ← s_posted (b_sys b) !! k;
      data ← Marshal a;
      let h := fst (HandleCommit (g_hub (b_gw b)) (mkRequest MethodPost EmptyString "/commit" [] (PJson data))) in
      Some (mkBoard (b_sys b) (set_hub h (b_gw b)) (b_replay b) (b_fetched b) (b_written b))
  | BoGateway ev =>
      if is_internal ev then
        match gw_exec ev (b_gw b) with
        | Some (Ok g) =>
            Some (mkBoard (b_sys b) g (b_replay b) (b_fetched b)
                    (b_written b ++ match ev with GwWrite c => (fun m => (c, m)) <$> written c ev (b_gw b) | _ => [] end))
        | _ => None
        end
      else None
  | BoError c msg =>
      m ← Marshal (error_message msg);
      match gw_exec (GwSend c m) (b_gw b) with
      | Some (Ok g) => Some (mkBoard (b_sys b) g (b_replay b) (b_fetched b) (b_written b))
      | _ => None
      end
  | BoFetch c i =>
      n ← c_nodes (s_cluster (b_sys b)) !! i;
      entries ← Decode (list LogEntry) (Encode (GetSyncLog n 1));
      if bool_decide (c ∈ dom (g_send (b_gw b)) /\ b_replay b !! c = None) then
        Some (mkBoard (b_sys b) (b_gw b) (<[c := replay_messages entries]> (b_replay b))
                (b_fetched b ++ [(i, GetSyncLog n 1)]) (b_written b))
      else None
  | BoReplay c =>
      ms ← b_replay b !! c;
      match ms with
      | [] => None
      | m :: rest =>
          match gw_exec (GwSend c m) (b_gw b) with
          | Some (Ok g) =>
              let rest := if has_room (g_send (b_gw b)) c then rest else [] in
              Some (mkBoard (b_sys b) g (<[c := rest]> (b_replay b)) (b_fetched b) (b_written b))
          | _ => None
          end
      end
  end.

Fixpoint board_run (tr : list board_event) (b : Board) : option Board :=
  match tr with
  | [] => Some b
  | ev :: tr => b' ← board_exec ev b; board_run tr b'
  end.

(** The cluster's part of a trace. *)
Definition board_project (ev : board_event) : list event :=
  match ev with BoSystem ev => project ev | _ => [] end.

Definition board_cluster_trace (tr : list board_event) : list event := tr ≫= board_project.

(** ** Where messages come from *)

(** The message of an error, of a posted notification or of an entry that was
    read for a replay, as it came off the wire. *)
Definition origin (posted : list (string * CommitNotification)) (fetched : list (string * list LogEntry))
    (m : body) : Prop :=
  (exists msg, Marshal (error_message msg) = Some m) \/
  (exists i a a', (i, a) ∈ posted /\ Decode CommitNotification (Encode (body := body) a) = Some a' /\
     Marshal (stroke_message (cn_Stroke a')) = Some m) \/
  (exists i es es' e, (i, es) ∈ fetched /\ Decode (list LogEntry) (Encode (body := body) es) = Some es' /\
     e ∈ es' /\ Marshal (stroke_message (le_Stroke e)) = Some m).

Lemma origin_mono posted posted' fetched fetched' m :
  (forall x, x ∈ posted -> x ∈ posted') -> (forall x, x ∈ fetched -> x ∈ fetched') ->
  origin posted fetched m -> origin posted' fetched' m.
Proof.
  intros Hp Hf [?|[(i & a & a' & ? & ? & ?)|(i & es & es' & e & ? & ? & ? & ?)]].
  - by left.
  - right. left. exists i, a, a'. auto.
  - right. right. exists i, es, es', e. auto.
Qed.

(** The messages inside the gateway: in the broadcast channel or a client's. *)
Definition in_channels (st : gmap nat (chan body)) (m : body) : Prop :=
  exists c ch, st !! c = Some ch /\ m ∈ ch_buf ch.

Definition in_gateway (g : @Gateway body) (m : body) : Prop :=
  m ∈ h_broadcast (g_hub g) \/ in_channels (g_send g) m.

Lemma in_channels_insert st c ch m :
  in_channels (<[c := ch]> st) m -> m ∈ ch_buf ch \/ in_channels st m.
Proof.
  intros (d & ch' & [[-> ->]|[_ Hd]]%lookup_insert_Some & Hm); [by left|right]. by exists d, ch'.
Qed.

Lemma try_send_messages (ch ch' : chan body) x b m :
  try_send ch x = Ok (ch', b) -> m ∈ ch_buf ch' -> m ∈ ch_buf ch \/ m = x.
Proof.
  unfold try_send, offer. destruct (ch_closed ch); [done|]. case_bool_decide; intros [= <- <-]; simpl; [|by left].
  rewrite elem_of_app, list_elem_of_singleton. tauto.
Qed.

Lemma fanout_messages x order m : forall st slow st' slow',
  foldl (fanout_one x) (Ok (st, slow)) order = Ok (st', slow') ->
  in_channels st' m -> in_channels st m \/ m = x.
Proof.
  assert (forall order p, foldl (fanout_one x) (Panicked p) order = Panicked p) as Hp.
  { intros o p. induction o; [done|simpl; done]. }
  induction order as [|c order IH]; intros st slow st' slow' Hr Hm; simpl in Hr; [left; by simplify_eq|].
  destruct (st !! c) as [ch|] eqn:Hc; [|by eapply IH].
  destruct (try_send ch x) as [[ch' [|]]|p] eqn:Ht; [|by eapply IH|by rewrite Hp in Hr].
  destruct (IH _ _ _ _ Hr Hm) as [Hin|]; [|by right].
  apply in_channels_insert in Hin as [Hin|]; [|by left].
  destruct (try_send_messages _ _ _ _ _ Ht Hin); [left; by exists c, ch|by right].
Qed.

(** A message in the gateway after an event was there before, or came with it;
    a message written was there before. *)
Lemma gw_exec_messages ev g g' m :
  gw_exec ev g = Some (Ok g') -> in_gateway g' m ->
  in_gateway g m \/ (exists c, ev = GwSend c m) \/ ev = GwPublish m.
Proof.
  unfold in_gateway. intros He Hm.
  destruct ev as [c|c|c|c|x| |c x|c]; simpl in He.
  - case_bool_decide; simplify_eq/=. destruct Hm as [?|Hm]; [tauto|].
    apply in_channels_insert in Hm as [Hm|?]; [by apply elem_of_nil in Hm|tauto].
  - case_bool_decide; simplify_eq/=. tauto.
  - case_bool_decide; simplify_eq/=. tauto.
  - case_bool_decide; [|done]. destruct (run_unregister _ _ _) as [[h st]|p] eqn:Hr; simplify_eq/=.
    unfold run_unregister in Hr. case_bool_decide; [|simplify_eq/=; tauto].
    destruct (g_send g !! c) as [ch|] eqn:Hc; [|simplify_eq/=; tauto].
    unfold close_chan in Hr. destruct (ch_closed ch); simplify_eq/=. destruct Hm as [?|Hm]; [tauto|].
    apply in_channels_insert in Hm as [Hm|?]; [|tauto]. left. right. by exists c, ch.
  - simplify_eq/=. unfold Broadcast, offer in Hm. case_bool_decide; simpl in Hm; [|tauto].
    rewrite elem_of_app, list_elem_of_singleton in Hm. destruct Hm as [[?| ->]|?]; tauto.
  - destruct (h_broadcast (g_hub g)) as [|x rest] eqn:Hb; [done|].
    destruct (fanout x _ _) as [[st slow]|p] eqn:Hf; simplify_eq/=. left.
    destruct Hm as [Hm|Hm]; [left; by constructor|].
    destruct (fanout_messages _ _ _ _ _ _ _ Hf Hm) as [?| ->]; [by right|left; by constructor].
  - case_bool_decide; [|done]. destruct (g_send g !! c) as [ch|] eqn:Hc; [|done].
    destruct (try_send ch x) as [[ch' b]|p] eqn:Ht; simplify_eq/=. destruct Hm as [?|Hm]; [tauto|].
    apply in_channels_insert in Hm as [Hm|?]; [|tauto].
    destruct (try_send_messages _ _ _ _ _ Ht Hm) as [?| ->]; [left; right; by exists c, ch|eauto].
  - case_bool_decide; [|done]. destruct (g_send g !! c) as [ch|] eqn:Hc; [|done].
    destruct (write_message ch) as [[x ch']|] eqn:Hw; simplify_eq/=. destruct Hm as [?|Hm]; [tauto|].
    apply in_channels_insert in Hm as [Hm|?]; [|tauto].
    destruct (write_message_fields _ _ _ Hw) as (Hbuf & _). left. right. exists c, ch. rewrite Hbuf. split; [done|by right].
Qed.

Lemma written_messages c ev g m : m ∈ written c ev g -> in_gateway g m.
Proof.
  unfold written. destruct ev as [d|d|d|d|x| |d x|d]; try (by intros ?%elem_of_nil).
  case_bool_decide; [|by intros ?%elem_of_nil]. subst d.
  destruct (g_send g !! c) as [ch|] eqn:Hc; [|by intros ?%elem_of_nil].
  destruct (write_message ch) as [[x ch']|] eqn:Hw; simpl; [|by intros ?%elem_of_nil].
  destruct (write_message_fields _ _ _ Hw) as (Hbuf & _). intros ->%list_elem_of_singleton. right. exists c, ch.
  rewrite Hbuf. split; [done|by left].
Qed.

(** ** The invariant *)

(** A log read for a replay: the sync log of a replica at some moment. *)
Definition read_at (ctr : list event) (i : string) (es : list LogEntry) : Prop :=
  exists tr1 tr2 c1 n, ctr = tr1 ++ tr2 /\ run D tr1 (init D) = Some c1 /\ c_nodes c1 !! i = Some n /\
    es = GetSyncLog n 1.

Record board_ok (ctr : list event) (b : Board) : Prop := {
  bk_sys : sys_ok D ctr (b_sys b);
  bk_gateway : forall m, in_gateway (b_gw b) m -> origin (s_posted (b_sys b)) (b_fetched b) m;
  bk_written : forall c m, (c, m) ∈ b_written b -> origin (s_posted (b_sys b)) (b_fetched b) m;
  bk_replay : forall c ms m, b_replay b !! c = Some ms -> m ∈ ms -> origin (s_posted (b_sys b)) (b_fetched b) m;
  bk_fetched : forall i es, (i, es) ∈ b_fetched b -> read_at ctr i es;
}.

Lemma read_at_app ctr tr i es : read_at ctr i es -> read_at (ctr ++ tr) i es.
Proof.
  intros (tr1 & tr2 & c1 & n & -> & ? & ? & ?). exists tr1, (tr2 ++ tr), c1, n. by rewrite app_assoc.
Qed.

Lemma sys_exec_posted s s' ev x :
  sys_exec D ev s = Some s' -> x ∈ s_posted s -> x ∈ s_posted s'.
Proof.
  intros He Hx. destruct ev as [ev|i|i]; unfold sys_exec in He.
  - destruct (is_consume ev); [done|]. by apply bind_Some in He as (c & _ & [= <-]).
  - destruct (s_hand s !! i); [done|]. destruct (taken _ _ _) as [|e [|]]; try done.
    by apply bind_Some in He as (c & _ & [= <-]).
  - apply bind_Some in He as (n & _ & (e & _ & [= <-])%bind_Some). simpl. apply elem_of_app. by left.
Qed.

Lemma board_system_ok ctr b s ev :
  board_ok ctr b -> sys_exec D ev (b_sys b) = Some s ->
  board_ok (ctr ++ project ev) (mkBoard s (b_gw b) (b_replay b) (b_fetched b) (b_written b)).
Proof.
  intros [Hs Hg Hw Hr Hf] He. pose proof (fun x => sys_exec_posted _ _ _ x He) as Hsub. split; simpl.
  - by eapply sys_exec_ok.
  - intros m ?. eapply origin_mono; [done|done|by apply Hg].
  - intros c m ?. eapply origin_mono; [done|done|by eapply Hw].
  - intros c ms m ??. eapply origin_mono; [done|done|by eapply Hr].
  - intros i es ?. by apply read_at_app, Hf.
Qed.

(** A message handed to a client's channel. *)
Lemma board_send_ok ctr b c m g replay :
  board_ok ctr b -> origin (s_posted (b_sys b)) (b_fetched b) m -> gw_exec (GwSend c m) (b_gw b) = Some (Ok g) ->
  (forall d ms x, replay !! d = Some ms -> x ∈ ms -> origin (s_posted (b_sys b)) (b_fetched b) x) ->
  board_ok ctr (mkBoard (b_sys b) g replay (b_fetched b) (b_written b)).
Proof.
  intros [Hs Hg Hw Hr Hf] Hm He Hrep. split; simpl; try done.
  intros x Hx. destruct (gw_exec_messages _ _ _ _ He Hx) as [?|[(d & [= <- <-])|[=]]]; [by apply Hg|done].
Qed.

Lemma HandleCommit_hub (h : @Hub body) host (a : CommitNotification) data :
  Marshal a = Some data ->
  let h' := fst (HandleCommit h (mkRequest MethodPost host "/commit" [] (PJson data))) in
  forall m, m ∈ h_broadcast h' -> m ∈ h_broadcast h \/
    exists a', Decode CommitNotification (Encode (body := body) a) = Some a' /\ Marshal (stroke_message (cn_Stroke a')) = Some m.
Proof.
  intros Hd h' m. unfold h', HandleCommit, Encode. simpl. rewrite Hd. simpl.
  destruct (Unmarshal data) as [a'|] eqn:Hu; simpl; [|by left].
  destruct (Marshal (stroke_message (cn_Stroke a'))) as [x|] eqn:Hx; simpl; [|by left].
  unfold Broadcast, offer. case_bool_decide; simpl; [|by left].
  intros [?| ->%list_elem_of_singleton]%elem_of_app; [by left|right; eauto].
Qed.

Lemma board_exec_ok ctr b b' ev :
  board_ok ctr b -> board_exec ev b = Some b' -> board_ok (ctr ++ board_project ev) b'.
Proof.
  intros Hok He. destruct ev as [ev|k|ev|c msg|c i|c]; cbn [board_exec board_project] in *; rewrite ?app_nil_r.
  - apply bind_Some in He as (s & He & [= <-]). by apply board_system_ok.
  - apply bind_Some in He as ([i a] & Hk & He). apply bind_Some in He as (data & Hd & [= <-]).
    apply list_elem_of_lookup_2 in Hk. destruct Hok as [Hs Hg Hw Hr Hf]. split; simpl; try done.
    intros m [Hm|Hm]; [|apply Hg; by right]. simpl in Hm.
    destruct (HandleCommit_hub _ _ _ _ Hd m Hm) as [?|(a' & ? & ?)]; [apply Hg; by left|].
    right. left. by exists i, a, a'.
  - destruct (is_internal ev) eqn:Hi; [|done]. destruct (gw_exec ev (b_gw b)) as [[g|p]|] eqn:Hg'; simplify_eq.
    destruct Hok as [Hs Hg Hw Hr Hf]. split; simpl; try done.
    + intros m Hm. destruct (gw_exec_messages _ _ _ _ Hg' Hm) as [?|[(d & ->)| ->]]; [by apply Hg|done..].
    + intros c m [?|Hm]%elem_of_app; [by eapply Hw|]. apply Hg.
      destruct ev as [d|d|d|d|x| |d x|d]; try (by apply elem_of_nil in Hm).
      apply list_elem_of_fmap in Hm as (y & [= -> ->] & Hy). by eapply written_messages.
  - apply bind_Some in He as (m & Hm & He). destruct (gw_exec _ _) as [[g|p]|] eqn:Hg'; simplify_eq.
    eapply board_send_ok; [done| |done|apply Hok]. left. by exists msg.
  - apply bind_Some in He as (n & Hn & He). apply bind_Some in He as (es & Hes & He).
    case_bool_decide; simplify_eq. destruct Hok as [Hs Hg Hw Hr Hf].
    assert (forall x, x ∈ b_fetched b -> x ∈ b_fetched b ++ [(i, GetSyncLog n 1)]) as Hsub.
    { intros x ?. apply elem_of_app. by left. }
    split; simpl; [done| | | |].
    + intros m ?. by eapply origin_mono; [| |apply Hg].
    + intros d m ?. by eapply origin_mono; [| |eapply Hw].
    + intros d ms m [[<- <-]|[_ ?]]%lookup_insert_Some Hm; [|by eapply origin_mono; [| |eapply Hr]].
      apply list_elem_of_omap in Hm as (e & He & Hm). right. right. exists i, (GetSyncLog n 1), es, e.
      split_and!; [apply elem_of_app; right; by constructor|done..].
    + intros j es' [?|[= -> ->]%list_elem_of_singleton]%elem_of_app; [by apply Hf|].
      exists ctr, [], (s_cluster (b_sys b)), n. rewrite app_nil_r. split_and!; try done. apply Hs.
  - apply bind_Some in He as (ms & Hms & He). destruct ms as [|m rest]; [done|].
    destruct (gw_exec _ _) as [[g|p]|] eqn:Hg'; simplify_eq.
    eapply board_send_ok; [done| |done|]; [eapply (bk_replay _ _ Hok); [done|by constructor]|].
    intros d ms x [[<- <-]|[_ ?]]%lookup_insert_Some Hx; [|by eapply (bk_replay _ _ Hok)].
    destruct (has_room _ c); [|by apply elem_of_nil in Hx].
    eapply (bk_replay _ _ Hok); [done|by constructor].
Qed.

Lemma board_run_ok tr : forall ctr b b',
  board_ok ctr b -> board_run tr b = Some b' -> board_ok (ctr ++ board_cluster_trace tr) b'.
Proof.
  induction tr as [|ev tr IH]; intros ctr b b' Hok Hr; simpl in *.
  - simplify_eq. unfold board_cluster_trace. simpl. by rewrite app_nil_r.
  - apply bind_Some in Hr as (b1 & He & Hr). unfold board_cluster_trace. simpl. rewrite app_assoc.
    eapply IH; [|done]. by eapply board_exec_ok.
Qed.

Lemma board_init_ok : board_ok [] board_init.
Proof.
  split; simpl.
  - split; simpl; [done|by intros ?? ?%lookup_empty_Some|by intros ?? ?%elem_of_nil].
  - intros m [Hm|(c & ch & Hc & _)]; [by apply elem_of_nil in Hm|].
    simpl in Hc. by rewrite lookup_empty in Hc.
  - by intros ?? ?%elem_of_nil.
  - by intros ??? ?%lookup_empty_Some.
  - by intros ?? ?%elem_of_nil.
Qed.

(** ** What was committed at one moment is agreed at every later one *)

Lemma committed_later tr1 tr2 c1 c2 i n e :
  short (tr1 ++ tr2) -> run D tr1 (init D) = Some c1 -> run D tr2 c1 = Some c2 ->
  c_nodes c1 !! i = Some n -> e ∈ drop 1 (committed_prefix n) -> e ∈ agreed c2.
Proof.
  unfold short. rewrite length_app. intros Hs H1 H2 Hi He.
  destruct (run_keeps D tr1 0 _ _ _ (Inv_init D) ltac:(lia) H1) as (h1 & _ & HI1).
  destruct (run_keeps D tr2 _ _ _ _ HI1 ltac:(lia) H2) as (h2 & _ & HI2).
  destruct (run_grows D tr2 _ _ _ _ _ _ HI1 ltac:(lia) H2 Hi) as (n' & Hn' & Hg).
  apply grows_committed in Hg as [l1 E1]. destruct (committed_agreed D _ _ _ _ _ HI2 Hn') as [l2 E2].
  apply list_elem_of_lookup in He as [x Hx]. rewrite lookup_drop in Hx.
  apply (list_elem_of_lookup_2 _ x). change (agreed c2 !! x) with ((mkLogEntry 0 0 zeroStroke :: agreed c2) !! (1 + x)%nat).
  rewrite E2, E1. rewrite !lookup_app_l; [done| |].
  - by eapply lookup_lt_Some.
  - rewrite length_app. apply lookup_lt_Some in Hx. lia.
Qed.

(** A sync log from 1 on holds committed entries. *)
Lemma sync_committed tr1 tr2 c i n e :
  short (tr1 ++ tr2) -> run D tr1 (init D) = Some c -> c_nodes c !! i = Some n -> e ∈ GetSyncLog n 1 ->
  e ∈ drop 1 (committed_prefix n).
Proof.
  unfold short. rewrite length_app. intros Hs Hr Hi.
  destruct (run_keeps D tr1 0 _ _ _ (Inv_init D) ltac:(lia) Hr) as (h & _ & HI).
  pose proof (inv_nodes _ _ _ _ HI _ _ Hi) as Hn. pose proof (no_commit _ _ _ _ _ _ _ Hn).
  rewrite GetSyncLog_committed; [by rewrite bool_decide_false by lia| |lia].
  intros x y Hx. apply (proj2 (lok_wf _ _ _ (no_log _ _ _ _ _ _ _ Hn)) _ _ Hx).
Qed.

Lemma agreed_submitted tr c e :
  short tr -> run D tr (init D) = Some c -> e ∈ agreed c -> le_Stroke e ∈ submitted D tr (init D).
Proof.
  intros Hs Hr He. destruct (reach_one D tr c Hs Hr) as (k & h & HI).
  pose proof (run_sourced D [] tr _ _ (init_sourced D) Hr) as HS. simpl in HS.
  assert (exists i n, c_nodes c !! i = Some n) as Hne.
  { destruct (decide (c_nodes c = ∅)) as [Hz|Hz]; [|apply map_choose in Hz as (i & n & ?); eauto].
    unfold agreed in He. rewrite Hz, fmap_empty, map_fold_empty in He. by apply elem_of_nil in He. }
  destruct (agreed_sourced D _ _ _ _ HI Hne HS) as [Hall _]. by apply (proj1 (list.Forall_forall _ _) Hall).
Qed.

(** The entries of a run are small enough for JSON. *)
Definition carried (e : LogEntry) : Prop := fits_int (le_Index e) /\ fits_int (le_Term e).

Lemma entries_carried tr c i n e :
  short tr -> run D tr (init D) = Some c -> c_nodes c !! i = Some n -> e ∈ committed_prefix n -> carried e.
Proof.
  unfold short. intros Hs Hr Hi He.
  destruct (run_keeps D tr 0 _ _ _ (Inv_init D) ltac:(lia) Hr) as (h & _ & HI).
  pose proof (run_sized D tr 0 _ _ _ (Inv_init D) ltac:(lia) ltac:(lia) (init_sized D) Hr) as Hsz.
  pose proof (inv_nodes _ _ _ _ HI _ _ Hi) as Hn. pose proof (no_term _ _ _ _ _ _ _ Hn).
  apply list_elem_of_lookup in He as [x [Hx _]%lookup_take_Some].
  pose proof (no_log _ _ _ _ _ _ _ Hn) as Hlog. pose proof (lok_terms _ _ _ Hlog _ _ Hx).
  destruct (lok_wf _ _ _ Hlog) as [Hz Hwf]. destruct (Hwf _ _ Hx) as [Hidx Hpos].
  pose proof (sz_logs _ _ Hsz _ _ Hi) as Hlen. pose proof (lookup_lt_Some _ _ _ Hx). unfold len in Hlen.
  unfold carried, fits_int. split; [lia|]. split; [|lia].
  destruct x; [|specialize (Hpos ltac:(lia)); lia]. rewrite Hz in Hx. injection Hx as <-. done.
Qed.

(** What a written message shows, for an encoding that carries the entries of
    a run whose strokes are [clean]. *)
Lemma written_committed (clean : StrokeEvent -> Prop) tr b c m :
  (forall e, carried e -> clean (le_Stroke e) -> wire (notification_of e)) ->
  (forall es : list LogEntry, Forall (fun e => carried e /\ clean (le_Stroke e)) es -> wire es) ->
  short (board_cluster_trace tr) -> Forall clean (submitted D (board_cluster_trace tr) (init D)) ->
  board_run tr board_init = Some b -> (c, m) ∈ b_written b ->
  (exists msg, Marshal (error_message msg) = Some m) \/
  exists e, e ∈ agreed (s_cluster (b_sys b)) /\ le_Stroke e ∈ submitted D (board_cluster_trace tr) (init D) /\
    Marshal (stroke_message (le_Stroke e)) = Some m.
Proof.
  intros Hwa Hwe Hs Hclean Hr Hm. pose proof (board_run_ok tr [] _ _ board_init_ok Hr) as [Hsys _ Hw _ Hf].
  simpl in *. set (ctr := board_cluster_trace tr) in *. rewrite list.Forall_forall in Hclean.
  pose proof (so_run _ _ _ Hsys) as Hrun. destruct (Hw c m Hm) as [?|[(i & a & a' & Ha & Hd & Hx)|(i & es & es' & e & Hes & Hd & He & Hx)]];
    [by left|right..].
  - destruct (so_posted _ _ _ Hsys _ _ Ha) as (e & He & ->).
    destruct (consumed_committed D _ _ _ _ Hs Hrun He) as (n & Hn & Hpos & Hp).
    assert (e ∈ agreed (s_cluster (b_sys b))) as Hag.
    { eapply (committed_later ctr []); [by rewrite app_nil_r|done|done|done|].
      apply (list_elem_of_lookup_2 _ (Z.to_nat (le_Index e) - 1)). rewrite lookup_drop. rewrite <- Hp. f_equal. lia. }
    pose proof (agreed_submitted _ _ _ Hs Hrun Hag) as Hsub.
    assert (wire (notification_of e)) as Hwire.
    { apply Hwa; [|by apply Hclean]. eapply (entries_carried ctr); [done..|]. by eapply list_elem_of_lookup_2. }
    rewrite Decode_Encode in Hd by exact Hwire. injection Hd as <-. by exists e.
  - destruct (Hf _ _ Hes) as (tr1 & tr2 & c1 & n & Htr & H1 & Hi & ->).
    assert (run D tr2 c1 = Some (s_cluster (b_sys b))) as H2.
    { pose proof Hrun as Hrun'. rewrite Htr, run_app, H1 in Hrun'. exact Hrun'. }
    assert (forall x, x ∈ GetSyncLog n 1 -> x ∈ drop 1 (committed_prefix n)) as Hsync.
    { intros x Hx'. eapply (sync_committed tr1 tr2 c1 i); [by rewrite <- Htr|done..]. }
    assert (forall x, x ∈ GetSyncLog n 1 -> x ∈ agreed (s_cluster (b_sys b))) as Hall.
    { intros x Hx'. eapply (committed_later tr1 tr2); try done; [by rewrite <- Htr|]. by apply Hsync. }
    assert (wire (GetSyncLog n 1)) as Hwire.
    { apply Hwe, list.Forall_forall. intros x Hx'. split; [|eapply Hclean, agreed_submitted; eauto].
      eapply (entries_carried tr1); [|done|done|eapply subseteq_drop, Hsync, Hx'].
      unfold short in *. rewrite Htr, length_app in Hs. lia. }
    rewrite (Decode_Encode _ Hwire) in Hd. injection Hd as <-. exists e.
    split_and!; [by apply Hall|by eapply agreed_submitted, Hall|done].
Qed.
End board.

(** ** The property *)

Section shown.
Context `{JT : JsonText}.
Context (D : Deployment) {WD : WellDeployed D}.

Lemma notification_ok e : carried e -> drawable (le_Stroke e) -> ok commit_codec (notification_of e).
Proof.
  intros [Hi Ht] Hd. apply list.Forall_cons_2; [by apply drawable_ok|].
  repeat (apply list.Forall_cons_2; [by apply fits_int_ok|]). apply list.Forall_nil_2.
Qed.

Lemma log_ok_wire es : Forall (fun e => carried e /\ drawable (le_Stroke e)) es -> ok (slice_codec entry_codec) es.
Proof. intros H. eapply list.Forall_impl; [exact H|]. intros e [[? ?] ?]. apply entry_ok; [done|done|by apply drawable_ok]. Qed.

(** C6: (what a browser shows) with the program's own JSON: every message that
    is ever written to a browser is an error message, or the browser reads it
    as the message of a stroke that a leader accepted and that has its place
    in the agreed log, whatever is lost, delayed or repeated and whoever
    leads.  The strokes accepted have finite numbers and valid text. *)
Theorem board_shows_committed tr b c m :
  short (board_cluster_trace tr) -> Forall drawable (submitted D (board_cluster_trace tr) (init D)) ->
  board_run (body := json) D tr (board_init D) = Some b -> (c, m) ∈ b_written b ->
  (exists msg, enc_message (error_message msg) = Some m) \/
  exists e, e ∈ agreed (s_cluster (b_sys b)) /\ le_Stroke e ∈ submitted D (board_cluster_trace tr) (init D) /\
    enc_message (stroke_message (le_Stroke e)) = Some m /\ read_message m = Some (stroke_message (le_Stroke e)).
Proof.
  intros Hs Hd Hr Hm. destruct (written_committed (body := json) D drawable tr b c m) as [?|(e & Ha & He & Hx)]; try done.
  - apply notification_ok.
  - apply log_ok_wire.
  - by left.
  - right. exists e. split_and!; [done|done|done|]. rewrite list.Forall_forall in Hd.
    destruct (read_enc_message (stroke_message (le_Stroke e))) as (j & Hj & Hread).
    { split; [by vm_compute|]. split; [done|]. by apply drawable_ok, Hd. }
    change (enc_message (stroke_message (le_Stroke e)) = Some m) in Hx. congruence.
Qed.
End shown.

Module BoardRuns.
Import Decimal NotifierRuns.
Open Scope string_scope.

(** A browser connects; its stroke is committed and announced by node1, and
    written to it; its replay then reads node2. *)
Definition drawing : list (@board_event json) :=
  ([BoGateway (GwConnect 0); BoGateway (GwRegister 0)] ++ map BoSystem failover ++
   [BoNotify 0; BoGateway GwFanout; BoGateway (GwWrite 0); BoFetch 0 "node2"; BoReplay 0; BoGateway (GwWrite 0)])%list.

(** The message of [stroke1] as it is written. *)
Definition message1 : json := default JNull (enc_message (stroke_message stroke1)).

Lemma drawing_written :
  b_written <$> board_run (body := json) trio drawing (board_init trio) = Some [(0%nat, message1); (0%nat, message1)].
Proof. vm_compute. reflexivity. Qed.

Lemma board_shows_committed_witness :
  exists b, board_run (body := json) trio drawing (board_init trio) = Some b /\ (0%nat, message1) ∈ b_written b /\
    ((exists msg, enc_message (error_message msg) = Some message1) \/
     exists e, e ∈ agreed (s_cluster (b_sys b)) /\ le_Stroke e ∈ [stroke1] /\
       enc_message (stroke_message (le_Stroke e)) = Some message1 /\ read_message message1 = Some (stroke_message (le_Stroke e))).
Proof.
  pose proof drawing_written as Hv.
  destruct (board_run (body := json) trio drawing (board_init trio)) as [b|] eqn:Hr; [|discriminate Hv].
  injection Hv as Hv. exists b. split; [reflexivity|].
  assert ((0%nat, message1) ∈ b_written b) as Hin by (rewrite Hv; constructor).
  split; [exact Hin|].
  pose proof (board_shows_committed trio drawing b 0 message1) as H.
  assert (submitted trio (board_cluster_trace drawing) (init trio) = [stroke1]) as Hsub by (vm_compute; reflexivity).
  rewrite Hsub in H. apply H; [by vm_compute| |exact Hr|exact Hin].
  apply (bool_decide_unpack _). vm_compute. exact I.
Defined.
End BoardRuns.
