(* ===== verification/Startup.v ===== *)
(** * Startup: from the environment to the running parts

    What the two [main] functions refuse and what they start: a replica from
    any environment (its [main] is in Deploy), the gateway, and the services
    of a compose file together. *)

From Stdlib Require Import ZArith Lia Ascii String.
From stdpp Require Import base list strings gmap option.
From S2P Require Import Prelude Types RaftLog Node Addrs Cluster Deploy Tracker.
Open Scope list_scope.

(** ** The gateway *)

Record Gateway_process : Type := mkGateway_process {
  gp_addr : string;
  gp_tracker : Tracker;
}.

Definition gateway_main (env : Env) : string + Gateway_process :=
  let replicaAddrs := Getenv env "REPLICA_ADDRS" in
  let port := with_default (Getenv env "PORT") "8080" in
  if bool_decide (replicaAddrs = EmptyString) then inl "REPLICA_ADDRS is required"%string
  else inr (mkGateway_process (listen_addr port) (NewTracker (split_string Gateway.splitAddrs replicaAddrs))).

(** The gateway of docker-compose.yml. *)
Definition compose_gateway : Env :=
  [("PORT", "8080"); ("REPLICA_ADDRS", "replica1:9001,replica2:9002,replica3:9003,replica4:9004")]%string.

(** ** Properties *)

Lemma length_zero_nil {A} (l : list A) : length l = 0%nat <-> l = [].
Proof. by destruct l. Qed.

(** (a replica's start) a replica starts exactly when NODE_ID and
    GATEWAY_ADDR are set and PEER_ADDRS holds an address; otherwise it exits
    with the first missing variable.  It starts as a follower of term 0 with
    an empty log, and all its peers are well-formed addresses. *)
Theorem replica_main_spec env :
  let peers := split_string Replica.splitAddrs (Getenv env "PEER_ADDRS") in
  match replica_main env with
  | inr p => Getenv env "NODE_ID" <> EmptyString /\ peers <> [] /\ Getenv env "GATEWAY_ADDR" <> EmptyString /\
      rp_addr p <> ":"%string /\ n_id (rp_node p) = Getenv env "NODE_ID" /\ n_peers (rp_node p) = peers /\
      Forall good_addr peers /\ n_state (rp_node p) = Follower /\ n_currentTerm (rp_node p) = 0%Z /\
      n_votedFor (rp_node p) = EmptyString /\ Log.entries (n_log (rp_node p)) = [zeroEntry] /\ n_commitIndex (rp_node p) = 0%Z
  | inl err =>
      (Getenv env "NODE_ID" = EmptyString /\ err = "invalid configuration: NODE_ID is required"%string) \/
      (Getenv env "NODE_ID" <> EmptyString /\ peers = [] /\ err = "invalid configuration: PEER_ADDRS is required"%string) \/
      (Getenv env "NODE_ID" <> EmptyString /\ peers <> [] /\ Getenv env "GATEWAY_ADDR" = EmptyString /\
       err = "invalid configuration: GATEWAY_ADDR is required"%string)
  end.
Proof.
  intros peers. unfold replica_main, Validate, replica_config. simpl. fold peers.
  case_bool_decide as H1; [by left|]. case_bool_decide as H2; [right; left; by rewrite <- length_zero_nil|].
  case_bool_decide as H3; [right; right; by rewrite <- length_zero_nil|]. simpl.
  rewrite <- length_zero_nil. split_and!; try done.
  - unfold listen_addr, with_default. case_bool_decide as Hp; [done|]. intros Hq. apply Hp. by injection Hq.
  - apply split_string_good, replica_clean.
Qed.

(** C29: (a deployment starts) let a compose file give its replicas distinct
    node IDs and addresses, and to each the addresses of all the others, in
    some order, as a comma-separated list; and to the gateway the addresses of
    all.  Then every replica starts and listens where its peers and the
    gateway look for it, the nodes are the initial state of the deployment
    that the file describes, which is well formed - the assumption of every
    theorem on runs - and the gateway tracks every replica and knows no
    leader. *)
Theorem services_start services gateway addrs :
  well_composed services ->
  Getenv gateway "REPLICA_ADDRS" = join_addrs addrs -> addrs ≡ₚ map sv_addr services ->
  WellDeployed (deploy services) /\
  started services = c_nodes (init (deploy services)) /\
  (forall s, s ∈ services -> exists p, replica_main (sv_env s) = inr p /\
     String.append (sv_hostname s) (rp_addr p) = sv_addr s /\
     d_host (deploy services) (sv_addr s) = n_id (rp_node p)) /\
  exists g, gateway_main gateway = inr g /\ LeaderAddr (gp_tracker g) = EmptyString /\
    map (d_host (deploy services)) (t_replicaAddrs (gp_tracker g)) ≡ₚ map sv_id services.
Proof.
  intros Hwc Hgw Haddrs. split_and!.
  - by apply deploy_well.
  - by apply started_init.
  - intros s Hs. destruct (service_starts services Hwc s Hs) as (p & Hp & Hn & Ha). exists p.
    split_and!; [done|done|]. rewrite Hn. simpl. by apply resolve_addr; [apply Hwc|].
  - assert (Forall good_addr addrs) as Hgood by (rewrite Haddrs; apply Hwc).
    assert (join_addrs addrs <> EmptyString) as Hne.
    { intros Hz. destruct (split_join addrs Hgood) as [Hs _]. rewrite Hz in Hs.
      pose proof (wc_two _ Hwc) as H2. apply Permutation_length in Haddrs. rewrite <- Hs, length_map in Haddrs.
      change (0 = length services)%nat in Haddrs. lia. }
    unfold gateway_main. rewrite Hgw, bool_decide_false by done. eexists. split_and!; [done|done|].
    simpl. destruct (split_join addrs Hgood) as [-> _]. rewrite Haddrs. by rewrite resolve_all.
Qed.

(** docker-compose.yml. *)
Lemma services_start_witness :
  WellDeployed compose /\ started compose_replicas = c_nodes (init compose) /\
  exists g, gateway_main compose_gateway = inr g /\
    map (d_host compose) (t_replicaAddrs (gp_tracker g)) ≡ₚ ["node1"; "node2"; "node3"; "node4"]%string.
Proof.
  destruct (services_start compose_replicas compose_gateway (map sv_addr compose_replicas)) as (Hw & Hs & _ & g & Hg & _ & Ht).
  - exact compose_composed.
  - vm_compute. reflexivity.
  - reflexivity.
  - split; [exact Hw|]. split; [exact Hs|]. exists g. split; [exact Hg|exact Ht].
Defined.
