(* ===== verification/Process.v ===== *)
(** * Process: starting, serving and shutting down

    The main goroutine of a service, the goroutine that waits for a signal,
    and the [http.Server] they share, for both services: they differ in what
    the signal handler does before it shuts the server down.  [net/http]:
    [ListenAndServe] blocks until the listener is closed, [Shutdown] closes it
    at once and then waits for the requests in progress or its deadline. *)

From Stdlib Require Import ZArith Lia.
From stdpp Require Import base list strings option.
From S2P Require Import Prelude Types RaftLog Node.
Open Scope list_scope.

(** ** The services *)

(** What [ListenAndServe] returns. *)
Inductive serve_error : Type :=
| ErrServerClosed
| ListenError (msg : string).

(** [Server.Start] of either service: [None] on a graceful shutdown. *)
Definition Start (name : string) (err : serve_error) : option string :=
  match err with
  | ErrServerClosed => None
  | ListenError msg => Some (String.append name (String.append " server: " msg))
  end.

(** The steps of the goroutine that has received the signal. *)
Inductive action : Type :=
| ActCancel
| ActStop
| ActShutdown.

#[export] Instance action_eq_dec : EqDecision action.
Proof. solve_decision. Defined.

Definition replica_shutdown : list action := [ActCancel; ActStop; ActShutdown].
Definition gateway_shutdown : list action := [ActCancel; ActShutdown].

Inductive main_pc : Type :=
| MainServing
| MainExited (code : Z)
| MainPanicked (p : panic).

Inductive sig_pc : Type :=
| SigWait
| SigRun (todo : list action)
| SigShutdown
| SigDone.

#[export] Instance main_pc_eq_dec : EqDecision main_pc.
Proof. solve_decision. Defined.

#[export] Instance sig_pc_eq_dec : EqDecision sig_pc.
Proof. solve_decision. Defined.

Record Process : Type := mkProcess {
  pr_main : main_pc;
  pr_sig : sig_pc;
  pr_cancelled : bool;
  pr_node : Node;
  pr_listening : bool;
  pr_inflight : list nat;
}.

Definition process_init (n : Node) : Process := mkProcess MainServing SigWait false n true [].

Inductive proc_event : Type :=
| PrListenFails (msg : string)
| PrAccept (r : nat)
| PrFinish (r : nat)
| PrSignal
| PrAct
| PrShutdownReturns
| PrShutdownDeadline
| PrMainReturns.

Section process.
(** The service's name in its errors and its shutdown steps. *)
Context (name : string) (shutdown : list action).

(** [log.Fatalf] exits with code 1; a return from [main] exits with code 0,
    after the deferred [cancel()], whatever the other goroutines do. *)
Definition main_exit (err : serve_error) (p : Process) : Process :=
  match Start name err with
  | Some _ => mkProcess (MainExited 1) (pr_sig p) (pr_cancelled p) (pr_node p) (pr_listening p) (pr_inflight p)
  | None => mkProcess (MainExited 0) (pr_sig p) true (pr_node p) (pr_listening p) (pr_inflight p)
  end.

(** One call of the signal goroutine.  [Shutdown] has closed the listener when
    it starts to wait for the requests in progress ([SigShutdown]); that it
    returns, or meets its deadline, is an event of its own. *)
Definition act (a : action) (todo : list action) (p : Process) : Process :=
  match a with
  | ActCancel => mkProcess (pr_main p) (SigRun todo) true (pr_node p) (pr_listening p) (pr_inflight p)
  | ActStop =>
      match Stop (pr_node p) with
      | Ok n => mkProcess (pr_main p) (SigRun todo) (pr_cancelled p) n (pr_listening p) (pr_inflight p)
      | Panicked e => mkProcess (MainPanicked e) SigDone (pr_cancelled p) (pr_node p) (pr_listening p) (pr_inflight p)
      end
  | ActShutdown => mkProcess (pr_main p) SigShutdown (pr_cancelled p) (pr_node p) false (pr_inflight p)
  end.

Definition set_sig (s : sig_pc) (p : Process) : Process :=
  mkProcess (pr_main p) s (pr_cancelled p) (pr_node p) (pr_listening p) (pr_inflight p).
Definition set_inflight (l : list nat) (p : Process) : Process :=
  mkProcess (pr_main p) (pr_sig p) (pr_cancelled p) (pr_node p) (pr_listening p) l.

(** One event; nothing happens in a process that has exited.  The signal
    channel is read once: a second signal is not handled. *)
Definition proc_exec (ev : proc_event) (p : Process) : option Process :=
  if negb (bool_decide (pr_main p = MainServing)) then None
  else match ev with
  | PrListenFails msg => if pr_listening p then Some (main_exit (ListenError msg) p) else None
  | PrAccept r =>
      if pr_listening p && bool_decide (r ∉ pr_inflight p) then Some (set_inflight (r :: pr_inflight p) p) else None
  | PrFinish r =>
      if bool_decide (r ∈ pr_inflight p) then Some (set_inflight (filter (fun x => x <> r) (pr_inflight p)) p) else None
  | PrSignal => match pr_sig p with SigWait => Some (set_sig (SigRun shutdown) p) | _ => None end
  | PrAct => match pr_sig p with SigRun (a :: todo) => Some (act a todo p) | _ => None end
  | PrShutdownReturns =>
      match pr_sig p with SigShutdown => if bool_decide (pr_inflight p = []) then Some (set_sig SigDone p) else None | _ => None end
  | PrShutdownDeadline => match pr_sig p with SigShutdown => Some (set_sig SigDone p) | _ => None end
  | PrMainReturns => if pr_listening p then None else Some (main_exit ErrServerClosed p)
  end.

Fixpoint proc_run (tr : list proc_event) (p : Process) : option Process :=
  match tr with
  | [] => Some p
  | ev :: tr => p ← proc_exec ev p; proc_run tr p
  end.

(** ** The order of a shutdown *)

(** What the steps done so far have achieved; [rest] are those left. *)
Record progressed (rest : list action) (p : Process) : Prop := {
  pg_rest : exists done, shutdown = done ++ rest /\
    (pr_cancelled p = true <-> ActCancel ∈ done) /\
    (n_stopCh_closed (pr_node p) = true <-> ActStop ∈ done) /\
    (pr_listening p = false <-> ActShutdown ∈ done);
}.

(** Each step occurs once, and the server is shut down last. *)
Context (Honce : NoDup shutdown) (Hcancel : ActCancel ∈ shutdown) (Hlast : exists l, shutdown = l ++ [ActShutdown]).

Definition proc_ok (p : Process) : Prop :=
  match pr_main p with
  | MainServing =>
      match pr_sig p with
      | SigWait => progressed shutdown p
      | SigRun todo => todo <> [] /\ progressed todo p
      | SigShutdown | SigDone => progressed [] p
      end
  | MainExited code => code = 0%Z -> progressed [] p
  | MainPanicked _ => False
  end.

Lemma init_ok n : n_stopCh_closed n = false -> proc_ok (process_init n).
Proof.
  intros Hn. simpl. split. exists []. simpl. rewrite Hn.
  split_and!; try done; split; try done; by intros ?%elem_of_nil.
Qed.

Lemma progressed_fields rest p p' :
  progressed rest p -> pr_cancelled p' = pr_cancelled p -> pr_node p' = pr_node p -> pr_listening p' = pr_listening p ->
  progressed rest p'.
Proof. intros [(done & Hd & Hc & Hs & Hl)] E1 E2 E3. split. exists done. by rewrite E1, E2, E3. Qed.

(** The last step is the only one that closes the listener. *)
Lemma closed_all rest p : progressed rest p -> pr_listening p = false -> rest = [].
Proof.
  intros [(don & Hd & _ & _ & Hl)] Hcl. apply Hl in Hcl. destruct rest as [|a rest] using rev_ind; [done|].
  destruct Hlast as [l Hs]. rewrite Hd, app_assoc in Hs. apply app_inj_tail in Hs as [_ ->].
  rewrite Hd, app_assoc in Honce. apply list.NoDup_app in Honce as (_ & Hdis & _).
  destruct (Hdis ActShutdown); [apply elem_of_app; by left|by left].
Qed.

Lemma act_ok a todo p :
  progressed (a :: todo) p -> pr_main p = MainServing -> proc_ok (act a todo p).
Proof.
  intros [(don & Hd & Hc & Hs & Hl)] Hm.
  assert (a ∉ don) as Hnew.
  { intros Hin. rewrite Hd in Honce. apply list.NoDup_app in Honce as (_ & Hdis & _). by apply (Hdis a Hin); left. }
  assert (forall p', pr_main p' = MainServing ->
    (pr_cancelled p' = true <-> ActCancel ∈ don ++ [a]) -> (n_stopCh_closed (pr_node p') = true <-> ActStop ∈ don ++ [a]) ->
    (pr_listening p' = false <-> ActShutdown ∈ don ++ [a]) -> progressed todo p') as Hp.
  { intros p' _ H1 H2 H3. split. exists (don ++ [a]). by rewrite <- app_assoc. }
  assert (forall b, b ∈ don ++ [a] <-> b ∈ don \/ b = a) as Hin by (intros; rewrite elem_of_app, list_elem_of_singleton; done).
  assert (a <> ActShutdown -> todo <> []) as Hmore.
  { intros Ha ->. destruct Hlast as [l Hl']. rewrite Hd in Hl'. by apply app_inj_tail in Hl' as [_ ->]. }
  setoid_rewrite Hin in Hp. unfold proc_ok. destruct a; simpl.
  - rewrite Hm. split; [by apply Hmore|]. apply Hp; simpl; try done; intuition congruence.
  - unfold Stop. destruct (n_stopCh_closed (pr_node p)) eqn:Hst; [by destruct Hnew; apply Hs|].
    simpl. rewrite Hm. split; [by apply Hmore|]. apply Hp; simpl; try done; intuition congruence.
  - rewrite Hm. assert (todo = []) as ->; [|apply Hp; simpl; try done; intuition congruence].
    destruct todo as [|b todo] using rev_ind; [done|]. destruct Hlast as [l Hl'].
    rewrite Hd, app_comm_cons, app_assoc in Hl'. apply app_inj_tail in Hl' as [_ ->].
    rewrite Hd in Honce. apply list.NoDup_app in Honce as (_ & _ & [Hz _]%list.NoDup_cons).
    destruct Hz. apply elem_of_app. right. by left.
Qed.

Lemma proc_exec_ok ev p p' : proc_ok p -> proc_exec ev p = Some p' -> proc_ok p'.
Proof.
  unfold proc_exec. intros Hok He. destruct (decide (pr_main p = MainServing)) as [Hm|]; [|by rewrite bool_decide_false in He].
  rewrite bool_decide_true in He by done. simpl in He. unfold proc_ok in Hok. rewrite Hm in Hok.
  assert (forall q, pr_main q = MainServing -> pr_sig q = pr_sig p -> pr_cancelled q = pr_cancelled p ->
    pr_node q = pr_node p -> pr_listening q = pr_listening p -> proc_ok q) as Hsame.
  { intros q E0 E1 E2 E3 E4. unfold proc_ok. rewrite E0, E1. destruct (pr_sig p); intuition; by eapply progressed_fields. }
  destruct ev.
  - destruct (pr_listening p); [|done]. injection He as <-. unfold main_exit, proc_ok. by simpl.
  - destruct (_ && _); [|done]. injection He as <-. by apply Hsame.
  - case_bool_decide; [|done]. injection He as <-. by apply Hsame.
  - destruct (pr_sig p); try done. injection He as <-. unfold proc_ok. simpl. rewrite Hm. split; [|by eapply progressed_fields].
    intros Hz. rewrite Hz in Hcancel. by apply elem_of_nil in Hcancel.
  - destruct (pr_sig p) as [|[|a todo]| |]; try done. injection He as <-. apply act_ok; [apply Hok|done].
  - destruct (pr_sig p); try done. case_bool_decide; [|done]. injection He as <-. unfold proc_ok. simpl. rewrite Hm.
    by eapply progressed_fields.
  - destruct (pr_sig p); try done. injection He as <-. unfold proc_ok. simpl. rewrite Hm. by eapply progressed_fields.
  - destruct (pr_listening p) eqn:Hl; [done|]. injection He as <-. unfold main_exit, proc_ok. simpl. intros _.
    assert (progressed [] p) as [(don & Hd & Hc & Hs & Hl')].
    { destruct (pr_sig p); try done; [|destruct Hok as [_ Hok]]; by rewrite (closed_all _ _ Hok Hl) in Hok. }
    split. exists don. simpl. split_and!; try done. split; [|done]. intros _. rewrite app_nil_r in Hd. by rewrite <- Hd.
Qed.

Lemma proc_run_ok tr p p' : proc_ok p -> proc_run tr p = Some p' -> proc_ok p'.
Proof.
  revert p. induction tr as [|ev tr IH]; simpl; intros p Hok; [by intros [= <-]|].
  intros (p1 & He & Hr)%bind_Some. eapply IH; [|exact Hr]. by eapply proc_exec_ok.
Qed.

(** ** Termination *)

(** The events left to a process whose listener is closed. *)
Definition remaining (p : Process) : nat :=
  match pr_main p with
  | MainServing => 1 + length (pr_inflight p) +
      match pr_sig p with SigWait => 3 + length shutdown | SigRun todo => 2 + length todo | SigShutdown => 1 | SigDone => 0 end
  | _ => 0
  end.

Lemma filter_out_length r (l : list nat) : r ∈ l -> (length (filter (fun x => x <> r) l) < length l)%nat.
Proof.
  induction l as [|x l IH]; [by intros ?%elem_of_nil|]. rewrite filter_cons. simpl.
  assert (length (filter (fun x => x <> r) l) <= length l)%nat as Hle by apply length_filter.
  intros Hr. case_decide as Hx; simpl; [|lia]. apply elem_of_cons in Hr as [->|Hr]; [done|specialize (IH Hr); lia].
Qed.

Lemma proc_exec_decreases ev p p' :
  proc_exec ev p = Some p' -> pr_listening p = false -> (remaining p' < remaining p)%nat /\ pr_listening p' = false.
Proof.
  unfold proc_exec. intros He Hl. destruct (decide (pr_main p = MainServing)) as [Hm|]; [|by rewrite bool_decide_false in He].
  rewrite bool_decide_true in He by done. simpl in He. unfold remaining. rewrite Hm, Hl in *.
  destruct ev; try done.
  - case_bool_decide as Hr; [|done]. injection He as <-. simpl. rewrite Hm. split; [|done].
    apply filter_out_length in Hr. lia.
  - destruct (pr_sig p); try done. injection He as <-. simpl. rewrite Hm. split; [lia|done].
  - destruct (pr_sig p) as [|[|a todo]| |]; try done. injection He as <-. unfold act.
    destruct a; simpl; rewrite ?Hm, ?Hl; try (split; [lia|done]).
    destruct (Stop _); simpl; rewrite ?Hm; (split; [lia|done]).
  - destruct (pr_sig p); try done. case_bool_decide; [|done]. injection He as <-. simpl. rewrite Hm. split; [lia|done].
  - destruct (pr_sig p); try done. injection He as <-. simpl. rewrite Hm. split; [lia|done].
  - injection He as <-. simpl. split; [lia|done].
Qed.

(** Every run from a closed listener is short. *)
Lemma closed_terminates tr : forall p p',
  proc_run tr p = Some p' -> pr_listening p = false -> (length tr + remaining p' <= remaining p)%nat.
Proof.
  induction tr as [|ev tr IH]; simpl; intros p p'; [by intros [= ->]|].
  intros (p1 & He & Hr)%bind_Some Hl. destruct (proc_exec_decreases ev p p1 He Hl) as [? Hl1].
  specialize (IH p1 p' Hr Hl1). lia.
Qed.

Lemma after_close n tr1 tr2 p1 p2 :
  n_stopCh_closed n = false -> proc_run tr1 (process_init n) = Some p1 -> pr_listening p1 = false ->
  proc_run tr2 p1 = Some p2 ->
  (length tr2 <= length (pr_inflight p1) + 2)%nat /\
  (pr_main p2 = MainServing -> exists p3, proc_run [PrMainReturns] p2 = Some p3 /\ pr_main p3 = MainExited 0).
Proof.
  intros Hn H1 Hl H2. pose proof (proc_run_ok tr1 _ _ (init_ok n Hn) H1) as Hok.
  pose proof (closed_terminates tr2 _ _ H2 Hl) as Hlen. split.
  - unfold proc_ok in Hok. unfold remaining in Hlen. destruct (pr_main p1); [|lia|lia].
    destruct (pr_sig p1) as [|todo| |]; [| |lia|lia].
    + pose proof (closed_all _ _ Hok Hl) as Hz. rewrite Hz in Hcancel. by apply elem_of_nil in Hcancel.
    + destruct Hok as [Hne Hok]. by destruct Hne; apply (closed_all _ _ Hok).
  - intros Hm. assert (pr_listening p2 = false) as Hl2.
    { clear -H2 Hl. revert p1 Hl H2. induction tr2 as [|ev tr IH]; simpl; intros p1 Hl; [by intros [= <-]|].
      intros (p & He & Hr)%bind_Some. apply (IH p); [|done]. by apply (proc_exec_decreases ev p1 p). }
    eexists. unfold proc_run, proc_exec. rewrite Hm, bool_decide_true, Hl2 by done. split; [reflexivity|done].
Qed.
End process.

(** ** The two services *)

Definition service_shutdown (s : list action) : Prop := s = replica_shutdown \/ s = gateway_shutdown.

Lemma services_orderly s : service_shutdown s ->
  NoDup s /\ ActCancel ∈ s /\ exists l, s = l ++ [ActShutdown].
Proof.
  intros [->| ->]; (split_and!; [apply (bool_decide_unpack _); by vm_compute|by left|]);
    [by exists [ActCancel; ActStop]|by exists [ActCancel]].
Qed.

(** Before [main] returns, what is done is a prefix of the shutdown. *)
Lemma serving_ordered name s n tr p :
  service_shutdown s -> n_stopCh_closed n = false -> proc_run name s tr (process_init n) = Some p ->
  pr_main p = MainServing ->
  (n_stopCh_closed (pr_node p) = true -> pr_cancelled p = true) /\
  (pr_listening p = false -> pr_cancelled p = true /\ (n_stopCh_closed (pr_node p) = true <-> ActStop ∈ s) /\
    (pr_sig p = SigShutdown \/ pr_sig p = SigDone)).
Proof.
  intros Hs Hn Hr Hm. destruct (services_orderly s Hs) as (Hnd & Hcan & Hlast).
  pose proof (proc_run_ok name s Hnd Hcan Hlast tr _ _ (init_ok s n Hn) Hr) as Hok. unfold proc_ok in Hok. rewrite Hm in Hok.
  assert (exists rest, progressed s rest p /\ (rest = [] -> pr_sig p = SigShutdown \/ pr_sig p = SigDone)) as (rest & Hp & Hend).
  { destruct (pr_sig p); [exists s|exists todo|exists []|exists []]; intuition; subst; by apply elem_of_nil in Hcan. }
  split.
  - destruct Hp as [(don & Hd & Hc & Hst & _)]. intros Hx. apply Hc. apply Hst in Hx.
    destruct don as [|a don]; [by apply elem_of_nil in Hx|].
    destruct Hs as [->| ->]; simpl in Hd; injection Hd as <- _; by left.
  - intros Hl. assert (rest = []) as -> by exact (closed_all s Hnd Hlast _ _ Hp Hl). destruct Hp as [(don & Hd & Hc & Hst & _)].
    rewrite app_nil_r in Hd. subst don. split_and!; [by apply Hc|done|by apply Hend].
Qed.

Lemma proc_run_app name s tr1 tr2 p :
  proc_run name s (tr1 ++ tr2) p = proc_run name s tr1 p ≫= proc_run name s tr2.
Proof.
  revert p. induction tr1 as [|ev tr1 IH]; intros p; simpl; [done|]. destruct (proc_exec name s ev p); [apply IH|done].
Qed.

(** The signal goroutine only moves after a signal. *)
Lemma signalled name s tr : forall p p',
  proc_run name s tr p = Some p' -> pr_sig p = SigWait -> pr_sig p' <> SigWait -> PrSignal ∈ tr.
Proof.
  induction tr as [|ev tr IH]; intros p p'; simpl; [by intros [= <-] ->|]. intros (p1 & He & Hr)%bind_Some Hw Hn.
  destruct (decide (pr_sig p1 = SigWait)) as [Hw1|Hw1]; [right; by eapply IH|]. destruct ev; try (by left); exfalso;
    unfold proc_exec in He; destruct (negb _); try done; rewrite ?Hw in He; try done;
    repeat (case_bool_decide || case_match); try done; simplify_eq; apply Hw1;
    unfold main_exit; simpl; try done; by destruct (Start _ _).
Qed.

(** Only a return from [main] exits with code 0. *)
Lemma exits_by_return name s ev p p' :
  proc_exec name s ev p = Some p' -> pr_main p' = MainExited 0 ->
  ev = PrMainReturns /\ pr_main p = MainServing /\ pr_listening p = false.
Proof.
  unfold proc_exec. case_bool_decide as Hm; [|done]. simpl. intros He Hx.
  destruct ev; repeat (case_bool_decide || case_match); try done; simplify_eq; simpl in *; try congruence.
  unfold act in Hx. repeat case_match; simpl in *; congruence.
Qed.

(** C30: (orderly exit) [Stop] never panics: no shutdown step runs twice; at
    every moment a stopped node's context has been cancelled, and when the
    listener is closed the signal goroutine has cancelled the context, stopped
    the node if the service has one, and called [Shutdown].  A service exits
    with code 0 in no other state: only after a signal, and only when its
    listener has been closed by that call - which may still be waiting for
    requests in progress ([shutdown_cuts_requests]). *)
Theorem exit_zero_ordered name s n tr p :
  service_shutdown s -> n_stopCh_closed n = false -> proc_run name s tr (process_init n) = Some p ->
  (forall e, pr_main p <> MainPanicked e) /\
  (pr_main p = MainServing ->
    (n_stopCh_closed (pr_node p) = true -> pr_cancelled p = true) /\
    (pr_listening p = false -> pr_cancelled p = true /\ (n_stopCh_closed (pr_node p) = true <-> ActStop ∈ s))) /\
  (pr_main p = MainExited 0 -> exists tr1 p1,
    tr = tr1 ++ [PrMainReturns] /\ proc_run name s tr1 (process_init n) = Some p1 /\ PrSignal ∈ tr1 /\
    pr_main p1 = MainServing /\ pr_listening p1 = false /\ pr_cancelled p1 = true /\
    (n_stopCh_closed (pr_node p1) = true <-> ActStop ∈ s) /\ (pr_sig p1 = SigShutdown \/ pr_sig p1 = SigDone)).
Proof.
  intros Hs Hn Hr. destruct (services_orderly s Hs) as (Hnd & Hcan & Hlast).
  pose proof (proc_run_ok name s Hnd Hcan Hlast tr _ _ (init_ok s n Hn) Hr) as Hok. split_and!.
  - intros e Hm. unfold proc_ok in Hok. by rewrite Hm in Hok.
  - intros Hm. destruct (serving_ordered name s n tr p) as [H1 H2]; try done. split; [done|]. intros Hl. by destruct (H2 Hl) as (? & ? & _).
  - intros Hm. destruct tr as [|ev tr1 _] using rev_ind; [simpl in Hr; by injection Hr as <-|].
    rewrite proc_run_app in Hr. apply bind_Some in Hr as (p1 & H1 & (p' & He & [= ->])%bind_Some).
    destruct (exits_by_return _ _ _ _ _ He Hm) as (-> & Hm1 & Hl1).
    destruct (serving_ordered name s n tr1 p1) as [_ H2]; try done. destruct (H2 Hl1) as (Hc & Hst & Hsig).
    exists tr1, p1. split_and!; try done. eapply signalled; [exact H1|done|by destruct Hsig as [->| ->]].
Qed.

(** (shutdown terminates) once the listener is closed a process has at
    most as many events left as it has requests in progress, and two more;
    and until it has exited the exit is one event away. *)
Theorem shutdown_terminates name s n tr1 tr2 p1 p2 :
  service_shutdown s -> n_stopCh_closed n = false -> proc_run name s tr1 (process_init n) = Some p1 ->
  pr_listening p1 = false -> proc_run name s tr2 p1 = Some p2 ->
  (length tr2 <= length (pr_inflight p1) + 2)%nat /\
  (pr_main p2 = MainServing -> exists p3, proc_run name s [PrMainReturns] p2 = Some p3 /\ pr_main p3 = MainExited 0).
Proof. intros (? & ? & ?)%services_orderly. by apply after_close. Qed.

Module ProcessRuns.
Open Scope string_scope.

Definition node : Node := NewNode (mkConfig "node1" ["replica2:9002"] "gateway:8080").

(** The signal arrives while a request is in progress. *)
Definition interrupted : list proc_event := [PrAccept 7; PrSignal; PrAct; PrAct; PrAct].

Definition after (tr : list proc_event) : Process :=
  default (process_init node) (proc_run "http" replica_shutdown tr (process_init node)).

(** (requests cut off) [main] returns as soon as [ListenAndServe] does,
    while [Shutdown] is still waiting in the other goroutine: the process
    exits with a request in progress, which the comment of [Shutdown] says
    is allowed to complete. *)
Theorem shutdown_cuts_requests :
  proc_run "http" replica_shutdown (interrupted ++ [PrMainReturns])%list (process_init node) =
    Some (after (interrupted ++ [PrMainReturns])%list) /\
  pr_main (after (interrupted ++ [PrMainReturns])%list) = MainExited 0 /\
  pr_inflight (after (interrupted ++ [PrMainReturns])%list) = [7%nat] /\
  forall ev, proc_exec "http" replica_shutdown ev (after (interrupted ++ [PrMainReturns])%list) = None.
Proof. split_and!; [vm_compute; reflexivity..|]. by intros []. Qed.

Lemma exit_zero_ordered_witness :
  exists p1, proc_run "http" replica_shutdown interrupted (process_init node) = Some p1 /\
    pr_cancelled p1 = true /\ n_stopCh_closed (pr_node p1) = true /\ pr_sig p1 = SigShutdown.
Proof.
  destruct (exit_zero_ordered "http" replica_shutdown node (interrupted ++ [PrMainReturns])%list
              (after (interrupted ++ [PrMainReturns])%list)) as (_ & _ & H).
  - by left.
  - reflexivity.
  - vm_compute. reflexivity.
  - destruct H as (tr1 & p1 & Htr & H1 & _ & _ & _ & Hc & Hs & Hsig); [vm_compute; reflexivity|].
    apply app_inj_tail in Htr as [<- _]. exists p1. split; [exact H1|]. split; [exact Hc|]. split.
    + apply Hs. right. by left.
    + vm_compute in H1. injection H1 as <-. reflexivity.
Defined.

Lemma shutdown_terminates_witness :
  (length [PrFinish 7; PrShutdownReturns] <= length (pr_inflight (after interrupted)) + 2)%nat /\
  exists p3, proc_run "http" replica_shutdown [PrMainReturns] (after (interrupted ++ [PrFinish 7; PrShutdownReturns])%list) = Some p3.
Proof.
  destruct (shutdown_terminates "http" replica_shutdown node interrupted [PrFinish 7; PrShutdownReturns] (after interrupted)
              (after (interrupted ++ [PrFinish 7; PrShutdownReturns])%list)) as [Hl He].
  - by left.
  - reflexivity.
  - vm_compute. reflexivity.
  - vm_compute. reflexivity.
  - vm_compute. reflexivity.
  - split; [exact Hl|]. destruct He as (p3 & Hr & _); [vm_compute; reflexivity|]. by exists p3.
Defined.
End ProcessRuns.
